(** * The TicToc transaction layer of SplinterDB

    A shallow embedding of [src/transaction_impl/transaction_fantasticc_nolock.h]:
    the packed timestamp word, the read/write set of a transaction, the
    buffered writes, the lookup protocol and the commit protocol.

    The C code runs on native threads and talks to three collaborators: the
    shared timestamp cache (an iceberg hash table), the key-value store and
    the heap.  Every access of the thread to one of them is an _event_ of
    the embedding; a function of the source becomes a program over events,
    and the thread-local transaction is passed explicitly.  What the other
    threads do shows only in the answers the events receive, so a statement
    proved for every answer holds under every interleaving.

    Conventions.
    - [uint64] and [txn_timestamp] are [Z] with the wrap-around written out
      ([wrap64]); the bit-fields of [timestamp_set] truncate on assignment,
      and the sum of two of them is taken in the width of the wider one.
    - Pointers are [Z], [NULL] is [0]; a pointer to an RW entry is its index
      in [rw_entries].
    - Loops that spin on shared memory take a bound [fuel] on their number
      of iterations and end in [Timeout] when it is exhausted.
    - [TYPED_ZALLOC] is taken to succeed. *)

From stdpp Require Import base tactics option list strings gmap.
From Stdlib Require Import ZArith Lia Permutation Sorted.

Local Open Scope Z_scope.

(** ** Machine integers *)

Definition txn_timestamp := Z.

Definition wrap64 (x : Z) : Z := x mod 2 ^ 64.

(** The [MAX] macro of the platform layer. *)
Definition MAX (a b : Z) : Z := if b <? a then a else b.

(** ** The timestamp word

    [struct { lock_bit : 1; delta : 15; wts : 48; }] overlays one [uint64];
    the compare-and-swap and [memcmp] work on that word.  With the
    little-endian layout of the supported compilers [lock_bit] is bit 0,
    [delta] bits 1 to 15 and [wts] bits 16 to 63. *)

Definition timestamp_set := Z.

Definition ts_lock_bit (v : timestamp_set) : bool := Z.testbit v 0.
Definition ts_delta (v : timestamp_set) : Z := Z.land (Z.shiftr v 1) 0x7fff.
Definition ts_wts (v : timestamp_set) : Z :=
  Z.land (Z.shiftr v 16) 0xffffffffffff.

(** Building a word from its fields; a value too wide for its field is
    truncated, as an assignment to a bit-field does. *)
Definition mk_ts (lock : bool) (delta wts : Z) : timestamp_set :=
  Z.lor (Z.b2z lock)
    (Z.lor (Z.shiftl (Z.land delta 0x7fff) 1)
           (Z.shiftl (Z.land wts 0xffffffffffff) 16)).

Definition set_lock_bit (v : timestamp_set) (b : bool) : timestamp_set :=
  mk_ts b (ts_delta v) (ts_wts v).
Definition set_delta (v : timestamp_set) (d : Z) : timestamp_set :=
  mk_ts (ts_lock_bit v) d (ts_wts v).
Definition set_wts (v : timestamp_set) (w : Z) : timestamp_set :=
  mk_ts (ts_lock_bit v) (ts_delta v) w.

Definition timestamp_set_is_equal (s1 s2 : timestamp_set) : bool :=
  bool_decide (s1 = s2).

(** [ts->wts + ts->delta]: the operands are the bit-fields themselves, of
    48 and of 15 bits, and their sum is taken in the width of the wider
    one, so it wraps at [2^48] before it is returned as a
    [txn_timestamp]. *)
Definition timestamp_set_get_rts (ts : timestamp_set) : txn_timestamp :=
  (ts_wts ts + ts_delta ts) mod 2 ^ 48.

(** The extension of the read timestamp in read validation (commit, the
    body of [if (rts <= commit_ts)]). *)
Definition extend_rts (commit_ts : txn_timestamp) (v1 : timestamp_set)
  : timestamp_set :=
  let delta := wrap64 (commit_ts - ts_wts v1) in
  let shift := wrap64 (delta - Z.land delta 0x7fff) in
  let v2 := set_wts v1 (ts_wts v1 + shift) in
  set_delta v2 (delta - shift).

(** The word the apply step of commit installs. *)
Definition committed_ts (commit_ts : txn_timestamp) (v1 : timestamp_set)
  : timestamp_set :=
  set_lock_bit (set_delta (set_wts v1 commit_ts) 0) false.

(** ** Slices and messages *)

Definition slice := string.

Definition slice_length (s : slice) : nat := String.length s.

(** [NULL_SLICE] is modelled by the empty slice. *)
Definition slice_is_null (s : slice) : bool := bool_decide (s = "").

Fixpoint zeros (n : nat) : string :=
  match n with
  | O => ""
  | S n' => String Ascii.zero (zeros n')
  end.

Inductive message_type :=
| MESSAGE_TYPE_INVALID
| MESSAGE_TYPE_INSERT
| MESSAGE_TYPE_UPDATE
| MESSAGE_TYPE_DELETE.

#[global] Instance message_type_eq_dec : EqDecision message_type.
Proof. solve_decision. Defined.

Record message := message_create {
  message_class : message_type;
  message_slice : slice
}.

#[global] Instance message_eq_dec : EqDecision message.
Proof. solve_decision. Defined.

Definition message_data (m : message) : slice := message_slice m.
Definition message_length (m : message) : nat := slice_length (message_slice m).

Definition DELETE_MESSAGE : message := message_create MESSAGE_TYPE_DELETE "".

Definition message_is_definitive (m : message) : bool :=
  match message_class m with
  | MESSAGE_TYPE_INSERT | MESSAGE_TYPE_DELETE => true
  | _ => false
  end.

(** ** The configuration

    [data_config] carries the two callbacks of the key-value store that the
    transaction layer calls; [build_config] the constants and the
    experimental modes fixed at compile time ([iceberg_table.h],
    [splinterdb/transaction.h] and [experimental_mode.h] are not part of the
    sources at hand, so they are parameters). *)

Class data_config := {
  data_key_compare : slice -> slice -> Z;
  data_merge_tuples : slice -> message -> message -> message
}.

Class build_config := {
  KEY_SIZE : nat;
  RW_SET_SIZE_LIMIT : nat;
  EXPERIMENTAL_MODE_SILO : bool;
  EXPERIMENTAL_MODE_KEEP_ALL_KEYS : bool;
  EXPERIMENTAL_MODE_BYPASS_SPLINTERDB : bool
}.

(** ** RW entries and transactions *)

Definition NULL : Z := 0.

Record rw_entry := Build_rw_entry {
  key : slice;
  msg : option message;
  wts : txn_timestamp;
  rts : txn_timestamp;
  tuple_ts : Z;
  is_read : bool;
  need_to_keep_key : bool;
  need_to_decrease_refcount : bool
}.

Record transaction := Build_transaction {
  rw_entries : list rw_entry
}.

Definition num_rw_entries (txn : transaction) : nat := length (rw_entries txn).

Definition with_key (e : rw_entry) (k : slice) : rw_entry :=
  Build_rw_entry k (msg e) (wts e) (rts e) (tuple_ts e) (is_read e)
    (need_to_keep_key e) (need_to_decrease_refcount e).
Definition with_msg (e : rw_entry) (m : option message) : rw_entry :=
  Build_rw_entry (key e) m (wts e) (rts e) (tuple_ts e) (is_read e)
    (need_to_keep_key e) (need_to_decrease_refcount e).
Definition with_ts (e : rw_entry) (w r : txn_timestamp) : rw_entry :=
  Build_rw_entry (key e) (msg e) w r (tuple_ts e) (is_read e)
    (need_to_keep_key e) (need_to_decrease_refcount e).
Definition with_tuple_ts (e : rw_entry) (p : Z) : rw_entry :=
  Build_rw_entry (key e) (msg e) (wts e) (rts e) p (is_read e)
    (need_to_keep_key e) (need_to_decrease_refcount e).
Definition with_is_read (e : rw_entry) (b : bool) : rw_entry :=
  Build_rw_entry (key e) (msg e) (wts e) (rts e) (tuple_ts e) b
    (need_to_keep_key e) (need_to_decrease_refcount e).
Definition with_need_to_keep_key (e : rw_entry) (b : bool) : rw_entry :=
  Build_rw_entry (key e) (msg e) (wts e) (rts e) (tuple_ts e) (is_read e)
    b (need_to_decrease_refcount e).

(** [txn->rw_entries[i] = e]. *)
Definition store_entry (txn : transaction) (i : nat) (e : rw_entry)
  : transaction :=
  Build_transaction (<[i := e]> (rw_entries txn)).

(** ** Events, programs and their executions *)

Inductive heap_obj :=
| KeyBuf (k : slice)        (* the key buffer an entry owns *)
| TableKeyBuf (k : slice)   (* a key buffer handed back by the cache *)
| MsgBuf (data : slice)     (* the buffer of a pending message *)
| EntryObj (i : nat).       (* the RW entry itself *)

Definition splinterdb_lookup_result := slice.

Inductive event : Type -> Type :=
(* [*p]: the load of a whole timestamp word *)
| AtomicLoad (p : Z) : event timestamp_set
(* [p->lock_bit]: a read of the lock bit of the word in place *)
| LoadLockBit (p : Z) : event bool
(* [__sync_bool_compare_and_swap((uint64 * )p, v1, v2)] *)
| AtomicCAS (p : Z) (v1 v2 : timestamp_set) : event bool
(* [platform_sleep_ns] *)
| SleepNs (ns : Z) : event unit
(* [iceberg_insert_and_get]: the address of the slot, and whether it is new *)
| IcebergInsertAndGet (k : slice) : event (Z * bool)
(* [iceberg_insert_and_get_without_increasing_refcount] *)
| IcebergInsertAndGetNoRef (k : slice) : event (Z * bool)
(* [iceberg_get_and_remove]: [Some own] when the slot was removed *)
| IcebergGetAndRemove (k : slice) : event (option bool)
(* [splinterdb_insert], [splinterdb_update], [splinterdb_delete]: the
   return code *)
| KvsInsert (k v : slice) : event Z
| KvsUpdate (k v : slice) : event Z
| KvsDelete (k : slice) : event Z
(* [splinterdb_lookup]: the return code and the result buffer *)
| KvsLookup (k : slice) (r : splinterdb_lookup_result)
    : event (Z * splinterdb_lookup_result)
(* [platform_free], [platform_free_from_heap] *)
| HeapFree (o : heap_obj) : event unit.

(** An event together with its answer, as it appears in a trace. *)
Inductive obs :=
| OLoad (p : Z) (v : timestamp_set)
| OLockBit (p : Z) (b : bool)
| OCas (p : Z) (v1 v2 : timestamp_set) (ok : bool)
| OSleep (ns : Z)
| OIcebergInsert (refcounted : bool) (k : slice) (p : Z) (is_new : bool)
| OIcebergRemove (k : slice) (r : option bool)
| OKvsInsert (k v : slice) (rc : Z)
| OKvsUpdate (k v : slice) (rc : Z)
| OKvsDelete (k : slice) (rc : Z)
| OKvsLookup (k : slice) (rc : Z) (r : splinterdb_lookup_result)
| OFree (o : heap_obj).

Definition obs_of {X} (e : event X) : X -> obs :=
  match e in event X return X -> obs with
  | AtomicLoad p => fun v => OLoad p v
  | LoadLockBit p => fun b => OLockBit p b
  | AtomicCAS p v1 v2 => fun ok => OCas p v1 v2 ok
  | SleepNs ns => fun _ => OSleep ns
  | IcebergInsertAndGet k => fun r => OIcebergInsert true k (fst r) (snd r)
  | IcebergInsertAndGetNoRef k => fun r => OIcebergInsert false k (fst r) (snd r)
  | IcebergGetAndRemove k => fun r => OIcebergRemove k r
  | KvsInsert k v => fun rc => OKvsInsert k v rc
  | KvsUpdate k v => fun rc => OKvsUpdate k v rc
  | KvsDelete k => fun rc => OKvsDelete k rc
  | KvsLookup k _ => fun r => OKvsLookup k (fst r) (snd r)
  | HeapFree o => fun _ => OFree o
  end.

Inductive failure :=
| assert_rw_entry_is_read
| assert_rw_entry_is_write
| assert_kvs_rc
| assert_aligned
| assert_merge_on_delete
| ub_null_tuple_ts
| ub_bad_entry
| ub_key_overflow
| ub_rw_set_overflow.

Inductive prog (A : Type) : Type :=
| Ret (a : A)
| Vis {X : Type} (e : event X) (k : X -> prog A)
| Crash (f : failure)
| Timeout.

Arguments Ret {A} a.
Arguments Vis {A X} e k.
Arguments Crash {A} f.
Arguments Timeout {A}.

Fixpoint bind {A B} (p : prog A) (f : A -> prog B) : prog B :=
  match p with
  | Ret a => f a
  | Vis e k => Vis e (fun x => bind (k x) f)
  | Crash c => Crash c
  | Timeout => Timeout
  end.

Declare Scope prog_scope.
Delimit Scope prog_scope with prog.
Notation "x <- p ;; q" := (bind p (fun x => q))
  (at level 100, p at next level, right associativity) : prog_scope.
Notation "p ;; q" := (bind p (fun _ => q))
  (at level 100, right associativity) : prog_scope.
Local Open Scope prog_scope.

Definition trigger {X} (e : event X) : prog X := Vis e Ret.

Inductive outcome (A : Type) : Type :=
| Done (a : A)
| Crashed (f : failure)
| TimedOut.

Arguments Done {A} a.
Arguments Crashed {A} f.
Arguments TimedOut {A}.

(** [exec p tr o]: the program [p] can meet the answers recorded in [tr]
    and then ends with [o].  No answer is excluded. *)
Fixpoint exec {A} (p : prog A) (tr : list obs) (o : outcome A) : Prop :=
  match p with
  | Ret a => tr = [] /\ o = Done a
  | Vis e k => exists x tr', tr = obs_of e x :: tr' /\ exec (k x) tr' o
  | Crash c => tr = [] /\ o = Crashed c
  | Timeout => tr = [] /\ o = TimedOut
  end.

(** A handler answers events from a state of its own; [run] executes a
    program against it. *)
Definition handler (S : Type) : Type := forall X, event X -> S -> X * S.

Fixpoint run {S A} (h : handler S) (p : prog A) (s : S)
  : outcome A * S * list obs :=
  match p with
  | Ret a => (Done a, s, [])
  | Vis e k =>
      let '(x, s1) := h _ e s in
      let '(o, s2, tr) := run h (k x) s1 in
      (o, s2, obs_of e x :: tr)
  | Crash c => (Crashed c, s, [])
  | Timeout => (TimedOut, s, [])
  end.

(** ** The functions of the transaction layer *)

Section Code.
Context {dcfg : data_config} {bcfg : build_config}.

(** [*ptr] for a pointer to an RW entry. *)
Definition entry_at (txn : transaction) (i : nat) : prog rw_entry :=
  match rw_entries txn !! i with
  | Some e => Ret e
  | None => Crash ub_bad_entry
  end.

(** [*entry->tuple_ts], one aligned load of the whole word. *)
Definition load_tuple_ts (e : rw_entry) : prog timestamp_set :=
  if tuple_ts e =? NULL then Crash ub_null_tuple_ts
  else trigger (AtomicLoad (tuple_ts e)).

Definition timestamp_set_compare_and_swap (ts : Z) (v1 v2 : timestamp_set)
  : prog bool :=
  trigger (AtomicCAS ts v1 v2).

(** The cache answers with the address of the slot and whether the key is
    new; the leftover pointer to the local [ts] is never returned. *)
Definition rw_entry_iceberg_insert (entry : rw_entry)
  : prog (bool * rw_entry) :=
  if negb (tuple_ts entry =? NULL) then Ret (false, entry)
  else
    r <- trigger (if EXPERIMENTAL_MODE_KEEP_ALL_KEYS
                 then IcebergInsertAndGetNoRef (key entry)
                 else IcebergInsertAndGet (key entry));;
    let p := fst r in
    let is_new_item := snd r in
    if negb (p mod 8 =? 0) then Crash assert_aligned
    else
      Ret (is_new_item,
           with_need_to_keep_key (with_tuple_ts entry p)
             (need_to_keep_key entry || is_new_item)).

(** The answer [Some own] of the cache says that the slot was removed and
    whether the key buffer it hands back is the one of this entry. *)
Definition rw_entry_iceberg_remove (entry : rw_entry) : prog rw_entry :=
  if tuple_ts entry =? NULL then Ret entry
  else
    let entry := with_tuple_ts entry NULL in
    if EXPERIMENTAL_MODE_KEEP_ALL_KEYS then Ret entry
    else
      r <- trigger (IcebergGetAndRemove (key entry));;
      match r with
      | Some own =>
          if negb own then
            trigger (HeapFree (TableKeyBuf (key entry)));; Ret entry
          else Ret (with_need_to_keep_key entry false)
      | None => Ret entry
      end.

Definition rw_entry_create : rw_entry :=
  Build_rw_entry "" None 0 0 NULL false false false.

Definition rw_entry_deinit (entry : rw_entry) : prog unit :=
  let can_key_free :=
    negb (slice_is_null (key entry)) && negb (need_to_keep_key entry) in
  (if can_key_free then trigger (HeapFree (KeyBuf (key entry)))
   else Ret tt);;
  match msg entry with
  | Some m => trigger (HeapFree (MsgBuf (message_data m)))
  | None => Ret tt
  end.

(** [memcpy] of [slice_length(key)] bytes into a zeroed buffer of
    [KEY_SIZE] bytes: a longer key overruns the buffer. *)
Definition rw_entry_set_key (e : rw_entry) (user_key : slice)
  : prog rw_entry :=
  if (KEY_SIZE <? slice_length user_key)%nat then Crash ub_key_overflow
  else
    Ret (with_key e (user_key +:+ zeros (KEY_SIZE - slice_length user_key))).

Definition rw_entry_set_msg (e : rw_entry) (m : message) : rw_entry :=
  with_msg e (Some (message_create (message_class m) (message_data m))).

Definition rw_entry_is_read (entry : rw_entry) : bool := is_read entry.

Definition rw_entry_is_write (entry : rw_entry) : bool :=
  bool_decide (msg entry <> None).

(** The search loop of [rw_entry_get]: the index of the first entry whose
    key the comparator reports equal to the user key. *)
Fixpoint rw_entry_find (user_key : slice) (es : list rw_entry) (i : nat)
  : option nat :=
  match es with
  | [] => None
  | entry :: es' =>
      if data_key_compare user_key (key entry) =? 0 then Some i
      else rw_entry_find user_key es' (S i)
  end.

Definition rw_entry_get (txn : transaction) (user_key : slice)
    (rd : bool) : prog (nat * transaction) :=
  r <- match rw_entry_find user_key (rw_entries txn) 0 with
       | Some i => Ret (i, txn)
       | None =>
           entry <- rw_entry_set_key rw_entry_create user_key;;
           if (RW_SET_SIZE_LIMIT <=? num_rw_entries txn)%nat
           then Crash ub_rw_set_overflow
           else Ret (num_rw_entries txn,
                     Build_transaction (rw_entries txn ++ [entry]))
       end;;
  let i := fst r in
  let txn := snd r in
  entry <- entry_at txn i;;
  Ret (i, store_entry txn i (with_is_read entry (is_read entry || rd))).

Definition rw_entry_key_compare (e1 e2 : rw_entry) : Z :=
  data_key_compare (key e1) (key e2).

Definition rw_entry_try_lock (entry : rw_entry) : prog bool :=
  v1 <- load_tuple_ts entry;;
  if ts_lock_bit v1 then Ret false
  else timestamp_set_compare_and_swap (tuple_ts entry) v1 (set_lock_bit v1 true).

Fixpoint rw_entry_unlock (fuel : nat) (entry : rw_entry) : prog unit :=
  match fuel with
  | O => Timeout
  | S fuel' =>
      v1 <- load_tuple_ts entry;;
      ok <- timestamp_set_compare_and_swap (tuple_ts entry) v1
              (set_lock_bit v1 false);;
      if ok then Ret tt else rw_entry_unlock fuel' entry
  end.

Definition transactional_splinterdb_begin : transaction :=
  Build_transaction [].

Fixpoint transaction_deinit_from (es : list rw_entry) (i : nat) : prog unit :=
  match es with
  | [] => Ret tt
  | entry :: es' =>
      entry' <- rw_entry_iceberg_remove entry;;
      rw_entry_deinit entry';;
      trigger (HeapFree (EntryObj i));;
      transaction_deinit_from es' (S i)
  end.

Definition transaction_deinit (txn : transaction) : prog unit :=
  transaction_deinit_from (rw_entries txn) 0.

(** *** Commit *)

(** The first loop of commit: the write set, the read set (both as arrays
    of pointers to entries) and the commit timestamp the reads ask for. *)
Definition read_bound (entry : rw_entry) : txn_timestamp :=
  if EXPERIMENTAL_MODE_SILO then wrap64 (wts entry + 1) else wts entry.

Fixpoint commit_partition (es : list rw_entry) (i : nat)
    (write_set read_set : list nat) (commit_ts : txn_timestamp)
  : list nat * list nat * txn_timestamp :=
  match es with
  | [] => (write_set, read_set, commit_ts)
  | entry :: es' =>
      let write_set :=
        if rw_entry_is_write entry then write_set ++ [i] else write_set in
      if rw_entry_is_read entry
      then commit_partition es' (S i) write_set (read_set ++ [i])
             (MAX commit_ts (read_bound entry))
      else commit_partition es' (S i) write_set read_set commit_ts
  end.

(** Modelled from the spec: [platform_sort_slow] is declared in
    [platform.h], which is not among the sources at hand.  The spec has
    commit sort the write set ascending by the key comparator; an insertion
    sort does that here. *)
Fixpoint sort_insert {A} (cmp : A -> A -> Z) (x : A) (l : list A) : list A :=
  match l with
  | [] => [x]
  | y :: l' => if cmp x y <=? 0 then x :: l else y :: sort_insert cmp x l'
  end.

Fixpoint platform_sort_slow {A} (cmp : A -> A -> Z) (l : list A) : list A :=
  match l with
  | [] => []
  | x :: l' => sort_insert cmp x (platform_sort_slow cmp l')
  end.

(** [rw_entry_key_compare] on the elements of [write_set], which are
    pointers to entries. *)
Definition write_set_compare (txn : transaction) (i j : nat) : Z :=
  match rw_entries txn !! i, rw_entries txn !! j with
  | Some e1, Some e2 => rw_entry_key_compare e1 e2
  | _, _ => 0
  end.

(** One pass of the [for] loop under [RETRY_LOCK_WRITE_SET], from
    [lock_num] on; [Some lock_num] is the index at which [try_lock]
    failed. *)
Fixpoint lock_attempt (txn : transaction) (todo : list nat) (lock_num : nat)
  : prog (transaction * option nat) :=
  match todo with
  | [] => Ret (txn, None)
  | wi :: todo' =>
      w <- entry_at txn wi;;
      r <- (if tuple_ts w =? NULL
            then rw_entry_iceberg_insert w
            else Ret (false, w));;
      let w := snd r in
      let txn := store_entry txn wi w in
      ok <- rw_entry_try_lock w;;
      if ok then lock_attempt txn todo' (S lock_num)
      else Ret (txn, Some lock_num)
  end.

Fixpoint unlock_all (fuel : nat) (txn : transaction) (ws : list nat)
  : prog unit :=
  match ws with
  | [] => Ret tt
  | wi :: ws' =>
      w <- entry_at txn wi;;
      rw_entry_unlock fuel w;;
      unlock_all fuel txn ws'
  end.

Fixpoint lock_write_set (fuel : nat) (txn : transaction)
    (write_set : list nat) : prog transaction :=
  match fuel with
  | O => Timeout
  | S fuel' =>
      r <- lock_attempt txn write_set 0;;
      let txn := fst r in
      match snd r with
      | None => Ret txn
      | Some lock_num =>
          unlock_all (S fuel') txn (take lock_num write_set);;
          trigger (SleepNs 1000);;
          lock_write_set fuel' txn write_set
      end
  end.

(** The loop that raises [commit_ts] above the read timestamp of every
    slot of the write set. *)
Fixpoint raise_commit_ts (txn : transaction) (write_set : list nat)
    (commit_ts : txn_timestamp) : prog txn_timestamp :=
  match write_set with
  | [] => Ret commit_ts
  | wi :: ws' =>
      w <- entry_at txn wi;;
      v <- load_tuple_ts w;;
      raise_commit_ts txn ws'
        (MAX commit_ts (wrap64 (timestamp_set_get_rts v + 1)))
  end.

(** The [do ... while (!is_success)] loop of read validation for one read
    entry; the result is [is_abort]. *)
Fixpoint validate_read_loop (fuel : nat) (commit_ts : txn_timestamp)
    (r : rw_entry) : prog bool :=
  match fuel with
  | O => Timeout
  | S fuel' =>
      v1 <- load_tuple_ts r;;
      let is_wts_different := negb (wts r =? ts_wts v1) in
      let rts := timestamp_set_get_rts v1 in
      is_locked_by_another <-
        (if rts <=? commit_ts
         then
           locked <- trigger (LoadLockBit (tuple_ts r));;
           Ret (locked && negb (rw_entry_is_write r))
         else Ret false);;
      if is_wts_different || is_locked_by_another then Ret true
      else if rts <=? commit_ts then
        is_success <- timestamp_set_compare_and_swap (tuple_ts r) v1
                        (extend_rts commit_ts v1);;
        if is_success then Ret false
        else validate_read_loop fuel' commit_ts r
      else Ret false
  end.

Definition validate_read (fuel : nat) (commit_ts : txn_timestamp)
    (r : rw_entry) : prog bool :=
  if negb (rw_entry_is_read r) then Crash assert_rw_entry_is_read
  else if rts r <? commit_ts then validate_read_loop fuel commit_ts r
  else Ret false.

(** [for (i = 0; !is_abort && i < num_reads; ++i)]. *)
Fixpoint validate_reads (fuel : nat) (txn : transaction)
    (commit_ts : txn_timestamp) (read_set : list nat) : prog bool :=
  match read_set with
  | [] => Ret false
  | ri :: rs' =>
      r <- entry_at txn ri;;
      is_abort <- validate_read fuel commit_ts r;;
      if is_abort then Ret true
      else validate_reads fuel txn commit_ts rs'
  end.

(** The call into the key-value store for one buffered write. *)
Definition apply_message (w : rw_entry) (m : message) : prog Z :=
  match message_class m with
  | MESSAGE_TYPE_INSERT => trigger (KvsInsert (key w) (message_slice m))
  | MESSAGE_TYPE_UPDATE => trigger (KvsUpdate (key w) (message_slice m))
  | MESSAGE_TYPE_DELETE => trigger (KvsDelete (key w))
  | MESSAGE_TYPE_INVALID => Ret 0
  end.

Fixpoint install_commit_ts (fuel : nat) (commit_ts : txn_timestamp)
    (w : rw_entry) : prog unit :=
  match fuel with
  | O => Timeout
  | S fuel' =>
      v1 <- load_tuple_ts w;;
      ok <- timestamp_set_compare_and_swap (tuple_ts w) v1
              (committed_ts commit_ts v1);;
      if ok then Ret tt else install_commit_ts fuel' commit_ts w
  end.

Definition apply_write (fuel : nat) (commit_ts : txn_timestamp)
    (w : rw_entry) : prog unit :=
  match msg w with
  | None => Crash assert_rw_entry_is_write
  | Some m =>
      (if EXPERIMENTAL_MODE_BYPASS_SPLINTERDB
       then trigger (SleepNs 100)
       else
         rc <- apply_message w m;;
         if rc =? 0 then Ret tt else Crash assert_kvs_rc);;
      install_commit_ts fuel commit_ts w
  end.

Fixpoint apply_writes (fuel : nat) (txn : transaction)
    (commit_ts : txn_timestamp) (write_set : list nat) : prog unit :=
  match write_set with
  | [] => Ret tt
  | wi :: ws' =>
      w <- entry_at txn wi;;
      apply_write fuel commit_ts w;;
      apply_writes fuel txn commit_ts ws'
  end.

(** The pointers to the writes, in the order in which commit locks them. *)
Definition sorted_write_set (txn : transaction) : list nat :=
  platform_sort_slow (write_set_compare txn)
    (fst (fst (commit_partition (rw_entries txn) 0 [] [] 0))).

Definition commit_read_set (txn : transaction) : list nat :=
  snd (fst (commit_partition (rw_entries txn) 0 [] [] 0)).

Definition initial_commit_ts (txn : transaction) : txn_timestamp :=
  snd (commit_partition (rw_entries txn) 0 [] [] 0).

(** Everything in commit after validation: apply or release, tear down,
    return. *)
Definition commit_finish (fuel : nat) (txn : transaction)
    (commit_ts : txn_timestamp) (write_set : list nat) (is_abort : bool)
  : prog Z :=
  (if negb is_abort then apply_writes fuel txn commit_ts write_set
   else unlock_all fuel txn write_set);;
  transaction_deinit txn;;
  Ret (-1 * Z.b2z is_abort).

Definition transactional_splinterdb_commit (fuel : nat) (txn : transaction)
  : prog Z :=
  let write_set := sorted_write_set txn in
  let read_set := commit_read_set txn in
  let commit_ts := initial_commit_ts txn in
  txn <- lock_write_set fuel txn write_set;;
  commit_ts <- raise_commit_ts txn write_set commit_ts;;
  is_abort <- validate_reads fuel txn commit_ts read_set;;
  commit_finish fuel txn commit_ts write_set is_abort.

Definition transactional_splinterdb_abort (txn : transaction) : prog Z :=
  transaction_deinit txn;;
  Ret 0.

(** *** Buffered writes *)

(** The part of [local_write] that records the message in the entry. *)
Definition local_write_msg (entry : rw_entry) (user_key : slice)
    (m : message) : prog rw_entry :=
  match msg entry with
  | None => Ret (rw_entry_set_msg entry m)
  | Some old =>
      if data_key_compare (key entry) user_key =? 0 then
        if message_is_definitive m then
          trigger (HeapFree (MsgBuf (message_data old)));;
          Ret (rw_entry_set_msg entry m)
        else if bool_decide (message_class old = MESSAGE_TYPE_DELETE)
        then Crash assert_merge_on_delete
        else
          let new_message := data_merge_tuples user_key old m in
          trigger (HeapFree (MsgBuf (message_data old)));;
          Ret (with_msg entry (Some new_message))
      else Ret entry
  end.

(** The part of [local_write] that, for an update or a delete, installs
    the slot and samples its timestamps into the entry. *)
Definition local_write_sample (entry : rw_entry) (m : message)
  : prog rw_entry :=
  if bool_decide (message_class m = MESSAGE_TYPE_UPDATE)
     || bool_decide (message_class m = MESSAGE_TYPE_DELETE)
  then
    r <- rw_entry_iceberg_insert entry;;
    let entry := snd r in
    v <- load_tuple_ts entry;;
    Ret (with_ts entry (ts_wts v) (timestamp_set_get_rts v))
  else Ret entry.

Definition local_write (txn : transaction) (user_key : slice) (m : message)
  : prog (Z * transaction) :=
  r <- rw_entry_get txn user_key false;;
  let i := fst r in
  let txn := snd r in
  entry <- entry_at txn i;;
  entry <- local_write_sample entry m;;
  entry <- local_write_msg entry user_key m;;
  Ret (0, store_entry txn i entry).

Definition transactional_splinterdb_insert (txn : transaction)
    (user_key value : slice) : prog (Z * transaction) :=
  local_write txn user_key (message_create MESSAGE_TYPE_INSERT value).

Definition transactional_splinterdb_delete (txn : transaction)
    (user_key : slice) : prog (Z * transaction) :=
  local_write txn user_key DELETE_MESSAGE.

Definition transactional_splinterdb_update (txn : transaction)
    (user_key delta : slice) : prog (Z * transaction) :=
  local_write txn user_key (message_create MESSAGE_TYPE_UPDATE delta).

(** *** Lookup *)

(** The [do ... while] loop of lookup; it ends with the return code, the
    result buffer and the snapshot [v1] it accepted. *)
Fixpoint lookup_loop (fuel : nat) (entry : rw_entry) (user_key : slice)
    (rc : Z) (result : splinterdb_lookup_result)
  : prog (Z * splinterdb_lookup_result * timestamp_set) :=
  match fuel with
  | O => Timeout
  | S fuel' =>
      v1 <- load_tuple_ts entry;;
      r <- (if EXPERIMENTAL_MODE_BYPASS_SPLINTERDB
            then trigger (SleepNs 100);; Ret (rc, result)
            else
              match msg entry with
              | Some m => Ret (rc, message_data m)
              | None => trigger (KvsLookup user_key result)
              end);;
      v2 <- load_tuple_ts entry;;
      if negb (timestamp_set_is_equal v1 v2) || ts_lock_bit v1
      then lookup_loop fuel' entry user_key (fst r) (snd r)
      else Ret (fst r, snd r, v1)
  end.

Definition transactional_splinterdb_lookup (fuel : nat) (txn : transaction)
    (user_key : slice) (result : splinterdb_lookup_result)
  : prog (Z * transaction * splinterdb_lookup_result) :=
  r <- rw_entry_get txn user_key true;;
  let i := fst r in
  let txn := snd r in
  entry <- entry_at txn i;;
  r <- rw_entry_iceberg_insert entry;;
  let entry := snd r in
  r <- lookup_loop fuel entry user_key 0 result;;
  let v1 := snd r in
  let entry := with_ts entry (ts_wts v1) (timestamp_set_get_rts v1) in
  Ret (fst (fst r), store_entry txn i entry, snd (fst r)).

(** *** Sequences of operations of one transaction *)

Inductive txn_op :=
| OpInsert (user_key value : slice)
| OpUpdate (user_key delta : slice)
| OpDelete (user_key : slice)
| OpLookup (user_key : slice).

Definition op_key (op : txn_op) : slice :=
  match op with
  | OpInsert k _ | OpUpdate k _ | OpDelete k | OpLookup k => k
  end.

Definition run_op (fuel : nat) (txn : transaction) (op : txn_op)
  : prog transaction :=
  match op with
  | OpInsert k v => r <- transactional_splinterdb_insert txn k v;; Ret (snd r)
  | OpUpdate k d => r <- transactional_splinterdb_update txn k d;; Ret (snd r)
  | OpDelete k => r <- transactional_splinterdb_delete txn k;; Ret (snd r)
  | OpLookup k =>
      r <- transactional_splinterdb_lookup fuel txn k "";;
      Ret (snd (fst r))
  end.

Fixpoint run_ops (fuel : nat) (txn : transaction) (ops : list txn_op)
  : prog transaction :=
  match ops with
  | [] => Ret txn
  | op :: ops' => txn' <- run_op fuel txn op;; run_ops fuel txn' ops'
  end.

End Code.

(** ** A concrete environment

    A world holds the timestamp words by address, the timestamp cache (key
    to slot address and reference count), the key-value store and, for the
    other threads, the stores they perform: before each event of the
    thread under study the head of [w_others] is taken off and, if it names
    a word, written to memory. *)

Record world := Build_world {
  w_mem : gmap Z timestamp_set;
  w_tscache : gmap string (Z * nat);
  w_kvs : gmap string string;
  w_next : Z;
  w_others : list (option (Z * timestamp_set))
}.

Definition world_load (s : world) (p : Z) : timestamp_set :=
  default 0 (w_mem s !! p).

Definition world_interfere (s : world) : world :=
  match w_others s with
  | [] => s
  | None :: rest =>
      Build_world (w_mem s) (w_tscache s) (w_kvs s) (w_next s) rest
  | Some (p, v) :: rest =>
      Build_world (<[p := v]> (w_mem s)) (w_tscache s) (w_kvs s) (w_next s)
        rest
  end.

Definition world_set_mem (s : world) (m : gmap Z timestamp_set) : world :=
  Build_world m (w_tscache s) (w_kvs s) (w_next s) (w_others s).
Definition world_set_kvs (s : world) (m : gmap string string) : world :=
  Build_world (w_mem s) (w_tscache s) m (w_next s) (w_others s).

Definition world_iceberg_insert (refcounted : bool) (k : slice) (s : world)
  : (Z * bool) * world :=
  match w_tscache s !! k with
  | Some (p, n) =>
      ((p, false),
       Build_world (w_mem s)
         (<[k := (p, if refcounted then S n else n)]> (w_tscache s))
         (w_kvs s) (w_next s) (w_others s))
  | None =>
      let p := w_next s in
      ((p, true),
       Build_world (<[p := 0]> (w_mem s)) (<[k := (p, 1%nat)]> (w_tscache s))
         (w_kvs s) (p + 8) (w_others s))
  end.

Definition world_iceberg_remove (k : slice) (s : world)
  : option bool * world :=
  match w_tscache s !! k with
  | Some (p, n) =>
      if (n <=? 1)%nat then
        (Some true,
         Build_world (delete p (w_mem s)) (delete k (w_tscache s))
           (w_kvs s) (w_next s) (w_others s))
      else
        (None,
         Build_world (w_mem s) (<[k := (p, pred n)]> (w_tscache s))
           (w_kvs s) (w_next s) (w_others s))
  | None => (None, s)
  end.

Definition world_handler : handler world :=
  fun X (e : event X) (s0 : world) =>
    let s := world_interfere s0 in
    match e in event X return X * world with
    | AtomicLoad p => (world_load s p, s)
    | LoadLockBit p => (ts_lock_bit (world_load s p), s)
    | AtomicCAS p v1 v2 =>
        if bool_decide (world_load s p = v1)
        then (true, world_set_mem s (<[p := v2]> (w_mem s)))
        else (false, s)
    | SleepNs _ => (tt, s)
    | IcebergInsertAndGet k => world_iceberg_insert true k s
    | IcebergInsertAndGetNoRef k => world_iceberg_insert false k s
    | IcebergGetAndRemove k => world_iceberg_remove k s
    | KvsInsert k v => (0, world_set_kvs s (<[k := v]> (w_kvs s)))
    | KvsUpdate k v =>
        (0, world_set_kvs s
              (<[k := default "" (w_kvs s !! k) +:+ v]> (w_kvs s)))
    | KvsDelete k => (0, world_set_kvs s (delete k (w_kvs s)))
    | KvsLookup k r =>
        match w_kvs s !! k with
        | Some v => ((0, v), s)
        | None => ((0, ""), s)
        end
    | HeapFree _ => (tt, s)
    end.

(** A configuration to run examples with: keys of four bytes, the
    lexicographic comparator of the default data configuration, and a merge
    that appends the update to the old value. *)
Definition slice_lex_cmp (a b : slice) : Z :=
  match String.compare a b with
  | Eq => 0
  | Lt => -1
  | Gt => 1
  end.

Definition append_merge (_ : slice) (old new : message) : message :=
  message_create
    (match message_class old with
     | MESSAGE_TYPE_INSERT => MESSAGE_TYPE_INSERT
     | _ => MESSAGE_TYPE_UPDATE
     end)
    (message_slice old +:+ message_slice new).

Definition example_data_config : data_config :=
  {| data_key_compare := slice_lex_cmp; data_merge_tuples := append_merge |}.

Definition example_build (silo : bool) : build_config :=
  {| KEY_SIZE := 4;
     RW_SET_SIZE_LIMIT := 16;
     EXPERIMENTAL_MODE_SILO := silo;
     EXPERIMENTAL_MODE_KEEP_ALL_KEYS := false;
     EXPERIMENTAL_MODE_BYPASS_SPLINTERDB := false |}.

Definition empty_world : world := Build_world ∅ ∅ ∅ 8 [].

(** ** Notions used in the statements *)

(** The maximum of a list of timestamps, [0] for the empty list. *)
Definition max_list (l : list Z) : Z := foldr Z.max 0 l.

(** The indices, counted from [i], of the elements that satisfy [f]. *)
Fixpoint indices_where {A} (f : A -> bool) (l : list A) (i : nat) : list nat :=
  match l with
  | [] => []
  | x :: l' =>
      if f x then i :: indices_where f l' (S i) else indices_where f l' (S i)
  end.

(** A compare-and-swap loop on the word at [p] that stores [f v] over the
    value [v] it has just loaded: failed attempts, then the one that
    succeeds. *)
Inductive cas_loop_tr (p : Z) (f : timestamp_set -> timestamp_set)
  : list obs -> Prop :=
| cas_loop_done v : cas_loop_tr p f [OLoad p v; OCas p v (f v) true]
| cas_loop_retry v tr :
    cas_loop_tr p f tr ->
    cas_loop_tr p f (OLoad p v :: OCas p v (f v) false :: tr).

(** The release of the lock on [p]: only the lock bit changes. *)
Definition release_tr (p : Z) : list obs -> Prop :=
  cas_loop_tr p (fun v => set_lock_bit v false).

(** A [try_lock] on [p] that takes the lock. *)
Definition acquire_tr (p : Z) (tr : list obs) : Prop :=
  exists v,
    ts_lock_bit v = false
    /\ tr = [OLoad p v; OCas p v (set_lock_bit v true) true].

(** A [try_lock] on [p] that fails: the lock bit is set, or the
    compare-and-swap loses. *)
Definition busy_tr (p : Z) (tr : list obs) : Prop :=
  exists v,
    (ts_lock_bit v = true /\ tr = [OLoad p v])
    \/ (ts_lock_bit v = false
        /\ tr = [OLoad p v; OCas p v (set_lock_bit v true) false]).

(** The no-wait locking of the spec over the slots [ps], in that order:
    either every slot is acquired in turn, or the first [n] are, slot [n]
    is busy, the [n] locks are released in the same order, the thread
    sleeps 1000 ns and starts again with the first slot. *)
Inductive no_wait_tr (ps : list Z) : list obs -> Prop :=
| no_wait_locked segs :
    Forall2 acquire_tr ps segs -> no_wait_tr ps (concat segs)
| no_wait_retry n p acq t_busy rel rest :
    ps !! n = Some p ->
    Forall2 acquire_tr (take n ps) acq ->
    busy_tr p t_busy ->
    Forall2 release_tr (take n ps) rel ->
    no_wait_tr ps rest ->
    no_wait_tr ps (concat acq ++ t_busy ++ concat rel ++ OSleep 1000 :: rest).

Definition is_iceberg_insert (o : obs) : bool :=
  match o with
  | OIcebergInsert _ _ _ _ => true
  | _ => false
  end.

(** The trace without the installations of slots. *)
Definition without_installs (tr : list obs) : list obs :=
  List.filter (fun o => negb (is_iceberg_insert o)) tr.

Definition is_kvs_mutation (o : obs) : bool :=
  match o with
  | OKvsInsert _ _ _ | OKvsUpdate _ _ _ | OKvsDelete _ _ => true
  | _ => false
  end.

Definition is_kvs_lookup (o : obs) : bool :=
  match o with
  | OKvsLookup _ _ _ => true
  | _ => false
  end.

(** Every event a program can raise, with any answer, satisfies [P]. *)
Fixpoint events_in {A} (P : obs -> Prop) (p : prog A) : Prop :=
  match p with
  | Vis e k => forall x, P (obs_of e x) /\ events_in P (k x)
  | _ => True
  end.

Section Notions.
Context {dcfg : data_config} {bcfg : build_config}.

(** Read validation of [r] at [commit_ts] observes the snapshot [v1]: the
    trace of its validation holds the load of [v1] from the slot of [r]
    and, when the read timestamp of [v1], the 48-bit sum of its [wts] and
    [delta], is at most [commit_ts], directly after it the read [locked] of
    the lock bit of the slot. *)
Definition observes (commit_ts : txn_timestamp) (r : rw_entry)
    (t_r : list obs) (v1 : timestamp_set) (locked : bool) : Prop :=
  exists t1 t2,
    t_r = t1 ++ OLoad (tuple_ts r) v1 :: t2
    /\ ((ts_wts v1 + ts_delta v1) mod 2 ^ 48 <= commit_ts ->
        exists t3, t2 = OLockBit (tuple_ts r) locked :: t3).

(** The abort conditions of read validation: the snapshot has another
    [wts] than the entry sampled, or its read timestamp, the 48-bit sum of
    [wts] and [delta], is at most [commit_ts] while the lock bit of the
    slot is set and the entry has no pending write. *)
Definition aborting_snapshot (commit_ts : txn_timestamp) (r : rw_entry)
    (v1 : timestamp_set) (locked : bool) : Prop :=
  ts_wts v1 <> wts r
  \/ ((ts_wts v1 + ts_delta v1) mod 2 ^ 48 <= commit_ts
      /\ locked = true /\ msg r = None).

(** The abort conditions with the read timestamp as the specification
    defines it, [rts_of(v1) = v1.wts + v1.delta]. *)
Definition spec_aborting_snapshot (commit_ts : txn_timestamp) (r : rw_entry)
    (v1 : timestamp_set) (locked : bool) : Prop :=
  ts_wts v1 <> wts r
  \/ (ts_wts v1 + ts_delta v1 <= commit_ts
      /\ locked = true /\ msg r = None).

(** Some read entry of [read_set] with [r.rts < commit_ts] is reached by
    the validation loop (the entries before it pass) and observes an
    aborting snapshot; [t_val] is the trace of the loop. *)
Definition read_abort_witness (fuel : nat) (txn : transaction)
    (commit_ts : txn_timestamp) (read_set : list nat) (t_val : list obs)
  : Prop :=
  exists rs1 ri rs2 r t1 t_r t2 b v1 locked,
    read_set = rs1 ++ ri :: rs2
    /\ rw_entries txn !! ri = Some r
    /\ t_val = t1 ++ t_r ++ t2
    /\ exec (validate_reads fuel txn commit_ts rs1) t1 (Done false)
    /\ exec (validate_read fuel commit_ts r) t_r (Done b)
    /\ rts r < commit_ts
    /\ observes commit_ts r t_r v1 locked
    /\ aborting_snapshot commit_ts r v1 locked.

(** The trace [seg] of the validation of the read entry [r] at
    [commit_ts]: no event when [r.rts >= commit_ts], else it begins with
    the load of the slot of [r]. *)
Definition validation_seg (commit_ts : txn_timestamp) (r : rw_entry)
    (seg : list obs) : Prop :=
  (commit_ts <= rts r /\ seg = [])
  \/ (rts r < commit_ts
      /\ exists v1 rest, seg = OLoad (tuple_ts r) v1 :: rest).

(** Validation walks [read_set] in order, up to and including the first
    entry that aborts, all of it when none does; [t_val] is its trace. *)
Definition validation_walk (txn : transaction) (commit_ts : txn_timestamp)
    (read_set : list nat) (is_abort : bool) (t_val : list obs) : Prop :=
  exists segs,
    t_val = concat segs
    /\ Forall2 (fun ri seg =>
                  exists r, rw_entries txn !! ri = Some r
                            /\ validation_seg commit_ts r seg)
         (take (length segs) read_set) segs
    /\ (is_abort = false -> length segs = length read_set).

(** The events with which the apply step hands the buffered write [m] of
    the entry [w] to the key-value store, the store answering [0]. *)
Definition apply_message_tr (w : rw_entry) (m : message) : list obs :=
  if EXPERIMENTAL_MODE_BYPASS_SPLINTERDB then [OSleep 100]
  else
    match message_class m with
    | MESSAGE_TYPE_INSERT => [OKvsInsert (key w) (message_slice m) 0]
    | MESSAGE_TYPE_UPDATE => [OKvsUpdate (key w) (message_slice m) 0]
    | MESSAGE_TYPE_DELETE => [OKvsDelete (key w) 0]
    | MESSAGE_TYPE_INVALID => []
    end.

(** The phases of a commit that returns: locking ends with the transaction
    [txn1], the raise of the commit timestamp with [commit_ts], validation
    with [is_abort]; [t_body] is the trace of the apply step or of the
    release of the locks, [t_deinit] that of the teardown. *)
Definition commit_run (fuel : nat) (txn : transaction) (tr : list obs)
    (rc : Z) (txn1 : transaction) (commit_ts : txn_timestamp)
    (is_abort : bool) (t_lock t_raise t_val t_body t_deinit : list obs)
  : Prop :=
  exec (lock_write_set fuel txn (sorted_write_set txn)) t_lock (Done txn1)
  /\ exec (raise_commit_ts txn1 (sorted_write_set txn) (initial_commit_ts txn))
       t_raise (Done commit_ts)
  /\ exec (validate_reads fuel txn1 commit_ts (commit_read_set txn))
       t_val (Done is_abort)
  /\ exec (if negb is_abort
           then apply_writes fuel txn1 commit_ts (sorted_write_set txn)
           else unlock_all fuel txn1 (sorted_write_set txn))
       t_body (Done tt)
  /\ exec (transaction_deinit txn1) t_deinit (Done tt)
  /\ rc = - Z.b2z is_abort
  /\ tr = t_lock ++ t_raise ++ t_val ++ t_body ++ t_deinit.

(** The entry at index [wi] of [txn] points to the slot [p]. *)
Definition slot_of (txn : transaction) (wi : nat) (p : Z) : Prop :=
  exists w, rw_entries txn !! wi = Some w /\ tuple_ts w = p /\ p <> NULL.

(** From [txn] to [txn'] an entry that has a slot is left as it is. *)
Definition slots_kept (txn txn' : transaction) : Prop :=
  forall i w,
    rw_entries txn !! i = Some w -> tuple_ts w <> NULL ->
    rw_entries txn' !! i = Some w.

(** No event of the key-value store. *)
Definition not_kvs (o : obs) : Prop :=
  is_kvs_mutation o = false /\ is_kvs_lookup o = false.

(** A compare-and-swap that keeps [wts] and [delta] and leaves the lock
    bit clear. *)
Definition clears_lock_only (o : obs) : Prop :=
  forall p v1 v2 ok,
    o = OCas p v1 v2 ok ->
    ts_wts v2 = ts_wts v1 /\ ts_delta v2 = ts_delta v1
    /\ ts_lock_bit v2 = false.

(** The key an entry stores for the user key [k]: [k] followed by zero
    bytes up to [KEY_SIZE]. *)
Definition zero_padded (k : slice) : slice :=
  k +:+ zeros (KEY_SIZE - slice_length k).

(** The index of the entry [rw_entry_get] hands out for the user key [k]:
    that of the first entry whose key compares equal, else that of the
    entry it appends. *)
Definition entry_index (txn : transaction) (k : slice) : nat :=
  default (num_rw_entries txn) (rw_entry_find k (rw_entries txn) 0).

(** The pending message of the entry that the search of [rw_entry_get]
    finds for the user key [k]. *)
Definition pending (txn : transaction) (k : slice) : option message :=
  i ← rw_entry_find k (rw_entries txn) 0;
  e ← rw_entries txn !! i;
  msg e.

(** [e], at index [i], is the first entry of [txn] whose stored key the
    comparator reports equal to the user key [k]: the entry at which the
    search loop of [rw_entry_get] stops. *)
Definition first_match (txn : transaction) (k : slice) (i : nat)
    (e : rw_entry) : Prop :=
  rw_entries txn !! i = Some e
  /\ data_key_compare k (key e) = 0
  /\ forall j e', (j < i)%nat -> rw_entries txn !! j = Some e' ->
                  data_key_compare k (key e') <> 0.

(** The comparator reports no stored key of [txn] equal to the user key
    [k]: the search loop of [rw_entry_get] runs to the end. *)
Definition no_match (txn : transaction) (k : slice) : Prop :=
  Forall (fun e => data_key_compare k (key e) <> 0) (rw_entries txn).

(** What an operation on the user key [k] does to the keys the entries
    store: nothing when the search finds an entry, else the zero-padded
    copy of [k] is appended. *)
Definition keys_step (txn : transaction) (k : slice) (txn' : transaction)
  : Prop :=
  (rw_entry_find k (rw_entries txn) 0 <> None
   /\ map key (rw_entries txn') = map key (rw_entries txn))
  \/ (rw_entry_find k (rw_entries txn) 0 = None
      /\ (slice_length k <= KEY_SIZE)%nat
      /\ map key (rw_entries txn')
         = map key (rw_entries txn) ++ [zero_padded k]).

(** The key an event hands to the key-value store for a mutation. *)
Definition kvs_mutation_key (o : obs) : option slice :=
  match o with
  | OKvsInsert k _ _ | OKvsUpdate k _ _ | OKvsDelete k _ => Some k
  | _ => None
  end.

End Notions.

(** ** Worlds without contention *)

(** No other thread stores anything during the run. *)
Definition quiescent (s : world) : Prop := w_others s = [].

(** No lock is held. *)
Definition unlocked (s : world) : Prop :=
  forall p, ts_lock_bit (world_load s p) = false.

(** The slots the cache hands out are aligned and not [NULL]. *)
Definition aligned_slots (s : world) : Prop :=
  0 < w_next s /\ w_next s mod 8 = 0
  /\ forall k p n, w_tscache s !! k = Some (p, n) -> p <> NULL /\ p mod 8 = 0.

(** The slot the cache holds for a key. *)
Definition cache_slot (s : world) (k : slice) : option Z :=
  fst <$> (w_tscache s !! k).

(** A world in which a transaction can commit undisturbed: nobody
    interferes, the cache hands out aligned slots, one per key and all
    below the next fresh address, and the entries that have a slot have
    the slot of their key. *)
Record commit_world (s : world) (txn : transaction) : Prop := {
  cw_quiescent : quiescent s;
  cw_aligned : aligned_slots s;
  cw_injective :
    forall k1 k2 p, cache_slot s k1 = Some p -> cache_slot s k2 = Some p ->
                    k1 = k2;
  cw_below : forall k p, cache_slot s k = Some p -> p < w_next s;
  cw_consistent :
    forall i e, rw_entries txn !! i = Some e -> tuple_ts e <> NULL ->
                cache_slot s (key e) = Some (tuple_ts e)
}.

(** Every lock that is held is on the slot of a key of [K]. *)
Definition locked_by (s : world) (K : list slice) : Prop :=
  forall q, ts_lock_bit (world_load s q) = true ->
            exists k, In k K /\ cache_slot s k = Some q.

(** What a call into the key-value store does to the store of a world. *)
Definition kvs_apply (m : gmap string string) (o : obs) : gmap string string :=
  match o with
  | OKvsInsert k v _ => <[k := v]> m
  | OKvsUpdate k v _ => <[k := default "" (m !! k) +:+ v]> m
  | OKvsDelete k _ => delete k m
  | _ => m
  end.

(** From [s] to [s'] no lock bit has been set. *)
Definition no_new_lock (s s' : world) : Prop :=
  forall q, ts_lock_bit (world_load s' q) = true ->
            ts_lock_bit (world_load s q) = true.

(** What locking leaves of an entry: key, message and read flag, and a
    slot where there was one. *)
Definition entry_kept (e e' : rw_entry) : Prop :=
  key e' = key e /\ msg e' = msg e /\ is_read e' = is_read e
  /\ (tuple_ts e <> NULL -> tuple_ts e' <> NULL).

(** The entry at an index is there and has a slot. *)
Definition has_slot (txn : transaction) (i : nat) : Prop :=
  exists e, rw_entries txn !! i = Some e /\ tuple_ts e <> NULL.

(** No two write entries store the same key. *)
Definition distinct_write_keys (txn : transaction) : Prop :=
  NoDup (map key (List.filter (fun e => bool_decide (msg e <> None))
                    (rw_entries txn))).

(** ** Kinds of events

    What an event touches: a timestamp word (read or compare-and-swap), the
    clock, the timestamp cache, the key-value store or the heap. *)

Inductive obs_kind :=
| KLoad          (* a load of a timestamp word or of its lock bit *)
| KCas           (* a compare-and-swap on a timestamp word *)
| KSleep
| KCacheInsert
| KCacheRemove
| KKvsWrite      (* insert, update or delete of the key-value store *)
| KKvsRead       (* lookup of the key-value store *)
| KFree.

#[global] Instance obs_kind_eq_dec : EqDecision obs_kind.
Proof. solve_decision. Defined.

Definition kind_of (o : obs) : obs_kind :=
  match o with
  | OLoad _ _ | OLockBit _ _ => KLoad
  | OCas _ _ _ _ => KCas
  | OSleep _ => KSleep
  | OIcebergInsert _ _ _ _ => KCacheInsert
  | OIcebergRemove _ _ => KCacheRemove
  | OKvsInsert _ _ _ | OKvsUpdate _ _ _ | OKvsDelete _ _ => KKvsWrite
  | OKvsLookup _ _ _ => KKvsRead
  | OFree _ => KFree
  end.

(** Every event of kind [k] satisfies [P]. *)
Definition allows (P : obs -> Prop) (k : obs_kind) : Prop :=
  forall o, kind_of o = k -> P o.

(** The key for which an event takes a counted reference into the
    timestamp cache, and the key for which an event gives one back. *)
Definition referenced_key (o : obs) : option slice :=
  match o with
  | OIcebergInsert true k _ _ => Some k
  | _ => None
  end.

Definition removed_key (o : obs) : option slice :=
  match o with
  | OIcebergRemove k _ => Some k
  | _ => None
  end.

(** The RW entry and the message buffer an event frees. *)
Definition freed_entry (o : obs) : option nat :=
  match o with
  | OFree (EntryObj i) => Some i
  | _ => None
  end.

Definition freed_msg (o : obs) : option slice :=
  match o with
  | OFree (MsgBuf d) => Some d
  | _ => None
  end.

(** The call into the key-value store an event is. *)
Definition kvs_write (o : obs) : option obs :=
  if is_kvs_mutation o then Some o else None.

(** The entries that hold a slot of the timestamp cache. *)
Definition holds_slot (e : rw_entry) : bool := negb (tuple_ts e =? NULL).

(** A program without assertion, undefined behaviour or bounded loop on
    any of its paths. *)
Fixpoint always_returns {A} (p : prog A) : Prop :=
  match p with
  | Ret _ => True
  | Vis e k => forall x, always_returns (k x)
  | Crash _ | Timeout => False
  end.

(** An event that takes no counted reference and gives none back. *)
Definition no_cache_reference (o : obs) : Prop :=
  referenced_key o = None /\ removed_key o = None.

(** The keys of the entries that hold a slot, in the order of the
    entries. *)
Definition slot_keys (txn : transaction) : list slice :=
  map key (List.filter holds_slot (rw_entries txn)).

(** The message buffers the entries own. *)
Definition pending_buffers (txn : transaction) : list slice :=
  omap (fun e => message_data <$> msg e) (rw_entries txn).

(** From [e] to [e'] nothing is retracted: the key stays, and so do a read
    flag, a pending message and a slot. *)
Definition entry_grows (e e' : rw_entry) : Prop :=
  key e' = key e
  /\ (is_read e = true -> is_read e' = true)
  /\ (msg e <> None -> msg e' <> None)
  /\ (tuple_ts e <> NULL -> tuple_ts e' = tuple_ts e).

Section CacheNotions.
Context {bcfg : build_config}.

(** The keys for which the transaction holds a counted reference into the
    timestamp cache: those of the entries with a slot, none in the build
    that keeps all keys. *)
Definition counted_keys (txn : transaction) : list slice :=
  if EXPERIMENTAL_MODE_KEEP_ALL_KEYS then [] else slot_keys txn.

(** What an operation may do to the entry it works on, [tr] being its
    trace: the key stays, a read flag, a pending message and a slot are
    never taken away, no reference is given back, and one is taken exactly
    when the entry gets its slot. *)
Definition entry_step (e e' : rw_entry) (tr : list obs) : Prop :=
  key e' = key e
  /\ (is_read e = true -> is_read e' = true)
  /\ (msg e <> None -> msg e' <> None)
  /\ (tuple_ts e <> NULL -> tuple_ts e' = tuple_ts e)
  /\ omap removed_key tr = []
  /\ omap referenced_key tr
     = (if holds_slot e || EXPERIMENTAL_MODE_KEEP_ALL_KEYS
           || negb (holds_slot e')
        then [] else [key e]).

(** The entry [rw_entry_get] appends for the user key [k]. *)
Definition fresh_entry (k : slice) : rw_entry :=
  with_key rw_entry_create (k +:+ zeros (KEY_SIZE - slice_length k)).

End CacheNotions.

Section OperationNotions.
Context {dcfg : data_config} {bcfg : build_config}.

(** The entry an operation on the user key [k] works on, as it is before
    the operation: the one the search finds, else a fresh one. *)
Definition entry_before (txn : transaction) (k : slice) : rw_entry :=
  default (fresh_entry k) (rw_entries txn !! entry_index txn k).

(** The calls into the key-value store that the buffered writes of [txn]
    amount to, in the order in which commit applies them: one per write
    entry, by the class of its message, none in the build that bypasses
    the store. *)
Definition store_calls (txn : transaction) : list obs :=
  concat
    (map (fun wi =>
            match rw_entries txn !! wi with
            | Some w =>
                match msg w with
                | Some m => List.filter is_kvs_mutation (apply_message_tr w m)
                | None => []
                end
            | None => []
            end)
       (sorted_write_set txn)).

End OperationNotions.

(** ** Example transactions and worlds *)

Definition example_build_config : build_config := example_build false.

Section Examples.
#[local] Existing Instance example_data_config.
#[local] Existing Instance example_build_config.

Definition example_read (k : slice) (p : Z) : rw_entry :=
  Build_rw_entry k None 0 0 p true true false.

Definition example_write (k : slice) (m : message) (p : Z) : rw_entry :=
  Build_rw_entry k (Some m) 0 0 p false false false.

(** A transaction that has read [aaaa] at [wts = 0] and buffers an insert
    of [bbbb], in a world where another transaction has since committed a
    write of [aaaa] at timestamp 5. *)
Definition demo_abort_txn : transaction :=
  Build_transaction
    [example_read "aaaa" 8;
     example_write "bbbb" (message_create MESSAGE_TYPE_INSERT "v") NULL].

Definition demo_abort_world : world :=
  Build_world (<[8 := mk_ts false 0 5]> ∅) (<["aaaa" := (8, 1%nat)]> ∅) ∅ 16 [].

Definition demo_abort_trace : list obs :=
  Eval vm_compute in
    snd (run world_handler (transactional_splinterdb_commit 2 demo_abort_txn)
           demo_abort_world).

(** A transaction that writes [bbbb] and [aaaa], in that order of issue,
    while another thread holds the lock of [bbbb] and releases it during
    the back-off. *)
Definition demo_retry_txn : transaction :=
  Build_transaction
    [example_write "bbbb" (message_create MESSAGE_TYPE_INSERT "2") 16;
     example_write "aaaa" (message_create MESSAGE_TYPE_UPDATE "1") 8].

Definition demo_retry_world : world :=
  Build_world
    (<[8 := mk_ts false 0 3]> (<[16 := mk_ts true 2 7]> ∅))
    (<["aaaa" := (8, 1%nat)]> (<["bbbb" := (16, 2%nat)]> ∅))
    ∅ 24
    [None; None; None; None; None; Some (16, mk_ts false 2 7)].

Definition demo_retry_trace : list obs :=
  Eval vm_compute in
    snd (run world_handler (transactional_splinterdb_commit 2 demo_retry_txn)
           demo_retry_world).

(** A transaction that writes a key whose slot holds the largest [wts]. *)
Definition demo_wrap_txn : transaction :=
  Build_transaction
    [example_write "aaaa" (message_create MESSAGE_TYPE_INSERT "1") 8].

Definition demo_wrap_world : world :=
  Build_world (<[8 := mk_ts false 0 (2 ^ 48 - 1)]> ∅)
    (<["aaaa" := (8, 1%nat)]> ∅) ∅ 16 [].

Definition demo_wrap_trace : list obs :=
  Eval vm_compute in
    snd (run world_handler (transactional_splinterdb_commit 1 demo_wrap_txn)
           demo_wrap_world).

(** A transaction with a buffered insert of [abcd]. *)
Definition demo_own_txn : transaction :=
  Build_transaction
    [example_write "abcd" (message_create MESSAGE_TYPE_INSERT "v1") NULL].

Definition demo_own_trace : list obs :=
  Eval vm_compute in
    snd (run world_handler
           (transactional_splinterdb_lookup 1 demo_own_txn "abcd" "")
           empty_world).

Definition demo_own_txn' : transaction :=
  Build_transaction
    [Build_rw_entry "abcd" (Some (message_create MESSAGE_TYPE_INSERT "v1"))
       0 0 8 true true false].

(** Calls with keys of [KEY_SIZE] bytes, and calls with a shorter key. *)
Definition demo_ops : list txn_op :=
  [OpInsert "abcd" "1"; OpLookup "abcd"; OpUpdate "abcd" "x"; OpDelete "wxyz"].

Definition demo_ops_trace : list obs :=
  Eval vm_compute in
    snd (run world_handler (run_ops 1 transactional_splinterdb_begin demo_ops)
           empty_world).

Definition demo_ops_txn : transaction :=
  Eval vm_compute in
    match fst (fst (run world_handler
                      (run_ops 1 transactional_splinterdb_begin demo_ops)
                      empty_world)) with
    | Done txn => txn
    | _ => transactional_splinterdb_begin
    end.

Definition demo_short_ops : list txn_op := [OpInsert "a" "1"; OpLookup "a"].

Definition demo_short_trace : list obs :=
  Eval vm_compute in
    snd (run world_handler
           (run_ops 1 transactional_splinterdb_begin demo_short_ops)
           empty_world).

Definition demo_short_txn : transaction :=
  Eval vm_compute in
    match fst (fst (run world_handler
                      (run_ops 1 transactional_splinterdb_begin demo_short_ops)
                      empty_world)) with
    | Done txn => txn
    | _ => transactional_splinterdb_begin
    end.

End Examples.

Section MoreExamples.
#[local] Existing Instance example_data_config.
#[local] Existing Instance example_build_config.

(** The world after the calls of [demo_ops], and the commit and the abort
    of their transaction in it. *)
Definition demo_ops_world : world :=
  Eval vm_compute in
    snd (fst (run world_handler
                (run_ops 1 transactional_splinterdb_begin demo_ops)
                empty_world)).

Definition demo_ops_commit_trace : list obs :=
  Eval vm_compute in
    snd (run world_handler (transactional_splinterdb_commit 1 demo_ops_txn)
           demo_ops_world).

Definition demo_ops_abort_trace : list obs :=
  Eval vm_compute in
    snd (run world_handler (transactional_splinterdb_abort demo_ops_txn)
           demo_ops_world).

(** A first lookup of [abcd], and the commit of the transaction that made
    it. *)
Definition demo_lookup_trace : list obs :=
  Eval vm_compute in
    snd (run world_handler
           (transactional_splinterdb_lookup 1 transactional_splinterdb_begin
              "abcd" "")
           empty_world).

Definition demo_lookup_txn : transaction :=
  Build_transaction
    [Build_rw_entry "abcd" None 0 0 8 true true false].

Definition demo_lookup_world : world :=
  Eval vm_compute in
    snd (fst (run world_handler
                (transactional_splinterdb_lookup 1
                   transactional_splinterdb_begin "abcd" "")
                empty_world)).

Definition demo_lookup_commit_trace : list obs :=
  Eval vm_compute in
    snd (run world_handler (transactional_splinterdb_commit 1 demo_lookup_txn)
           demo_lookup_world).

(** An update of [abcd] in a fresh transaction. *)
Definition demo_update_trace : list obs :=
  Eval vm_compute in
    snd (run world_handler
           (transactional_splinterdb_update transactional_splinterdb_begin
              "abcd" "x")
           empty_world).

Definition demo_update_txn : transaction :=
  Build_transaction
    [Build_rw_entry "abcd" (Some (message_create MESSAGE_TYPE_UPDATE "x"))
       0 0 8 false true false].

(** The commit of the buffered insert of [demo_own_txn]. *)
Definition demo_own_commit_trace : list obs :=
  Eval vm_compute in
    snd (run world_handler (transactional_splinterdb_commit 1 demo_own_txn)
           empty_world).

(** Timestamps next to [2^48].  A transaction that has read [aaaa] at
    [wts = 2^48 - 32767] and [bbbb] at [wts = 2^48 - 1]; since then the
    read timestamp of [aaaa] has been extended by [delta = 32767], and a
    writer holds its lock. *)
Definition demo_rts_wrap_txn : transaction :=
  Build_transaction
    [Build_rw_entry "aaaa" None (2 ^ 48 - 32767) (2 ^ 48 - 32767) 8
       true true false;
     Build_rw_entry "bbbb" None (2 ^ 48 - 1) (2 ^ 48 - 1) 16 true true false].

Definition demo_rts_wrap_world : world :=
  Build_world
    (<[8 := mk_ts true 32767 (2 ^ 48 - 32767)]>
       (<[16 := mk_ts false 0 (2 ^ 48 - 1)]> ∅))
    (<["aaaa" := (8, 2%nat)]> (<["bbbb" := (16, 1%nat)]> ∅)) ∅ 24 [].

Definition demo_rts_wrap_trace : list obs :=
  Eval vm_compute in
    snd (run world_handler
           (transactional_splinterdb_commit 1 demo_rts_wrap_txn)
           demo_rts_wrap_world).

(** A transaction that has read [aaaa] at [wts = 2^48 - 32768] and buffers
    an insert of [bbbb], whose slot holds the largest [wts]. *)
Definition demo_extend_txn : transaction :=
  Build_transaction
    [Build_rw_entry "aaaa" None (2 ^ 48 - 32768) (2 ^ 48 - 32768) 8
       true true false;
     example_write "bbbb" (message_create MESSAGE_TYPE_INSERT "v") 16].

Definition demo_extend_world : world :=
  Build_world
    (<[8 := mk_ts false 0 (2 ^ 48 - 32768)]>
       (<[16 := mk_ts false 0 (2 ^ 48 - 1)]> ∅))
    (<["aaaa" := (8, 1%nat)]> (<["bbbb" := (16, 1%nat)]> ∅)) ∅ 24 [].

Definition demo_extend_trace : list obs :=
  Eval vm_compute in
    snd (run world_handler
           (transactional_splinterdb_commit 1 demo_extend_txn)
           demo_extend_world).

(** A transaction that buffers an insert of [aaaa] and has read [bbbb] at
    [wts = 5]; the slot of [aaaa] holds [wts = 2^48 - 1] and [delta = 1],
    as an extension of its read timestamp to [2^48] leaves it. *)
Definition demo_bound_txn : transaction :=
  Build_transaction
    [example_write "aaaa" (message_create MESSAGE_TYPE_INSERT "1") 8;
     Build_rw_entry "bbbb" None 5 5 16 true true false].

Definition demo_bound_world : world :=
  Build_world
    (<[8 := mk_ts false 1 (2 ^ 48 - 1)]> (<[16 := mk_ts false 0 5]> ∅))
    (<["aaaa" := (8, 1%nat)]> (<["bbbb" := (16, 1%nat)]> ∅)) ∅ 24 [].

Definition demo_bound_trace : list obs :=
  Eval vm_compute in
    snd (run world_handler
           (transactional_splinterdb_commit 1 demo_bound_txn)
           demo_bound_world).

(** A lookup of [aaaa] by that transaction, which holds a pending insert
    of it. *)
Definition demo_bound_lookup_trace : list obs :=
  Eval vm_compute in
    snd (run world_handler
           (transactional_splinterdb_lookup 1 demo_bound_txn "aaaa" "")
           demo_bound_world).

Definition demo_bound_lookup_txn : transaction :=
  Build_transaction
    [Build_rw_entry "aaaa" (Some (message_create MESSAGE_TYPE_INSERT "1"))
       (2 ^ 48 - 1) 0 8 true false false;
     Build_rw_entry "bbbb" None 5 5 16 true true false].

(** The transaction after an insert of the short key [a], and a lookup of
    [a] by it. *)
Definition demo_short_write_txn : transaction :=
  Build_transaction
    [Build_rw_entry (zero_padded "a")
       (Some (message_create MESSAGE_TYPE_INSERT "1")) 0 0 NULL
       false false false].

Definition demo_short_lookup_trace : list obs :=
  Eval vm_compute in
    snd (run world_handler
           (transactional_splinterdb_lookup 1 demo_short_write_txn "a" "")
           empty_world).

Definition demo_short_lookup_txn : transaction :=
  Eval vm_compute in
    match fst (fst (run world_handler
                      (transactional_splinterdb_lookup 1 demo_short_write_txn
                         "a" "")
                      empty_world)) with
    | Done r => snd (fst r)
    | _ => transactional_splinterdb_begin
    end.

(** A delete of the short key [a] followed by an update of it. *)
Definition demo_short_delete_ops : list txn_op :=
  [OpDelete "a"; OpUpdate "a" "x"].

Definition demo_short_delete_txn : transaction :=
  Eval vm_compute in
    match fst (fst (run world_handler
                      (run_op 1 transactional_splinterdb_begin (OpDelete "a"))
                      empty_world)) with
    | Done txn => txn
    | _ => transactional_splinterdb_begin
    end.

Definition demo_short_delete_world : world :=
  Eval vm_compute in
    snd (fst (run world_handler
                (run_op 1 transactional_splinterdb_begin (OpDelete "a"))
                empty_world)).

Definition demo_short_update_trace : list obs :=
  Eval vm_compute in
    snd (run world_handler
           (transactional_splinterdb_update demo_short_delete_txn "a" "x")
           demo_short_delete_world).

Definition demo_short_update_txn : transaction :=
  Eval vm_compute in
    match fst (fst (run world_handler
                      (transactional_splinterdb_update demo_short_delete_txn
                         "a" "x")
                      demo_short_delete_world)) with
    | Done r => snd r
    | _ => transactional_splinterdb_begin
    end.

End MoreExamples.

(** * Properties *)

(** ** The timestamp word *)

Lemma land_low_high a b n :
  0 <= n -> 0 <= a < 2 ^ n -> Z.land a (Z.shiftl b n) = 0.
Proof.
  intros Hn Ha. apply Z.bits_inj'. intros i Hi.
  rewrite Z.land_spec, Z.bits_0.
  destruct (Z.lt_ge_cases i n) as [Hlt|Hge].
  - rewrite Z.shiftl_spec_low by lia. apply andb_false_r.
  - destruct (Z.eq_dec a 0) as [->|Hnz].
    + now rewrite Z.bits_0.
    + rewrite (Z.bits_above_log2 a i); [reflexivity|lia|].
      apply Z.log2_lt_pow2; [lia|].
      apply Z.lt_le_trans with (2 ^ n); [lia|].
      apply Z.pow_le_mono_r; lia.
Qed.

Lemma lor_low_high a b n :
  0 <= n -> 0 <= a < 2 ^ n -> Z.lor a (Z.shiftl b n) = a + b * 2 ^ n.
Proof.
  intros Hn Ha. rewrite <- Z.lxor_lor by (apply land_low_high; lia).
  rewrite <- Z.add_nocarry_lxor by (apply land_low_high; lia).
  now rewrite Z.shiftl_mul_pow2 by lia.
Qed.

Lemma land_0x7fff a : Z.land a 0x7fff = a mod 2 ^ 15.
Proof. change 0x7fff with (Z.ones 15). apply Z.land_ones. lia. Qed.

Lemma ts_delta_mod v : ts_delta v = (v / 2) mod 2 ^ 15.
Proof.
  unfold ts_delta. rewrite land_0x7fff, Z.shiftr_div_pow2 by lia. reflexivity.
Qed.

Lemma ts_wts_mod v : ts_wts v = (v / 2 ^ 16) mod 2 ^ 48.
Proof.
  unfold ts_wts. change 0xffffffffffff with (Z.ones 48).
  rewrite Z.land_ones, Z.shiftr_div_pow2 by lia. reflexivity.
Qed.

Lemma ts_lock_bit_odd v : ts_lock_bit v = Z.odd v.
Proof. apply Z.bit0_odd. Qed.

Lemma mk_ts_sum b d w :
  mk_ts b d w = Z.b2z b + 2 * (d mod 2 ^ 15) + 2 ^ 16 * (w mod 2 ^ 48).
Proof.
  unfold mk_ts. rewrite land_0x7fff.
  change 0xffffffffffff with (Z.ones 48). rewrite Z.land_ones by lia.
  assert (Hd := Z.mod_pos_bound d (2 ^ 15) ltac:(lia)).
  assert (Hw := Z.mod_pos_bound w (2 ^ 48) ltac:(lia)).
  set (d' := d mod 2 ^ 15) in *. set (w' := w mod 2 ^ 48) in *.
  rewrite (Z.shiftl_mul_pow2 d') by lia.
  rewrite (lor_low_high (d' * 2 ^ 1) w' 16) by lia.
  replace (d' * 2 ^ 1 + w' * 2 ^ 16) with (Z.shiftl (d' + w' * 2 ^ 15) 1)
    by (rewrite Z.shiftl_mul_pow2; lia).
  rewrite lor_low_high; [lia|lia|destruct b; simpl; lia].
Qed.

Lemma ts_delta_range v : 0 <= ts_delta v < 2 ^ 15.
Proof. rewrite ts_delta_mod. apply Z.mod_pos_bound. lia. Qed.

Lemma ts_wts_range v : 0 <= ts_wts v < 2 ^ 48.
Proof. rewrite ts_wts_mod. apply Z.mod_pos_bound. lia. Qed.

Lemma ts_lock_bit_mk b d w : ts_lock_bit (mk_ts b d w) = b.
Proof.
  rewrite ts_lock_bit_odd, mk_ts_sum.
  replace (Z.b2z b + 2 * (d mod 2 ^ 15) + 2 ^ 16 * (w mod 2 ^ 48))
    with (Z.b2z b + 2 * (d mod 2 ^ 15 + 2 ^ 15 * (w mod 2 ^ 48))) by lia.
  rewrite Z.odd_add_mul_2. now destruct b.
Qed.

Lemma ts_delta_mk b d w : ts_delta (mk_ts b d w) = d mod 2 ^ 15.
Proof.
  rewrite ts_delta_mod, mk_ts_sum.
  assert (Hd := Z.mod_pos_bound d (2 ^ 15) ltac:(lia)).
  assert (Hw := Z.mod_pos_bound w (2 ^ 48) ltac:(lia)).
  set (d' := d mod 2 ^ 15) in *. set (w' := w mod 2 ^ 48) in *.
  assert (Hb : 0 <= Z.b2z b < 2) by (destruct b; simpl; lia).
  replace ((Z.b2z b + 2 * d' + 2 ^ 16 * w') / 2) with (d' + 2 ^ 15 * w').
  - symmetry. apply Z.mod_unique with w'; lia.
  - apply Z.div_unique with (Z.b2z b); lia.
Qed.

Lemma ts_wts_mk b d w : ts_wts (mk_ts b d w) = w mod 2 ^ 48.
Proof.
  rewrite ts_wts_mod, mk_ts_sum.
  assert (Hd := Z.mod_pos_bound d (2 ^ 15) ltac:(lia)).
  assert (Hw := Z.mod_pos_bound w (2 ^ 48) ltac:(lia)).
  set (d' := d mod 2 ^ 15) in *. set (w' := w mod 2 ^ 48) in *.
  assert (Hb : 0 <= Z.b2z b < 2) by (destruct b; simpl; lia).
  replace ((Z.b2z b + 2 * d' + 2 ^ 16 * w') / 2 ^ 16) with w'.
  - apply Z.mod_small. lia.
  - apply Z.div_unique with (Z.b2z b + 2 * d'); lia.
Qed.

Lemma timestamp_set_get_rts_eq v :
  ts_wts v + ts_delta v < 2 ^ 48 ->
  timestamp_set_get_rts v = ts_wts v + ts_delta v.
Proof.
  intros H. unfold timestamp_set_get_rts.
  pose proof (ts_wts_range v). pose proof (ts_delta_range v).
  apply Z.mod_small. lia.
Qed.

Lemma timestamp_set_get_rts_range v : 0 <= timestamp_set_get_rts v < 2 ^ 48.
Proof. unfold timestamp_set_get_rts. apply Z.mod_pos_bound. lia. Qed.

Lemma set_lock_bit_fields v b :
  ts_lock_bit (set_lock_bit v b) = b
  /\ ts_delta (set_lock_bit v b) = ts_delta v
  /\ ts_wts (set_lock_bit v b) = ts_wts v.
Proof.
  unfold set_lock_bit.
  rewrite ts_lock_bit_mk, ts_delta_mk, ts_wts_mk.
  pose proof (ts_wts_range v). pose proof (ts_delta_range v).
  rewrite !Z.mod_small by lia. auto.
Qed.

Lemma committed_ts_eq commit_ts v1 :
  committed_ts commit_ts v1 = mk_ts false 0 commit_ts.
Proof.
  unfold committed_ts, set_lock_bit, set_delta, set_wts.
  rewrite !ts_delta_mk, !ts_wts_mk.
  rewrite !mk_ts_sum. rewrite !Z.mod_mod by lia. reflexivity.
Qed.

(** ** The extension of the read timestamp (C2) *)

Lemma land_lnot_0x7fff delta :
  0 <= delta -> Z.land delta (Z.lnot 0x7fff) = delta - Z.land delta 0x7fff.
Proof.
  intros Hd. rewrite <- Z.ldiff_land, land_0x7fff.
  change 0x7fff with (Z.ones 15).
  rewrite Z.ldiff_ones_r, Z.shiftr_div_pow2, Z.shiftl_mul_pow2 by lia.
  pose proof (Z.div_mod delta (2 ^ 15) ltac:(lia)) as H.
  set (q := delta / 2 ^ 15) in *. set (r := delta mod 2 ^ 15) in *. lia.
Qed.

Lemma extend_rts_fields commit_ts v1 :
  ts_wts v1 <= commit_ts < 2 ^ 64 ->
  ts_wts (extend_rts commit_ts v1)
    = (commit_ts - (commit_ts - ts_wts v1) mod 2 ^ 15) mod 2 ^ 48
  /\ ts_delta (extend_rts commit_ts v1) = (commit_ts - ts_wts v1) mod 2 ^ 15
  /\ ts_lock_bit (extend_rts commit_ts v1) = ts_lock_bit v1.
Proof.
  intros Hc. pose proof (ts_wts_range v1) as Hw.
  unfold extend_rts, set_delta, set_wts.
  rewrite !ts_wts_mk, !ts_delta_mk, !ts_lock_bit_mk, land_0x7fff.
  unfold wrap64. rewrite (Z.mod_small (commit_ts - ts_wts v1)) by lia.
  assert (Hdelta : 0 <= commit_ts - ts_wts v1 < 2 ^ 64) by lia.
  set (delta := commit_ts - ts_wts v1) in *.
  assert (Hm := Z.mod_pos_bound delta (2 ^ 15) ltac:(lia)).
  assert (Hle : delta mod 2 ^ 15 <= delta) by (apply Z.mod_le; lia).
  rewrite (Z.mod_small (delta - delta mod 2 ^ 15)) by lia.
  rewrite Z.mod_mod by lia.
  replace (delta - (delta - delta mod 2 ^ 15)) with (delta mod 2 ^ 15) by lia.
  rewrite Z.mod_mod by lia.
  replace (ts_wts v1 + (delta - delta mod 2 ^ 15))
    with (commit_ts - delta mod 2 ^ 15) by (unfold delta; lia).
  auto.
Qed.

(** ** Executions of programs *)

Lemma exec_bind {A B} (p : prog A) (f : A -> prog B) t1 t2 a o :
  exec p t1 (Done a) -> exec (f a) t2 o -> exec (bind p f) (t1 ++ t2) o.
Proof.
  revert t1. induction p as [a'|X e k IH|c|]; simpl; intros t1 Hp Hf.
  - destruct Hp as [-> Ha]. injection Ha as ->. exact Hf.
  - destruct Hp as (x & tr' & -> & Hk). exists x, (tr' ++ t2).
    split; [reflexivity|]. now apply IH.
  - destruct Hp as [_ Hp]. discriminate Hp.
  - destruct Hp as [_ Hp]. discriminate Hp.
Qed.

Lemma exec_bind_inv {A B} (p : prog A) (f : A -> prog B) tr o :
  exec (bind p f) tr o ->
  (exists a t1 t2, exec p t1 (Done a) /\ exec (f a) t2 o /\ tr = t1 ++ t2)
  \/ (exists c, exec p tr (Crashed c) /\ o = Crashed c)
  \/ (exec p tr TimedOut /\ o = TimedOut).
Proof.
  revert tr. induction p as [a'|X e k IH|c|]; simpl; intros tr H.
  - left. exists a', [], tr. auto.
  - destruct H as (x & tr' & -> & Hk).
    destruct (IH x tr' Hk) as [(a & t1 & t2 & H1 & H2 & ->)
                              |[(c & H1 & ->)|[H1 ->]]].
    + left. exists a, (obs_of e x :: t1), t2. split; [|auto].
      exists x, t1. auto.
    + right. left. exists c. split; [|reflexivity]. exists x, tr'. auto.
    + right. right. split; [|reflexivity]. exists x, tr'. auto.
  - destruct H as [-> ->]. right. left. exists c. auto.
  - destruct H as [-> ->]. right. right. auto.
Qed.

Lemma exec_bind_done {A B} (p : prog A) (f : A -> prog B) tr b :
  exec (bind p f) tr (Done b) ->
  exists a t1 t2, exec p t1 (Done a) /\ exec (f a) t2 (Done b) /\ tr = t1 ++ t2.
Proof.
  intros H. destruct (exec_bind_inv p f tr _ H) as [H1|[(c & _ & E)|[_ E]]];
    [exact H1|discriminate E|discriminate E].
Qed.

Lemma exec_ret_done {A} (a b : A) tr :
  exec (Ret a) tr (Done b) -> tr = [] /\ a = b.
Proof. simpl. intros [-> E]. injection E as ->. auto. Qed.

Lemma exec_trigger_done {X} (e : event X) tr x :
  exec (trigger e) tr (Done x) -> tr = [obs_of e x].
Proof.
  simpl. intros (x' & tr' & -> & -> & E). injection E as ->. reflexivity.
Qed.

Lemma exec_trigger {X} (e : event X) x : exec (trigger e) [obs_of e x] (Done x).
Proof. simpl. exists x, []. auto. Qed.

(** What a handler produces is an execution. *)
Lemma run_exec {S A} (h : handler S) (p : prog A) s o s' tr :
  run h p s = (o, s', tr) -> exec p tr o.
Proof.
  revert s o s' tr. induction p as [a|X e k IH|c|]; simpl; intros s o s' tr H.
  - injection H as <- <- <-. auto.
  - destruct (h X e s) as [x s1] eqn:Hh.
    destruct (run h (k x) s1) as [[o2 s2] tr2] eqn:Hr.
    injection H as <- <- <-. exists x, tr2. split; [reflexivity|].
    eapply IH. exact Hr.
  - injection H as <- <- <-. auto.
  - injection H as <- <- <-. auto.
Qed.

Section Properties.
Context {dcfg : data_config} {bcfg : build_config}.

Lemma exec_entry_at txn i tr e :
  exec (entry_at txn i) tr (Done e) -> rw_entries txn !! i = Some e /\ tr = [].
Proof.
  unfold entry_at. destruct (rw_entries txn !! i) as [e'|]; simpl.
  - intros [-> E]. injection E as ->. auto.
  - intros [_ E]. discriminate E.
Qed.

Lemma exec_load_tuple_ts e tr v :
  exec (load_tuple_ts e) tr (Done v) ->
  tuple_ts e <> NULL /\ tr = [OLoad (tuple_ts e) v].
Proof.
  unfold load_tuple_ts. destruct (Z.eqb_spec (tuple_ts e) NULL) as [E|E].
  - simpl. intros [_ H]. discriminate H.
  - intros H. apply exec_trigger_done in H. auto.
Qed.

(** ** The commit timestamp (C3) *)

Lemma MAX_max a b : MAX a b = Z.max a b.
Proof. unfold MAX. destruct (Z.ltb_spec b a); lia. Qed.

Lemma max_list_cons x l : max_list (x :: l) = Z.max x (max_list l).
Proof. reflexivity. Qed.

Lemma max_list_nonneg l : 0 <= max_list l.
Proof.
  induction l as [|x l IH]; [reflexivity|]. rewrite max_list_cons. lia.
Qed.

Lemma fold_left_MAX l c :
  0 <= c -> fold_left MAX l c = Z.max c (max_list l).
Proof.
  revert c. induction l as [|x l IH]; intros c Hc.
  - simpl. change (max_list []) with 0. lia.
  - cbn [fold_left]. rewrite max_list_cons, IH; rewrite MAX_max; lia.
Qed.

Lemma max_list_app l1 l2 :
  max_list (l1 ++ l2) = Z.max (max_list l1) (max_list l2).
Proof.
  induction l1 as [|x l1 IH].
  - simpl. change (max_list []) with 0. pose proof (max_list_nonneg l2). lia.
  - cbn [app]. rewrite !max_list_cons, IH. lia.
Qed.

Lemma commit_partition_eq es i ws rs cts :
  commit_partition es i ws rs cts
  = (ws ++ indices_where rw_entry_is_write es i,
     rs ++ indices_where rw_entry_is_read es i,
     fold_left MAX (map read_bound (List.filter rw_entry_is_read es)) cts).
Proof.
  revert i ws rs cts. induction es as [|e es IH]; intros i ws rs cts; simpl.
  - now rewrite !app_nil_r.
  - destruct (rw_entry_is_write e), (rw_entry_is_read e) eqn:Hr; simpl;
      rewrite IH; rewrite <- ?app_assoc; simpl;
      rewrite ?Hr; simpl; reflexivity.
Qed.

Lemma initial_commit_ts_eq txn :
  initial_commit_ts txn
  = max_list (map read_bound (List.filter rw_entry_is_read (rw_entries txn))).
Proof.
  unfold initial_commit_ts. rewrite commit_partition_eq. cbn [snd].
  rewrite fold_left_MAX by lia.
  pose proof (max_list_nonneg
    (map read_bound (List.filter rw_entry_is_read (rw_entries txn)))). lia.
Qed.

Lemma read_bound_eq e :
  0 <= wts e < 2 ^ 48 ->
  read_bound e = wts e + Z.b2z EXPERIMENTAL_MODE_SILO.
Proof.
  intros H. unfold read_bound, wrap64.
  destruct EXPERIMENTAL_MODE_SILO; simpl; [|lia].
  apply Z.mod_small. lia.
Qed.

Lemma exec_raise_commit_ts txn ws c0 tr cts :
  0 <= c0 ->
  exec (raise_commit_ts txn ws c0) tr (Done cts) ->
  exists es vs,
    Forall2 (fun wi w => rw_entries txn !! wi = Some w) ws es
    /\ Forall (fun w => tuple_ts w <> NULL) es
    /\ length vs = length es
    /\ tr = zip_with (fun w v => OLoad (tuple_ts w) v) es vs
    /\ cts = Z.max c0 (max_list (map (fun v => timestamp_set_get_rts v + 1) vs)).
Proof.
  revert c0 tr. induction ws as [|wi ws IH]; intros c0 tr Hc0 H.
  - apply exec_ret_done in H as [-> <-]. exists [], [].
    repeat split; auto. change (max_list _) with 0. lia.
  - cbn [raise_commit_ts] in H.
    apply exec_bind_done in H as (w & t1 & t2 & Hw & H & ->).
    apply exec_entry_at in Hw as [Hw ->].
    apply exec_bind_done in H as (v & t3 & t4 & Hv & H & ->).
    apply exec_load_tuple_ts in Hv as [Hp ->].
    assert (Hrts : wrap64 (timestamp_set_get_rts v + 1)
                   = timestamp_set_get_rts v + 1).
    { unfold wrap64. pose proof (timestamp_set_get_rts_range v).
      apply Z.mod_small. lia. }
    rewrite Hrts, MAX_max in H.
    pose proof (timestamp_set_get_rts_range v).
    apply IH in H as (es & vs & Hes & Hnn & Hlen & -> & ->); [|lia].
    exists (w :: es), (v :: vs). repeat split.
    + constructor; auto.
    + constructor; auto.
    + simpl. now rewrite Hlen.
    + cbn [map]. rewrite max_list_cons. lia.
Qed.

(** ** The answers determine the execution *)

Lemma obs_of_inj {X} (e : event X) (x y : X) : obs_of e x = obs_of e y -> x = y.
Proof.
  destruct e; simpl; intros H;
    try (destruct x, y; reflexivity);
    try (injection H; congruence);
    try (destruct x, y; simpl in H; injection H; congruence).
Qed.

Lemma exec_prefix_det {A} (p : prog A) t1 t2 r1 r2 (o1 o2 : outcome A) :
  exec p t1 o1 -> exec p t2 o2 -> t1 ++ r1 = t2 ++ r2 -> t1 = t2 /\ o1 = o2.
Proof.
  revert t1 t2. induction p as [a|X e k IH|c|]; simpl; intros t1 t2 H1 H2 E.
  - destruct H1 as [-> ->], H2 as [-> ->]. auto.
  - destruct H1 as (x1 & t1' & -> & H1), H2 as (x2 & t2' & -> & H2).
    simpl in E. injection E as E0 E.
    apply obs_of_inj in E0 as ->.
    destruct (IH x2 t1' t2' H1 H2 E) as [-> ->]. auto.
  - destruct H1 as [-> ->], H2 as [-> ->]. auto.
  - destruct H1 as [-> ->], H2 as [-> ->]. auto.
Qed.

Lemma exec_det {A} (p : prog A) tr (o1 o2 : outcome A) :
  exec p tr o1 -> exec p tr o2 -> o1 = o2.
Proof.
  intros H1 H2. now destruct (exec_prefix_det p tr tr [] [] o1 o2 H1 H2 eq_refl).
Qed.

(** ** The phases of commit *)

Lemma exec_commit_run fuel txn tr rc :
  exec (transactional_splinterdb_commit fuel txn) tr (Done rc) ->
  exists txn1 commit_ts is_abort t_lock t_raise t_val t_body t_deinit,
    commit_run fuel txn tr rc txn1 commit_ts is_abort
      t_lock t_raise t_val t_body t_deinit.
Proof.
  intros H. unfold transactional_splinterdb_commit in H.
  apply exec_bind_done in H as (txn1 & t_lock & t2 & Hlock & H & ->).
  apply exec_bind_done in H as (cts & t_raise & t3 & Hraise & H & ->).
  apply exec_bind_done in H as (is_abort & t_val & t_fin & Hval & Hfin & ->).
  unfold commit_finish in Hfin.
  apply exec_bind_done in Hfin as ([] & t_body & t4 & Hbody & Hfin & ->).
  apply exec_bind_done in Hfin as ([] & t_deinit & t5 & Hdeinit & Hfin & ->).
  apply exec_ret_done in Hfin as [-> <-].
  exists txn1, cts, is_abort, t_lock, t_raise, t_val, t_body, t_deinit.
  unfold commit_run. rewrite app_nil_r. repeat split; auto.
Qed.

(** ** Read validation (C1) *)

Lemma rw_entry_is_write_false r : rw_entry_is_write r = false <-> msg r = None.
Proof.
  unfold rw_entry_is_write. destruct (msg r); split; intros H;
    try reflexivity; discriminate H.
Qed.


(** One iteration of the validation loop, by cases on what it reads. *)
Lemma exec_validate_read_loop_S fuel commit_ts r tr ab :
  exec (validate_read_loop (S fuel) commit_ts r) tr (Done ab) ->
  exists v1,
    (commit_ts < timestamp_set_get_rts v1
     /\ tr = [OLoad (tuple_ts r) v1]
     /\ ab = negb (wts r =? ts_wts v1))
    \/ (timestamp_set_get_rts v1 <= commit_ts
        /\ exists locked,
            (negb (wts r =? ts_wts v1)
               || (locked && negb (rw_entry_is_write r)) = true
             /\ tr = [OLoad (tuple_ts r) v1; OLockBit (tuple_ts r) locked]
             /\ ab = true)
            \/ (negb (wts r =? ts_wts v1)
                  || (locked && negb (rw_entry_is_write r)) = false
                /\ exists ok rest,
                    tr = OLoad (tuple_ts r) v1
                           :: OLockBit (tuple_ts r) locked
                           :: OCas (tuple_ts r) v1 (extend_rts commit_ts v1) ok
                           :: rest
                    /\ (if ok then rest = [] /\ ab = false
                        else exec (validate_read_loop fuel commit_ts r)
                               rest (Done ab)))).
Proof.
  cbn [validate_read_loop]. intros H.
  apply exec_bind_done in H as (v1 & t1 & t2 & Hv & H & ->).
  apply exec_load_tuple_ts in Hv as [Hp ->]. exists v1.
  apply exec_bind_done in H as (ila & t3 & t4 & Hl & H & ->).
  destruct (Z.leb_spec (timestamp_set_get_rts v1) commit_ts) as [Hle|Hgt].
  - right. split; [exact Hle|].
    apply exec_bind_done in Hl as (locked & t5 & t6 & Hk & Hr & ->).
    apply exec_trigger_done in Hk as ->.
    apply exec_ret_done in Hr as [-> <-]. exists locked.
    destruct (negb (wts r =? ts_wts v1)
              || (locked && negb (rw_entry_is_write r))) eqn:Hc.
    + left. apply exec_ret_done in H as [-> <-]. auto.
    + right. split; [reflexivity|].
      apply exec_bind_done in H as (ok & t7 & t8 & Hcas & H & ->).
      apply exec_trigger_done in Hcas as ->.
      exists ok, t8. split; [reflexivity|].
      destruct ok; [apply exec_ret_done in H as [-> <-]; auto | exact H].
  - left. split; [exact Hgt|].
    apply exec_ret_done in Hl as [-> <-].
    rewrite orb_false_r in H.
    destruct (negb (wts r =? ts_wts v1)); apply exec_ret_done in H as [-> <-];
      auto.
Qed.

Lemma aborting_snapshot_bool commit_ts r v1 locked :
  timestamp_set_get_rts v1 <= commit_ts ->
  negb (wts r =? ts_wts v1) || (locked && negb (rw_entry_is_write r)) = true
  <-> aborting_snapshot commit_ts r v1 locked.
Proof.
  intros Hle. unfold aborting_snapshot.
  pose proof (rw_entry_is_write_false r) as Hw.
  split.
  - intros H. apply orb_true_iff in H as [H|H].
    + left. apply negb_true_iff, Z.eqb_neq in H. congruence.
    + apply andb_true_iff in H as [Hl Hw']. right.
      apply negb_true_iff in Hw'. repeat split; auto. now apply Hw.
  - intros [H|(_ & -> & H)].
    + apply orb_true_iff. left. apply negb_true_iff, Z.eqb_neq. congruence.
    + apply Hw in H. rewrite H. simpl. apply orb_true_r.
Qed.

Lemma validate_read_loop_abort fuel commit_ts r tr ab :
  exec (validate_read_loop fuel commit_ts r) tr (Done ab) ->
  ab = true
  <-> exists v1 locked,
        observes commit_ts r tr v1 locked
        /\ aborting_snapshot commit_ts r v1 locked.
Proof.
  revert tr. induction fuel as [|fuel IH]; intros tr H.
  { destruct H as [_ H]. discriminate H. }
  apply exec_validate_read_loop_S in H as (v1 & [(Hgt & -> & ->)|(Hle & locked & H)]);
    unfold timestamp_set_get_rts in *.
  - (* the snapshot is ahead of commit_ts: only wts is compared *)
    rewrite negb_true_iff, Z.eqb_neq. split.
    + intros Hd. exists v1, false. split; [|left; auto].
      exists [], []. split; [reflexivity|]. lia.
    + intros (v & lk & (t1 & t2 & E & _) & Ha).
      destruct t1 as [|o t1]; simpl in E; injection E as E1 E2.
      * subst v. destruct Ha as [Ha|(Ha & _)]; [auto|lia].
      * destruct t1; discriminate E2.
  - destruct H as [(Hc & -> & ->)|(Hc & ok & rest & -> & H)].
    + (* abort *)
      split; [intros _|reflexivity]. exists v1, locked.
      split; [|now apply aborting_snapshot_bool].
      exists [], [OLockBit (tuple_ts r) locked]. split; [reflexivity|]. eauto.
    + assert (Hna : ~ aborting_snapshot commit_ts r v1 locked).
      { rewrite <- aborting_snapshot_bool by exact Hle. congruence. }
      assert (Hhead : forall v lk t1 t2,
                 OLoad (tuple_ts r) v1 :: OLockBit (tuple_ts r) locked
                   :: OCas (tuple_ts r) v1 (extend_rts commit_ts v1) ok :: rest
                 = t1 ++ OLoad (tuple_ts r) v :: t2 ->
                 (timestamp_set_get_rts v <= commit_ts ->
                  exists t3, t2 = OLockBit (tuple_ts r) lk :: t3) ->
                 aborting_snapshot commit_ts r v lk ->
                 exists t1', rest = t1' ++ OLoad (tuple_ts r) v :: t2).
      { intros v lk t1 t2 E Hlk Ha.
        destruct t1 as [|o1 t1]; simpl in E; injection E as E1 E2.
        - subst v. destruct (Hlk Hle) as (t3 & ->). injection E2 as -> _.
          contradiction.
        - destruct t1 as [|o2 t1]; simpl in E2; injection E2 as E2 E3;
            [discriminate E2|].
          destruct t1 as [|o3 t1]; simpl in E3; injection E3 as E3 E4;
            [discriminate E3|].
          exists t1. auto. }
      destruct ok.
      * destruct H as [-> ->]. split; [discriminate|].
        intros (v & lk & (t1 & t2 & E & Hlk) & Ha).
        destruct (Hhead v lk t1 t2 E Hlk Ha) as (t1' & E').
        destruct t1'; discriminate E'.
      * rewrite (IH rest H). split.
        -- intros (v & lk & (t1 & t2 & -> & Hlk) & Ha). exists v, lk.
           split; [|exact Ha].
           exists (OLoad (tuple_ts r) v1 :: OLockBit (tuple_ts r) locked
                     :: OCas (tuple_ts r) v1 (extend_rts commit_ts v1) false
                     :: t1), t2. auto.
        -- intros (v & lk & (t1 & t2 & E & Hlk) & Ha).
           destruct (Hhead v lk t1 t2 E Hlk Ha) as (t1' & E').
           exists v, lk. split; [|exact Ha]. exists t1', t2. auto.
Qed.

Lemma validate_read_loop_cas fuel commit_ts r tr ab :
  exec (validate_read_loop fuel commit_ts r) tr (Done ab) ->
  Forall (fun o => forall p v1 v2 ok,
            o = OCas p v1 v2 ok ->
            p = tuple_ts r
            /\ (ts_wts v1 + ts_delta v1) mod 2 ^ 48 <= commit_ts
            /\ v2 = extend_rts commit_ts v1) tr.
Proof.
  revert tr. induction fuel as [|fuel IH]; intros tr H.
  { destruct H as [_ H]. discriminate H. }
  apply exec_validate_read_loop_S in H
    as (v1 & [(_ & -> & _)|(Hle & locked & [(_ & -> & _)|(_ & ok & rest & -> & H)])]).
  - constructor; [discriminate|constructor].
  - constructor; [discriminate|]. constructor; [discriminate|constructor].
  - constructor; [discriminate|]. constructor; [discriminate|].
    constructor.
    + intros p v v2 ok' E. injection E as <- <- <- _. auto.
    + destruct ok; [destruct H as [-> _]; constructor|now apply IH].
Qed.

(** C2, as amended: in the rts-extension step the new word is computed as
    [delta = commit_ts - v1.wts], [shift = delta & ~0x7fff],
    [new wts = v1.wts + shift], [new delta = delta & 0x7fff], with the lock
    bit kept; for every snapshot with [v1.wts <= commit_ts] and
    [commit_ts < 2^48] this yields [new delta < 2^15] and
    [new wts + new delta = commit_ts], which is then also the read
    timestamp of the new word.  In particular for [wts = W], [delta = 0]
    and [commit_ts = W + 40000 < 2^48] the final rts is [W + 40000].  Every
    compare-and-swap of the validation of a read entry proposes this word
    for a snapshot whose read timestamp is at most [commit_ts]. *)
Theorem extend_rts_reaches_commit_ts :
  (forall commit_ts v1,
      ts_wts v1 <= commit_ts < 2 ^ 48 ->
      ts_wts (extend_rts commit_ts v1)
        = ts_wts v1 + Z.land (commit_ts - ts_wts v1) (Z.lnot 0x7fff)
      /\ ts_delta (extend_rts commit_ts v1)
           = Z.land (commit_ts - ts_wts v1) 0x7fff
      /\ ts_lock_bit (extend_rts commit_ts v1) = ts_lock_bit v1
      /\ ts_delta (extend_rts commit_ts v1) < 2 ^ 15
      /\ ts_wts (extend_rts commit_ts v1) + ts_delta (extend_rts commit_ts v1)
           = commit_ts
      /\ timestamp_set_get_rts (extend_rts commit_ts v1) = commit_ts)
  /\ (forall W lock,
         0 <= W -> W + 40000 < 2 ^ 48 ->
         timestamp_set_get_rts (extend_rts (W + 40000) (mk_ts lock 0 W))
           = W + 40000)
  /\ (forall fuel commit_ts r tr ab,
         exec (validate_read_loop fuel commit_ts r) tr (Done ab) ->
         Forall (fun o => forall p v1 v2 ok,
                   o = OCas p v1 v2 ok ->
                   p = tuple_ts r
                   /\ (ts_wts v1 + ts_delta v1) mod 2 ^ 48 <= commit_ts
                   /\ v2 = extend_rts commit_ts v1) tr).
Proof.
  assert (Hgen : forall commit_ts v1,
      ts_wts v1 <= commit_ts < 2 ^ 48 ->
      ts_wts (extend_rts commit_ts v1)
        = ts_wts v1 + Z.land (commit_ts - ts_wts v1) (Z.lnot 0x7fff)
      /\ ts_delta (extend_rts commit_ts v1)
           = Z.land (commit_ts - ts_wts v1) 0x7fff
      /\ ts_lock_bit (extend_rts commit_ts v1) = ts_lock_bit v1
      /\ ts_delta (extend_rts commit_ts v1) < 2 ^ 15
      /\ ts_wts (extend_rts commit_ts v1) + ts_delta (extend_rts commit_ts v1)
           = commit_ts
      /\ timestamp_set_get_rts (extend_rts commit_ts v1) = commit_ts).
  { intros commit_ts v1 Hc.
    pose proof (ts_wts_range v1) as Hw.
    destruct (extend_rts_fields commit_ts v1 ltac:(lia))
      as (Hwts & Hdelta & Hlock).
    rewrite land_lnot_0x7fff, land_0x7fff in * by lia.
    assert (Hd0 : 0 <= commit_ts - ts_wts v1) by lia.
    set (delta := commit_ts - ts_wts v1) in *.
    assert (Hm := Z.mod_pos_bound delta (2 ^ 15) ltac:(lia)).
    assert (Hle : delta mod 2 ^ 15 <= delta) by (apply Z.mod_le; lia).
    rewrite (Z.mod_small (commit_ts - delta mod 2 ^ 15)) in Hwts
      by (unfold delta in *; lia).
    rewrite timestamp_set_get_rts_eq; rewrite Hwts, Hdelta, ?Hlock;
      unfold delta in *; repeat split; lia. }
  split; [exact Hgen|]. split.
  - intros W lock HW Hfit.
    assert (Hw : ts_wts (mk_ts lock 0 W) = W)
      by (rewrite ts_wts_mk; apply Z.mod_small; lia).
    apply Hgen. rewrite Hw. lia.
  - exact validate_read_loop_cas.
Qed.

Lemma validate_read_abort fuel commit_ts r tr ab :
  exec (validate_read fuel commit_ts r) tr (Done ab) ->
  ab = true
  <-> rts r < commit_ts
      /\ exists v1 locked,
           observes commit_ts r tr v1 locked
           /\ aborting_snapshot commit_ts r v1 locked.
Proof.
  unfold validate_read. destruct (negb (rw_entry_is_read r)).
  { intros [_ H]. discriminate H. }
  destruct (Z.ltb_spec (rts r) commit_ts) as [Hlt|Hge]; intros H.
  - rewrite (validate_read_loop_abort _ _ _ _ _ H). tauto.
  - apply exec_ret_done in H as [-> <-]. split; [discriminate|]. lia.
Qed.

Lemma exec_validate_reads_cons fuel txn commit_ts ri rs tr ab :
  exec (validate_reads fuel txn commit_ts (ri :: rs)) tr (Done ab) <->
  exists r t_a x t_b,
    rw_entries txn !! ri = Some r
    /\ exec (validate_read fuel commit_ts r) t_a (Done x)
    /\ tr = t_a ++ t_b
    /\ (if x then t_b = [] /\ ab = true
        else exec (validate_reads fuel txn commit_ts rs) t_b (Done ab)).
Proof.
  cbn [validate_reads]. split.
  - intros H.
    apply exec_bind_done in H as (r & t1 & t2 & Hr & H & ->).
    apply exec_entry_at in Hr as [Hr ->].
    apply exec_bind_done in H as (x & t_a & t_b & Ha & H & ->).
    exists r, t_a, x, t_b. repeat split; auto.
    destruct x; [apply exec_ret_done in H as [-> <-]; auto|exact H].
  - intros (r & t_a & x & t_b & Hr & Ha & -> & H).
    unfold entry_at. rewrite Hr. cbn [bind].
    eapply exec_bind; [exact Ha|].
    destruct x; [destruct H as [-> ->]; simpl; auto|exact H].
Qed.

Lemma validate_reads_abort fuel txn commit_ts rs tr ab :
  exec (validate_reads fuel txn commit_ts rs) tr (Done ab) ->
  ab = true <-> read_abort_witness fuel txn commit_ts rs tr.
Proof.
  revert tr. induction rs as [|ri rs IH]; intros tr H.
  - apply exec_ret_done in H as [-> <-]. split; [discriminate|].
    intros (rs1 & ri & rs2 & r & t1 & t_r & t2 & b & v1 & lk & E & _).
    destruct rs1; discriminate E.
  - apply exec_validate_reads_cons in H
      as (r & t_a & x & t_b & Hr & Ha & -> & H).
    split.
    + intros ->. destruct x.
      * destruct H as [-> _].
        destruct (proj1 (validate_read_abort _ _ _ _ _ Ha) eq_refl)
          as (Hlt & v1 & lk & Hobs & Hab).
        exists [], ri, rs, r, [], t_a, [], true, v1, lk.
        repeat split; auto.
      * destruct (proj1 (IH _ H) eq_refl)
          as (rs1 & ri' & rs2 & r' & t1 & t_r & t2 & b & v1 & lk
              & -> & Hr' & -> & H1 & Hb & Hlt & Hobs & Hab).
        exists (ri :: rs1), ri', rs2, r', (t_a ++ t1), t_r, t2, b, v1, lk.
        repeat split; auto.
        -- now rewrite <- app_assoc.
        -- apply exec_validate_reads_cons. exists r, t_a, false, t1. auto.
    + intros (rs1 & ri' & rs2 & r' & t1 & t_r & t2 & b & v1 & lk
              & E & Hr' & Etr & H1 & Hb & Hlt & Hobs & Hab).
      assert (b = true) as ->.
      { apply (validate_read_abort _ _ _ _ _ Hb). eauto. }
      destruct rs1 as [|ri1 rs1]; simpl in E; injection E as <- ->.
      * apply exec_ret_done in H1 as [-> _]. simpl in Etr.
        assert (r' = r) as -> by congruence.
        destruct (exec_prefix_det _ _ _ _ _ _ _ Ha Hb Etr) as [-> Ex].
        injection Ex as ->. now destruct H.
      * apply exec_validate_reads_cons in H1
          as (r1 & t_a' & x' & t_b' & Hr1 & Ha' & -> & H1).
        assert (r1 = r) as -> by congruence.
        rewrite <- app_assoc in Etr.
        destruct (exec_prefix_det _ _ _ _ _ _ _ Ha Ha' Etr) as [-> Ex].
        injection Ex as ->.
        destruct x'; [destruct H1 as [_ H1]; discriminate H1|].
        apply app_inv_head in Etr as ->.
        apply (IH _ H).
        exists rs1, ri', rs2, r', t_b', t_r, t2, true, v1, lk.
        repeat split; auto.
Qed.

Lemma validate_read_seg fuel commit_ts r tr ab :
  exec (validate_read fuel commit_ts r) tr (Done ab) ->
  validation_seg commit_ts r tr.
Proof.
  unfold validate_read, validation_seg.
  destruct (negb (rw_entry_is_read r)).
  { intros [_ H]. discriminate H. }
  destruct (Z.ltb_spec (rts r) commit_ts) as [Hlt|Hge]; intros H.
  - right. split; [exact Hlt|]. destruct fuel as [|fuel].
    { destruct H as [_ H]. discriminate H. }
    apply exec_validate_read_loop_S in H
      as (v1 & [(_ & -> & _)|(_ & locked & [(_ & -> & _)|(_ & ok & rest & -> & _)])]);
      eauto.
  - left. apply exec_ret_done in H as [-> _]. auto.
Qed.

Lemma validate_reads_walk fuel txn commit_ts rs tr ab :
  exec (validate_reads fuel txn commit_ts rs) tr (Done ab) ->
  validation_walk txn commit_ts rs ab tr.
Proof.
  revert tr. induction rs as [|ri rs IH]; intros tr H.
  - apply exec_ret_done in H as [-> <-]. exists [].
    split; [reflexivity|]. split; [constructor|reflexivity].
  - apply exec_validate_reads_cons in H
      as (r & t_a & x & t_b & Hr & Ha & -> & H).
    pose proof (validate_read_seg _ _ _ _ _ Ha) as Hseg.
    destruct x.
    + destruct H as [-> ->]. exists [t_a]. cbn [concat length take].
      split; [reflexivity|]. split; [|discriminate].
      constructor; [eauto|constructor].
    + apply IH in H as (segs & -> & Hsegs & Hlen).
      exists (t_a :: segs). cbn [concat length take].
      split; [reflexivity|]. split.
      * constructor; [eauto|exact Hsegs].
      * intros E. now rewrite (Hlen E).
Qed.

(** C1, as amended: commit returns [-1] exactly when read validation
    aborts, and read validation aborts if and only if some read entry [r]
    with [r.rts < commit_ts], reached by the loop, observes a snapshot [v1]
    of its slot with [v1.wts != r.wts], or with
    [(v1.wts + v1.delta) mod 2^48 <= commit_ts] while the lock bit of the
    slot is set and the entry has no pending write; the read set is made
    of the entries with [is_read], in the order of the entries, and
    validation walks it in that order up to the first entry that aborts,
    loading the slot of every entry with [r.rts < commit_ts]; a read entry
    with [r.rts >= commit_ts] is not validated: its validation touches no
    slot and does not abort. *)
Theorem read_validation_aborts_iff fuel txn tr rc :
  exec (transactional_splinterdb_commit fuel txn) tr (Done rc) ->
  (exists txn1 commit_ts is_abort t_lock t_raise t_val t_body t_deinit,
      commit_run fuel txn tr rc txn1 commit_ts is_abort
        t_lock t_raise t_val t_body t_deinit
      /\ commit_read_set txn
         = indices_where rw_entry_is_read (rw_entries txn) 0
      /\ validation_walk txn1 commit_ts (commit_read_set txn) is_abort t_val
      /\ (rc = -1 \/ rc = 0)
      /\ (rc = -1 <->
          read_abort_witness fuel txn1 commit_ts (commit_read_set txn) t_val))
  /\ (forall commit_ts r,
         rw_entry_is_read r = true -> commit_ts <= rts r ->
         validate_read fuel commit_ts r = Ret false).
Proof.
  intros H. split.
  - apply exec_commit_run in H
      as (txn1 & cts & is_abort & t_lock & t_raise & t_val & t_body & t_deinit
          & Hrun).
    pose proof Hrun as (_ & _ & Hval & _ & _ & Hrc & _).
    exists txn1, cts, is_abort, t_lock, t_raise, t_val, t_body, t_deinit.
    split; [exact Hrun|]. split.
    { unfold commit_read_set. rewrite commit_partition_eq. reflexivity. }
    split; [exact (validate_reads_walk _ _ _ _ _ _ Hval)|].
    split.
    + destruct is_abort; simpl in Hrc; lia.
    + split.
      * intros Hm. apply (validate_reads_abort _ _ _ _ _ _ Hval).
        destruct is_abort; [reflexivity|simpl in Hrc; lia].
      * intros Hw. apply (validate_reads_abort _ _ _ _ _ _ Hval) in Hw.
        subst. reflexivity.
  - intros cts r Hr Hge. unfold validate_read. rewrite Hr. simpl.
    destruct (Z.ltb_spec (rts r) cts); [lia|reflexivity].
Qed.

Lemma events_in_exec {A} (P : obs -> Prop) (p : prog A) tr o :
  events_in P p -> exec p tr o -> Forall P tr.
Proof.
  revert tr. induction p as [a|X e k IH|c|]; simpl; intros tr HP H.
  - destruct H as [-> _]. constructor.
  - destruct H as (x & tr' & -> & H). destruct (HP x) as [Hx Hk].
    constructor; [exact Hx|]. eapply IH; eauto.
  - destruct H as [-> _]. constructor.
  - destruct H as [-> _]. constructor.
Qed.

Lemma events_in_bind {A B} (P : obs -> Prop) (p : prog A) (f : A -> prog B) :
  events_in P p -> (forall a, events_in P (f a)) -> events_in P (bind p f).
Proof.
  intros Hp Hf. induction p as [a|X e k IH|c|]; simpl; auto.
  intros x. destruct (Hp x) as [Hx Hk]. split; [exact Hx|]. apply IH. exact Hk.
Qed.

Lemma events_in_trigger {X} (P : obs -> Prop) (e : event X) :
  (forall x, P (obs_of e x)) -> events_in P (trigger e).
Proof. intros H x. simpl. auto. Qed.

(** ** Compare-and-swap loops *)

Lemma cas_loop_tr_ext p f g tr :
  (forall v, f v = g v) -> cas_loop_tr p f tr -> cas_loop_tr p g tr.
Proof.
  intros E H. induction H as [v|v tr H IH].
  - rewrite E. constructor.
  - rewrite E. now constructor.
Qed.

Lemma cas_loop_tr_last p f tr :
  cas_loop_tr p f tr ->
  exists tr0 v, tr = tr0 ++ [OLoad p v; OCas p v (f v) true]
    /\ Forall (fun o => forall q v1 v2, o <> OCas q v1 v2 true) tr0.
Proof.
  induction 1 as [v|v tr H (tr0 & v' & -> & Hf)].
  - exists [], v. split; [reflexivity|constructor].
  - exists (OLoad p v :: OCas p v (f v) false :: tr0), v'.
    split; [reflexivity|]. repeat constructor; auto; discriminate.
Qed.

Lemma exec_rw_entry_unlock fuel e tr :
  exec (rw_entry_unlock fuel e) tr (Done tt) ->
  tuple_ts e <> NULL /\ release_tr (tuple_ts e) tr.
Proof.
  revert tr. induction fuel as [|fuel IH]; intros tr H.
  { destruct H as [_ H]. discriminate H. }
  cbn [rw_entry_unlock] in H.
  apply exec_bind_done in H as (v & t1 & t2 & Hv & H & ->).
  apply exec_load_tuple_ts in Hv as [Hp ->].
  apply exec_bind_done in H as (ok & t3 & t4 & Hc & H & ->).
  apply exec_trigger_done in Hc as ->. split; [exact Hp|].
  destruct ok.
  - apply exec_ret_done in H as [-> _]. apply cas_loop_done.
  - apply IH in H as [_ H]. now apply cas_loop_retry.
Qed.

Lemma exec_install_commit_ts fuel commit_ts w tr :
  exec (install_commit_ts fuel commit_ts w) tr (Done tt) ->
  tuple_ts w <> NULL /\ cas_loop_tr (tuple_ts w) (committed_ts commit_ts) tr.
Proof.
  revert tr. induction fuel as [|fuel IH]; intros tr H.
  { destruct H as [_ H]. discriminate H. }
  cbn [install_commit_ts] in H.
  apply exec_bind_done in H as (v & t1 & t2 & Hv & H & ->).
  apply exec_load_tuple_ts in Hv as [Hp ->].
  apply exec_bind_done in H as (ok & t3 & t4 & Hc & H & ->).
  apply exec_trigger_done in Hc as ->. split; [exact Hp|].
  destruct ok.
  - apply exec_ret_done in H as [-> _]. apply cas_loop_done.
  - apply IH in H as [_ H]. now apply cas_loop_retry.
Qed.

Lemma exec_apply_write fuel commit_ts w tr :
  exec (apply_write fuel commit_ts w) tr (Done tt) ->
  exists m t_cas,
    msg w = Some m
    /\ tr = apply_message_tr w m ++ t_cas
    /\ tuple_ts w <> NULL
    /\ cas_loop_tr (tuple_ts w) (fun _ => mk_ts false 0 commit_ts) t_cas.
Proof.
  unfold apply_write, apply_message_tr. destruct (msg w) as [m|].
  2:{ intros [_ H]. discriminate H. }
  intros H. apply exec_bind_done in H as ([] & t1 & t2 & Hk & H & ->).
  apply exec_install_commit_ts in H as [Hp H].
  apply (cas_loop_tr_ext _ _ (fun _ => mk_ts false 0 commit_ts)) in H;
    [|intros v; apply committed_ts_eq].
  exists m, t2. repeat split; auto. f_equal.
  destruct EXPERIMENTAL_MODE_BYPASS_SPLINTERDB.
  - apply exec_trigger_done in Hk. exact Hk.
  - apply exec_bind_done in Hk as (rc & t3 & t4 & Hm & Hr & ->).
    destruct (Z.eqb_spec rc 0) as [->|Hrc].
    2:{ destruct Hr as [_ Hr]. discriminate Hr. }
    apply exec_ret_done in Hr as [-> _]. rewrite app_nil_r.
    unfold apply_message in Hm.
    destruct (message_class m).
    + apply exec_ret_done in Hm as [-> _]. reflexivity.
    + apply exec_trigger_done in Hm. exact Hm.
    + apply exec_trigger_done in Hm. exact Hm.
    + apply exec_trigger_done in Hm. exact Hm.
Qed.

Lemma exec_apply_writes fuel txn commit_ts ws tr :
  exec (apply_writes fuel txn commit_ts ws) tr (Done tt) ->
  exists segs,
    tr = concat segs
    /\ Forall2
         (fun wi seg =>
            exists w m t_cas,
              rw_entries txn !! wi = Some w
              /\ msg w = Some m
              /\ seg = apply_message_tr w m ++ t_cas
              /\ tuple_ts w <> NULL
              /\ cas_loop_tr (tuple_ts w) (fun _ => mk_ts false 0 commit_ts)
                   t_cas)
         ws segs.
Proof.
  revert tr. induction ws as [|wi ws IH]; intros tr H.
  - apply exec_ret_done in H as [-> _]. exists []. split; [reflexivity|constructor].
  - cbn [apply_writes] in H.
    apply exec_bind_done in H as (w & t1 & t2 & Hw & H & ->).
    apply exec_entry_at in Hw as [Hw ->].
    apply exec_bind_done in H as ([] & t3 & t4 & Ha & H & ->).
    apply exec_apply_write in Ha as (m & t_cas & Hm & -> & Hp & Hc).
    apply IH in H as (segs & -> & Hsegs).
    exists ((apply_message_tr w m ++ t_cas) :: segs).
    split; [reflexivity|]. constructor; [|exact Hsegs].
    exists w, m, t_cas. auto.
Qed.

(** C9, as amended: after a non-aborting commit has applied a buffered
    write, the timestamp word of its key is
    [{wts = commit_ts mod 2^48, delta = 0, lock_bit = 0}]: the apply step
    hands the write to the key-value store and then loops on a
    compare-and-swap that stores exactly this word, so after every
    committed write the delta is zero and the lock bit clear, and [wts] is
    [commit_ts] itself as long as [commit_ts < 2^48]. *)
Theorem committed_write_installs_commit_ts fuel txn tr rc :
  exec (transactional_splinterdb_commit fuel txn) tr (Done rc) ->
  rc = 0 ->
  exists txn1 commit_ts t_lock t_raise t_val t_body t_deinit segs,
    commit_run fuel txn tr rc txn1 commit_ts false
      t_lock t_raise t_val t_body t_deinit
    /\ t_body = concat segs
    /\ Forall2
         (fun wi seg =>
            exists w m t_cas,
              rw_entries txn1 !! wi = Some w
              /\ msg w = Some m
              /\ seg = apply_message_tr w m ++ t_cas
              /\ cas_loop_tr (tuple_ts w) (fun _ => mk_ts false 0 commit_ts)
                   t_cas)
         (sorted_write_set txn) segs
    /\ ts_wts (mk_ts false 0 commit_ts) = commit_ts mod 2 ^ 48
    /\ ts_delta (mk_ts false 0 commit_ts) = 0
    /\ ts_lock_bit (mk_ts false 0 commit_ts) = false
    /\ (commit_ts < 2 ^ 48 -> ts_wts (mk_ts false 0 commit_ts) = commit_ts).
Proof.
  intros H Hrc.
  apply exec_commit_run in H
    as (txn1 & cts & is_abort & t_lock & t_raise & t_val & t_body & t_deinit
        & Hrun).
  pose proof Hrun as (Hlock & Hraise & Hval & Hbody & Hdeinit & Erc & Etr).
  destruct is_abort; [simpl in Erc; lia|].
  simpl in Hbody. apply exec_apply_writes in Hbody as (segs & -> & Hsegs).
  exists txn1, cts, t_lock, t_raise, t_val, (concat segs), t_deinit, segs.
  split; [exact Hrun|]. split; [reflexivity|]. split.
  { eapply Forall2_impl; [exact Hsegs|].
    intros wi seg (w & m & t_cas & ? & ? & ? & ? & ?). exists w, m, t_cas. auto. }
  rewrite ts_wts_mk, ts_delta_mk, ts_lock_bit_mk.
  repeat split; auto.
  intros Hlt. apply Z.mod_small. split; [|exact Hlt].
  assert (H0 : 0 <= initial_commit_ts txn)
    by (rewrite initial_commit_ts_eq; apply max_list_nonneg).
  apply exec_raise_commit_ts in Hraise as (_ & vs & _ & _ & _ & _ & ->);
    [lia|exact H0].
Qed.

(** ** No-wait locking *)

Lemma without_installs_app t1 t2 :
  without_installs (t1 ++ t2) = without_installs t1 ++ without_installs t2.
Proof. apply List.filter_app. Qed.

Lemma without_installs_cas_loop p f tr :
  cas_loop_tr p f tr -> without_installs tr = tr.
Proof.
  induction 1 as [v|v tr H IH]; [reflexivity|].
  unfold without_installs in *. simpl. now rewrite IH.
Qed.

Lemma without_installs_releases ps rel :
  Forall2 release_tr ps rel -> without_installs (concat rel) = concat rel.
Proof.
  induction 1 as [|p seg ps rel Hp H IH]; [reflexivity|].
  simpl. rewrite without_installs_app, IH.
  now rewrite (without_installs_cas_loop _ _ _ Hp).
Qed.

Lemma slots_kept_refl txn : slots_kept txn txn.
Proof. intros i w H _. exact H. Qed.

Lemma slots_kept_trans t1 t2 t3 :
  slots_kept t1 t2 -> slots_kept t2 t3 -> slots_kept t1 t3.
Proof. intros H12 H23 i w H Hp. apply H23; auto. Qed.

Lemma slot_of_kept txn txn' wi p :
  slots_kept txn txn' -> slot_of txn wi p -> slot_of txn' wi p.
Proof.
  intros Hk (w & Hw & <- & Hp). exists w. repeat split; auto.
Qed.

Lemma slot_of_fun txn wi p q : slot_of txn wi p -> slot_of txn wi q -> p = q.
Proof. intros (w & Hw & <- & _) (w' & Hw' & <- & _). congruence. Qed.

Lemma Forall2_through {A B C} (R : A -> B -> Prop) (Q : B -> C -> Prop)
    la lb lc :
  (forall a b b', R a b -> R a b' -> b = b') ->
  Forall2 (fun a c => exists b, R a b /\ Q b c) la lc ->
  Forall2 R la lb ->
  Forall2 Q lb lc.
Proof.
  intros Hfun H. revert lb.
  induction H as [|a c la lc (b & Hab & Hbc) H IH]; intros lb Hl.
  - apply Forall2_nil_inv_l in Hl as ->. constructor.
  - apply Forall2_cons_inv_l in Hl as (b' & lb' & Hab' & Hl & ->).
    rewrite <- (Hfun a b b' Hab Hab'). constructor; auto.
Qed.

Lemma Forall2_middle {A B C} (R : A -> B -> Prop) (Q : B -> C -> Prop) la lc :
  Forall2 (fun a c => exists b, R a b /\ Q b c) la lc ->
  exists lb, Forall2 R la lb /\ Forall2 Q lb lc.
Proof.
  induction 1 as [|a c la lc (b & Hab & Hbc) H (lb & H1 & H2)].
  - exists []. split; constructor.
  - exists (b :: lb). split; constructor; auto.
Qed.

Lemma exec_rw_entry_try_lock e tr ok :
  exec (rw_entry_try_lock e) tr (Done ok) ->
  tuple_ts e <> NULL
  /\ without_installs tr = tr
  /\ (if ok then acquire_tr (tuple_ts e) tr else busy_tr (tuple_ts e) tr).
Proof.
  unfold rw_entry_try_lock. intros H.
  apply exec_bind_done in H as (v & t1 & t2 & Hv & H & ->).
  apply exec_load_tuple_ts in Hv as [Hp ->]. split; [exact Hp|].
  destruct (ts_lock_bit v) eqn:Hl.
  - apply exec_ret_done in H as [-> <-]. split; [reflexivity|].
    exists v. left. auto.
  - apply exec_trigger_done in H as ->. split; [reflexivity|].
    destruct ok; exists v; [|right]; auto.
Qed.

Lemma exec_rw_entry_iceberg_insert e tr is_new e' :
  exec (rw_entry_iceberg_insert e) tr (Done (is_new, e')) ->
  without_installs tr = []
  /\ Forall not_kvs tr
  /\ (tuple_ts e <> NULL -> e' = e /\ tr = [])
  /\ key e' = key e /\ msg e' = msg e /\ wts e' = wts e /\ rts e' = rts e
  /\ is_read e' = is_read e
  /\ (tuple_ts e = NULL ->
      tr = [OIcebergInsert (negb EXPERIMENTAL_MODE_KEEP_ALL_KEYS) (key e)
              (tuple_ts e') is_new]).
Proof.
  unfold rw_entry_iceberg_insert.
  destruct (Z.eqb_spec (tuple_ts e) NULL) as [E|E]; cbn [negb].
  - intros H.
    apply exec_bind_done in H as ([p n] & t1 & t2 & Hi & H & ->).
    cbn [fst snd] in H. destruct (negb (p mod 8 =? 0)).
    { destruct H as [_ H]. discriminate H. }
    apply exec_ret_done in H as [-> H]. injection H as H1 H2. subst.
    rewrite app_nil_r.
    destruct EXPERIMENTAL_MODE_KEEP_ALL_KEYS;
      apply exec_trigger_done in Hi as ->; simpl;
      repeat split; auto; try contradiction; repeat constructor.
  - intros [-> H]. injection H as H1 H2. subst.
    repeat split; auto; try contradiction.
Qed.

Lemma lock_attempt_tr txn todo n tr txn_a r :
  exec (lock_attempt txn todo n) tr (Done (txn_a, r)) ->
  slots_kept txn txn_a
  /\ match r with
     | None =>
         exists segs,
           Forall2 (fun wi seg =>
                      exists p, slot_of txn_a wi p /\ acquire_tr p seg)
             todo segs
           /\ without_installs tr = concat segs
     | Some m =>
         exists k wi p acq t_busy,
           m = (n + k)%nat
           /\ todo !! k = Some wi
           /\ slot_of txn_a wi p
           /\ Forall2 (fun wi seg =>
                         exists p, slot_of txn_a wi p /\ acquire_tr p seg)
                (take k todo) acq
           /\ busy_tr p t_busy
           /\ without_installs tr = concat acq ++ t_busy
     end.
Proof.
  revert txn n tr. induction todo as [|wi todo IH]; intros txn n tr H.
  - apply exec_ret_done in H as [-> H]. injection H as <- <-.
    split; [apply slots_kept_refl|]. exists []. split; [constructor|reflexivity].
  - cbn [lock_attempt] in H.
    apply exec_bind_done in H as (w & t1 & t2 & Hw & H & ->).
    apply exec_entry_at in Hw as [Hw ->].
    apply exec_bind_done in H as ([is_new w'] & t_i & t3 & Hi & H & ->).
    cbn [snd] in H.
    apply exec_bind_done in H as (ok & t_l & t4 & Hl & H & ->).
    apply exec_rw_entry_try_lock in Hl as (Hp' & Hfl & Hl).
    assert (Hti : without_installs t_i = []
                  /\ (tuple_ts w <> NULL -> w' = w)).
    { destruct (Z.eqb_spec (tuple_ts w) NULL) as [E|E].
      - apply exec_rw_entry_iceberg_insert in Hi as (Hi & _).
        split; [exact Hi|]. intros C. contradiction.
      - apply exec_ret_done in Hi as [-> Hi]. injection Hi as _ <-. auto. }
    destruct Hti as [Hti Hsame].
    assert (Hkept : slots_kept txn (store_entry txn wi w')).
    { intros i e He Hpe. unfold store_entry. cbn [rw_entries].
      destruct (decide (i = wi)) as [->|Hne].
      - assert (e = w) as -> by congruence.
        rewrite (Hsame Hpe).
        apply list_lookup_insert_eq. now apply lookup_lt_Some in Hw.
      - rewrite list_lookup_insert_ne by auto. exact He. }
    assert (Hslot : slot_of (store_entry txn wi w') wi (tuple_ts w')).
    { exists w'. repeat split; auto. unfold store_entry. cbn [rw_entries].
      apply list_lookup_insert_eq. now apply lookup_lt_Some in Hw. }
    simpl. rewrite !without_installs_app, Hti, Hfl. simpl.
    destruct ok.
    + apply IH in H as (Hk2 & H).
      split; [eapply slots_kept_trans; eauto|].
      pose proof (slot_of_kept _ _ _ _ Hk2 Hslot) as Hslot_a.
      destruct r as [m|].
      * destruct H as (k & wj & p & acq & t_busy & -> & Hk & Hs & Hacq & Hb & ->).
        exists (S k), wj, p, (t_l :: acq), t_busy.
        split; [lia|]. split; [exact Hk|]. split; [exact Hs|].
        split; [|split; [exact Hb|simpl; now rewrite <- app_assoc]].
        simpl. constructor; [|exact Hacq]. eauto.
      * destruct H as (segs & Hsegs & ->).
        exists (t_l :: segs). split; [|reflexivity].
        constructor; [|exact Hsegs]. eauto.
    + apply exec_ret_done in H as [-> H]. injection H as <- <-.
      split; [exact Hkept|].
      exists 0%nat, wi, (tuple_ts w'), [], t_l.
      rewrite app_nil_r. split; [lia|]. split; [reflexivity|].
      split; [exact Hslot|]. split; [constructor|]. split; [exact Hl|].
      reflexivity.
Qed.

Lemma exec_unlock_all fuel txn ws tr :
  exec (unlock_all fuel txn ws) tr (Done tt) ->
  exists rel,
    tr = concat rel
    /\ Forall2 (fun wi seg => exists p, slot_of txn wi p /\ release_tr p seg)
         ws rel.
Proof.
  revert tr. induction ws as [|wi ws IH]; intros tr H.
  - apply exec_ret_done in H as [-> _]. exists []. split; [reflexivity|constructor].
  - cbn [unlock_all] in H.
    apply exec_bind_done in H as (w & t1 & t2 & Hw & H & ->).
    apply exec_entry_at in Hw as [Hw ->].
    apply exec_bind_done in H as ([] & t3 & t4 & Hu & H & ->).
    apply exec_rw_entry_unlock in Hu as [Hp Hu].
    apply IH in H as (rel & -> & Hrel).
    exists (t3 :: rel). split; [reflexivity|].
    constructor; [|exact Hrel]. exists (tuple_ts w). split; [|exact Hu].
    exists w. auto.
Qed.

Lemma lock_write_set_no_wait fuel txn ws tr txn1 :
  exec (lock_write_set fuel txn ws) tr (Done txn1) ->
  slots_kept txn txn1
  /\ exists ps,
       Forall2 (slot_of txn1) ws ps /\ no_wait_tr ps (without_installs tr).
Proof.
  revert txn tr. induction fuel as [|fuel IH]; intros txn tr H.
  { destruct H as [_ H]. discriminate H. }
  cbn [lock_write_set] in H.
  apply exec_bind_done in H as ([txn_a r] & t_a & t2 & Ha & H & ->).
  cbn [fst snd] in H.
  apply lock_attempt_tr in Ha as (Hkept & Ha).
  destruct r as [m|].
  - destruct Ha as (k & wi & p & acq & t_busy & -> & Hk & Hs & Hacq & Hb & Et).
    cbn [Nat.add] in H.
    apply exec_bind_done in H as ([] & t_u & t3 & Hu & H & ->).
    apply exec_bind_done in H as ([] & t_s & t_r & Hsl & H & ->).
    apply exec_trigger_done in Hsl as ->.
    apply exec_unlock_all in Hu as (rel & -> & Hrel).
    apply IH in H as (Hkept2 & ps & Hps & Hnw).
    split; [eapply slots_kept_trans; eauto|].
    exists ps. split; [exact Hps|].
    assert (Hfun : forall a b b', slot_of txn1 a b -> slot_of txn1 a b' -> b = b')
      by (intros; eapply slot_of_fun; eauto).
    assert (Hup : forall segs (Q : Z -> list obs -> Prop),
               Forall2 (fun wi seg => exists p, slot_of txn_a wi p /\ Q p seg)
                 (take k ws) segs ->
               Forall2 Q (take k ps) segs).
    { intros segs Q HQ.
      apply (Forall2_through (slot_of txn1) Q (take k ws)); auto.
      - eapply Forall2_impl; [exact HQ|].
        intros a c (b & Hab & Hbc). exists b. split; [|exact Hbc].
        eapply slot_of_kept; eauto.
      - now apply Forall2_take. }
    pose proof (Hup _ _ Hacq) as Hacq'. pose proof (Hup _ _ Hrel) as Hrel'.
    assert (Hpk : ps !! k = Some p).
    { destruct (Forall2_lookup_l _ _ _ _ _ Hps Hk) as (q & Hq & Hsq).
      rewrite Hq. f_equal. eapply Hfun; [exact Hsq|].
      eapply slot_of_kept; eauto. }
    rewrite !without_installs_app, Et.
    rewrite (without_installs_releases _ _ Hrel').
    change (without_installs [OSleep 1000]) with [OSleep 1000].
    rewrite <- !app_assoc. simpl.
    eapply no_wait_retry; eauto.
  - apply exec_ret_done in H as [-> <-]. rewrite app_nil_r.
    split; [exact Hkept|].
    destruct Ha as (segs & Hsegs & ->).
    apply Forall2_middle in Hsegs as (ps & Hps & Hacq).
    exists ps. split; [exact Hps|]. now apply no_wait_locked.
Qed.

(** ** Which phases talk to the key-value store *)

Create HintDb nokvs.

Ltac ev_step :=
  match goal with
  | |- events_in _ (bind _ _) => apply events_in_bind; [|intros ?]
  | |- events_in _ (trigger _) =>
      apply events_in_trigger; intros ?; split; reflexivity
  | |- events_in _ (if ?b then _ else _) => destruct b
  | |- events_in _ (match ?x with _ => _ end) => destruct x
  | |- events_in _ (Ret _) => exact I
  | |- events_in _ (Crash _) => exact I
  | |- events_in _ Timeout => exact I
  | |- _ => solve [auto with nokvs]
  end.

Ltac ev_solve := repeat ev_step.

Lemma not_kvs_entry_at txn i : events_in not_kvs (entry_at txn i).
Proof. unfold entry_at. ev_solve. Qed.

Lemma not_kvs_load_tuple_ts e : events_in not_kvs (load_tuple_ts e).
Proof. unfold load_tuple_ts. ev_solve. Qed.

#[local] Hint Resolve not_kvs_entry_at not_kvs_load_tuple_ts : nokvs.

Lemma not_kvs_try_lock e : events_in not_kvs (rw_entry_try_lock e).
Proof. unfold rw_entry_try_lock, timestamp_set_compare_and_swap. ev_solve. Qed.

Lemma not_kvs_unlock fuel e : events_in not_kvs (rw_entry_unlock fuel e).
Proof.
  induction fuel as [|fuel IH]; cbn [rw_entry_unlock];
    unfold timestamp_set_compare_and_swap; ev_solve.
Qed.

Lemma not_kvs_iceberg_insert e : events_in not_kvs (rw_entry_iceberg_insert e).
Proof.
  unfold rw_entry_iceberg_insert.
  destruct (negb (tuple_ts e =? NULL)); [exact I|].
  apply events_in_bind.
  - apply events_in_trigger. intros x.
    destruct EXPERIMENTAL_MODE_KEEP_ALL_KEYS; split; reflexivity.
  - intros r. ev_solve.
Qed.

Lemma not_kvs_iceberg_remove e : events_in not_kvs (rw_entry_iceberg_remove e).
Proof. unfold rw_entry_iceberg_remove. ev_solve. Qed.

Lemma not_kvs_deinit e : events_in not_kvs (rw_entry_deinit e).
Proof. unfold rw_entry_deinit. ev_solve. Qed.

#[local] Hint Resolve not_kvs_try_lock not_kvs_unlock not_kvs_iceberg_insert
  not_kvs_iceberg_remove not_kvs_deinit : nokvs.

Lemma not_kvs_lock_attempt txn todo n :
  events_in not_kvs (lock_attempt txn todo n).
Proof.
  revert txn n. induction todo as [|wi todo IH]; intros txn n;
    cbn [lock_attempt]; ev_solve.
Qed.

Lemma not_kvs_unlock_all fuel txn ws :
  events_in not_kvs (unlock_all fuel txn ws).
Proof. induction ws as [|wi ws IH]; cbn [unlock_all]; ev_solve. Qed.

#[local] Hint Resolve not_kvs_lock_attempt not_kvs_unlock_all : nokvs.

Lemma not_kvs_lock_write_set fuel txn ws :
  events_in not_kvs (lock_write_set fuel txn ws).
Proof.
  revert txn. induction fuel as [|fuel IH]; intros txn;
    cbn [lock_write_set]; ev_solve.
Qed.

Lemma not_kvs_raise_commit_ts txn ws commit_ts :
  events_in not_kvs (raise_commit_ts txn ws commit_ts).
Proof.
  revert commit_ts. induction ws as [|wi ws IH]; intros commit_ts;
    cbn [raise_commit_ts]; ev_solve.
Qed.

Lemma not_kvs_validate_read_loop fuel commit_ts r :
  events_in not_kvs (validate_read_loop fuel commit_ts r).
Proof.
  induction fuel as [|fuel IH]; cbn [validate_read_loop];
    unfold timestamp_set_compare_and_swap; ev_solve.
Qed.

#[local] Hint Resolve not_kvs_validate_read_loop : nokvs.

Lemma not_kvs_validate_reads fuel txn commit_ts rs :
  events_in not_kvs (validate_reads fuel txn commit_ts rs).
Proof.
  induction rs as [|ri rs IH]; cbn [validate_reads]; unfold validate_read;
    ev_solve.
Qed.

Lemma not_kvs_transaction_deinit txn :
  events_in not_kvs (transaction_deinit txn).
Proof.
  unfold transaction_deinit. generalize 0%nat.
  induction (rw_entries txn) as [|e es IH]; intros i;
    cbn [transaction_deinit_from]; ev_solve.
Qed.

(** ** The sort of the write set *)

Lemma sort_insert_perm {A} (cmp : A -> A -> Z) x l :
  Permutation (sort_insert cmp x l) (x :: l).
Proof.
  induction l as [|y l IH]; simpl; [reflexivity|].
  destruct (cmp x y <=? 0); [reflexivity|].
  rewrite IH. apply perm_swap.
Qed.

Lemma platform_sort_slow_perm {A} (cmp : A -> A -> Z) l :
  Permutation (platform_sort_slow cmp l) l.
Proof.
  induction l as [|x l IH]; simpl; [reflexivity|].
  rewrite sort_insert_perm. now constructor.
Qed.

Lemma sort_insert_sorted {A} (cmp : A -> A -> Z) x l :
  (forall a b, 0 < cmp a b -> cmp b a <= 0) ->
  Sorted (fun a b => cmp a b <= 0) l ->
  Sorted (fun a b => cmp a b <= 0) (sort_insert cmp x l).
Proof.
  intros Htot. induction 1 as [|y l Hs IH Hd]; simpl.
  - repeat constructor.
  - destruct (Z.leb_spec (cmp x y) 0) as [Hle|Hgt].
    + repeat constructor; auto.
    + constructor; [exact IH|].
      destruct l as [|z l]; simpl.
      * constructor. apply Htot. lia.
      * destruct (Z.leb_spec (cmp x z) 0).
        -- constructor. apply Htot. lia.
        -- constructor. now inversion Hd.
Qed.

Lemma platform_sort_slow_sorted {A} (cmp : A -> A -> Z) l :
  (forall a b, 0 < cmp a b -> cmp b a <= 0) ->
  Sorted (fun a b => cmp a b <= 0) (platform_sort_slow cmp l).
Proof.
  intros Htot. induction l as [|x l IH]; simpl; [constructor|].
  now apply sort_insert_sorted.
Qed.

Lemma indices_where_valid {A} (f : A -> bool) (l : list A) i :
  Forall (fun wi => exists w, l !! (wi - i)%nat = Some w /\ f w = true
                              /\ (i <= wi)%nat)
    (indices_where f l i).
Proof.
  revert i. induction l as [|x l IH]; intros i; simpl; [constructor|].
  assert (Hrest : Forall
            (fun wi => exists w, (x :: l) !! (wi - i)%nat = Some w
                                 /\ f w = true /\ (i <= wi)%nat)
            (indices_where f l (S i))).
  { eapply Forall_impl; [apply IH|].
    intros wi (w & Hw & Hf & Hle). exists w. repeat split; auto; [|lia].
    replace (wi - i)%nat with (S (wi - S i)) by lia. exact Hw. }
  destruct (f x) eqn:Hx; [|exact Hrest].
  constructor; [|exact Hrest].
  exists x. rewrite Nat.sub_diag. auto.
Qed.

Lemma sorted_write_set_perm txn :
  Permutation (sorted_write_set txn)
    (indices_where rw_entry_is_write (rw_entries txn) 0).
Proof.
  unfold sorted_write_set. rewrite commit_partition_eq. cbn [fst app].
  apply platform_sort_slow_perm.
Qed.

Lemma sorted_write_set_entries txn :
  exists ws_entries,
    Forall2 (fun wi w => rw_entries txn !! wi = Some w
                         /\ rw_entry_is_write w = true)
      (sorted_write_set txn) ws_entries.
Proof.
  assert (H : Forall (fun wi => exists w,
                 rw_entries txn !! wi = Some w /\ rw_entry_is_write w = true)
                (sorted_write_set txn)).
  { eapply Permutation_Forall; [symmetry; apply sorted_write_set_perm|].
    eapply Forall_impl; [apply (indices_where_valid _ _ 0%nat)|].
    intros wi (w & Hw & Hf & _). rewrite Nat.sub_0_r in Hw. eauto. }
  induction H as [|wi ws (w & Hw & Hf) H (es & Hes)].
  - exists []. constructor.
  - exists (w :: es). constructor; auto.
Qed.

(** C3, as amended: commit derives [commit_ts] as the maximum over the
    entries with [is_read] set of the sampled [wts] (plus one in the Silo
    variant) and, after the write locks are taken, raises it to one more
    than the read timestamp of every slot of the write set, which it loads
    in locking order; the read timestamp of a slot is the 48-bit sum
    [(wts + delta) mod 2^48] of its word.  The write set holds the entries
    with a message, each once, the read set the entries with [is_read];
    validation and the rest of commit run with exactly the maximum of these
    bounds, [0] when there is neither a read nor a write. *)
Theorem commit_ts_is_max_of_bounds fuel txn tr rc :
  Forall (fun e => 0 <= wts e < 2 ^ 48) (rw_entries txn) ->
  exec (transactional_splinterdb_commit fuel txn) tr (Done rc) ->
  exists txn1 t_lock ws_entries vs commit_ts is_abort t_val t_fin,
    Permutation (sorted_write_set txn)
      (indices_where rw_entry_is_write (rw_entries txn) 0)
    /\ commit_read_set txn = indices_where rw_entry_is_read (rw_entries txn) 0
    /\ exec (lock_write_set fuel txn (sorted_write_set txn)) t_lock (Done txn1)
    /\ Forall2 (fun wi w => rw_entries txn1 !! wi = Some w)
         (sorted_write_set txn) ws_entries
    /\ length vs = length ws_entries
    /\ commit_ts
       = max_list
           (map (fun e => wts e + Z.b2z EXPERIMENTAL_MODE_SILO)
              (List.filter rw_entry_is_read (rw_entries txn))
            ++ map (fun v => (ts_wts v + ts_delta v) mod 2 ^ 48 + 1) vs)
    /\ exec (validate_reads fuel txn1 commit_ts (commit_read_set txn))
         t_val (Done is_abort)
    /\ exec (commit_finish fuel txn1 commit_ts (sorted_write_set txn) is_abort)
         t_fin (Done rc)
    /\ tr = t_lock
            ++ zip_with (fun w v => OLoad (tuple_ts w) v) ws_entries vs
            ++ t_val ++ t_fin.
Proof.
  intros Hwts H. unfold transactional_splinterdb_commit in H.
  apply exec_bind_done in H as (txn1 & t_lock & t2 & Hlock & H & ->).
  apply exec_bind_done in H as (cts & t_raise & t3 & Hraise & H & ->).
  apply exec_bind_done in H as (is_abort & t_val & t_fin & Hval & Hfin & ->).
  apply exec_raise_commit_ts in Hraise
    as (es & vs & Hes & _ & Hlen & -> & Hcts).
  2:{ rewrite initial_commit_ts_eq. apply max_list_nonneg. }
  exists txn1, t_lock, es, vs, cts, is_abort, t_val, t_fin.
  split; [apply sorted_write_set_perm|]. split.
  { unfold commit_read_set. rewrite commit_partition_eq. reflexivity. }
  repeat split; auto.
  rewrite Hcts, max_list_app, initial_commit_ts_eq. f_equal. f_equal.
  clear -Hwts. induction (rw_entries txn) as [|e l IH]; [reflexivity|].
  apply Forall_cons in Hwts as [He Hl]. cbn [List.filter].
  destruct (rw_entry_is_read e); cbn [map]; rewrite ?read_bound_eq by lia;
    rewrite ?IH; auto.
Qed.

Lemma sorted_by_key txn ws es :
  Forall2 (fun wi w => rw_entries txn !! wi = Some w
                       /\ rw_entry_is_write w = true) ws es ->
  Sorted (fun i j => write_set_compare txn i j <= 0) ws ->
  Sorted (fun a b => data_key_compare (key a) (key b) <= 0) es.
Proof.
  induction 1 as [|wi w ws es [Hw _] H IH]; intros Hs; [constructor|].
  apply Sorted_inv in Hs as [Hs Hd]. constructor; [auto|].
  destruct H as [|wj w' ws es [Hw' _] H]; constructor.
  apply HdRel_inv in Hd. unfold write_set_compare in Hd.
  now rewrite Hw, Hw' in Hd.
Qed.

(** C7: before it takes locks, commit sorts the write set ascending by the
    key comparator of the data configuration, and the locking that follows
    is the no-wait protocol over the slots of the writes in that sorted
    order: [try_lock] slot after slot, and whenever one fails, release of
    the locks taken in this attempt, a sleep of 1000 ns and a restart from
    the first write. *)
Theorem no_wait_locking_in_key_order fuel txn tr rc :
  (forall a b, 0 < data_key_compare a b -> data_key_compare b a <= 0) ->
  exec (transactional_splinterdb_commit fuel txn) tr (Done rc) ->
  Permutation (sorted_write_set txn)
    (indices_where rw_entry_is_write (rw_entries txn) 0)
  /\ (exists ws_entries,
         Forall2 (fun wi w => rw_entries txn !! wi = Some w
                              /\ rw_entry_is_write w = true)
           (sorted_write_set txn) ws_entries
         /\ Sorted (fun a b => data_key_compare (key a) (key b) <= 0)
              ws_entries)
  /\ exists txn1 t_lock t_rest ps,
       tr = t_lock ++ t_rest
       /\ exec (lock_write_set fuel txn (sorted_write_set txn)) t_lock
            (Done txn1)
       /\ Forall2 (slot_of txn1) (sorted_write_set txn) ps
       /\ no_wait_tr ps (without_installs t_lock).
Proof.
  intros Htot H. split; [apply sorted_write_set_perm|]. split.
  - destruct (sorted_write_set_entries txn) as (es & Hes).
    exists es. split; [exact Hes|].
    apply (sorted_by_key txn _ _ Hes).
    unfold sorted_write_set. apply platform_sort_slow_sorted.
    intros i j. unfold write_set_compare, rw_entry_key_compare.
    destruct (rw_entries txn !! i), (rw_entries txn !! j); auto; lia.
  - apply exec_commit_run in H
      as (txn1 & cts & is_abort & t_lock & t_raise & t_val & t_body & t_deinit
          & Hlock & _ & _ & _ & _ & _ & ->).
    destruct (lock_write_set_no_wait _ _ _ _ _ Hlock) as (_ & ps & Hps & Hnw).
    exists txn1, t_lock, (t_raise ++ t_val ++ t_body ++ t_deinit), ps. auto.
Qed.

(** ** The abort path (C4) *)

Lemma release_tr_clears_lock_only p tr :
  release_tr p tr -> Forall clears_lock_only tr.
Proof.
  assert (Hc : forall v ok,
             clears_lock_only (OCas p v (set_lock_bit v false) ok)).
  { intros v ok q v1 v2 ok' E. injection E as <- <- <- <-.
    destruct (set_lock_bit_fields v false) as (? & ? & ?). auto. }
  assert (Hl : forall v, clears_lock_only (OLoad p v)).
  { intros v q v1 v2 ok E. discriminate E. }
  unfold release_tr. intros H. induction H as [v|v tr H IH].
  - constructor; [apply Hl|]. constructor; [apply Hc|constructor].
  - constructor; [apply Hl|]. constructor; [apply Hc|exact IH].
Qed.

Lemma Forall_concat_of {A B} (R : A -> list B -> Prop) (P : B -> Prop) la ls :
  (forall a s, R a s -> Forall P s) -> Forall2 R la ls -> Forall P (concat ls).
Proof.
  intros HR. induction 1 as [|a s la ls Ha H IH]; simpl; [constructor|].
  apply Forall_app. split; eauto.
Qed.

(** ** The search for the entry of a key *)

Lemma string_length_append (a b : string) :
  String.length (a +:+ b) = (String.length a + String.length b)%nat.
Proof. induction a as [|c a IH]; simpl; [reflexivity|]. now rewrite IH. Qed.

Lemma zeros_length n : String.length (zeros n) = n.
Proof. induction n as [|n IH]; simpl; [reflexivity|]. now rewrite IH. Qed.

Lemma zero_padded_length k :
  (slice_length k <= KEY_SIZE)%nat -> slice_length (zero_padded k) = KEY_SIZE.
Proof.
  intros H. unfold zero_padded, slice_length in *.
  rewrite string_length_append, zeros_length. lia.
Qed.

Lemma rw_entry_find_Some k es i0 i :
  rw_entry_find k es i0 = Some i ->
  (i0 <= i)%nat
  /\ exists e,
       es !! (i - i0)%nat = Some e
       /\ data_key_compare k (key e) = 0
       /\ forall j e', (j < i - i0)%nat -> es !! j = Some e' ->
                       data_key_compare k (key e') <> 0.
Proof.
  revert i0. induction es as [|e es IH]; intros i0 H; simpl in H.
  - discriminate H.
  - destruct (Z.eqb_spec (data_key_compare k (key e)) 0) as [E|E].
    + injection H as <-. split; [lia|]. exists e. rewrite Nat.sub_diag.
      repeat split; auto. intros j e' Hj. lia.
    + apply IH in H as (Hle & e1 & He1 & Hc & Hmin). split; [lia|].
      exists e1. replace (i - i0)%nat with (S (i - S i0)) by lia.
      repeat split; auto.
      intros [|j] e' Hj He'; simpl in He'.
      * injection He' as <-. exact E.
      * apply (Hmin j e'); [lia|exact He'].
Qed.

Lemma rw_entry_find_None k es i0 :
  rw_entry_find k es i0 = None <->
  Forall (fun e => data_key_compare k (key e) <> 0) es.
Proof.
  revert i0. induction es as [|e es IH]; intros i0; simpl.
  - split; [constructor|reflexivity].
  - destruct (Z.eqb_spec (data_key_compare k (key e)) 0) as [E|E].
    + split; [discriminate|]. intros H. apply Forall_cons in H as [H _].
      contradiction.
    + rewrite IH. split; [now constructor|].
      intros H. now apply Forall_cons in H as [_ H].
Qed.

Lemma rw_entry_find_first k es i0 j e :
  es !! j = Some e ->
  data_key_compare k (key e) = 0 ->
  (forall j' e', (j' < j)%nat -> es !! j' = Some e' ->
                 data_key_compare k (key e') <> 0) ->
  rw_entry_find k es i0 = Some (i0 + j)%nat.
Proof.
  revert i0 j. induction es as [|x es IH]; intros i0 j He Hc Hmin.
  - discriminate He.
  - cbn [rw_entry_find]. destruct j as [|j].
    + injection He as ->. rewrite Hc. cbn [Z.eqb]. f_equal. lia.
    + destruct (Z.eqb_spec (data_key_compare k (key x)) 0) as [E|E].
      { exfalso. apply (Hmin 0%nat x); [lia|reflexivity|exact E]. }
      rewrite (IH (S i0) j He Hc).
      * f_equal. lia.
      * intros j' e' Hj' He'. apply (Hmin (S j') e'); [lia|exact He'].
Qed.

Lemma first_match_find txn k i e :
  first_match txn k i e -> rw_entry_find k (rw_entries txn) 0 = Some i.
Proof.
  intros (He & Hc & Hmin).
  exact (rw_entry_find_first k (rw_entries txn) 0 i e He Hc Hmin).
Qed.

Lemma first_match_pending txn k i e :
  first_match txn k i e -> pending txn k = msg e /\ entry_index txn k = i.
Proof.
  intros H. pose proof (first_match_find _ _ _ _ H) as Hf.
  destruct H as (He & _). unfold pending, entry_index. rewrite Hf.
  cbn [mbind option_bind default]. rewrite He. auto.
Qed.

Lemma no_match_pending txn k :
  no_match txn k ->
  rw_entry_find k (rw_entries txn) 0 = None
  /\ pending txn k = None /\ entry_index txn k = num_rw_entries txn.
Proof.
  intros H. apply (rw_entry_find_None k (rw_entries txn) 0) in H.
  unfold pending, entry_index. rewrite H. auto.
Qed.

Lemma rw_entry_get_found txn k rd i :
  rw_entry_find k (rw_entries txn) 0 = Some i ->
  exists e,
    rw_entries txn !! i = Some e
    /\ data_key_compare k (key e) = 0
    /\ rw_entry_get txn k rd
       = Ret (i, store_entry txn i (with_is_read e (is_read e || rd))).
Proof.
  intros Hf. pose proof Hf as Hf'.
  apply rw_entry_find_Some in Hf' as (_ & e & He & Hc & _).
  rewrite Nat.sub_0_r in He. exists e. repeat split; auto.
  unfold rw_entry_get. rewrite Hf. cbn [bind fst snd].
  unfold entry_at. now rewrite He.
Qed.

Lemma rw_entry_get_new txn k rd :
  rw_entry_find k (rw_entries txn) 0 = None ->
  rw_entry_get txn k rd =
    if (KEY_SIZE <? slice_length k)%nat then Crash ub_key_overflow
    else if (RW_SET_SIZE_LIMIT <=? num_rw_entries txn)%nat
         then Crash ub_rw_set_overflow
         else Ret (num_rw_entries txn,
                   Build_transaction
                     (rw_entries txn
                      ++ [with_is_read
                            (with_key rw_entry_create (zero_padded k)) rd])).
Proof.
  intros Hf. unfold rw_entry_get, rw_entry_set_key. rewrite Hf.
  destruct (KEY_SIZE <? slice_length k)%nat; [reflexivity|].
  cbn [bind].
  destruct (RW_SET_SIZE_LIMIT <=? num_rw_entries txn)%nat; [reflexivity|].
  cbn [bind fst snd]. unfold entry_at, num_rw_entries. cbn [rw_entries].
  rewrite lookup_app_r, Nat.sub_diag by lia. cbn [lookup list_lookup bind].
  unfold store_entry. cbn [rw_entries]. do 3 f_equal.
  replace (length (rw_entries txn)) with (length (rw_entries txn) + 0)%nat
    at 1 by lia.
  rewrite insert_app_r. reflexivity.
Qed.

(** What a call of [rw_entry_get] that returns has done. *)
Lemma exec_rw_entry_get txn k rd tr i txn' :
  exec (rw_entry_get txn k rd) tr (Done (i, txn')) ->
  tr = []
  /\ i = entry_index txn k
  /\ ((exists e,
          rw_entry_find k (rw_entries txn) 0 = Some i
          /\ rw_entries txn !! i = Some e
          /\ data_key_compare k (key e) = 0
          /\ txn' = store_entry txn i (with_is_read e (is_read e || rd)))
      \/ (rw_entry_find k (rw_entries txn) 0 = None
          /\ (slice_length k <= KEY_SIZE)%nat
          /\ (num_rw_entries txn < RW_SET_SIZE_LIMIT)%nat
          /\ rw_entries txn'
             = rw_entries txn
               ++ [with_is_read (with_key rw_entry_create (zero_padded k)) rd])).
Proof.
  unfold entry_index.
  destruct (rw_entry_find k (rw_entries txn) 0) as [j|] eqn:Hf.
  - destruct (rw_entry_get_found txn k rd j Hf) as (e & He & Hc & ->).
    intros H. apply exec_ret_done in H as [-> H]. injection H as <- <-.
    split; [reflexivity|]. split; [reflexivity|]. left. exists e. auto.
  - rewrite (rw_entry_get_new txn k rd Hf).
    destruct (Nat.ltb_spec KEY_SIZE (slice_length k)).
    { intros [_ H']. discriminate H'. }
    destruct (Nat.leb_spec RW_SET_SIZE_LIMIT (num_rw_entries txn)).
    { intros [_ H']. discriminate H'. }
    intros H'. apply exec_ret_done in H' as [-> H']. injection H' as <- <-.
    split; [reflexivity|]. split; [reflexivity|]. right. auto.
Qed.

(** ** Buffered writes (C8) *)

Lemma with_is_read_id e : with_is_read e (is_read e || false) = e.
Proof. destruct e. unfold with_is_read. simpl. now rewrite orb_false_r. Qed.

Lemma message_copy m : message_create (message_class m) (message_data m) = m.
Proof. now destruct m. Qed.

Lemma store_entry_lookup txn i e e' :
  rw_entries txn !! i = Some e -> rw_entries (store_entry txn i e') !! i = Some e'.
Proof.
  intros H. unfold store_entry. cbn [rw_entries].
  apply list_lookup_insert_eq. now apply lookup_lt_Some in H.
Qed.

Lemma exec_local_write_sample e m tr o :
  exec (local_write_sample e m) tr o ->
  match o with
  | Done e2 =>
      key e2 = key e /\ msg e2 = msg e /\ is_read e2 = is_read e
      /\ Forall not_kvs tr
      /\ Forall (fun o => forall b, o <> OFree b) tr
      /\ (message_class m = MESSAGE_TYPE_INSERT -> e2 = e /\ tr = [])
      /\ (message_class m = MESSAGE_TYPE_UPDATE
          \/ message_class m = MESSAGE_TYPE_DELETE ->
          tuple_ts e2 <> NULL
          /\ exists t0 v,
               tr = t0 ++ [OLoad (tuple_ts e2) v]
               /\ wts e2 = ts_wts v /\ rts e2 = timestamp_set_get_rts v)
  | Crashed c =>
      tuple_ts e = NULL /\ (c = assert_aligned \/ c = ub_null_tuple_ts)
  | TimedOut => False
  end.
Proof.
  unfold local_write_sample.
  destruct (bool_decide (message_class m = MESSAGE_TYPE_UPDATE)
            || bool_decide (message_class m = MESSAGE_TYPE_DELETE)) eqn:Hc.
  - intros H.
    apply exec_bind_inv in H as [(r & t1 & t2 & Hi & H & ->)|[(c & Hi & ->)|[Hi ->]]].
    + destruct r as [is_new e1]. cbn [snd] in H.
      apply exec_rw_entry_iceberg_insert in Hi
        as (_ & Hnk & Hsame & Hk & Hm & _ & _ & Hr & Hnew).
      assert (Hfree1 : Forall (fun o => forall b, o <> OFree b) t1).
      { destruct (Z.eq_dec (tuple_ts e) NULL) as [E|E].
        - rewrite (Hnew E). repeat constructor. discriminate.
        - destruct (Hsame E) as [_ ->]. constructor. }
      apply exec_bind_inv in H as [(v & t3 & t4 & Hv & H & ->)|[(c & Hv & ->)|[Hv ->]]].
      * apply exec_load_tuple_ts in Hv as [Hp ->].
        destruct o as [e2|c|]; simpl in H; destruct H as [-> H];
          try discriminate H.
        injection H as H. subst e2. cbn [with_ts key msg is_read tuple_ts wts rts].
        rewrite app_nil_r. repeat split; auto.
        -- apply Forall_app. split; [exact Hnk|]. repeat constructor.
        -- apply Forall_app. split; [exact Hfree1|].
           repeat constructor. discriminate.
        -- match goal with
           | E : message_class m = MESSAGE_TYPE_INSERT |- _ =>
               rewrite E in Hc; discriminate Hc
           end.
        -- match goal with
           | E : message_class m = MESSAGE_TYPE_INSERT |- _ =>
               rewrite E in Hc; discriminate Hc
           end.
        -- exists t1, v. auto.
      * unfold load_tuple_ts in Hv.
        destruct (Z.eqb_spec (tuple_ts e1) NULL) as [E|E].
        -- destruct Hv as [_ Hv]. injection Hv as <-.
           split; [|auto].
           destruct (Z.eq_dec (tuple_ts e) NULL) as [E'|E']; [exact E'|].
           destruct (Hsame E') as [-> _]. contradiction.
        -- destruct Hv as (? & ? & _ & _ & Hv). discriminate Hv.
      * unfold load_tuple_ts in Hv.
        destruct (tuple_ts e1 =? NULL).
        -- destruct Hv as [_ Hv]. discriminate Hv.
        -- destruct Hv as (? & ? & _ & _ & Hv). discriminate Hv.
    + unfold rw_entry_iceberg_insert in Hi.
      destruct (Z.eqb_spec (tuple_ts e) NULL) as [E|E]; cbn [negb] in Hi.
      * split; [exact E|].
        destruct Hi as (x & tr' & _ & Hi). cbn [bind] in Hi.
        destruct (negb (x.1 mod 8 =? 0)); destruct Hi as [_ Hi];
          [injection Hi as <-; auto|discriminate Hi].
      * destruct Hi as [_ Hi]. discriminate Hi.
    + unfold rw_entry_iceberg_insert in Hi.
      destruct (negb (tuple_ts e =? NULL)).
      * destruct Hi as [_ Hi]. discriminate Hi.
      * destruct Hi as (x & tr' & _ & Hi). cbn [bind] in Hi.
        destruct (negb (x.1 mod 8 =? 0)); destruct Hi as [_ Hi];
          discriminate Hi.
  - intros [-> ->]. apply orb_false_iff in Hc as [Hu Hd].
    apply bool_decide_eq_false in Hu, Hd.
    split; [reflexivity|]. split; [reflexivity|]. split; [reflexivity|].
    split; [constructor|]. split; [constructor|]. split; [auto|].
    intros [E|E]; contradiction.
Qed.

Lemma exec_local_write_msg e k m tr o :
  data_key_compare (key e) k = 0 \/ msg e = None ->
  exec (local_write_msg e k m) tr o ->
  match msg e with
  | None => tr = [] /\ o = Done (with_msg e (Some m))
  | Some old =>
      if message_is_definitive m then
        tr = [OFree (MsgBuf (message_data old))]
        /\ o = Done (with_msg e (Some m))
      else if bool_decide (message_class old = MESSAGE_TYPE_DELETE) then
        tr = [] /\ o = Crashed assert_merge_on_delete
      else
        tr = [OFree (MsgBuf (message_data old))]
        /\ o = Done (with_msg e (Some (data_merge_tuples k old m)))
  end.
Proof.
  unfold local_write_msg, rw_entry_set_msg. rewrite message_copy.
  destruct (msg e) as [old|]; [|intros _ H; exact H].
  intros [Hc|Hc]; [|discriminate Hc]. rewrite Hc. cbn [Z.eqb].
  destruct (message_is_definitive m).
  - cbn [bind trigger]. intros (x & tr' & -> & -> & ->). auto.
  - destruct (bool_decide (message_class old = MESSAGE_TYPE_DELETE)).
    + intros H. exact H.
    + cbn [bind trigger]. intros (x & tr' & -> & -> & ->). auto.
Qed.

Lemma pending_Some txn k old :
  pending txn k = Some old ->
  exists i e,
    rw_entry_find k (rw_entries txn) 0 = Some i
    /\ entry_index txn k = i
    /\ rw_entries txn !! i = Some e
    /\ data_key_compare k (key e) = 0
    /\ msg e = Some old.
Proof.
  unfold pending, entry_index.
  destruct (rw_entry_find k (rw_entries txn) 0) as [i|] eqn:Hf; [|discriminate].
  cbn [mbind option_bind]. 
  destruct (rw_entry_find_Some _ _ _ _ Hf) as (_ & e & He & Hc & _).
  rewrite Nat.sub_0_r in He. rewrite He. cbn [mbind option_bind].
  intros Hm. exists i, e. auto.
Qed.

Lemma local_write_found txn k m i e :
  rw_entry_find k (rw_entries txn) 0 = Some i ->
  rw_entries txn !! i = Some e ->
  local_write txn k m
  = (e2 <- local_write_sample e m;;
     e3 <- local_write_msg e2 k m;;
     Ret (0, store_entry (store_entry txn i e) i e3)).
Proof.
  intros Hf He. unfold local_write.
  destruct (rw_entry_get_found txn k false i Hf) as (e' & He' & _ & ->).
  assert (e' = e) as -> by congruence.
  rewrite with_is_read_id. cbn [bind fst snd].
  unfold entry_at. rewrite (store_entry_lookup _ _ _ _ He). reflexivity.
Qed.

Lemma local_write_new txn k m tr rc txn' :
  rw_entry_find k (rw_entries txn) 0 = None ->
  exec (local_write txn k m) tr (Done (rc, txn')) ->
  exists t1 e2,
    exec (local_write_sample
            (with_is_read (with_key rw_entry_create (zero_padded k)) false) m)
      t1 (Done e2)
    /\ tr = t1
    /\ rc = 0
    /\ rw_entries txn' = rw_entries txn ++ [with_msg e2 (Some m)].
Proof.
  intros Hf. unfold local_write. rewrite (rw_entry_get_new txn k false Hf).
  destruct (KEY_SIZE <? slice_length k)%nat; [intros [_ H]; discriminate H|].
  destruct (RW_SET_SIZE_LIMIT <=? num_rw_entries txn)%nat;
    [intros [_ H]; discriminate H|].
  cbn [bind fst snd]. unfold entry_at, num_rw_entries. cbn [rw_entries].
  rewrite lookup_app_r, Nat.sub_diag by lia. cbn [lookup list_lookup bind].
  set (e0 := with_is_read (with_key rw_entry_create (zero_padded k)) false).
  intros H.
  apply exec_bind_done in H as (e2 & t1 & t2 & Hs & H & ->).
  apply exec_bind_done in H as (e3 & t3 & t4 & Hm & H & ->).
  apply exec_ret_done in H as [-> H]. injection H as <- <-.
  pose proof (exec_local_write_sample _ _ _ _ Hs) as (_ & Hmsg & _).
  apply exec_local_write_msg in Hm; [|right; rewrite Hmsg; reflexivity].
  rewrite Hmsg in Hm. cbn [e0 with_is_read with_key rw_entry_create msg] in Hm.
  destruct Hm as [-> Hm]. injection Hm as Hm. subst e3.
  exists t1, e2. rewrite !app_nil_r. repeat split; auto.
  unfold store_entry. cbn [rw_entries].
  replace (length (rw_entries txn)) with (length (rw_entries txn) + 0)%nat
    at 1 by lia.
  rewrite insert_app_r. reflexivity.
Qed.

Lemma local_write_on_pending txn k m old tr o :
  (forall a b, data_key_compare a b = 0 -> data_key_compare b a = 0) ->
  pending txn k = Some old ->
  exec (local_write txn k m) tr o ->
  exists e,
    rw_entries txn !! entry_index txn k = Some e
    /\ msg e = Some old
    /\ match o with
       | Done (rc, txn') =>
           rc = 0
           /\ In (OFree (MsgBuf (message_data old))) tr
           /\ (message_is_definitive m = false ->
               message_class old <> MESSAGE_TYPE_DELETE)
           /\ exists e',
                rw_entries txn' !! entry_index txn k = Some e'
                /\ key e' = key e
                /\ msg e' = Some (if message_is_definitive m then m
                                  else data_merge_tuples k old m)
       | Crashed c =>
           (c = assert_merge_on_delete
            /\ message_is_definitive m = false
            /\ message_class old = MESSAGE_TYPE_DELETE)
           \/ (tuple_ts e = NULL
               /\ (c = assert_aligned \/ c = ub_null_tuple_ts))
       | TimedOut => False
       end.
Proof.
  intros Hsym Hp H.
  destruct (pending_Some _ _ _ Hp) as (i & e & Hf & -> & He & Hc & Hm).
  exists e. split; [exact He|]. split; [exact Hm|].
  rewrite (local_write_found _ _ _ _ _ Hf He) in H.
  apply exec_bind_inv in H
    as [(e2 & t1 & t2 & Hs & H & ->)|[(c & Hs & ->)|[Hs ->]]].
  2:{ apply exec_local_write_sample in Hs. right. exact Hs. }
  2:{ apply exec_local_write_sample in Hs. exact Hs. }
  pose proof (exec_local_write_sample _ _ _ _ Hs) as (Hk2 & Hm2 & _).
  assert (Hc2 : data_key_compare (key e2) k = 0)
    by (rewrite Hk2; now apply Hsym).
  assert (Hlook : forall e3,
             rw_entries (store_entry (store_entry txn i e) i e3) !! i = Some e3).
  { intros e3. apply (store_entry_lookup _ _ e).
    now apply store_entry_lookup with e. }
  apply exec_bind_inv in H
    as [(e3 & t3 & t4 & Hw & H & ->)|[(c & Hw & ->)|[Hw ->]]];
    apply exec_local_write_msg in Hw; auto; rewrite Hm2, Hm in Hw.
  - destruct H as [-> ->]. rewrite app_nil_r.
    destruct (message_is_definitive m).
    + destruct Hw as [-> Hw]. injection Hw as Hw. subst e3.
      split; [reflexivity|].
      split; [apply in_or_app; right; left; reflexivity|].
      split; [discriminate|].
      exists (with_msg e2 (Some m)). auto.
    + destruct (bool_decide_reflect (message_class old = MESSAGE_TYPE_DELETE))
        as [Ed|Ed]; destruct Hw as [-> Hw]; [discriminate Hw|].
      injection Hw as Hw. subst e3.
      split; [reflexivity|].
      split; [apply in_or_app; right; left; reflexivity|].
      split; [auto|].
      exists (with_msg e2 (Some (data_merge_tuples k old m))). auto.
  - destruct (message_is_definitive m).
    + destruct Hw as [_ Hw]. discriminate Hw.
    + destruct (bool_decide_reflect (message_class old = MESSAGE_TYPE_DELETE))
        as [Ed|Ed]; destruct Hw as [_ Hw]; [|discriminate Hw].
      injection Hw as <-. left. auto.
  - destruct (message_is_definitive m).
    + destruct Hw as [_ Hw]. discriminate Hw.
    + destruct (bool_decide (message_class old = MESSAGE_TYPE_DELETE));
        destruct Hw as [_ Hw]; discriminate Hw.
Qed.

Lemma local_write_without_pending txn k m tr rc txn' :
  pending txn k = None ->
  exec (local_write txn k m) tr (Done (rc, txn')) ->
  rc = 0
  /\ Forall (fun o => forall b, o <> OFree b) tr
  /\ exists e',
       rw_entries txn' !! entry_index txn k = Some e' /\ msg e' = Some m.
Proof.
  intros Hp H. unfold pending, entry_index in *.
  destruct (rw_entry_find k (rw_entries txn) 0) as [i|] eqn:Hf.
  - destruct (rw_entry_find_Some _ _ _ _ Hf) as (_ & e & He & Hc & _).
    rewrite Nat.sub_0_r in He. cbn [mbind option_bind] in Hp.
    rewrite He in Hp. cbn [mbind option_bind] in Hp.
    rewrite (local_write_found _ _ _ _ _ Hf He) in H.
    apply exec_bind_done in H as (e2 & t1 & t2 & Hs & H & ->).
    apply exec_bind_done in H as (e3 & t3 & t4 & Hm & H & ->).
    apply exec_ret_done in H as [-> H]. injection H as <- <-.
    pose proof (exec_local_write_sample _ _ _ _ Hs) as (_ & Hmsg & _ & _ & Hfr & _).
    apply exec_local_write_msg in Hm; [|right; congruence].
    rewrite Hmsg, Hp in Hm. destruct Hm as [-> Hm]. injection Hm as Hm.
    subst e3. rewrite !app_nil_r. split; [reflexivity|]. split; [exact Hfr|].
    exists (with_msg e2 (Some m)). split; [|reflexivity]. cbn [default].
    apply (store_entry_lookup _ _ e). now apply store_entry_lookup with e.
  - apply (local_write_new _ _ _ _ _ _ Hf) in H as (t1 & e2 & Hs & -> & -> & E).
    pose proof (exec_local_write_sample _ _ _ _ Hs) as (_ & _ & _ & _ & Hfr & _).
    split; [reflexivity|]. split; [exact Hfr|].
    exists (with_msg e2 (Some m)). split; [|reflexivity].
    rewrite E. cbn [default]. unfold num_rw_entries.
    rewrite lookup_app_r, Nat.sub_diag by lia. reflexivity.
Qed.

Lemma rw_entry_find_first_match txn k i :
  rw_entry_find k (rw_entries txn) 0 = Some i ->
  exists e, first_match txn k i e.
Proof.
  intros Hf. apply rw_entry_find_Some in Hf as (_ & e & He & Hc & Hmin).
  rewrite Nat.sub_0_r in He, Hmin. exists e. split; [exact He|].
  split; [exact Hc|exact Hmin].
Qed.

(** C8, as amended: for a buffered write to a key [k] for which the search
    of [rw_entry_get] finds an entry, the first whose stored key the
    comparator reports equal to [k], and that entry has a pending message,
    an incoming INSERT or DELETE frees the prior message and replaces it;
    an incoming UPDATE on a prior message that is not a DELETE frees it and
    leaves the merge of the two by the data configuration as the one
    pending message; an incoming UPDATE on a pending DELETE never returns
    but fails the assertion; and where the search finds no entry, or one
    without a pending message, the incoming message is copied and stored
    unchanged, nothing being freed: in the entry found, else in a new
    entry, appended with the zero-padded key. *)
Theorem buffered_write_merge_rules txn k m :
  (forall a b, data_key_compare a b = 0 -> data_key_compare b a = 0) ->
  (forall i e old tr rc txn',
      first_match txn k i e -> msg e = Some old ->
      message_is_definitive m = true ->
      exec (local_write txn k m) tr (Done (rc, txn')) ->
      rc = 0
      /\ In (OFree (MsgBuf (message_data old))) tr
      /\ exists e', rw_entries txn' !! i = Some e'
                    /\ key e' = key e /\ msg e' = Some m)
  /\ (forall i e old tr rc txn',
         first_match txn k i e -> msg e = Some old ->
         message_class m = MESSAGE_TYPE_UPDATE ->
         message_class old <> MESSAGE_TYPE_DELETE ->
         exec (local_write txn k m) tr (Done (rc, txn')) ->
         rc = 0
         /\ In (OFree (MsgBuf (message_data old))) tr
         /\ exists e', rw_entries txn' !! i = Some e'
                       /\ key e' = key e
                       /\ msg e' = Some (data_merge_tuples k old m))
  /\ (forall i e old tr o,
         first_match txn k i e -> msg e = Some old ->
         message_class m = MESSAGE_TYPE_UPDATE ->
         message_class old = MESSAGE_TYPE_DELETE ->
         exec (local_write txn k m) tr o ->
         exists c,
           o = Crashed c
           /\ (c = assert_merge_on_delete
               \/ tuple_ts e = NULL
                  /\ (c = assert_aligned \/ c = ub_null_tuple_ts)))
  /\ (forall tr rc txn',
         (forall i e, first_match txn k i e -> msg e = None) ->
         exec (local_write txn k m) tr (Done (rc, txn')) ->
         rc = 0
         /\ Forall (fun o => forall b, o <> OFree b) tr
         /\ exists i e',
              rw_entries txn' !! i = Some e' /\ msg e' = Some m
              /\ ((exists e, first_match txn k i e /\ key e' = key e)
                  \/ (no_match txn k /\ i = num_rw_entries txn
                      /\ key e' = zero_padded k))).
Proof.
  intros Hsym.
  assert (Hpend : forall i e old,
             first_match txn k i e -> msg e = Some old ->
             pending txn k = Some old /\ entry_index txn k = i
             /\ rw_entries txn !! i = Some e).
  { intros i e old Hfm Hm.
    destruct (first_match_pending _ _ _ _ Hfm) as [Hp Hi].
    destruct Hfm as (He & _). rewrite Hp, Hm. auto. }
  split; [|split; [|split]].
  - intros i e old tr rc txn' Hfm Hm Hdef H.
    destruct (Hpend _ _ _ Hfm Hm) as (Hp & Hi & He).
    destruct (local_write_on_pending _ _ _ _ _ _ Hsym Hp H)
      as (e0 & He0 & _ & Hrc & Hin & _ & e' & He' & Hk' & Hm').
    rewrite Hi in He0, He'. assert (e0 = e) as -> by congruence.
    rewrite Hdef in Hm'. split; [exact Hrc|]. split; [exact Hin|].
    exists e'. auto.
  - intros i e old tr rc txn' Hfm Hm Hu Hnd H.
    destruct (Hpend _ _ _ Hfm Hm) as (Hp & Hi & He).
    destruct (local_write_on_pending _ _ _ _ _ _ Hsym Hp H)
      as (e0 & He0 & _ & Hrc & Hin & _ & e' & He' & Hk' & Hm').
    rewrite Hi in He0, He'. assert (e0 = e) as -> by congruence.
    unfold message_is_definitive in Hm'. rewrite Hu in Hm'.
    split; [exact Hrc|]. split; [exact Hin|]. exists e'. auto.
  - intros i e old tr o Hfm Hm Hu Hd H.
    destruct (Hpend _ _ _ Hfm Hm) as (Hp & Hi & He).
    destruct (local_write_on_pending _ _ _ _ _ _ Hsym Hp H)
      as (e0 & He0 & _ & Ho).
    rewrite Hi in He0. assert (e0 = e) as -> by congruence.
    assert (Hnd : message_is_definitive m = false)
      by (unfold message_is_definitive; now rewrite Hu).
    destruct o as [[rc txn']|c|].
    + destruct Ho as (_ & _ & Hc & _). contradiction (Hc Hnd).
    + exists c. split; [reflexivity|].
      destruct Ho as [(-> & _)|Ho]; auto.
    + contradiction.
  - intros tr rc txn' Hnone H.
    destruct (rw_entry_find k (rw_entries txn) 0) as [i|] eqn:Hf.
    + destruct (rw_entry_find_first_match _ _ _ Hf) as (e & Hfm).
      pose proof (Hnone _ _ Hfm) as Hm.
      destruct (first_match_pending _ _ _ _ Hfm) as [Hp Hi].
      rewrite Hm in Hp.
      destruct (local_write_without_pending _ _ _ _ _ _ Hp H)
        as (Hrc & Hfr & e' & He' & Hm').
      split; [exact Hrc|]. split; [exact Hfr|].
      rewrite Hi in He'. exists i, e'. split; [exact He'|].
      split; [exact Hm'|]. left. exists e. split; [exact Hfm|].
      destruct Hfm as (He & _).
      rewrite (local_write_found _ _ _ _ _ Hf He) in H.
      apply exec_bind_done in H as (e2 & t1 & t2 & Hs & H & ->).
      apply exec_bind_done in H as (e3 & t3 & t4 & Hw & H & ->).
      apply exec_ret_done in H as [-> H]. injection H as _ <-.
      pose proof (exec_local_write_sample _ _ _ _ Hs) as (Hk2 & Hm2 & _).
      apply exec_local_write_msg in Hw; [|right; congruence].
      rewrite Hm2, Hm in Hw. destruct Hw as [_ Hw]. injection Hw as ->.
      rewrite (store_entry_lookup _ _ e) in He'
        by (now apply store_entry_lookup with e).
      injection He' as <-. cbn [with_msg key]. exact Hk2.
    + pose proof Hf as Hnm. apply rw_entry_find_None in Hnm.
      assert (Hp : pending txn k = None)
        by (unfold pending; rewrite Hf; reflexivity).
      destruct (local_write_without_pending _ _ _ _ _ _ Hp H)
        as (Hrc & Hfr & _).
      split; [exact Hrc|]. split; [exact Hfr|].
      apply (local_write_new _ _ _ _ _ _ Hf) in H
        as (t1 & e2 & Hs & -> & _ & E).
      pose proof (exec_local_write_sample _ _ _ _ Hs) as (Hk2 & _).
      exists (num_rw_entries txn), (with_msg e2 (Some m)).
      split.
      { rewrite E. unfold num_rw_entries.
        rewrite lookup_app_r, Nat.sub_diag by lia. reflexivity. }
      split; [reflexivity|]. right. split; [exact Hnm|].
      split; [reflexivity|]. cbn [with_msg key]. rewrite Hk2. reflexivity.
Qed.

(** ** Lookup of a key the transaction has written (C5) *)

Lemma lookup_loop_own_write fuel e k rc0 res old tr rc res' v1 :
  EXPERIMENTAL_MODE_BYPASS_SPLINTERDB = false ->
  msg e = Some old ->
  exec (lookup_loop fuel e k rc0 res) tr (Done (rc, res', v1)) ->
  rc = rc0
  /\ res' = message_data old
  /\ ts_lock_bit v1 = false
  /\ Forall not_kvs tr
  /\ exists t0,
       tr = t0 ++ [OLoad (tuple_ts e) v1; OLoad (tuple_ts e) v1].
Proof.
  intros Hb Hm. revert res tr. induction fuel as [|fuel IH]; intros res tr H.
  { destruct H as [_ H]. discriminate H. }
  cbn [lookup_loop] in H. rewrite Hb, Hm in H.
  apply exec_bind_done in H as (v & t1 & t2 & Hv & H & ->).
  apply exec_load_tuple_ts in Hv as [Hp ->].
  apply exec_bind_done in H as ([rc1 res1] & t3 & t4 & Hr & H & ->).
  apply exec_ret_done in Hr as [-> Hr]. injection Hr as <- <-.
  apply exec_bind_done in H as (v2 & t5 & t6 & Hv2 & H & ->).
  apply exec_load_tuple_ts in Hv2 as [_ ->]. cbn [fst snd] in H.
  unfold timestamp_set_is_equal in H.
  destruct (bool_decide_reflect (v = v2)) as [<-|Hne]; cbn [negb orb] in H.
  - destruct (ts_lock_bit v) eqn:Hl.
    + apply IH in H as (-> & -> & Hl1 & Hnk & t0 & ->).
      repeat split; auto.
      * repeat (constructor; [split; reflexivity|]). exact Hnk.
      * exists (OLoad (tuple_ts e) v :: OLoad (tuple_ts e) v :: t0). reflexivity.
    + apply exec_ret_done in H as [-> H]. injection H as <- <- <-.
      repeat split; auto.
      * repeat (constructor; [split; reflexivity|]). constructor.
      * exists []. reflexivity.
  - apply IH in H as (-> & -> & Hl1 & Hnk & t0 & ->).
    repeat split; auto.
    * repeat (constructor; [split; reflexivity|]). exact Hnk.
    * exists (OLoad (tuple_ts e) v :: OLoad (tuple_ts e) v2 :: t0). reflexivity.
Qed.

(** C5, as amended: when the entry that the search of [rw_entry_get]
    finds for the key [k], the first whose stored key the comparator
    reports equal to [k], holds a pending write message, a lookup of [k]
    that returns has copied the payload of that message into the result,
    with return code 0 and without an event of the key-value store, and has
    sampled [wts] and the 48-bit sum [rts = (wts + delta) mod 2^48] into
    the entry from a snapshot [v1] that it loaded twice in a row with the
    same value and the lock bit clear. *)
Theorem lookup_reads_own_write fuel txn k result i e old tr rc txn' result' :
  EXPERIMENTAL_MODE_BYPASS_SPLINTERDB = false ->
  first_match txn k i e ->
  msg e = Some old ->
  exec (transactional_splinterdb_lookup fuel txn k result) tr
    (Done (rc, txn', result')) ->
  rc = 0
  /\ result' = message_data old
  /\ Forall not_kvs tr
  /\ exists e' v1 t0,
       rw_entries txn' !! i = Some e'
       /\ key e' = key e
       /\ msg e' = Some old
       /\ is_read e' = true
       /\ tr = t0 ++ [OLoad (tuple_ts e') v1; OLoad (tuple_ts e') v1]
       /\ ts_lock_bit v1 = false
       /\ wts e' = ts_wts v1
       /\ rts e' = (ts_wts v1 + ts_delta v1) mod 2 ^ 48.
Proof.
  intros Hb Hfm Hm H.
  pose proof (first_match_find _ _ _ _ Hfm) as Hf.
  destruct Hfm as (He & Hc & _).
  unfold transactional_splinterdb_lookup in H.
  destruct (rw_entry_get_found txn k true i Hf) as (e0 & He0 & _ & Hget).
  assert (e0 = e) as -> by congruence.
  rewrite Hget in H. cbn [bind fst snd] in H.
  unfold entry_at in H. rewrite (store_entry_lookup _ _ _ _ He) in H.
  cbn [bind] in H.
  apply exec_bind_done in H as ([is_new e2] & t1 & t2 & Hi & H & ->).
  cbn [snd] in H.
  apply exec_bind_done in H as ([[rc1 res1] v1] & t3 & t4 & Hl & H & ->).
  apply exec_ret_done in H as [-> H]. cbn [fst snd] in H.
  injection H as <- <- <-.
  apply exec_rw_entry_iceberg_insert in Hi
    as (_ & Hnk & _ & Hk2 & Hm2 & _ & _ & Hr2 & _).
  cbn [with_is_read msg is_read key] in Hm2, Hr2, Hk2.
  rewrite orb_true_r in Hr2.
  apply (lookup_loop_own_write _ _ _ _ _ old) in Hl
    as (-> & -> & Hl1 & Hnk2 & t0 & ->); [|exact Hb|congruence].
  rewrite app_nil_r. repeat split; auto.
  - apply Forall_app. auto.
  - exists (with_ts e2 (ts_wts v1) (timestamp_set_get_rts v1)), v1, (t1 ++ t0).
    cbn [with_ts msg is_read tuple_ts wts rts key].
    rewrite <- app_assoc.
    repeat split; auto; [|congruence].
    apply (store_entry_lookup _ _ (with_is_read e (is_read e || true))).
    now apply store_entry_lookup with e.
Qed.

(** ** The keys of the entries (C6, C10) *)

Lemma store_entry_keys txn i e e' :
  rw_entries txn !! i = Some e -> key e' = key e ->
  map key (rw_entries (store_entry txn i e')) = map key (rw_entries txn).
Proof.
  intros He Hk. unfold store_entry. cbn [rw_entries].
  change (map key) with (fmap (M:=list) key).
  rewrite list_fmap_insert, Hk. apply list_insert_id.
  rewrite list_lookup_fmap, He. reflexivity.
Qed.

Lemma exec_rw_entry_get_keys txn k rd tr i txn1 :
  exec (rw_entry_get txn k rd) tr (Done (i, txn1)) ->
  tr = [] /\ i = entry_index txn k
  /\ keys_step txn k txn1
  /\ exists e1, rw_entries txn1 !! i = Some e1.
Proof.
  intros H. apply exec_rw_entry_get in H as (-> & -> & H).
  split; [reflexivity|]. split; [reflexivity|].
  destruct H as [(e & Hf & He & Hc & ->)|(Hf & Hlen & Hlim & E)].
  - split.
    + left. split; [congruence|]. now apply store_entry_keys with e.
    + eexists. now apply store_entry_lookup with e.
  - split.
    + right. repeat split; auto. rewrite E, map_app. reflexivity.
    + unfold entry_index. rewrite Hf, E. cbn [default]. unfold num_rw_entries.
      rewrite lookup_app_r, Nat.sub_diag by lia. eexists. reflexivity.
Qed.

Lemma keys_step_store txn k txn1 i e1 e' :
  keys_step txn k txn1 ->
  rw_entries txn1 !! i = Some e1 -> key e' = key e1 ->
  keys_step txn k (store_entry txn1 i e').
Proof.
  intros Hs He Hk. unfold keys_step in *.
  rewrite (store_entry_keys _ _ _ _ He Hk). exact Hs.
Qed.

Lemma exec_local_write_msg_key e k m tr e3 :
  exec (local_write_msg e k m) tr (Done e3) -> key e3 = key e.
Proof.
  unfold local_write_msg, rw_entry_set_msg.
  destruct (msg e) as [old|].
  - destruct (data_key_compare (key e) k =? 0).
    + destruct (message_is_definitive m).
      * intros H. apply exec_bind_done in H as (? & ? & ? & _ & H & _).
        apply exec_ret_done in H as [_ <-]. reflexivity.
      * destruct (bool_decide (message_class old = MESSAGE_TYPE_DELETE)).
        -- intros [_ H]. discriminate H.
        -- intros H. apply exec_bind_done in H as (? & ? & ? & _ & H & _).
           apply exec_ret_done in H as [_ <-]. reflexivity.
    + intros H. apply exec_ret_done in H as [_ <-]. reflexivity.
  - intros H. apply exec_ret_done in H as [_ <-]. reflexivity.
Qed.

Lemma local_write_keys txn k m tr rc txn' :
  exec (local_write txn k m) tr (Done (rc, txn')) -> keys_step txn k txn'.
Proof.
  unfold local_write. intros H.
  apply exec_bind_done in H as ([i txn1] & t1 & t2 & Hg & H & ->).
  cbn [fst snd] in H.
  apply exec_rw_entry_get_keys in Hg as (_ & _ & Hs & _).
  apply exec_bind_done in H as (e1 & t3 & t4 & He & H & ->).
  apply exec_entry_at in He as [He _].
  apply exec_bind_done in H as (e2 & t5 & t6 & H2 & H & ->).
  apply exec_local_write_sample in H2 as (Hk2 & _).
  apply exec_bind_done in H as (e3 & t7 & t8 & H3 & H & ->).
  apply exec_local_write_msg_key in H3.
  apply exec_ret_done in H as [_ H]. injection H as _ <-.
  apply keys_step_store with e1; auto. congruence.
Qed.

Lemma lookup_keys fuel txn k res tr rc txn' res' :
  exec (transactional_splinterdb_lookup fuel txn k res) tr
    (Done (rc, txn', res')) ->
  keys_step txn k txn'.
Proof.
  unfold transactional_splinterdb_lookup. intros H.
  apply exec_bind_done in H as ([i txn1] & t1 & t2 & Hg & H & ->).
  cbn [fst snd] in H.
  apply exec_rw_entry_get_keys in Hg as (_ & _ & Hs & _).
  apply exec_bind_done in H as (e1 & t3 & t4 & He & H & ->).
  apply exec_entry_at in He as [He _].
  apply exec_bind_done in H as ([is_new e2] & t5 & t6 & H2 & H & ->).
  apply exec_rw_entry_iceberg_insert in H2 as (_ & _ & _ & Hk2 & _).
  cbn [snd] in H.
  apply exec_bind_done in H as (r & t7 & t8 & _ & H & ->).
  apply exec_ret_done in H as [_ H]. injection H as _ <- _.
  apply keys_step_store with e1; auto.
Qed.

Lemma run_op_keys fuel txn op tr txn' :
  exec (run_op fuel txn op) tr (Done txn') -> keys_step txn (op_key op) txn'.
Proof.
  destruct op as [k v|k d|k|k]; cbn [run_op op_key]; intros H;
    apply exec_bind_done in H as (r & t1 & t2 & H1 & H & _);
    apply exec_ret_done in H as [_ <-].
  - destruct r as [rc t]. eapply local_write_keys; eauto.
  - destruct r as [rc t]. eapply local_write_keys; eauto.
  - destruct r as [rc t]. eapply local_write_keys; eauto.
  - destruct r as [[rc t] res]. eapply lookup_keys; eauto.
Qed.

Lemma run_ops_keys fuel txn ops tr txn' :
  Forall (fun op => data_key_compare (op_key op) (zero_padded (op_key op)) = 0)
    ops ->
  exec (run_ops fuel txn ops) tr (Done txn') ->
  NoDup (map key (rw_entries txn)) ->
  NoDup (map key (rw_entries txn'))
  /\ (Forall (fun s => slice_length s = KEY_SIZE) (map key (rw_entries txn)) ->
      Forall (fun s => slice_length s = KEY_SIZE) (map key (rw_entries txn'))).
Proof.
  intros Hpad. revert txn tr.
  induction Hpad as [|op ops Hop Hpad IH]; intros txn tr H Hnd.
  - apply exec_ret_done in H as [_ <-]. auto.
  - cbn [run_ops] in H.
    apply exec_bind_done in H as (txn1 & t1 & t2 & H1 & H & ->).
    apply run_op_keys in H1.
    assert (Hnd1 : NoDup (map key (rw_entries txn1))).
    { destruct H1 as [(_ & ->)|(Hf & Hlen & ->)]; [exact Hnd|].
      apply NoDup_app. split; [exact Hnd|]. split; [|apply NoDup_singleton].
      intros s Hs Hin. apply list_elem_of_singleton in Hin as ->.
      apply rw_entry_find_None in Hf.
      apply list_elem_of_fmap in Hs as (e & Hke & He).
      rewrite Forall_forall in Hf. apply (Hf e He). now rewrite <- Hke. }
    destruct (IH _ _ H Hnd1) as (Hnd' & Hlen'). split; [exact Hnd'|].
    intros Hl. apply Hlen'.
    destruct H1 as [(_ & ->)|(Hf & Hlen & ->)]; [exact Hl|].
    apply Forall_app. split; [exact Hl|].
    constructor; [|constructor]. now apply zero_padded_length.
Qed.


Lemma store_entry_field {A} (f : rw_entry -> A) txn i e e' :
  rw_entries txn !! i = Some e -> f e' = f e ->
  map f (rw_entries (store_entry txn i e')) = map f (rw_entries txn).
Proof.
  intros He Hk. unfold store_entry. cbn [rw_entries].
  change (map f) with (fmap (M:=list) f).
  rewrite list_fmap_insert, Hk. apply list_insert_id.
  rewrite list_lookup_fmap, He. reflexivity.
Qed.

Lemma lock_attempt_payload txn todo n tr txn_a r :
  exec (lock_attempt txn todo n) tr (Done (txn_a, r)) ->
  map key (rw_entries txn_a) = map key (rw_entries txn)
  /\ map msg (rw_entries txn_a) = map msg (rw_entries txn).
Proof.
  revert txn n tr. induction todo as [|wi todo IH]; intros txn n tr H.
  - apply exec_ret_done in H as [_ H]. injection H as <- _. auto.
  - cbn [lock_attempt] in H.
    apply exec_bind_done in H as (w & t1 & t2 & Hw & H & ->).
    apply exec_entry_at in Hw as [Hw _].
    apply exec_bind_done in H as ([is_new w'] & t_i & t3 & Hi & H & ->).
    cbn [snd] in H.
    assert (Hkm : key w' = key w /\ msg w' = msg w).
    { destruct (tuple_ts w =? NULL).
      - apply exec_rw_entry_iceberg_insert in Hi as (_ & _ & _ & ? & ? & _).
        auto.
      - apply exec_ret_done in Hi as [_ Hi]. injection Hi as _ <-. auto. }
    destruct Hkm as [Hk Hm].
    apply exec_bind_done in H as (ok & t_l & t4 & _ & H & ->).
    destruct ok.
    + apply IH in H as [-> ->].
      split; eapply store_entry_field; eauto.
    + apply exec_ret_done in H as [_ H]. injection H as <- _.
      split; eapply store_entry_field; eauto.
Qed.

Lemma lock_write_set_payload fuel txn ws tr txn1 :
  exec (lock_write_set fuel txn ws) tr (Done txn1) ->
  map key (rw_entries txn1) = map key (rw_entries txn)
  /\ map msg (rw_entries txn1) = map msg (rw_entries txn).
Proof.
  revert txn tr. induction fuel as [|fuel IH]; intros txn tr H.
  { destruct H as [_ H]. discriminate H. }
  cbn [lock_write_set] in H.
  apply exec_bind_done in H as ([txn_a r] & t_a & t2 & Ha & H & ->).
  cbn [fst snd] in H. apply lock_attempt_payload in Ha as [Ek Em].
  destruct r as [m|].
  - apply exec_bind_done in H as ([] & t_u & t3 & _ & H & ->).
    apply exec_bind_done in H as ([] & t_s & t_r & _ & H & ->).
    apply IH in H as [-> ->]. auto.
  - apply exec_ret_done in H as [_ <-]. auto.
Qed.




(** C6, as amended: provided the comparator reports every user key of the
    calls equal to its own zero-padded copy of [KEY_SIZE] bytes (as it does
    when the keys are [KEY_SIZE] bytes long and the comparator is
    reflexive), after every sequence of insert, update, delete and lookup
    calls of one transaction no two entries store the same key.  In any
    case [rw_entry_get] searches the entries in order, comparing the user
    key with each stored key by the comparator of the data configuration;
    it returns the first entry that compares equal, and only when none does
    it appends a fresh entry whose key is the user key copied into a
    zeroed buffer of [KEY_SIZE] bytes. *)
Theorem one_entry_per_key fuel ops tr txn :
  Forall (fun op => data_key_compare (op_key op) (zero_padded (op_key op)) = 0)
    ops ->
  exec (run_ops fuel transactional_splinterdb_begin ops) tr (Done txn) ->
  NoDup (map key (rw_entries txn))
  /\ forall k rd tr' i txn',
       exec (rw_entry_get txn k rd) tr' (Done (i, txn')) ->
       (exists e,
           rw_entry_find k (rw_entries txn) 0 = Some i
           /\ rw_entries txn !! i = Some e
           /\ data_key_compare k (key e) = 0
           /\ (forall j e', (j < i)%nat -> rw_entries txn !! j = Some e' ->
                            data_key_compare k (key e') <> 0)
           /\ map key (rw_entries txn') = map key (rw_entries txn))
       \/ (Forall (fun e => data_key_compare k (key e) <> 0) (rw_entries txn)
           /\ i = num_rw_entries txn
           /\ exists e0,
                rw_entries txn' = rw_entries txn ++ [e0]
                /\ key e0 = zero_padded k
                /\ slice_length (key e0) = KEY_SIZE).
Proof.
  intros Hpad H. split.
  - apply (run_ops_keys _ _ _ _ _ Hpad H). constructor.
  - intros k rd tr' i txn' Hg.
    pose proof (exec_rw_entry_get_keys _ _ _ _ _ _ Hg) as (_ & _ & Hstep & _).
    apply exec_rw_entry_get in Hg as (_ & Ei & Hg).
    destruct Hg as [(e & Hf & He & Hc & ->)|(Hf & Hlen & Hlim & E)].
    + left. exists e. repeat split; auto.
      * intros j e' Hj He'.
        destruct (rw_entry_find_Some _ _ _ _ Hf) as (_ & _ & _ & _ & Hmin).
        apply (Hmin j e'); [lia|exact He'].
      * now apply store_entry_keys with e.
    + right. split; [now apply (rw_entry_find_None k (rw_entries txn) 0%nat)|].
      split; [unfold entry_index in Ei; now rewrite Hf in Ei|].
      eexists. split; [exact E|]. split; [reflexivity|].
      now apply zero_padded_length.
Qed.


End Properties.

(** * The statements at work

    Runs of the example transactions in the example worlds. *)

Section Witnesses.
#[local] Existing Instance example_data_config.
#[local] Existing Instance example_build_config.

(** An execution obtained by running the program against a world. *)
Ltac exec_by_run w :=
  match goal with
  | |- exec ?p ?tr ?o =>
      apply (run_exec world_handler p w o
               (snd (fst (run world_handler p w))) tr);
      vm_compute; reflexivity
  end.

Lemma slice_lex_cmp_total (a b : slice) :
  0 < data_key_compare a b -> data_key_compare b a <= 0.
Proof.
  cbn [data_key_compare example_data_config]. unfold slice_lex_cmp. rewrite (String.compare_antisym b a).
  destruct (String.compare a b); simpl; lia.
Qed.

Lemma slice_lex_cmp_sym (a b : slice) :
  data_key_compare a b = 0 -> data_key_compare b a = 0.
Proof.
  cbn [data_key_compare example_data_config]. unfold slice_lex_cmp. rewrite (String.compare_antisym b a).
  destruct (String.compare a b); simpl; lia.
Qed.

Lemma extend_rts_reaches_commit_ts_witness :
  timestamp_set_get_rts (extend_rts 40100 (mk_ts true 0 100)) = 40100
  /\ ts_wts (extend_rts 40100 (mk_ts true 0 100)) = 100 + 32768
  /\ ts_delta (extend_rts 40100 (mk_ts true 0 100)) = 7232
  /\ ts_lock_bit (extend_rts 40100 (mk_ts true 0 100)) = true.
Proof.
  pose proof (proj1 extend_rts_reaches_commit_ts 40100 (mk_ts true 0 100))
    as H.
  destruct H as (Hw & Hd & Hl & _ & _ & Hr).
  - vm_compute. split; [intros E; discriminate E | reflexivity].
  - split; [exact Hr|]. split; [exact Hw|]. split; [exact Hd|exact Hl].
Defined.

Lemma read_validation_aborts_iff_witness :
  exec (transactional_splinterdb_commit 2 demo_abort_txn) demo_abort_trace
    (Done (-1))
  /\ exists txn1 commit_ts is_abort t_lock t_raise t_val t_body t_deinit,
       commit_run 2 demo_abort_txn demo_abort_trace (-1) txn1 commit_ts
         is_abort t_lock t_raise t_val t_body t_deinit
       /\ commit_read_set demo_abort_txn = [0%nat]
       /\ validation_walk txn1 commit_ts (commit_read_set demo_abort_txn)
            is_abort t_val
       /\ read_abort_witness 2 txn1 commit_ts (commit_read_set demo_abort_txn)
            t_val.
Proof.
  assert (H : exec (transactional_splinterdb_commit 2 demo_abort_txn)
                demo_abort_trace (Done (-1)))
    by exec_by_run demo_abort_world.
  split; [exact H|].
  destruct (read_validation_aborts_iff 2 demo_abort_txn demo_abort_trace (-1) H)
    as [(txn1 & cts & ab & t_lock & t_raise & t_val & t_body & t_deinit
         & Hrun & Hrs & Hwalk & _ & Hiff) _].
  exists txn1, cts, ab, t_lock, t_raise, t_val, t_body, t_deinit.
  split; [exact Hrun|]. split; [exact Hrs|]. split; [exact Hwalk|].
  apply Hiff. reflexivity.
Defined.

Lemma commit_ts_is_max_of_bounds_witness :
  Forall (fun e => 0 <= wts e < 2 ^ 48) (rw_entries demo_retry_txn)
  /\ exec (transactional_splinterdb_commit 2 demo_retry_txn) demo_retry_trace
       (Done 0)
  /\ exists txn1 t_lock ws_entries vs commit_ts is_abort t_val t_fin,
       Permutation (sorted_write_set demo_retry_txn) [0%nat; 1%nat]
       /\ commit_read_set demo_retry_txn = []
       /\ exec (lock_write_set 2 demo_retry_txn
                  (sorted_write_set demo_retry_txn)) t_lock (Done txn1)
       /\ Forall2 (fun wi w => rw_entries txn1 !! wi = Some w)
            (sorted_write_set demo_retry_txn) ws_entries
       /\ length vs = length ws_entries
       /\ commit_ts
          = max_list
              (map (fun v => (ts_wts v + ts_delta v) mod 2 ^ 48 + 1) vs)
       /\ exec (validate_reads 2 txn1 commit_ts
                  (commit_read_set demo_retry_txn)) t_val (Done is_abort)
       /\ exec (commit_finish 2 txn1 commit_ts
                  (sorted_write_set demo_retry_txn) is_abort) t_fin (Done 0)
       /\ demo_retry_trace
          = t_lock
            ++ zip_with (fun w v => OLoad (tuple_ts w) v) ws_entries vs
            ++ t_val ++ t_fin.
Proof.
  assert (Hw : Forall (fun e => 0 <= wts e < 2 ^ 48) (rw_entries demo_retry_txn))
    by (repeat constructor; simpl; lia).
  assert (H : exec (transactional_splinterdb_commit 2 demo_retry_txn)
                demo_retry_trace (Done 0))
    by exec_by_run demo_retry_world.
  split; [exact Hw|]. split; [exact H|].
  exact (commit_ts_is_max_of_bounds 2 demo_retry_txn demo_retry_trace 0 Hw H).
Defined.

Lemma lookup_reads_own_write_witness :
  EXPERIMENTAL_MODE_BYPASS_SPLINTERDB = false
  /\ first_match demo_own_txn "abcd" 0
       (example_write "abcd" (message_create MESSAGE_TYPE_INSERT "v1") NULL)
  /\ exec (transactional_splinterdb_lookup 1 demo_own_txn "abcd" "")
       demo_own_trace (Done (0, demo_own_txn', "v1"))
  /\ Forall not_kvs demo_own_trace
  /\ exists e' v1 t0,
       rw_entries demo_own_txn' !! 0%nat = Some e'
       /\ msg e' = Some (message_create MESSAGE_TYPE_INSERT "v1")
       /\ demo_own_trace
          = t0 ++ [OLoad (tuple_ts e') v1; OLoad (tuple_ts e') v1]
       /\ ts_lock_bit v1 = false
       /\ wts e' = ts_wts v1
       /\ rts e' = (ts_wts v1 + ts_delta v1) mod 2 ^ 48.
Proof.
  assert (Hb : EXPERIMENTAL_MODE_BYPASS_SPLINTERDB = false) by reflexivity.
  assert (Hp : first_match demo_own_txn "abcd" 0
                 (example_write "abcd"
                    (message_create MESSAGE_TYPE_INSERT "v1") NULL)).
  { split; [reflexivity|]. split; [reflexivity|]. intros j e' Hj. lia. }
  assert (H : exec (transactional_splinterdb_lookup 1 demo_own_txn "abcd" "")
                demo_own_trace (Done (0, demo_own_txn', "v1")))
    by exec_by_run empty_world.
  split; [exact Hb|]. split; [exact Hp|]. split; [exact H|].
  destruct (lookup_reads_own_write 1 demo_own_txn "abcd" "" 0
              (example_write "abcd"
                 (message_create MESSAGE_TYPE_INSERT "v1") NULL)
              (message_create MESSAGE_TYPE_INSERT "v1") demo_own_trace
              0 demo_own_txn' "v1" Hb Hp eq_refl H)
    as (_ & _ & Hnk & e' & v1 & t0 & He' & _ & Hm' & _ & Htr & Hl & Hw & Hr).
  split; [exact Hnk|]. exists e', v1, t0. auto 10.
Defined.

Lemma one_entry_per_key_witness :
  Forall (fun op => data_key_compare (op_key op) (zero_padded (op_key op)) = 0)
    demo_ops
  /\ exec (run_ops 1 transactional_splinterdb_begin demo_ops) demo_ops_trace
       (Done demo_ops_txn)
  /\ NoDup (map key (rw_entries demo_ops_txn)).
Proof.
  assert (Hpad : Forall (fun op => data_key_compare (op_key op)
                                     (zero_padded (op_key op)) = 0) demo_ops)
    by (repeat constructor; vm_compute; reflexivity).
  assert (H : exec (run_ops 1 transactional_splinterdb_begin demo_ops)
                demo_ops_trace (Done demo_ops_txn))
    by exec_by_run empty_world.
  split; [exact Hpad|]. split; [exact H|].
  exact (proj1 (one_entry_per_key 1 demo_ops demo_ops_trace demo_ops_txn Hpad H)).
Defined.

Lemma no_wait_locking_in_key_order_witness :
  exec (transactional_splinterdb_commit 2 demo_retry_txn) demo_retry_trace
    (Done 0)
  /\ sorted_write_set demo_retry_txn = [1%nat; 0%nat]
  /\ exists txn1 t_lock t_rest ps,
       demo_retry_trace = t_lock ++ t_rest
       /\ Forall2 (slot_of txn1) (sorted_write_set demo_retry_txn) ps
       /\ no_wait_tr ps (without_installs t_lock).
Proof.
  assert (H : exec (transactional_splinterdb_commit 2 demo_retry_txn)
                demo_retry_trace (Done 0))
    by exec_by_run demo_retry_world.
  split; [exact H|]. split; [vm_compute; reflexivity|].
  destruct (no_wait_locking_in_key_order 2 demo_retry_txn demo_retry_trace 0
              slice_lex_cmp_total H)
    as (_ & _ & txn1 & t_lock & t_rest & ps & Htr & _ & Hps & Hnw).
  exists txn1, t_lock, t_rest, ps. auto.
Defined.

Lemma buffered_write_merge_rules_witness :
  first_match demo_own_txn "abcd" 0
    (example_write "abcd" (message_create MESSAGE_TYPE_INSERT "v1") NULL)
  /\ exec (local_write demo_own_txn "abcd"
             (message_create MESSAGE_TYPE_INSERT "v2"))
       [OFree (MsgBuf "v1")]
       (Done (0, Build_transaction
                   [example_write "abcd"
                      (message_create MESSAGE_TYPE_INSERT "v2") NULL]))
  /\ In (OFree (MsgBuf (message_data (message_create MESSAGE_TYPE_INSERT "v1"))))
       [OFree (MsgBuf "v1")]
  /\ exists e',
       rw_entries
         (Build_transaction
            [example_write "abcd" (message_create MESSAGE_TYPE_INSERT "v2")
               NULL]) !! 0%nat = Some e'
       /\ key e' = "abcd"
       /\ msg e' = Some (message_create MESSAGE_TYPE_INSERT "v2").
Proof.
  assert (Hp : first_match demo_own_txn "abcd" 0
                 (example_write "abcd"
                    (message_create MESSAGE_TYPE_INSERT "v1") NULL)).
  { split; [reflexivity|]. split; [reflexivity|]. intros j e' Hj. lia. }
  assert (H : exec (local_write demo_own_txn "abcd"
                      (message_create MESSAGE_TYPE_INSERT "v2"))
                [OFree (MsgBuf "v1")]
                (Done (0, Build_transaction
                            [example_write "abcd"
                               (message_create MESSAGE_TYPE_INSERT "v2") NULL])))
    by exec_by_run empty_world.
  split; [exact Hp|]. split; [exact H|].
  destruct (buffered_write_merge_rules demo_own_txn "abcd"
              (message_create MESSAGE_TYPE_INSERT "v2") slice_lex_cmp_sym)
    as (Hdef & _).
  destruct (Hdef _ _ _ _ _ _ Hp eq_refl eq_refl H) as (_ & Hin & He').
  split; [exact Hin|exact He'].
Defined.

Lemma committed_write_installs_commit_ts_witness :
  exec (transactional_splinterdb_commit 2 demo_retry_txn) demo_retry_trace
    (Done 0)
  /\ exists commit_ts segs,
       Forall2 (fun _ seg =>
                  exists p t_kvs t_cas,
                    seg = t_kvs ++ t_cas
                    /\ cas_loop_tr p (fun _ => mk_ts false 0 commit_ts) t_cas)
         (sorted_write_set demo_retry_txn) segs
       /\ ts_delta (mk_ts false 0 commit_ts) = 0
       /\ ts_lock_bit (mk_ts false 0 commit_ts) = false.
Proof.
  assert (H : exec (transactional_splinterdb_commit 2 demo_retry_txn)
                demo_retry_trace (Done 0))
    by exec_by_run demo_retry_world.
  split; [exact H|].
  destruct (committed_write_installs_commit_ts 2 demo_retry_txn
              demo_retry_trace 0 H eq_refl)
    as (txn1 & cts & t_lock & t_raise & t_val & t_body & t_deinit & segs
        & _ & _ & Hsegs & _ & Hd & Hl & _).
  exists cts, segs. split; [|auto].
  eapply Forall2_impl; [exact Hsegs|].
  intros wi seg (w & m & t_cas & _ & _ & -> & Hcas).
  exists (tuple_ts w), (apply_message_tr w m), t_cas. auto.
Defined.


(** The claim of C1 as it is stated, with the read timestamp
    [rts_of(v1) = v1.wts + v1.delta] of the specification, fails where
    that sum reaches [2^48].  The transaction has read [aaaa] at
    [wts = 2^48 - 32767] and [bbbb] at [wts = 2^48 - 1], so that
    [commit_ts = 2^48 - 1]; the one snapshot that validation loads is
    [{lock_bit = 1, delta = 32767, wts = 2^48 - 32767}] from the slot of
    [aaaa].  It has the [wts] the entry sampled, and [wts + delta = 2^48]
    is above [commit_ts], so it meets neither abort condition of the claim;
    but the code adds the two bit-fields in 48 bits, gets 0, reads the
    lock bit, and commit returns [-1]. *)
Lemma validation_aborts_on_wrapped_rts :
  exec (transactional_splinterdb_commit 1 demo_rts_wrap_txn)
    demo_rts_wrap_trace (Done (-1))
  /\ exec (raise_commit_ts demo_rts_wrap_txn
             (sorted_write_set demo_rts_wrap_txn)
             (initial_commit_ts demo_rts_wrap_txn))
       [] (Done (2 ^ 48 - 1))
  /\ demo_rts_wrap_trace
     = [OLoad 8 (mk_ts true 32767 (2 ^ 48 - 32767)); OLockBit 8 true;
        OIcebergRemove "aaaa" None; OFree (EntryObj 0);
        OIcebergRemove "bbbb" (Some true); OFree (KeyBuf "bbbb");
        OFree (EntryObj 1)]
  /\ rw_entries demo_rts_wrap_txn !! 0%nat
     = Some (Build_rw_entry "aaaa" None (2 ^ 48 - 32767) (2 ^ 48 - 32767) 8
               true true false)
  /\ ts_wts (mk_ts true 32767 (2 ^ 48 - 32767)) = 2 ^ 48 - 32767
  /\ ts_wts (mk_ts true 32767 (2 ^ 48 - 32767))
     + ts_delta (mk_ts true 32767 (2 ^ 48 - 32767)) = 2 ^ 48
  /\ timestamp_set_get_rts (mk_ts true 32767 (2 ^ 48 - 32767)) = 0
  /\ (forall locked,
        ~ spec_aborting_snapshot (2 ^ 48 - 1)
            (Build_rw_entry "aaaa" None (2 ^ 48 - 32767) (2 ^ 48 - 32767) 8
               true true false)
            (mk_ts true 32767 (2 ^ 48 - 32767)) locked).
Proof.
  split; [exec_by_run demo_rts_wrap_world|].
  split; [exec_by_run demo_rts_wrap_world|].
  split; [vm_compute; reflexivity|].
  split; [reflexivity|].
  assert (Hw : ts_wts (mk_ts true 32767 (2 ^ 48 - 32767)) = 2 ^ 48 - 32767)
    by (vm_compute; reflexivity).
  assert (Hd : ts_delta (mk_ts true 32767 (2 ^ 48 - 32767)) = 32767)
    by (vm_compute; reflexivity).
  split; [exact Hw|]. split; [rewrite Hw, Hd; reflexivity|].
  split; [vm_compute; reflexivity|].
  intros locked [Hne|(Hle & _)].
  - apply Hne. cbn [wts]. exact Hw.
  - rewrite Hw, Hd in Hle. vm_compute in Hle. apply Hle. reflexivity.
Qed.

(** The claim of C2 as it is stated, for every snapshot with
    [v1.wts <= commit_ts], fails at [commit_ts = 2^48], the largest commit
    timestamp that commit derives from the 48-bit timestamps it samples.
    The transaction buffers a write of [bbbb], whose
    slot holds [wts = 2^48 - 1] and [delta = 0], so that
    [commit_ts = 2^48]; it has read [aaaa] at [wts = 2^48 - 32768].
    Validation extends the read timestamp of [aaaa]:
    [delta = shift = 32768], and the new [wts = 2^48] does not fit its 48
    bits: the word stored has [wts = 0] and [delta = 0]. *)
Lemma extend_rts_wraps_to_zero :
  exec (transactional_splinterdb_commit 1 demo_extend_txn) demo_extend_trace
    (Done 0)
  /\ exec (raise_commit_ts demo_extend_txn (sorted_write_set demo_extend_txn)
             (initial_commit_ts demo_extend_txn))
       [OLoad 16 (mk_ts true 0 (2 ^ 48 - 1))] (Done (2 ^ 48))
  /\ In (OCas 8 (mk_ts false 0 (2 ^ 48 - 32768))
           (extend_rts (2 ^ 48) (mk_ts false 0 (2 ^ 48 - 32768))) true)
       demo_extend_trace
  /\ ts_wts (mk_ts false 0 (2 ^ 48 - 32768)) <= 2 ^ 48
  /\ ts_wts (extend_rts (2 ^ 48) (mk_ts false 0 (2 ^ 48 - 32768))) = 0
  /\ ts_delta (extend_rts (2 ^ 48) (mk_ts false 0 (2 ^ 48 - 32768))) = 0
  /\ ts_wts (extend_rts (2 ^ 48) (mk_ts false 0 (2 ^ 48 - 32768)))
     + ts_delta (extend_rts (2 ^ 48) (mk_ts false 0 (2 ^ 48 - 32768)))
     <> 2 ^ 48.
Proof.
  split; [exec_by_run demo_extend_world|]. split.
  - exec_by_run
      (Build_world (<[16 := mk_ts true 0 (2 ^ 48 - 1)]> ∅) ∅ ∅ 24 []).
  - split; [vm_compute; auto 10|].
    split; [vm_compute; intros E; discriminate E|].
    split; [vm_compute; reflexivity|]. split; [vm_compute; reflexivity|].
    vm_compute. discriminate.
Qed.

(** The claim of C3 as it is stated, with the read timestamp
    [rts_of(slot) = wts + delta] of the specification, fails where that
    sum reaches [2^48].  The transaction has read [bbbb] at [wts = 5] and
    buffers a write of [aaaa], whose slot holds [wts = 2^48 - 1] and
    [delta = 1].  The bound of the claim for that slot is
    [wts + delta + 1 = 2^48 + 1]; the code adds the two bit-fields in 48
    bits, gets the read timestamp 0 and the bound 1, and commits at
    [commit_ts = 5]: that is the [wts] of the word it installs. *)
Lemma commit_ts_below_wts_plus_delta :
  exec (transactional_splinterdb_commit 1 demo_bound_txn) demo_bound_trace
    (Done 0)
  /\ initial_commit_ts demo_bound_txn = 5
  /\ exec (raise_commit_ts demo_bound_txn (sorted_write_set demo_bound_txn)
             (initial_commit_ts demo_bound_txn))
       [OLoad 8 (mk_ts true 1 (2 ^ 48 - 1))] (Done 5)
  /\ In (OCas 8 (mk_ts true 1 (2 ^ 48 - 1)) (mk_ts false 0 5) true)
       demo_bound_trace
  /\ ts_wts (mk_ts true 1 (2 ^ 48 - 1)) + ts_delta (mk_ts true 1 (2 ^ 48 - 1))
     + 1 = 2 ^ 48 + 1
  /\ timestamp_set_get_rts (mk_ts true 1 (2 ^ 48 - 1)) + 1 = 1
  /\ ts_wts (mk_ts false 0 5) = 5
  /\ max_list [5; 2 ^ 48 + 1] <> 5.
Proof.
  split; [exec_by_run demo_bound_world|].
  split; [vm_compute; reflexivity|]. split.
  - exec_by_run
      (Build_world (<[8 := mk_ts true 1 (2 ^ 48 - 1)]> ∅) ∅ ∅ 24 []).
  - split; [vm_compute; auto 10|].
    split; [vm_compute; reflexivity|]. split; [vm_compute; reflexivity|].
    split; [vm_compute; reflexivity|].
    vm_compute. discriminate.
Qed.

(** The claim of C5 as it is stated fails in two places.  With the
    lexicographic comparator of the default data configuration and a key
    shorter than [KEY_SIZE]: after the insert of [a] the transaction holds
    a pending write message for [a], in an entry that stores [a] padded to
    four bytes; the lookup of [a] compares [a] with that padded key, finds
    them different, works on a second entry, asks the key-value store and
    returns what the store holds, not the pending value.  And where
    [wts + delta] of the snapshot reaches [2^48]: the lookup of [aaaa],
    for which the transaction holds a pending insert, samples
    [{wts = 2^48 - 1, delta = 1}] and records [rts = 0], not
    [wts + delta = 2^48]. *)
Lemma lookup_misses_own_write_of_short_key :
  exec (transactional_splinterdb_insert transactional_splinterdb_begin
          "a" "1")
    [] (Done (0, demo_short_write_txn))
  /\ rw_entries demo_short_write_txn
     = [Build_rw_entry (zero_padded "a")
          (Some (message_create MESSAGE_TYPE_INSERT "1")) 0 0 NULL
          false false false]
  /\ data_key_compare "a" (zero_padded "a") <> 0
  /\ exec (transactional_splinterdb_lookup 1 demo_short_write_txn "a" "")
       demo_short_lookup_trace (Done (0, demo_short_lookup_txn, ""))
  /\ demo_short_lookup_trace
     = [OIcebergInsert true (zero_padded "a") 8 true; OLoad 8 0;
        OKvsLookup "a" 0 ""; OLoad 8 0]
  /\ exec (transactional_splinterdb_lookup 1 demo_bound_txn "aaaa" "")
       demo_bound_lookup_trace (Done (0, demo_bound_lookup_txn, "1"))
  /\ demo_bound_lookup_trace
     = [OLoad 8 (mk_ts false 1 (2 ^ 48 - 1));
        OLoad 8 (mk_ts false 1 (2 ^ 48 - 1))]
  /\ rw_entries demo_bound_lookup_txn !! 0%nat
     = Some (Build_rw_entry "aaaa"
               (Some (message_create MESSAGE_TYPE_INSERT "1"))
               (2 ^ 48 - 1) 0 8 true false false)
  /\ ts_wts (mk_ts false 1 (2 ^ 48 - 1)) + ts_delta (mk_ts false 1 (2 ^ 48 - 1))
     = 2 ^ 48.
Proof.
  split; [exec_by_run empty_world|]. split; [reflexivity|].
  split; [vm_compute; discriminate|].
  split; [exec_by_run empty_world|]. split; [vm_compute; reflexivity|].
  split; [exec_by_run demo_bound_world|]. split; [vm_compute; reflexivity|].
  split; [reflexivity|]. vm_compute. reflexivity.
Qed.

(** The claim of C8 as it is stated fails with the lexicographic
    comparator of the default data configuration and a key shorter than
    [KEY_SIZE]: after the delete of [a] the transaction holds a pending
    DELETE for [a], in an entry that stores [a] padded to four bytes; the
    update of [a] compares [a] with that padded key, finds them different,
    and records the UPDATE in a second entry: it returns 0, without the
    assertion failing, without a merge and without freeing anything. *)
Lemma update_after_delete_of_short_key_returns :
  exec (transactional_splinterdb_delete transactional_splinterdb_begin "a")
    [OIcebergInsert true (zero_padded "a") 8 true; OLoad 8 0]
    (Done (0, demo_short_delete_txn))
  /\ map key (rw_entries demo_short_delete_txn) = [zero_padded "a"]
  /\ map msg (rw_entries demo_short_delete_txn) = [Some DELETE_MESSAGE]
  /\ data_key_compare "a" (zero_padded "a") <> 0
  /\ exec (transactional_splinterdb_update demo_short_delete_txn "a" "x")
       demo_short_update_trace (Done (0, demo_short_update_txn))
  /\ demo_short_update_trace
     = [OIcebergInsert true (zero_padded "a") 8 false; OLoad 8 0]
  /\ map key (rw_entries demo_short_update_txn)
     = [zero_padded "a"; zero_padded "a"]
  /\ map msg (rw_entries demo_short_update_txn)
     = [Some DELETE_MESSAGE; Some (message_create MESSAGE_TYPE_UPDATE "x")].
Proof.
  split; [exec_by_run empty_world|]. split; [vm_compute; reflexivity|].
  split; [vm_compute; reflexivity|]. split; [vm_compute; discriminate|].
  split; [exec_by_run demo_short_delete_world|].
  split; [vm_compute; reflexivity|]. split; vm_compute; reflexivity.
Qed.

(** The claim of C6 as it is stated fails with the lexicographic
    comparator of the default data configuration and a key shorter than
    [KEY_SIZE]: the insert of [a] stores the key [a] padded to four bytes,
    the lookup of [a] compares [a] with that padded key, finds them
    different, appends a second entry with the same padded key and asks the
    key-value store. *)
Lemma short_key_gets_two_entries :
  exec (run_ops 1 transactional_splinterdb_begin demo_short_ops)
    demo_short_trace (Done demo_short_txn)
  /\ map key (rw_entries demo_short_txn) = [zero_padded "a"; zero_padded "a"]
  /\ ~ NoDup (map key (rw_entries demo_short_txn))
  /\ In (OKvsLookup "a" 0 "") demo_short_trace.
Proof.
  split; [exec_by_run empty_world|]. split; [vm_compute; reflexivity|].
  split.
  - intros Hnd. apply NoDup_cons in Hnd as [Hnin _]. apply Hnin.
    apply list_elem_of_here.
  - vm_compute. auto.
Qed.

(** The claim of C9 as it is stated fails where [commit_ts] leaves the
    48-bit field: the write of a key whose slot holds [wts = 2^48 - 1]
    commits at [commit_ts = 2^48], and the word installed has [wts = 0]. *)
Lemma committed_wts_wraps_past_48_bits :
  exec (transactional_splinterdb_commit 1 demo_wrap_txn) demo_wrap_trace
    (Done 0)
  /\ exec (raise_commit_ts demo_wrap_txn (sorted_write_set demo_wrap_txn)
             (initial_commit_ts demo_wrap_txn))
       [OLoad 8 (mk_ts true 0 (2 ^ 48 - 1))] (Done (2 ^ 48))
  /\ In (OCas 8 (mk_ts true 0 (2 ^ 48 - 1)) (mk_ts false 0 (2 ^ 48)) true)
       demo_wrap_trace
  /\ ts_wts (mk_ts false 0 (2 ^ 48)) = 0
  /\ ts_wts (mk_ts false 0 (2 ^ 48)) <> 2 ^ 48.
Proof.
  split; [exec_by_run demo_wrap_world|]. split.
  - exec_by_run
      (Build_world (<[8 := mk_ts true 0 (2 ^ 48 - 1)]> ∅) ∅ ∅ 16 []).
  - split; [vm_compute; auto 10|]. split; [reflexivity|].
    vm_compute. discriminate.
Qed.

End Witnesses.

(** * Termination without contention

    In a world in which no other thread interferes, the loops that spin on
    a timestamp word end in their first round. *)

Lemma run_bind {S A B} (h : handler S) (p : prog A) (f : A -> prog B) s :
  run h (bind p f) s
  = let '(o, s1, t1) := run h p s in
    match o with
    | Done a => let '(o2, s2, t2) := run h (f a) s1 in (o2, s2, t1 ++ t2)
    | Crashed c => (Crashed c, s1, t1)
    | TimedOut => (TimedOut, s1, t1)
    end.
Proof.
  revert s. induction p as [a|X e k IH|c|]; intros s; simpl.
  - destruct (run h (f a) s) as [[o2 s2] t2]. reflexivity.
  - destruct (h X e s) as [x s1]. rewrite IH.
    destruct (run h (k x) s1) as [[o s2] t1].
    destruct o; [|reflexivity|reflexivity].
    destruct (run h (f a) s2) as [[o3 s3] t3]. reflexivity.
  - reflexivity.
  - reflexivity.
Qed.

Lemma world_interfere_quiescent s : quiescent s -> world_interfere s = s.
Proof. unfold quiescent, world_interfere. intros ->. reflexivity. Qed.

Lemma run_load s p :
  quiescent s ->
  run world_handler (trigger (AtomicLoad p)) s
  = (Done (world_load s p), s, [OLoad p (world_load s p)]).
Proof.
  intros Hq. simpl. unfold world_handler.
  rewrite (world_interfere_quiescent s Hq). reflexivity.
Qed.

Lemma run_lock_bit s p :
  quiescent s ->
  run world_handler (trigger (LoadLockBit p)) s
  = (Done (ts_lock_bit (world_load s p)), s,
     [OLockBit p (ts_lock_bit (world_load s p))]).
Proof.
  intros Hq. simpl. unfold world_handler.
  rewrite (world_interfere_quiescent s Hq). reflexivity.
Qed.

Lemma run_cas s p v2 :
  quiescent s ->
  run world_handler (trigger (AtomicCAS p (world_load s p) v2)) s
  = (Done true, world_set_mem s (<[p := v2]> (w_mem s)),
     [OCas p (world_load s p) v2 true]).
Proof.
  intros Hq. simpl. unfold world_handler.
  rewrite (world_interfere_quiescent s Hq).
  rewrite bool_decide_eq_true_2 by reflexivity. reflexivity.
Qed.

Lemma world_load_set_mem s p v :
  world_load (world_set_mem s (<[p := v]> (w_mem s))) p = v.
Proof.
  unfold world_load, world_set_mem. cbn [w_mem].
  now rewrite lookup_insert_eq.
Qed.

Lemma quiescent_set_mem s m : quiescent s -> quiescent (world_set_mem s m).
Proof. intros H. exact H. Qed.

Section Totality.
Context {dcfg : data_config} {bcfg : build_config}.

Lemma run_load_tuple_ts s e :
  quiescent s -> tuple_ts e <> NULL ->
  run world_handler (load_tuple_ts e) s
  = (Done (world_load s (tuple_ts e)), s,
     [OLoad (tuple_ts e) (world_load s (tuple_ts e))]).
Proof.
  intros Hq Hp. unfold load_tuple_ts.
  destruct (Z.eqb_spec (tuple_ts e) NULL); [contradiction|].
  now apply run_load.
Qed.

(** The release of a lock takes one round. *)
Lemma rw_entry_unlock_quiescent fuel s e :
  quiescent s -> tuple_ts e <> NULL ->
  run world_handler (rw_entry_unlock (S fuel) e) s
  = (Done tt,
     world_set_mem s
       (<[tuple_ts e := set_lock_bit (world_load s (tuple_ts e)) false]>
          (w_mem s)),
     [OLoad (tuple_ts e) (world_load s (tuple_ts e));
      OCas (tuple_ts e) (world_load s (tuple_ts e))
        (set_lock_bit (world_load s (tuple_ts e)) false) true]).
Proof.
  intros Hq Hp. cbn [rw_entry_unlock].
  rewrite run_bind, (run_load_tuple_ts s e Hq Hp).
  unfold timestamp_set_compare_and_swap.
  rewrite run_bind, (run_cas s _ _ Hq). reflexivity.
Qed.

(** So does the installation of the commit timestamp. *)
Lemma install_commit_ts_quiescent fuel commit_ts s w :
  quiescent s -> tuple_ts w <> NULL ->
  run world_handler (install_commit_ts (S fuel) commit_ts w) s
  = (Done tt,
     world_set_mem s (<[tuple_ts w := mk_ts false 0 commit_ts]> (w_mem s)),
     [OLoad (tuple_ts w) (world_load s (tuple_ts w));
      OCas (tuple_ts w) (world_load s (tuple_ts w))
        (mk_ts false 0 commit_ts) true]).
Proof.
  intros Hq Hp. cbn [install_commit_ts].
  rewrite run_bind, (run_load_tuple_ts s w Hq Hp).
  unfold timestamp_set_compare_and_swap.
  rewrite run_bind, (run_cas s _ _ Hq), committed_ts_eq. reflexivity.
Qed.

(** After it the word of the slot is the committed one. *)
Lemma install_commit_ts_stores fuel commit_ts s w :
  quiescent s -> tuple_ts w <> NULL ->
  world_load
    (snd (fst (run world_handler (install_commit_ts (S fuel) commit_ts w) s)))
    (tuple_ts w)
  = mk_ts false 0 commit_ts.
Proof.
  intros Hq Hp. rewrite (install_commit_ts_quiescent _ _ _ _ Hq Hp).
  cbn [fst snd]. apply world_load_set_mem.
Qed.

(** The validation of a read entry ends in one round, aborting or not. *)
Lemma no_new_lock_refl s : no_new_lock s s.
Proof. intros q H. exact H. Qed.

Lemma no_new_lock_trans s1 s2 s3 :
  no_new_lock s1 s2 -> no_new_lock s2 s3 -> no_new_lock s1 s3.
Proof. intros H1 H2 q H. auto. Qed.

Lemma no_new_lock_set_mem s p v :
  (ts_lock_bit v = true -> ts_lock_bit (world_load s p) = true) ->
  no_new_lock s (world_set_mem s (<[p := v]> (w_mem s))).
Proof.
  intros Hv q. unfold world_load, world_set_mem. cbn [w_mem].
  destruct (decide (q = p)) as [->|Hne].
  - rewrite lookup_insert_eq. exact Hv.
  - rewrite lookup_insert_ne by auto. auto.
Qed.

Lemma validate_read_loop_quiescent fuel commit_ts s r :
  quiescent s -> tuple_ts r <> NULL ->
  exists ab s' tr,
    run world_handler (validate_read_loop (S fuel) commit_ts r) s
    = (Done ab, s', tr)
    /\ quiescent s' /\ no_new_lock s s'.
Proof.
  intros Hq Hp. cbn [validate_read_loop].
  rewrite run_bind, (run_load_tuple_ts s r Hq Hp).
  set (v1 := world_load s (tuple_ts r)).
  destruct (timestamp_set_get_rts v1 <=? commit_ts) eqn:Hle.
  - rewrite run_bind, run_bind, (run_lock_bit s _ Hq). cbn [run].
    destruct (negb (wts r =? ts_wts v1)
              || (ts_lock_bit (world_load s (tuple_ts r))
                  && negb (rw_entry_is_write r))).
    + cbn [run]. eexists _, _, _. split; [reflexivity|].
      split; [exact Hq|apply no_new_lock_refl].
    + unfold timestamp_set_compare_and_swap.
      rewrite run_bind. unfold v1. rewrite (run_cas s _ _ Hq). cbn [run].
      eexists _, _, _. split; [reflexivity|]. split; [exact Hq|].
      apply no_new_lock_set_mem.
      unfold extend_rts, set_delta, set_wts. now rewrite !ts_lock_bit_mk.
  - rewrite run_bind. cbn [run]. rewrite orb_false_r.
    destruct (negb (wts r =? ts_wts v1)); cbn [run];
      (eexists _, _, _; split; [reflexivity|];
       split; [exact Hq|apply no_new_lock_refl]).
Qed.

(** The lookup of a key whose slot is not locked samples in one round. *)
Lemma lookup_loop_quiescent fuel s e k rc res :
  quiescent s -> tuple_ts e <> NULL ->
  ts_lock_bit (world_load s (tuple_ts e)) = false ->
  exists rc' res' tr,
    run world_handler (lookup_loop (S fuel) e k rc res) s
    = (Done (rc', res', world_load s (tuple_ts e)), s, tr).
Proof.
  intros Hq Hp Hl. cbn [lookup_loop].
  rewrite run_bind, (run_load_tuple_ts s e Hq Hp).
  assert (Hmid : exists r t,
             run world_handler
               (if EXPERIMENTAL_MODE_BYPASS_SPLINTERDB
                then trigger (SleepNs 100);; Ret (rc, res)
                else match msg e with
                     | Some m => Ret (rc, message_data m)
                     | None => trigger (KvsLookup k res)
                     end) s
             = (Done r, s, t)).
  { destruct EXPERIMENTAL_MODE_BYPASS_SPLINTERDB.
    - simpl. unfold world_handler.
      rewrite (world_interfere_quiescent s Hq). eauto.
    - destruct (msg e); [simpl; eauto|].
      simpl. unfold world_handler.
      rewrite (world_interfere_quiescent s Hq).
      destruct (w_kvs s !! k); eauto. }
  destruct Hmid as (r & t & Hmid).
  rewrite run_bind, Hmid, run_bind, (run_load_tuple_ts s e Hq Hp).
  unfold timestamp_set_is_equal.
  rewrite bool_decide_eq_true_2 by reflexivity. rewrite Hl. cbn [negb orb run].
  eauto.
Qed.

Lemma rw_entry_iceberg_insert_quiescent s e :
  quiescent s -> unlocked s -> aligned_slots s ->
  exists is_new e' s' tr,
    run world_handler (rw_entry_iceberg_insert e) s = (Done (is_new, e'), s', tr)
    /\ quiescent s' /\ unlocked s'
    /\ (tuple_ts e <> NULL -> e' = e)
    /\ tuple_ts e' <> NULL.
Proof.
  intros Hq Hu (Hn0 & Hn8 & Hc). unfold rw_entry_iceberg_insert.
  destruct (Z.eqb_spec (tuple_ts e) NULL) as [E|E]; cbn [negb].
  2:{ exists false, e, s, []. simpl. auto. }
  rewrite run_bind.
  assert (Hins : exists p is_new s',
             run world_handler
               (trigger (if EXPERIMENTAL_MODE_KEEP_ALL_KEYS
                         then IcebergInsertAndGetNoRef (key e)
                         else IcebergInsertAndGet (key e))) s
             = (Done (p, is_new), s',
                [OIcebergInsert (negb EXPERIMENTAL_MODE_KEEP_ALL_KEYS)
                   (key e) p is_new])
             /\ quiescent s' /\ unlocked s' /\ p <> NULL /\ p mod 8 = 0).
  { assert (Hw : forall refc,
               exists p is_new s',
                 world_iceberg_insert refc (key e) s = ((p, is_new), s')
                 /\ quiescent s' /\ unlocked s' /\ p <> NULL /\ p mod 8 = 0).
    { intros refc. unfold world_iceberg_insert.
      destruct (w_tscache s !! key e) as [[p n]|] eqn:Hk.
      - destruct (Hc _ _ _ Hk) as [Hp0 Hp8].
        eexists _, _, _. split; [reflexivity|]. repeat split; auto.
      - eexists _, _, _. split; [reflexivity|].
        split; [exact Hq|]. split; [|unfold NULL; split; [lia|exact Hn8]].
        intros q. unfold world_load. cbn [w_mem].
        destruct (decide (q = w_next s)) as [->|Hne].
        + rewrite lookup_insert_eq. reflexivity.
        + rewrite lookup_insert_ne by auto. apply (Hu q). }
    destruct EXPERIMENTAL_MODE_KEEP_ALL_KEYS; simpl; unfold world_handler;
      rewrite (world_interfere_quiescent s Hq).
    - destruct (Hw false) as (p & n & s' & -> & H). exists p, n, s'. auto.
    - destruct (Hw true) as (p & n & s' & -> & H). exists p, n, s'. auto. }
  destruct Hins as (p & is_new & s' & -> & Hq' & Hu' & Hp0 & Hp8).
  cbn [fst snd]. rewrite Hp8. cbn [Z.eqb negb run app].
  eexists _, _, _, _. split; [reflexivity|].
  repeat split; auto. contradiction.
Qed.

(** X15: in a world in which no other thread stores anything, no lock is
    held and the cache hands out aligned slots, a lookup of a key of at
    most [KEY_SIZE] bytes in a transaction with room for one more entry
    returns: one round of its loop suffices, and no assertion fails. *)
Theorem lookup_returns fuel s txn k res :
  quiescent s -> unlocked s -> aligned_slots s ->
  (slice_length k <= KEY_SIZE)%nat ->
  (num_rw_entries txn < RW_SET_SIZE_LIMIT)%nat ->
  exists rc txn' res' s' tr,
    run world_handler (transactional_splinterdb_lookup (S fuel) txn k res) s
    = (Done (rc, txn', res'), s', tr).
Proof.
  intros Hq Hu Ha Hlen Hlim. unfold transactional_splinterdb_lookup.
  assert (Hget : exists i txn1 e1,
             rw_entry_get txn k true = Ret (i, txn1)
             /\ rw_entries txn1 !! i = Some e1).
  { destruct (rw_entry_find k (rw_entries txn) 0) as [i|] eqn:Hf.
    - destruct (rw_entry_get_found txn k true i Hf) as (e & He & _ & ->).
      eexists _, _, _. split; [reflexivity|].
      now apply store_entry_lookup with e.
    - rewrite (rw_entry_get_new txn k true Hf).
      destruct (Nat.ltb_spec KEY_SIZE (slice_length k)); [lia|].
      destruct (Nat.leb_spec RW_SET_SIZE_LIMIT (num_rw_entries txn)); [lia|].
      eexists _, _, _. split; [reflexivity|]. cbn [rw_entries].
      unfold num_rw_entries.
      rewrite lookup_app_r, Nat.sub_diag by lia. reflexivity. }
  destruct Hget as (i & txn1 & e1 & -> & He1).
  cbn [bind fst snd]. unfold entry_at. rewrite He1. cbn [bind].
  rewrite run_bind.
  destruct (rw_entry_iceberg_insert_quiescent s e1 Hq Hu Ha)
    as (is_new & e2 & s1 & t1 & -> & Hq1 & Hu1 & _ & Hp).
  cbn [snd]. rewrite run_bind.
  destruct (lookup_loop_quiescent fuel s1 e2 k 0 res Hq1 Hp (Hu1 _))
    as (rc' & res' & t2 & ->).
  cbn [run fst snd]. eauto 10.
Qed.

(** *** Commit without contention *)

Lemma world_iceberg_insert_commit_world refc s txn k p is_new s' :
  commit_world s txn ->
  world_iceberg_insert refc k s = ((p, is_new), s') ->
  commit_world s' txn
  /\ cache_slot s' k = Some p
  /\ p <> NULL /\ p mod 8 = 0
  /\ (forall k', cache_slot s k' <> None ->
                 cache_slot s' k' = cache_slot s k')
  /\ (forall q, ts_lock_bit (world_load s' q) = true ->
                ts_lock_bit (world_load s q) = true).
Proof.
  intros [Hq (Hn0 & Hn8 & Hal) Hinj Hbel Hcons]. unfold world_iceberg_insert.
  destruct (w_tscache s !! k) as [[p0 n]|] eqn:Hk; intros H;
    injection H as <- <- <-.
  - assert (Hsame : forall k', cache_slot
               (Build_world (w_mem s)
                  (<[k := (p0, if refc then S n else n)]> (w_tscache s))
                  (w_kvs s) (w_next s) (w_others s)) k' = cache_slot s k').
    { intros k'. unfold cache_slot. cbn [w_tscache].
      destruct (decide (k' = k)) as [->|Hne].
      - rewrite lookup_insert_eq, Hk. reflexivity.
      - rewrite lookup_insert_ne by auto. reflexivity. }
    destruct (Hal _ _ _ Hk) as [Hp0 Hp8].
    split; [|split; [|split; [|split; [|split]]]]; auto.
    + constructor; cbn [w_next].
      * exact Hq.
      * split; [exact Hn0|]. split; [exact Hn8|].
        intros k' p' n'. cbn [w_tscache].
        destruct (decide (k' = k)) as [->|Hne].
        -- rewrite lookup_insert_eq. intros E. injection E as <- _. auto.
        -- rewrite lookup_insert_ne by auto. apply Hal.
      * intros k1 k2 q. rewrite !Hsame. apply Hinj.
      * intros k' q. rewrite Hsame. apply Hbel.
      * intros i e He Hp. rewrite Hsame. eapply Hcons; eauto.
    + rewrite Hsame. unfold cache_slot. rewrite Hk. reflexivity.
  - assert (Hk' : cache_slot s k = None)
      by (unfold cache_slot; rewrite Hk; reflexivity).
    assert (Hnew : forall k', cache_slot
               (Build_world (<[w_next s := 0]> (w_mem s))
                  (<[k := (w_next s, 1%nat)]> (w_tscache s))
                  (w_kvs s) (w_next s + 8) (w_others s)) k'
               = if decide (k' = k) then Some (w_next s)
                 else cache_slot s k').
    { intros k'. unfold cache_slot. cbn [w_tscache].
      destruct (decide (k' = k)) as [->|Hne].
      - rewrite lookup_insert_eq. reflexivity.
      - rewrite lookup_insert_ne by auto. reflexivity. }
    split; [|split; [|split; [|split; [|split]]]].
    + constructor; unfold aligned_slots; cbn [w_next].
      * exact Hq.
      * split; [lia|]. split.
        { replace (w_next s + 8) with (w_next s + 1 * 8) by lia.
          rewrite Z_mod_plus_full. exact Hn8. }
        intros k' p' n'. cbn [w_tscache].
        destruct (decide (k' = k)) as [->|Hne].
        -- rewrite lookup_insert_eq. intros E. injection E as <- _.
           unfold NULL. split; [lia|exact Hn8].
        -- rewrite lookup_insert_ne by auto. apply Hal.
      * intros k1 k2 q. rewrite !Hnew.
        destruct (decide (k1 = k)) as [->|H1], (decide (k2 = k)) as [->|H2].
        -- reflexivity.
        -- intros E1 E2. injection E1 as <-. apply Hbel in E2. lia.
        -- intros E1 E2. injection E2 as <-. apply Hbel in E1. lia.
        -- apply Hinj.
      * intros k' q. rewrite Hnew.
        destruct (decide (k' = k)) as [->|Hne].
        -- intros E. injection E as <-. lia.
        -- intros E. apply Hbel in E. lia.
      * intros i e He Hp. rewrite Hnew.
        destruct (decide (key e = k)) as [Ek|Hne]; [|eapply Hcons; eauto].
        pose proof (Hcons i e He Hp) as Hc. rewrite Ek, Hk' in Hc.
        discriminate Hc.
    + rewrite Hnew. destruct (decide (k = k)); [reflexivity|contradiction].
    + unfold NULL. lia.
    + exact Hn8.
    + intros k' Hsome. rewrite Hnew.
      destruct (decide (k' = k)) as [->|Hne]; [contradiction|reflexivity].
    + intros q. unfold world_load. cbn [w_mem].
      destruct (decide (q = w_next s)) as [->|Hne].
      * rewrite lookup_insert_eq. discriminate.
      * rewrite lookup_insert_ne by auto. auto.
Qed.

Lemma rw_entry_iceberg_insert_commit_world s txn e :
  commit_world s txn -> tuple_ts e = NULL ->
  exists is_new e' s' tr,
    run world_handler (rw_entry_iceberg_insert e) s = (Done (is_new, e'), s', tr)
    /\ entry_kept e e'
    /\ tuple_ts e' <> NULL
    /\ commit_world s' txn
    /\ cache_slot s' (key e) = Some (tuple_ts e')
    /\ (forall k', cache_slot s k' <> None ->
                   cache_slot s' k' = cache_slot s k')
    /\ (forall q, ts_lock_bit (world_load s' q) = true ->
                  ts_lock_bit (world_load s q) = true).
Proof.
  intros Hcw E. unfold rw_entry_iceberg_insert. rewrite E. cbn [Z.eqb NULL negb].
  rewrite run_bind.
  assert (Hins : exists p is_new s',
             run world_handler
               (trigger (if EXPERIMENTAL_MODE_KEEP_ALL_KEYS
                         then IcebergInsertAndGetNoRef (key e)
                         else IcebergInsertAndGet (key e))) s
             = (Done (p, is_new), s',
                [OIcebergInsert (negb EXPERIMENTAL_MODE_KEEP_ALL_KEYS)
                   (key e) p is_new])
             /\ exists refc,
                  world_iceberg_insert refc (key e) s = ((p, is_new), s')).
  { pose proof (cw_quiescent _ _ Hcw) as Hq.
    destruct EXPERIMENTAL_MODE_KEEP_ALL_KEYS; simpl; unfold world_handler;
      rewrite (world_interfere_quiescent s Hq).
    - destruct (world_iceberg_insert false (key e) s) as [[p n] s'] eqn:Hw.
      exists p, n, s'. split; [reflexivity|]. eauto.
    - destruct (world_iceberg_insert true (key e) s) as [[p n] s'] eqn:Hw.
      exists p, n, s'. split; [reflexivity|]. eauto. }
  destruct Hins as (p & is_new & s' & -> & refc & Hw).
  destruct (world_iceberg_insert_commit_world _ _ _ _ _ _ _ Hcw Hw)
    as (Hcw' & Hslot & Hp0 & Hp8 & Hkeep & Hlock).
  cbn [fst snd]. rewrite Hp8. cbn [Z.eqb negb run app].
  eexists _, _, _, _. split; [reflexivity|].
  unfold entry_kept.
  cbn [with_need_to_keep_key with_tuple_ts key tuple_ts msg is_read].
  auto 12.
Qed.

Lemma run_entry_at {S} (h : handler S) txn i e (s : S) :
  rw_entries txn !! i = Some e ->
  run h (entry_at txn i) s = (Done e, s, []).
Proof. intros H. unfold entry_at. rewrite H. reflexivity. Qed.

Lemma rw_entry_try_lock_quiescent s e :
  quiescent s -> tuple_ts e <> NULL ->
  ts_lock_bit (world_load s (tuple_ts e)) = false ->
  run world_handler (rw_entry_try_lock e) s
  = (Done true,
     world_set_mem s
       (<[tuple_ts e := set_lock_bit (world_load s (tuple_ts e)) true]>
          (w_mem s)),
     [OLoad (tuple_ts e) (world_load s (tuple_ts e));
      OCas (tuple_ts e) (world_load s (tuple_ts e))
        (set_lock_bit (world_load s (tuple_ts e)) true) true]).
Proof.
  intros Hq Hp Hl. unfold rw_entry_try_lock.
  rewrite run_bind, (run_load_tuple_ts s e Hq Hp), Hl.
  unfold timestamp_set_compare_and_swap.
  rewrite (run_cas s _ _ Hq). reflexivity.
Qed.

Lemma commit_world_set_mem s txn m :
  commit_world s txn -> commit_world (world_set_mem s m) txn.
Proof. intros [Hq Ha Hi Hb Hc]. constructor; auto. Qed.

Lemma world_load_set_mem_ne s p q v :
  q <> p -> world_load (world_set_mem s (<[p := v]> (w_mem s))) q = world_load s q.
Proof.
  intros Hne. unfold world_load, world_set_mem. cbn [w_mem].
  now rewrite lookup_insert_ne by auto.
Qed.

Lemma entry_kept_refl e : entry_kept e e.
Proof. unfold entry_kept. auto. Qed.

Lemma entry_kept_trans e1 e2 e3 :
  entry_kept e1 e2 -> entry_kept e2 e3 -> entry_kept e1 e3.
Proof.
  intros (Hk & Hm & Hr & Hp) (Hk' & Hm' & Hr' & Hp').
  unfold entry_kept. rewrite Hk', Hm', Hr'.
  split; [exact Hk|]. split; [exact Hm|]. split; [exact Hr|].
  intros H. apply Hp', Hp, H.
Qed.

Lemma store_entry_kept txn i e e' :
  rw_entries txn !! i = Some e -> entry_kept e e' ->
  Forall2 entry_kept (rw_entries txn) (rw_entries (store_entry txn i e')).
Proof.
  intros He Hk. unfold store_entry. cbn [rw_entries].
  rewrite <- (list_insert_id (rw_entries txn) i e He) at 1.
  apply Forall2_insert; [|exact Hk].
  apply Forall_Forall2_diag, Forall_forall. intros; apply entry_kept_refl.
Qed.

(** With nobody interfering and the keys of the writes distinct from each
    other and from the keys whose slots are locked, one pass over the write
    set takes every lock. *)
Lemma lock_attempt_quiescent txn todo ks n s K :
  commit_world s txn -> locked_by s K ->
  Forall2 (fun wi k => exists w, rw_entries txn !! wi = Some w /\ key w = k)
    todo ks ->
  NoDup (K ++ ks) ->
  exists txn' s' tr,
    run world_handler (lock_attempt txn todo n) s = (Done (txn', None), s', tr)
    /\ commit_world s' txn' /\ locked_by s' (K ++ ks)
    /\ Forall2 entry_kept (rw_entries txn) (rw_entries txn')
    /\ Forall (has_slot txn') todo.
Proof.
  intros Hcw Hlk Htodo. revert txn todo n s K Hcw Hlk Htodo.
  induction ks as [|k ks IH]; intros txn todo n s K Hcw Hlk Htodo Hnd.
  - apply Forall2_nil_inv_r in Htodo as ->. rewrite app_nil_r.
    exists txn, s, []. split; [reflexivity|]. split; [exact Hcw|].
    split; [exact Hlk|]. split; [|constructor].
    apply Forall_Forall2_diag, Forall_forall. intros; apply entry_kept_refl.
  - apply Forall2_cons_inv_r in Htodo
      as (wi & todo' & (w & Hw & Hk) & Htodo' & ->).
    cbn [lock_attempt]. rewrite run_bind, (run_entry_at _ _ _ _ _ Hw).
    (* the slot of the entry, installed if need be *)
    assert (Hinst : exists is_new w' s1 t1,
               run world_handler
                 (if tuple_ts w =? NULL then rw_entry_iceberg_insert w
                  else Ret (false, w)) s
               = (Done (is_new, w'), s1, t1)
               /\ entry_kept w w' /\ tuple_ts w' <> NULL
               /\ commit_world s1 txn
               /\ cache_slot s1 k = Some (tuple_ts w')
               /\ (forall k', cache_slot s k' <> None ->
                              cache_slot s1 k' = cache_slot s k')
               /\ (forall q, ts_lock_bit (world_load s1 q) = true ->
                             ts_lock_bit (world_load s q) = true)).
    { destruct (Z.eqb_spec (tuple_ts w) NULL) as [E|E].
      - destruct (rw_entry_iceberg_insert_commit_world s txn w Hcw E)
          as (is_new & w' & s1 & t1 & Hr & Hkw & Hp & Hcw1 & Hs & Hkeep & Hl).
        exists is_new, w', s1, t1. rewrite Hk in *. auto 10.
      - exists false, w, s, []. split; [reflexivity|].
        split; [apply entry_kept_refl|]. split; [exact E|]. split; [exact Hcw|].
        split; [|auto]. rewrite <- Hk. eapply cw_consistent; eauto. }
    destruct Hinst as (is_new & w' & s1 & t1 & Hrun & Hkept & Hp & Hcw1 & Hs
                       & Hkeep & Hl).
    assert (Hkw : key w' = k) by (destruct Hkept as [-> _]; exact Hk).
    rewrite run_bind, Hrun. cbn [snd].
    assert (Hk_notin : ~ In k K).
    { intros Hin. apply NoDup_app in Hnd as (_ & Hdisj & _).
      apply (Hdisj k); [now apply list_elem_of_In|apply list_elem_of_here]. }
    assert (Hlk1 : locked_by s1 K).
    { intros q Hq. destruct (Hlk q (Hl q Hq)) as (k' & Hin & Hc).
      exists k'. split; [exact Hin|]. rewrite Hkeep; [exact Hc|congruence]. }
    assert (Hfree : ts_lock_bit (world_load s1 (tuple_ts w')) = false).
    { destruct (ts_lock_bit (world_load s1 (tuple_ts w'))) eqn:Hb; [|reflexivity].
      destruct (Hlk1 _ Hb) as (k' & Hin & Hc).
      rewrite (cw_injective _ _ Hcw1 _ _ _ Hc Hs) in Hin. contradiction. }
    pose proof (cw_quiescent _ _ Hcw1) as Hq1.
    rewrite run_bind, (rw_entry_try_lock_quiescent s1 w' Hq1 Hp Hfree).
    set (s2 := world_set_mem s1
                 (<[tuple_ts w' := set_lock_bit (world_load s1 (tuple_ts w')) true]>
                    (w_mem s1))).
    assert (Hcw2 : commit_world s2 (store_entry txn wi w')).
    { apply commit_world_set_mem. destruct Hcw1 as [Hq Ha Hi Hb Hc].
      constructor; auto.
      intros i e He Hpe. unfold store_entry in He. cbn [rw_entries] in He.
      apply list_lookup_insert_Some in He as [(-> & <- & _)|(Hne & He)].
      - rewrite Hkw. exact Hs.
      - eapply Hc; eauto. }
    assert (Hlk2 : locked_by s2 (K ++ [k])).
    { intros q Hq. destruct (decide (q = tuple_ts w')) as [->|Hne].
      - exists k. split; [apply in_or_app; right; left; reflexivity|exact Hs].
      - unfold s2 in Hq. rewrite world_load_set_mem_ne in Hq by exact Hne.
        destruct (Hlk1 q Hq) as (k' & Hin & Hc).
        exists k'. split; [apply in_or_app; left; exact Hin|exact Hc]. }
    assert (Hlook : rw_entries (store_entry txn wi w') !! wi = Some w').
    { unfold store_entry. cbn [rw_entries].
      apply list_lookup_insert_eq. now apply lookup_lt_Some in Hw. }
    assert (Htodo2 : Forall2
              (fun wj kj => exists w0,
                   rw_entries (store_entry txn wi w') !! wj = Some w0
                   /\ key w0 = kj) todo' ks).
    { eapply Forall2_impl; [exact Htodo'|].
      intros wj kj (w0 & Hw0 & Hk0).
      destruct (decide (wj = wi)) as [->|Hne].
      - exists w'. split; [exact Hlook|congruence].
      - exists w0. unfold store_entry. cbn [rw_entries].
        rewrite list_lookup_insert_ne by auto. auto. }
    assert (Hnd2 : NoDup ((K ++ [k]) ++ ks))
      by (rewrite <- app_assoc; exact Hnd).
    destruct (IH (store_entry txn wi w') todo' (S n) s2 (K ++ [k])
                Hcw2 Hlk2 Htodo2 Hnd2)
      as (txn' & s' & tr & -> & Hcw' & Hlk' & Hkept' & Hslots).
    exists txn', s', (t1 ++ [OLoad (tuple_ts w') (world_load s1 (tuple_ts w'));
                             OCas (tuple_ts w') (world_load s1 (tuple_ts w'))
                               (set_lock_bit (world_load s1 (tuple_ts w')) true)
                               true] ++ tr).
    split; [reflexivity|]. split; [exact Hcw'|].
    split; [rewrite <- app_assoc in Hlk'; exact Hlk'|].
    split.
    + eapply Forall2_trans; [|eapply store_entry_kept; eauto|exact Hkept'].
      apply entry_kept_trans.
    + constructor; [|exact Hslots].
      destruct (Forall2_lookup_l _ _ _ _ _ Hkept' Hlook)
        as (e' & He' & (_ & _ & _ & Hp')).
      exists e'. auto.
Qed.

(** Reading the timestamps of the locked slots. *)
Lemma raise_commit_ts_quiescent s txn ws c :
  quiescent s -> Forall (has_slot txn) ws ->
  exists c' tr,
    run world_handler (raise_commit_ts txn ws c) s = (Done c', s, tr).
Proof.
  intros Hq H. revert c.
  induction H as [|wi ws (e & He & Hp) _ IH]; intros c.
  - exists c, []. reflexivity.
  - cbn [raise_commit_ts].
    rewrite run_bind, (run_entry_at _ _ _ _ _ He).
    rewrite run_bind, (run_load_tuple_ts s e Hq Hp).
    destruct (IH (MAX c (wrap64
                           (timestamp_set_get_rts (world_load s (tuple_ts e))
                            + 1))))
      as (c' & tr & ->).
    eexists _, _. reflexivity.
Qed.

Lemma validate_reads_quiescent fuel s txn c rs :
  quiescent s ->
  Forall (fun ri => exists e, rw_entries txn !! ri = Some e
                              /\ rw_entry_is_read e = true
                              /\ tuple_ts e <> NULL) rs ->
  exists ab s' tr,
    run world_handler (validate_reads (S fuel) txn c rs) s = (Done ab, s', tr)
    /\ quiescent s' /\ no_new_lock s s'.
Proof.
  intros Hq H. revert s Hq.
  induction H as [|ri rs (e & He & Hr & Hp) _ IH]; intros s Hq.
  - exists false, s, []. split; [reflexivity|].
    split; [exact Hq|apply no_new_lock_refl].
  - cbn [validate_reads].
    rewrite run_bind, (run_entry_at _ _ _ _ _ He), run_bind.
    assert (Hv : exists ab s1 t1,
               run world_handler (validate_read (S fuel) c e) s
               = (Done ab, s1, t1) /\ quiescent s1 /\ no_new_lock s s1).
    { unfold validate_read. rewrite Hr. cbn [negb].
      destruct (rts e <? c).
      - now apply validate_read_loop_quiescent.
      - exists false, s, []. split; [reflexivity|].
        split; [exact Hq|apply no_new_lock_refl]. }
    destruct Hv as (ab & s1 & t1 & -> & Hq1 & Hn1).
    destruct ab.
    + eexists _, _, _. split; [reflexivity|]. split; [exact Hq1|exact Hn1].
    + destruct (IH s1 Hq1) as (ab & s' & tr & -> & Hq' & Hn').
      eexists _, _, _. split; [reflexivity|]. split; [exact Hq'|].
      eapply no_new_lock_trans; eauto.
Qed.

Lemma apply_message_quiescent s w m :
  quiescent s ->
  exists s' tr,
    run world_handler (apply_message w m) s = (Done 0, s', tr)
    /\ quiescent s' /\ (forall q, world_load s' q = world_load s q).
Proof.
  intros Hq. unfold apply_message.
  destruct (message_class m); simpl; unfold world_handler;
    rewrite ?(world_interfere_quiescent s Hq);
    eexists _, _; (split; [reflexivity|split; [exact Hq|reflexivity]]).
Qed.

Lemma apply_writes_quiescent fuel s txn c ws :
  quiescent s ->
  Forall (fun wi => exists e, rw_entries txn !! wi = Some e
                              /\ rw_entry_is_write e = true
                              /\ tuple_ts e <> NULL) ws ->
  exists s' tr,
    run world_handler (apply_writes (S fuel) txn c ws) s = (Done tt, s', tr)
    /\ quiescent s' /\ no_new_lock s s'
    /\ Forall (fun wi => forall e, rw_entries txn !! wi = Some e ->
                 ts_lock_bit (world_load s' (tuple_ts e)) = false) ws.
Proof.
  intros Hq H. revert s Hq.
  induction H as [|wi ws (e & He & Hw & Hp) _ IH]; intros s Hq.
  - exists s, []. split; [reflexivity|]. split; [exact Hq|].
    split; [apply no_new_lock_refl|constructor].
  - cbn [apply_writes].
    rewrite run_bind, (run_entry_at _ _ _ _ _ He), run_bind.
    assert (Ha : exists s1 t1,
               run world_handler (apply_write (S fuel) c e) s
               = (Done tt, s1, t1) /\ quiescent s1 /\ no_new_lock s s1
               /\ ts_lock_bit (world_load s1 (tuple_ts e)) = false).
    { unfold apply_write. unfold rw_entry_is_write in Hw.
      apply bool_decide_eq_true_1 in Hw.
      destruct (msg e) as [m|]; [|congruence].
      rewrite run_bind.
      assert (Hm : exists s0 t0,
                 run world_handler
                   (if EXPERIMENTAL_MODE_BYPASS_SPLINTERDB
                    then trigger (SleepNs 100)
                    else rc <- apply_message e m;;
                         if rc =? 0 then Ret tt else Crash assert_kvs_rc) s
                 = (Done tt, s0, t0) /\ quiescent s0
                 /\ (forall q, world_load s0 q = world_load s q)).
      { destruct EXPERIMENTAL_MODE_BYPASS_SPLINTERDB.
        - simpl. unfold world_handler.
          rewrite (world_interfere_quiescent s Hq).
          eexists _, _. split; [reflexivity|]. split; [exact Hq|reflexivity].
        - rewrite run_bind.
          destruct (apply_message_quiescent s e m Hq)
            as (s0 & t0 & -> & Hq0 & Hsame).
          eexists _, _. split; [reflexivity|]. split; [exact Hq0|exact Hsame]. }
      destruct Hm as (s0 & t0 & -> & Hq0 & Hsame).
      rewrite (install_commit_ts_quiescent _ _ _ _ Hq0 Hp).
      eexists _, _. split; [reflexivity|]. split; [exact Hq0|].
      split.
      - eapply no_new_lock_trans.
        + intros q Hl. rewrite Hsame in Hl. exact Hl.
        + apply no_new_lock_set_mem. rewrite ts_lock_bit_mk. discriminate.
      - rewrite world_load_set_mem. apply ts_lock_bit_mk. }
    destruct Ha as (s1 & t1 & -> & Hq1 & Hn1 & Hu1).
    destruct (IH s1 Hq1) as (s' & tr & -> & Hq' & Hn' & Hu').
    eexists _, _. split; [reflexivity|]. split; [exact Hq'|].
    split; [eapply no_new_lock_trans; eauto|].
    constructor; [|exact Hu'].
    intros e0 He0. assert (e0 = e) as -> by congruence.
    destruct (ts_lock_bit (world_load s' (tuple_ts e))) eqn:Hb; [|reflexivity].
    apply Hn' in Hb. congruence.
Qed.

Lemma unlock_all_quiescent fuel s txn ws :
  quiescent s -> Forall (has_slot txn) ws ->
  exists s' tr,
    run world_handler (unlock_all (S fuel) txn ws) s = (Done tt, s', tr)
    /\ quiescent s' /\ no_new_lock s s'
    /\ Forall (fun wi => forall e, rw_entries txn !! wi = Some e ->
                 ts_lock_bit (world_load s' (tuple_ts e)) = false) ws.
Proof.
  intros Hq H. revert s Hq.
  induction H as [|wi ws (e & He & Hp) _ IH]; intros s Hq.
  - exists s, []. split; [reflexivity|]. split; [exact Hq|].
    split; [apply no_new_lock_refl|constructor].
  - cbn [unlock_all].
    rewrite run_bind, (run_entry_at _ _ _ _ _ He), run_bind.
    rewrite (rw_entry_unlock_quiescent _ _ _ Hq Hp).
    set (s1 := world_set_mem s
                 (<[tuple_ts e := set_lock_bit (world_load s (tuple_ts e)) false]>
                    (w_mem s))).
    assert (Hn1 : no_new_lock s s1).
    { apply no_new_lock_set_mem.
      destruct (set_lock_bit_fields (world_load s (tuple_ts e)) false)
        as (Hl & _). rewrite Hl. discriminate. }
    assert (Hu1 : ts_lock_bit (world_load s1 (tuple_ts e)) = false).
    { unfold s1. rewrite world_load_set_mem. apply set_lock_bit_fields. }
    destruct (IH s1 Hq) as (s' & tr & -> & Hq' & Hn' & Hu').
    eexists _, _. split; [reflexivity|]. split; [exact Hq'|].
    split; [eapply no_new_lock_trans; eauto|].
    constructor; [|exact Hu'].
    intros e0 He0. assert (e0 = e) as -> by congruence.
    destruct (ts_lock_bit (world_load s' (tuple_ts e))) eqn:Hb; [|reflexivity].
    apply Hn' in Hb. congruence.
Qed.

Lemma run_free s o :
  quiescent s ->
  run world_handler (trigger (HeapFree o)) s = (Done tt, s, [OFree o]).
Proof.
  intros Hq. simpl. unfold world_handler.
  rewrite (world_interfere_quiescent s Hq). reflexivity.
Qed.

Lemma rw_entry_iceberg_remove_quiescent s e :
  quiescent s ->
  exists e' s' tr,
    run world_handler (rw_entry_iceberg_remove e) s = (Done e', s', tr)
    /\ quiescent s' /\ no_new_lock s s'.
Proof.
  intros Hq. unfold rw_entry_iceberg_remove.
  destruct (tuple_ts e =? NULL).
  { exists e, s, []. split; [reflexivity|].
    split; [exact Hq|apply no_new_lock_refl]. }
  destruct EXPERIMENTAL_MODE_KEEP_ALL_KEYS.
  { eexists _, s, []. split; [reflexivity|].
    split; [exact Hq|apply no_new_lock_refl]. }
  rewrite run_bind.
  assert (Hr : exists r s1,
             run world_handler
               (trigger (IcebergGetAndRemove (key (with_tuple_ts e NULL)))) s
             = (Done r, s1, [OIcebergRemove (key (with_tuple_ts e NULL)) r])
             /\ quiescent s1 /\ no_new_lock s s1).
  { simpl. unfold world_handler. rewrite (world_interfere_quiescent s Hq).
    unfold world_iceberg_remove.
    destruct (w_tscache s !! key e) as [[p n]|];
      [destruct (n <=? 1)%nat|];
      eexists _, _; (split; [reflexivity|split; [exact Hq|]]);
      try (intros q Hl; exact Hl).
    intros q. unfold world_load. cbn [w_mem].
    destruct (decide (q = p)) as [->|Hne].
    - rewrite lookup_delete_eq. discriminate.
    - rewrite lookup_delete_ne by auto. auto. }
  destruct Hr as (r & s1 & -> & Hq1 & Hn1).
  destruct r as [[|]|].
  - eexists _, _, _. split; [reflexivity|]. split; [exact Hq1|exact Hn1].
  - cbn [negb]. rewrite run_bind, (run_free _ _ Hq1).
    eexists _, _, _. split; [reflexivity|]. split; [exact Hq1|exact Hn1].
  - eexists _, _, _. split; [reflexivity|]. split; [exact Hq1|exact Hn1].
Qed.

Lemma rw_entry_deinit_quiescent s e :
  quiescent s ->
  exists tr, run world_handler (rw_entry_deinit e) s = (Done tt, s, tr).
Proof.
  intros Hq. unfold rw_entry_deinit. rewrite run_bind.
  assert (Hk : exists t,
             run world_handler
               (if negb (slice_is_null (key e)) && negb (need_to_keep_key e)
                then trigger (HeapFree (KeyBuf (key e))) else Ret tt) s
             = (Done tt, s, t)).
  { destruct (negb (slice_is_null (key e)) && negb (need_to_keep_key e)).
    - rewrite (run_free _ _ Hq). eauto.
    - exists []. reflexivity. }
  destruct Hk as (t & ->).
  destruct (msg e) as [m|].
  - rewrite (run_free _ _ Hq). eauto.
  - eexists. reflexivity.
Qed.

Lemma transaction_deinit_from_quiescent es i s :
  quiescent s ->
  exists s' tr,
    run world_handler (transaction_deinit_from es i) s = (Done tt, s', tr)
    /\ quiescent s' /\ no_new_lock s s'.
Proof.
  revert i s. induction es as [|e es IH]; intros i s Hq.
  - exists s, []. split; [reflexivity|].
    split; [exact Hq|apply no_new_lock_refl].
  - cbn [transaction_deinit_from]. rewrite run_bind.
    destruct (rw_entry_iceberg_remove_quiescent s e Hq)
      as (e' & s1 & t1 & -> & Hq1 & Hn1).
    rewrite run_bind.
    destruct (rw_entry_deinit_quiescent s1 e' Hq1) as (t2 & ->).
    rewrite run_bind, (run_free _ _ Hq1).
    destruct (IH (S i) s1 Hq1) as (s' & tr & -> & Hq' & Hn').
    eexists _, _. split; [reflexivity|]. split; [exact Hq'|].
    eapply no_new_lock_trans; eauto.
Qed.

(** The keys of the entries that [indices_where] selects. *)
Lemma indices_where_keys (f : rw_entry -> bool) es i :
  Forall2 (fun wi k => exists w, es !! (wi - i)%nat = Some w /\ key w = k
                                 /\ (i <= wi)%nat)
    (indices_where f es i) (map key (List.filter f es)).
Proof.
  revert i. induction es as [|e es IH]; intros i; [constructor|].
  cbn [indices_where List.filter].
  assert (Hrest : Forall2
            (fun wi k => exists w, (e :: es) !! (wi - i)%nat = Some w
                                   /\ key w = k /\ (i <= wi)%nat)
            (indices_where f es (S i)) (map key (List.filter f es))).
  { eapply Forall2_impl; [apply IH|].
    intros wi k (w & Hw & Hk & Hle). exists w. repeat split; auto; [|lia].
    replace (wi - i)%nat with (S (wi - S i)) by lia. exact Hw. }
  destruct (f e); [|exact Hrest].
  cbn [map]. constructor; [|exact Hrest].
  exists e. rewrite Nat.sub_diag. auto.
Qed.

(** Commit without contention, with no lock held, with write entries on
    distinct keys and read entries that have their slots. *)
Lemma commit_quiescent fuel s txn :
  commit_world s txn -> unlocked s ->
  distinct_write_keys txn ->
  (forall i e, rw_entries txn !! i = Some e -> rw_entry_is_read e = true ->
               tuple_ts e <> NULL) ->
  exists rc s' tr,
    run world_handler (transactional_splinterdb_commit (S fuel) txn) s
    = (Done rc, s', tr)
    /\ (rc = 0 \/ rc = -1)
    /\ unlocked s' /\ quiescent s'.
Proof.
  intros Hcw Hu Hnd Hreads. unfold transactional_splinterdb_commit.
  (* the keys of the write set, in locking order *)
  assert (Hks : exists ks,
             Forall2 (fun wi k => exists w, rw_entries txn !! wi = Some w
                                            /\ key w = k)
               (sorted_write_set txn) ks
             /\ NoDup ks).
  { pose proof (indices_where_keys rw_entry_is_write (rw_entries txn) 0) as H0.
    destruct (Permutation_Forall2
                (Permutation_sym (sorted_write_set_perm txn)) H0)
      as (ks & Hperm & Hf).
    exists ks. split.
    - eapply Forall2_impl; [exact Hf|].
      intros wi k (w & Hw & Hk & _). rewrite Nat.sub_0_r in Hw. eauto.
    - rewrite <- Hperm. exact Hnd. }
  destruct Hks as (ks & Hks & Hndks).
  assert (Hlk : locked_by s []).
  { intros q Hq. rewrite (Hu q) in Hq. discriminate Hq. }
  destruct (lock_attempt_quiescent txn _ ks 0 s [] Hcw Hlk Hks Hndks)
    as (txn1 & s1 & t1 & Hlock & Hcw1 & Hlk1 & Hkept & Hslots).
  rewrite run_bind. cbn [lock_write_set]. rewrite run_bind, Hlock.
  cbn [fst snd run].
  pose proof (cw_quiescent _ _ Hcw1) as Hq1.
  (* every lock that is held is on the slot of a write *)
  assert (Hheld : forall q,
             ts_lock_bit (world_load s1 q) = true ->
             exists wi e, In wi (sorted_write_set txn)
                          /\ rw_entries txn1 !! wi = Some e
                          /\ tuple_ts e = q).
  { intros q Hq. destruct (Hlk1 q Hq) as (k & Hin & Hc). cbn [app] in Hin.
    apply list_elem_of_In in Hin.
    apply list_elem_of_lookup in Hin as (j & Hj).
    destruct (Forall2_lookup_r _ _ _ _ _ Hks Hj)
      as (wi & Hwi & (w & Hw & Hk)).
    destruct (Forall2_lookup_l _ _ _ _ _ Hkept Hw)
      as (e1 & He1 & (Hk1 & _)).
    exists wi, e1. split.
    { apply list_elem_of_In. eapply list_elem_of_lookup_2; eauto. }
    split; [exact He1|].
    rewrite Forall_forall in Hslots.
    destruct (Hslots wi) as (e1' & He1' & Hp1).
    { eapply list_elem_of_lookup_2; eauto. }
    assert (e1' = e1) as -> by congruence.
    pose proof (cw_consistent _ _ Hcw1 _ _ He1 Hp1) as Hc1.
    rewrite Hk1, Hk, Hc in Hc1. now injection Hc1 as ->. }
  (* the commit timestamp *)
  rewrite run_bind.
  destruct (raise_commit_ts_quiescent s1 txn1 (sorted_write_set txn)
              (initial_commit_ts txn) Hq1 Hslots) as (c & t2 & ->).
  (* read validation *)
  assert (Hrs : Forall (fun ri => exists e, rw_entries txn1 !! ri = Some e
                                            /\ rw_entry_is_read e = true
                                            /\ tuple_ts e <> NULL)
                  (commit_read_set txn)).
  { unfold commit_read_set. rewrite commit_partition_eq. cbn [fst snd app].
    eapply Forall_impl; [apply (indices_where_valid _ _ 0%nat)|].
    intros ri (e & He & Hr & _). rewrite Nat.sub_0_r in He.
    destruct (Forall2_lookup_l _ _ _ _ _ Hkept He)
      as (e1 & He1 & (_ & _ & Hr1 & Hp1)).
    exists e1. split; [exact He1|]. unfold rw_entry_is_read in *.
    rewrite Hr1. split; [exact Hr|]. apply Hp1. eapply Hreads; eauto. }
  rewrite run_bind.
  destruct (validate_reads_quiescent fuel s1 txn1 c _ Hq1 Hrs)
    as (ab & s2 & t3 & -> & Hq2 & Hn2).
  (* apply or release *)
  assert (Hws : Forall (fun wi => exists e, rw_entries txn1 !! wi = Some e
                                            /\ rw_entry_is_write e = true
                                            /\ tuple_ts e <> NULL)
                  (sorted_write_set txn)).
  { apply Forall_forall. intros wi Hin.
    assert (Hw : exists w, rw_entries txn !! wi = Some w
                           /\ rw_entry_is_write w = true).
    { assert (H : Forall (fun wi => exists w,
                     rw_entries txn !! wi = Some w
                     /\ rw_entry_is_write w = true) (sorted_write_set txn)).
      { eapply Permutation_Forall; [symmetry; apply sorted_write_set_perm|].
        eapply Forall_impl; [apply (indices_where_valid _ _ 0%nat)|].
        intros wj (w & Hw & Hf & _). rewrite Nat.sub_0_r in Hw. eauto. }
      rewrite Forall_forall in H. now apply H. }
    destruct Hw as (w & Hw & Hf).
    destruct (Forall2_lookup_l _ _ _ _ _ Hkept Hw)
      as (e1 & He1 & (_ & Hm1 & _ & _)).
    rewrite Forall_forall in Hslots.
    destruct (Hslots wi Hin) as (e1' & He1' & Hp1).
    rewrite He1 in He1'. injection He1' as <-.
    exists e1. split; [exact He1|]. split; [|exact Hp1].
    unfold rw_entry_is_write in *. rewrite Hm1. exact Hf. }
  unfold commit_finish. rewrite run_bind.
  assert (Hbody : exists s3 t4,
             run world_handler
               (if negb ab
                then apply_writes (S fuel) txn1 c (sorted_write_set txn)
                else unlock_all (S fuel) txn1 (sorted_write_set txn)) s2
             = (Done tt, s3, t4) /\ quiescent s3 /\ no_new_lock s2 s3
             /\ Forall (fun wi => forall e, rw_entries txn1 !! wi = Some e ->
                          ts_lock_bit (world_load s3 (tuple_ts e)) = false)
                  (sorted_write_set txn)).
  { destruct ab; cbn [negb].
    - now apply unlock_all_quiescent.
    - now apply apply_writes_quiescent. }
  destruct Hbody as (s3 & t4 & -> & Hq3 & Hn3 & Hfree).
  rewrite run_bind. unfold transaction_deinit.
  destruct (transaction_deinit_from_quiescent (rw_entries txn1) 0 s3 Hq3)
    as (s4 & t5 & -> & Hq4 & Hn4).
  cbn [run]. eexists _, _, _. split; [reflexivity|].
  split; [destruct ab; cbn; auto|]. split; [|exact Hq4].
  intros q. destruct (ts_lock_bit (world_load s4 q)) eqn:Hb; [|reflexivity].
  pose proof (Hn3 q (Hn4 q Hb)) as Hb3. pose proof (Hn4 q Hb) as Hb4.
  destruct (Hheld q (Hn2 q Hb3)) as (wi & e & Hin & He & <-).
  rewrite Forall_forall in Hfree.
  rewrite (Hfree wi (proj2 (list_elem_of_In _ _) Hin) e He) in Hb4.
  discriminate Hb4.
Qed.

(** X16: in a world in which no other thread stores anything and no lock
    is held, the commit of a transaction whose write entries are on
    distinct keys and whose read entries have their slots returns, with
    one round for each of its loops and without a failed assertion: [0]
    when it committed, [-1] when read validation made it abort; and when
    it has returned, again no lock is held. *)
Theorem commit_returns fuel s txn :
  commit_world s txn -> unlocked s ->
  distinct_write_keys txn ->
  (forall i e, rw_entries txn !! i = Some e -> rw_entry_is_read e = true ->
               tuple_ts e <> NULL) ->
  exists rc s' tr,
    run world_handler (transactional_splinterdb_commit (S fuel) txn) s
    = (Done rc, s', tr)
    /\ (rc = 0 \/ rc = -1)
    /\ unlocked s'.
Proof.
  intros Hcw Hu Hnd Hreads.
  destruct (commit_quiescent fuel s txn Hcw Hu Hnd Hreads)
    as (rc & s' & tr & Hrun & Hrc & Hu' & _).
  exists rc, s', tr. split; [exact Hrun|]. split; [exact Hrc|exact Hu'].
Qed.

End Totality.

Section TotalityExample.
#[local] Existing Instance example_data_config.
#[local] Existing Instance example_build_config.

Lemma empty_world_commit_world : commit_world empty_world demo_own_txn.
Proof.
  constructor.
  - reflexivity.
  - unfold aligned_slots, empty_world. cbn [w_next w_tscache].
    split; [lia|]. split; [reflexivity|].
    intros k p n H. rewrite lookup_empty in H. discriminate H.
  - intros k1 k2 p H. unfold cache_slot, empty_world in H. cbn [w_tscache] in H.
    rewrite lookup_empty in H. discriminate H.
  - intros k p H. unfold cache_slot, empty_world in H. cbn [w_tscache] in H.
    rewrite lookup_empty in H. discriminate H.
  - intros [|[|i]] e He Hp; cbn in He; [|discriminate He..].
    injection He as <-. now contradiction Hp.
Qed.

(** The commit of one buffered insert into the empty world returns. *)
Lemma commit_returns_witness :
  exists rc s' tr,
    run world_handler (transactional_splinterdb_commit 1 demo_own_txn)
      empty_world
    = (Done rc, s', tr)
    /\ (rc = 0 \/ rc = -1)
    /\ unlocked s'.
Proof.
  apply commit_returns.
  - exact empty_world_commit_world.
  - intros p. unfold world_load, empty_world. cbn [w_mem].
    rewrite lookup_empty. reflexivity.
  - unfold distinct_write_keys. cbn. apply NoDup_singleton.
  - intros [|[|i]] e He Hr; cbn in He; [|discriminate He..].
    injection He as <-. discriminate Hr.
Defined.


Lemma empty_world_aligned : aligned_slots empty_world.
Proof.
  unfold aligned_slots, empty_world. cbn [w_next w_tscache].
  split; [lia|]. split; [reflexivity|].
  intros k p n H. rewrite lookup_empty in H. discriminate H.
Qed.

Lemma empty_world_unlocked : unlocked empty_world.
Proof.
  intros p. unfold world_load, empty_world. cbn [w_mem].
  rewrite lookup_empty. reflexivity.
Qed.

Lemma lookup_returns_witness :
  exists rc txn' res' s' tr,
    run world_handler
      (transactional_splinterdb_lookup 1 transactional_splinterdb_begin
         "abcd" "")
      empty_world
    = (Done (rc, txn', res'), s', tr).
Proof.
  apply (lookup_returns 0 empty_world transactional_splinterdb_begin "abcd" "").
  - reflexivity.
  - exact empty_world_unlocked.
  - exact empty_world_aligned.
  - cbn. lia.
  - cbn. lia.
Defined.

End TotalityExample.

(** * Further properties of the code

    What the functions of the layer do beyond the statements above: the
    layout of the timestamp word, the lock, the references into the
    timestamp cache, the teardown, and what the operations and commit
    never do. *)

(** ** The timestamp word *)

Lemma mk_ts_mod b d w : mk_ts b (d mod 2 ^ 15) (w mod 2 ^ 48) = mk_ts b d w.
Proof. rewrite !mk_ts_sum, !Z.mod_mod by lia. reflexivity. Qed.

Lemma mk_ts_range b d w : 0 <= mk_ts b d w < 2 ^ 64.
Proof.
  rewrite mk_ts_sum.
  assert (Hd := Z.mod_pos_bound d (2 ^ 15) ltac:(lia)).
  assert (Hw := Z.mod_pos_bound w (2 ^ 48) ltac:(lia)).
  assert (Hb : 0 <= Z.b2z b < 2) by (destruct b; simpl; lia).
  lia.
Qed.

Lemma mk_ts_fields v :
  0 <= v < 2 ^ 64 -> mk_ts (ts_lock_bit v) (ts_delta v) (ts_wts v) = v.
Proof.
  intros Hv. rewrite mk_ts_sum, ts_lock_bit_odd, ts_delta_mod, ts_wts_mod.
  rewrite !Z.mod_mod by lia.
  assert (Hq : v / 2 ^ 16 = v / 2 / 2 ^ 15)
    by (rewrite Z.div_div by lia; reflexivity).
  assert (H48 : 0 <= v / 2 ^ 16 < 2 ^ 48).
  { split; [apply Z.div_pos; lia|apply Z.div_lt_upper_bound; lia]. }
  rewrite (Z.mod_small (v / 2 ^ 16)) by lia.
  pose proof (Z.div_mod (v / 2) (2 ^ 15) ltac:(lia)) as H2.
  pose proof (Z.div_mod v 2 ltac:(lia)) as H1.
  rewrite Zmod_odd in H1.
  destruct (Z.odd v); cbn [Z.b2z]; lia.
Qed.

(** X1: a 64-bit timestamp word is its three fields put together, so the
    byte-wise comparison [timestamp_set_is_equal] of two words says that
    [lock_bit], [delta] and [wts] agree, and nothing else. *)
Theorem timestamp_set_is_equal_fields v1 v2 :
  0 <= v1 < 2 ^ 64 -> 0 <= v2 < 2 ^ 64 ->
  mk_ts (ts_lock_bit v1) (ts_delta v1) (ts_wts v1) = v1
  /\ (timestamp_set_is_equal v1 v2 = true
      <-> ts_lock_bit v1 = ts_lock_bit v2
          /\ ts_delta v1 = ts_delta v2
          /\ ts_wts v1 = ts_wts v2).
Proof.
  intros H1 H2. split; [now apply mk_ts_fields|].
  unfold timestamp_set_is_equal. rewrite bool_decide_eq_true. split.
  - intros ->. auto.
  - intros (Hl & Hd & Hw).
    rewrite <- (mk_ts_fields v1 H1), <- (mk_ts_fields v2 H2), Hl, Hd, Hw.
    reflexivity.
Qed.

Lemma timestamp_set_is_equal_fields_witness :
  timestamp_set_is_equal (mk_ts true 5 7) 458763 = true
  <-> ts_lock_bit (mk_ts true 5 7) = ts_lock_bit 458763
      /\ ts_delta (mk_ts true 5 7) = ts_delta 458763
      /\ ts_wts (mk_ts true 5 7) = ts_wts 458763.
Proof.
  apply (timestamp_set_is_equal_fields (mk_ts true 5 7) 458763);
    vm_compute; split; congruence.
Defined.

Lemma extend_rts_any commit_ts v1 :
  ts_lock_bit (extend_rts commit_ts v1) = ts_lock_bit v1
  /\ ts_delta (extend_rts commit_ts v1)
     = ((commit_ts - ts_wts v1) mod 2 ^ 64) mod 2 ^ 15
  /\ (ts_wts (extend_rts commit_ts v1) + ts_delta (extend_rts commit_ts v1))
       mod 2 ^ 48
     = commit_ts mod 2 ^ 48.
Proof.
  unfold extend_rts, set_delta, set_wts.
  rewrite !ts_wts_mk, !ts_delta_mk, !ts_lock_bit_mk, land_0x7fff.
  unfold wrap64.
  pose proof (Z.mod_pos_bound (commit_ts - ts_wts v1) (2 ^ 64) ltac:(lia)) as HD.
  set (D := (commit_ts - ts_wts v1) mod 2 ^ 64) in *.
  pose proof (Z.mod_pos_bound D (2 ^ 15) ltac:(lia)) as Hr.
  assert (Hle : D mod 2 ^ 15 <= D) by (apply Z.mod_le; lia).
  rewrite (Z.mod_small (D - D mod 2 ^ 15)) by lia.
  replace (D - (D - D mod 2 ^ 15)) with (D mod 2 ^ 15) by lia.
  rewrite !Z.mod_mod by lia.
  split; [reflexivity|]. split; [reflexivity|].
  rewrite Zplus_mod_idemp_l.
  replace (ts_wts v1 + (D - D mod 2 ^ 15) + D mod 2 ^ 15)
    with (ts_wts v1 + D) by lia.
  unfold D.
  pose proof (Z.div_mod (commit_ts - ts_wts v1) (2 ^ 64) ltac:(lia)) as Hdm.
  set (q := (commit_ts - ts_wts v1) / 2 ^ 64) in *.
  replace (ts_wts v1 + (commit_ts - ts_wts v1) mod 2 ^ 64)
    with (commit_ts + (- (2 ^ 16 * q)) * 2 ^ 48) by lia.
  apply Z_mod_plus_full.
Qed.

(** X2: the word with which read validation replaces a snapshot keeps the
    lock bit and has the read timestamp [commit_ts mod 2^48], whatever the
    snapshot was.  Where the sum [wts + delta] of the snapshot has not
    wrapped and is at most [commit_ts < 2^48], the new word never moves
    [wts] backwards or beyond [commit_ts]; it moves it by a multiple of
    [2^15], and not at all exactly when [commit_ts - wts] fits the 15 bits
    of [delta]; the read timestamp does not decrease, and extending a
    second time to the same [commit_ts] changes nothing. *)
Theorem extend_rts_advances commit_ts v1 :
  ts_lock_bit (extend_rts commit_ts v1) = ts_lock_bit v1
  /\ (ts_wts (extend_rts commit_ts v1) + ts_delta (extend_rts commit_ts v1))
       mod 2 ^ 48
     = commit_ts mod 2 ^ 48
  /\ (ts_wts v1 + ts_delta v1 <= commit_ts < 2 ^ 48 ->
      ts_wts v1 <= ts_wts (extend_rts commit_ts v1) <= commit_ts
      /\ (ts_wts (extend_rts commit_ts v1) - ts_wts v1) mod 2 ^ 15 = 0
      /\ (ts_wts (extend_rts commit_ts v1) = ts_wts v1
          <-> commit_ts - ts_wts v1 < 2 ^ 15)
      /\ ts_wts v1 + ts_delta v1
         <= ts_wts (extend_rts commit_ts v1)
            + ts_delta (extend_rts commit_ts v1)
      /\ extend_rts commit_ts (extend_rts commit_ts v1)
         = extend_rts commit_ts v1).
Proof.
  destruct (extend_rts_any commit_ts v1) as (Hlk & _ & Hsum0).
  split; [exact Hlk|]. split; [exact Hsum0|]. clear Hlk Hsum0.
  intros Hc.
  pose proof (ts_wts_range v1) as Hw. pose proof (ts_delta_range v1) as Hd.
  assert (Hc' : ts_wts v1 <= commit_ts < 2 ^ 64) by lia.
  destruct (extend_rts_fields commit_ts v1 Hc') as (Hwts & Hdelta & Hlock).
  set (g := commit_ts - ts_wts v1) in *.
  assert (Hg : 0 <= g) by (unfold g; lia).
  pose proof (Z.div_mod g (2 ^ 15) ltac:(lia)) as Hdm.
  pose proof (Z.mod_pos_bound g (2 ^ 15) ltac:(lia)) as Hm.
  assert (Hq : 0 <= g / 2 ^ 15) by (apply Z.div_pos; lia).
  assert (Hwts' : ts_wts (extend_rts commit_ts v1)
                  = ts_wts v1 + 2 ^ 15 * (g / 2 ^ 15)).
  { rewrite Hwts. rewrite Z.mod_small by (unfold g in *; lia).
    unfold g in *. lia. }
  split; [unfold g in *; lia|]. split.
  { rewrite Hwts'.
    replace (ts_wts v1 + 2 ^ 15 * (g / 2 ^ 15) - ts_wts v1)
      with (g / 2 ^ 15 * 2 ^ 15) by lia.
    apply Z.mod_mul. lia. }
  split.
  { rewrite Hwts'. split.
    - intros E. assert (g / 2 ^ 15 = 0) by lia. lia.
    - intros E. rewrite (Z.div_small g) by lia. lia. }
  split.
  { rewrite Hwts', Hdelta. unfold g in *. lia. }
  (* the word is already extended *)
  set (v2 := extend_rts commit_ts v1) in *.
  assert (Hsum : commit_ts - ts_wts v2 = g mod 2 ^ 15) by (unfold g in *; lia).
  unfold extend_rts at 1. unfold set_delta, set_wts.
  rewrite !ts_wts_mk, !ts_lock_bit_mk.
  rewrite Hsum. unfold wrap64.
  rewrite (Z.mod_small (g mod 2 ^ 15) (2 ^ 64)) by lia.
  rewrite land_0x7fff, Z.mod_mod by lia.
  replace (g mod 2 ^ 15 - g mod 2 ^ 15) with 0 by lia.
  rewrite (Z.mod_small 0) by lia. rewrite Z.add_0_r, Z.sub_0_r.
  pose proof (ts_wts_range v2) as Hw2.
  rewrite <- Hdelta, (Z.mod_small (ts_wts v2)) by lia.
  apply mk_ts_fields.
  unfold v2, extend_rts, set_delta. apply mk_ts_range.
Qed.

Lemma extend_rts_advances_witness :
  (ts_wts (extend_rts 40007 (mk_ts false 0 7))
   + ts_delta (extend_rts 40007 (mk_ts false 0 7))) mod 2 ^ 48
  = 40007 mod 2 ^ 48
  /\ ts_wts (mk_ts false 0 7) <= ts_wts (extend_rts 40007 (mk_ts false 0 7))
     <= 40007
  /\ (ts_wts (extend_rts 40007 (mk_ts false 0 7)) - ts_wts (mk_ts false 0 7))
       mod 2 ^ 15 = 0
  /\ (ts_wts (extend_rts 5 (mk_ts false 1 (2 ^ 48 - 1)))
      + ts_delta (extend_rts 5 (mk_ts false 1 (2 ^ 48 - 1)))) mod 2 ^ 48
     = 5 mod 2 ^ 48.
Proof.
  destruct (extend_rts_advances 40007 (mk_ts false 0 7)) as (_ & H0 & H).
  destruct H as (H1 & H2 & _).
  { vm_compute. split; congruence. }
  destruct (extend_rts_advances 5 (mk_ts false 1 (2 ^ 48 - 1))) as (_ & H3 & _).
  split; [exact H0|]. split; [exact H1|]. split; [exact H2|exact H3].
Defined.

(** ** The lock *)

(** X3: with nobody else storing to the word, [rw_entry_try_lock] on an
    unlocked 64-bit word takes the lock; while it is held a second
    [rw_entry_try_lock] on the same slot fails without storing anything;
    and [rw_entry_unlock] puts back the word that was there before the
    lock was taken, so that locking and unlocking leaves memory as it
    was. *)
Theorem try_lock_unlock_round_trip fuel s e e' :
  quiescent s -> tuple_ts e <> NULL -> tuple_ts e' = tuple_ts e ->
  0 <= world_load s (tuple_ts e) < 2 ^ 64 ->
  ts_lock_bit (world_load s (tuple_ts e)) = false ->
  exists s1 s2 t1 t2 t3,
    run world_handler (rw_entry_try_lock e) s = (Done true, s1, t1)
    /\ ts_lock_bit (world_load s1 (tuple_ts e)) = true
    /\ run world_handler (rw_entry_try_lock e') s1 = (Done false, s1, t2)
    /\ run world_handler (rw_entry_unlock (S fuel) e) s1 = (Done tt, s2, t3)
    /\ forall q, world_load s2 q = world_load s q.
Proof.
  intros Hq Hp He' Hv Hl.
  set (p := tuple_ts e) in *. set (v := world_load s p) in *.
  set (s1 := world_set_mem s (<[p := set_lock_bit v true]> (w_mem s))).
  assert (Hq1 : quiescent s1) by exact Hq.
  assert (Hv1 : world_load s1 p = set_lock_bit v true)
    by apply world_load_set_mem.
  assert (Hl1 : ts_lock_bit (world_load s1 p) = true).
  { rewrite Hv1. apply set_lock_bit_fields. }
  eexists s1, _, _, _, _.
  split; [apply (rw_entry_try_lock_quiescent s e Hq Hp Hl)|].
  split; [exact Hl1|]. split.
  { unfold rw_entry_try_lock.
    rewrite run_bind, (run_load_tuple_ts s1 e' Hq1) by (rewrite He'; exact Hp).
    rewrite He'. fold p. rewrite Hl1. reflexivity. }
  split; [apply (rw_entry_unlock_quiescent fuel s1 e Hq1 Hp)|].
  intros q. fold p. destruct (decide (q = p)) as [->|Hne].
  - rewrite world_load_set_mem, Hv1.
    destruct (set_lock_bit_fields v true) as (_ & Hd & Hw).
    unfold set_lock_bit at 1. rewrite Hd, Hw, <- Hl.
    apply mk_ts_fields. exact Hv.
  - rewrite world_load_set_mem_ne by exact Hne.
    unfold s1. apply world_load_set_mem_ne. exact Hne.
Qed.

Lemma try_lock_unlock_round_trip_witness :
  exists s1 s2 t1 t3,
    run world_handler (rw_entry_try_lock (example_read "aaaa" 8))
      demo_abort_world = (Done true, s1, t1)
    /\ run world_handler (rw_entry_unlock 1 (example_read "aaaa" 8)) s1
       = (Done tt, s2, t3)
    /\ forall q, world_load s2 q = world_load demo_abort_world q.
Proof.
  destruct (try_lock_unlock_round_trip 0 demo_abort_world
              (example_read "aaaa" 8) (example_read "aaaa" 8))
    as (s1 & s2 & t1 & t2 & t3 & H1 & _ & _ & H3 & H4).
  - reflexivity.
  - discriminate.
  - reflexivity.
  - vm_compute. split; congruence.
  - reflexivity.
  - exists s1, s2, t1, t3. split; [exact H1|]. split; [exact H3|exact H4].
Defined.

(** ** What each function touches *)

Lemma events_in_mono {A} (P Q : obs -> Prop) (p : prog A) :
  (forall o, P o -> Q o) -> events_in P p -> events_in Q p.
Proof.
  intros HPQ. induction p as [a|X e k IH|c|]; simpl; auto.
  intros H x. destruct (H x) as [Hx Hk]. split; [auto|]. apply IH. exact Hk.
Qed.

Section Footprint.
Context {dcfg : data_config} {bcfg : build_config}.
Variable P : obs -> Prop.

Create HintDb footprint.

Ltac fp_step :=
  match goal with
  | |- events_in _ (bind _ _) => apply events_in_bind; [|intros ?]
  | |- events_in _ (trigger (if ?b then _ else _)) => destruct b
  | H : allows P _ |- events_in _ (trigger _) =>
      apply events_in_trigger; intros ?; apply H; reflexivity
  | |- events_in _ (if ?b then _ else _) => destruct b
  | |- events_in _ (match ?x with _ => _ end) => destruct x
  | |- events_in _ (Ret _) => exact I
  | |- events_in _ (Crash _) => exact I
  | |- events_in _ Timeout => exact I
  | |- _ => solve [auto with footprint]
  end.

Ltac fp_solve := repeat fp_step.

Lemma fp_entry_at txn i : events_in P (entry_at txn i).
Proof. unfold entry_at. fp_solve. Qed.

Lemma fp_load_tuple_ts e : allows P KLoad -> events_in P (load_tuple_ts e).
Proof. intros ?. unfold load_tuple_ts. fp_solve. Qed.

#[local] Hint Resolve fp_entry_at fp_load_tuple_ts : footprint.

Lemma fp_try_lock e :
  allows P KLoad -> allows P KCas -> events_in P (rw_entry_try_lock e).
Proof.
  intros ? ?. unfold rw_entry_try_lock, timestamp_set_compare_and_swap.
  fp_solve.
Qed.

Lemma fp_unlock fuel e :
  allows P KLoad -> allows P KCas -> events_in P (rw_entry_unlock fuel e).
Proof.
  intros ? ?. induction fuel as [|fuel IH]; cbn [rw_entry_unlock];
    unfold timestamp_set_compare_and_swap; fp_solve.
Qed.

Lemma fp_install_commit_ts fuel c e :
  allows P KLoad -> allows P KCas -> events_in P (install_commit_ts fuel c e).
Proof.
  intros ? ?. induction fuel as [|fuel IH]; cbn [install_commit_ts];
    unfold timestamp_set_compare_and_swap; fp_solve.
Qed.

Lemma fp_iceberg_insert e :
  allows P KCacheInsert -> events_in P (rw_entry_iceberg_insert e).
Proof. intros ?. unfold rw_entry_iceberg_insert. fp_solve. Qed.

Lemma fp_iceberg_remove e :
  (EXPERIMENTAL_MODE_KEEP_ALL_KEYS = false -> allows P KCacheRemove) ->
  (EXPERIMENTAL_MODE_KEEP_ALL_KEYS = false -> allows P KFree) ->
  events_in P (rw_entry_iceberg_remove e).
Proof.
  intros Hr Hf. unfold rw_entry_iceberg_remove.
  destruct (tuple_ts e =? NULL); [exact I|].
  destruct EXPERIMENTAL_MODE_KEEP_ALL_KEYS; [exact I|].
  specialize (Hr eq_refl). specialize (Hf eq_refl). fp_solve.
Qed.

Lemma fp_deinit e : allows P KFree -> events_in P (rw_entry_deinit e).
Proof. intros ?. unfold rw_entry_deinit. fp_solve. Qed.

#[local] Hint Resolve fp_try_lock fp_unlock fp_install_commit_ts
  fp_iceberg_insert fp_iceberg_remove fp_deinit : footprint.

Lemma fp_transaction_deinit txn :
  (EXPERIMENTAL_MODE_KEEP_ALL_KEYS = false -> allows P KCacheRemove) ->
  allows P KFree ->
  events_in P (transaction_deinit txn).
Proof.
  intros ? ?. unfold transaction_deinit. generalize 0%nat.
  induction (rw_entries txn) as [|e es IH]; intros i;
    cbn [transaction_deinit_from]; fp_solve.
Qed.

Lemma fp_lock_attempt txn todo n :
  allows P KLoad -> allows P KCas -> allows P KCacheInsert ->
  events_in P (lock_attempt txn todo n).
Proof.
  intros ? ? ?. revert txn n. induction todo as [|wi todo IH]; intros txn n;
    cbn [lock_attempt]; fp_solve.
Qed.

Lemma fp_unlock_all fuel txn ws :
  allows P KLoad -> allows P KCas -> events_in P (unlock_all fuel txn ws).
Proof. intros ? ?. induction ws as [|wi ws IH]; cbn [unlock_all]; fp_solve. Qed.

#[local] Hint Resolve fp_transaction_deinit fp_lock_attempt fp_unlock_all
  : footprint.

Lemma fp_lock_write_set fuel txn ws :
  allows P KLoad -> allows P KCas -> allows P KCacheInsert ->
  allows P KSleep ->
  events_in P (lock_write_set fuel txn ws).
Proof.
  intros ? ? ? ?. revert txn. induction fuel as [|fuel IH]; intros txn;
    cbn [lock_write_set]; fp_solve.
Qed.

Lemma fp_raise_commit_ts txn ws c :
  allows P KLoad -> events_in P (raise_commit_ts txn ws c).
Proof.
  intros ?. revert c. induction ws as [|wi ws IH]; intros c;
    cbn [raise_commit_ts]; fp_solve.
Qed.

Lemma fp_validate_read_loop fuel c r :
  allows P KLoad -> allows P KCas -> events_in P (validate_read_loop fuel c r).
Proof.
  intros ? ?. induction fuel as [|fuel IH]; cbn [validate_read_loop];
    unfold timestamp_set_compare_and_swap; fp_solve.
Qed.

#[local] Hint Resolve fp_validate_read_loop : footprint.

Lemma fp_validate_reads fuel txn c rs :
  allows P KLoad -> allows P KCas -> events_in P (validate_reads fuel txn c rs).
Proof.
  intros ? ?. induction rs as [|ri rs IH]; cbn [validate_reads];
    unfold validate_read; fp_solve.
Qed.

Lemma fp_apply_write fuel c w :
  allows P KLoad -> allows P KCas ->
  (EXPERIMENTAL_MODE_BYPASS_SPLINTERDB = true -> allows P KSleep) ->
  (EXPERIMENTAL_MODE_BYPASS_SPLINTERDB = false -> allows P KKvsWrite) ->
  events_in P (apply_write fuel c w).
Proof.
  intros ? ? Hs Hk. unfold apply_write, apply_message.
  destruct (msg w) as [m|]; [|exact I].
  destruct EXPERIMENTAL_MODE_BYPASS_SPLINTERDB;
    [specialize (Hs eq_refl)|specialize (Hk eq_refl)]; fp_solve.
Qed.

#[local] Hint Resolve fp_apply_write : footprint.

Lemma fp_apply_writes fuel txn c ws :
  allows P KLoad -> allows P KCas ->
  (EXPERIMENTAL_MODE_BYPASS_SPLINTERDB = true -> allows P KSleep) ->
  (EXPERIMENTAL_MODE_BYPASS_SPLINTERDB = false -> allows P KKvsWrite) ->
  events_in P (apply_writes fuel txn c ws).
Proof.
  intros ? ? ? ?. induction ws as [|wi ws IH]; cbn [apply_writes]; fp_solve.
Qed.

#[local] Hint Resolve fp_lock_write_set fp_raise_commit_ts fp_validate_reads
  fp_apply_writes : footprint.

Lemma fp_commit fuel txn :
  allows P KLoad -> allows P KCas -> allows P KCacheInsert ->
  allows P KSleep -> allows P KFree ->
  (EXPERIMENTAL_MODE_KEEP_ALL_KEYS = false -> allows P KCacheRemove) ->
  (EXPERIMENTAL_MODE_BYPASS_SPLINTERDB = false -> allows P KKvsWrite) ->
  events_in P (transactional_splinterdb_commit fuel txn).
Proof.
  intros ? ? ? ? ? ? ?.
  unfold transactional_splinterdb_commit, commit_finish. fp_solve.
Qed.

Lemma fp_abort txn :
  (EXPERIMENTAL_MODE_KEEP_ALL_KEYS = false -> allows P KCacheRemove) ->
  allows P KFree ->
  events_in P (transactional_splinterdb_abort txn).
Proof. intros ? ?. unfold transactional_splinterdb_abort. fp_solve. Qed.

Lemma fp_rw_entry_get txn k rd : events_in P (rw_entry_get txn k rd).
Proof. unfold rw_entry_get, rw_entry_set_key. fp_solve. Qed.

#[local] Hint Resolve fp_rw_entry_get : footprint.

Lemma fp_local_write txn k m :
  allows P KLoad -> allows P KCacheInsert -> allows P KFree ->
  events_in P (local_write txn k m).
Proof.
  intros ? ? ?. unfold local_write, local_write_sample, local_write_msg.
  fp_solve.
Qed.

Lemma fp_lookup_loop fuel e k rc res :
  allows P KLoad ->
  (EXPERIMENTAL_MODE_BYPASS_SPLINTERDB = true -> allows P KSleep) ->
  (EXPERIMENTAL_MODE_BYPASS_SPLINTERDB = false -> allows P KKvsRead) ->
  events_in P (lookup_loop fuel e k rc res).
Proof.
  intros ? Hs Hk. revert rc res.
  induction fuel as [|fuel IH]; intros rc res; cbn [lookup_loop]; [exact I|].
  apply events_in_bind; [fp_solve|intros v1].
  apply events_in_bind.
  - destruct EXPERIMENTAL_MODE_BYPASS_SPLINTERDB;
      [specialize (Hs eq_refl)|specialize (Hk eq_refl)]; fp_solve.
  - intros r. fp_solve.
Qed.

#[local] Hint Resolve fp_lookup_loop : footprint.

Lemma fp_lookup fuel txn k res :
  allows P KLoad -> allows P KCacheInsert ->
  (EXPERIMENTAL_MODE_BYPASS_SPLINTERDB = true -> allows P KSleep) ->
  (EXPERIMENTAL_MODE_BYPASS_SPLINTERDB = false -> allows P KKvsRead) ->
  events_in P (transactional_splinterdb_lookup fuel txn k res).
Proof. intros ? ? ? ?. unfold transactional_splinterdb_lookup. fp_solve. Qed.

#[local] Hint Resolve fp_local_write fp_lookup : footprint.

Lemma fp_run_ops fuel txn ops :
  allows P KLoad -> allows P KCacheInsert -> allows P KFree ->
  (EXPERIMENTAL_MODE_BYPASS_SPLINTERDB = true -> allows P KSleep) ->
  (EXPERIMENTAL_MODE_BYPASS_SPLINTERDB = false -> allows P KKvsRead) ->
  events_in P (run_ops fuel txn ops).
Proof.
  intros ? ? ? ? ?. revert txn.
  induction ops as [|op ops IH]; intros txn; cbn [run_ops]; [exact I|].
  apply events_in_bind; [|intros ?; apply IH].
  destruct op; cbn [run_op];
    unfold transactional_splinterdb_insert, transactional_splinterdb_update,
      transactional_splinterdb_delete; fp_solve.
Qed.

End Footprint.

(** ** The teardown *)

Lemma always_returns_exec {A} (p : prog A) tr o :
  always_returns p -> exec p tr o -> exists a, o = Done a.
Proof.
  revert tr. induction p as [a|X e k IH|c|]; simpl; intros tr Hr H.
  - destruct H as [_ ->]. eauto.
  - destruct H as (x & tr' & -> & H). eapply IH; eauto.
  - contradiction.
  - contradiction.
Qed.

Lemma always_returns_bind {A B} (p : prog A) (f : A -> prog B) :
  always_returns p -> (forall a, always_returns (f a)) ->
  always_returns (bind p f).
Proof.
  intros Hp Hf. induction p as [a|X e k IH|c|]; simpl in *; auto.
Qed.

Lemma no_cache_reference_omap tr :
  Forall no_cache_reference tr ->
  omap referenced_key tr = [] /\ omap removed_key tr = [].
Proof.
  induction 1 as [|o tr [H1 H2] _ [IH1 IH2]]; [auto|].
  cbn [omap list_omap]. rewrite H1, H2. auto.
Qed.

Lemma not_free_omap tr :
  Forall (fun o => kind_of o <> KFree) tr ->
  omap freed_entry tr = [] /\ omap freed_msg tr = [].
Proof.
  induction 1 as [|o tr Ho _ [IH1 IH2]]; [auto|].
  cbn [omap list_omap]. destruct o; try (destruct o); cbn in *;
    try contradiction; auto.
Qed.

Section Teardown.
Context {dcfg : data_config} {bcfg : build_config}.

Lemma always_returns_transaction_deinit txn :
  always_returns (transaction_deinit txn).
Proof.
  unfold transaction_deinit. generalize 0%nat.
  induction (rw_entries txn) as [|e es IH]; intros i;
    cbn [transaction_deinit_from]; [exact I|].
  apply always_returns_bind.
  { unfold rw_entry_iceberg_remove.
    destruct (tuple_ts e =? NULL); [exact I|].
    destruct EXPERIMENTAL_MODE_KEEP_ALL_KEYS; [exact I|].
    intros [[|]|]; simpl; auto. }
  intros e'. apply always_returns_bind.
  { unfold rw_entry_deinit.
    destruct (negb (slice_is_null (key e')) && negb (need_to_keep_key e'));
      destruct (msg e'); simpl; auto. }
  intros _. simpl. intros _. apply IH.
Qed.

Lemma exec_rw_entry_iceberg_remove e tr e' :
  exec (rw_entry_iceberg_remove e) tr (Done e') ->
  key e' = key e /\ msg e' = msg e /\ tuple_ts e' = NULL
  /\ omap removed_key tr
     = (if holds_slot e && negb EXPERIMENTAL_MODE_KEEP_ALL_KEYS
        then [key e] else [])
  /\ omap referenced_key tr = []
  /\ omap freed_entry tr = [] /\ omap freed_msg tr = []
  /\ Forall (fun o => kind_of o = KCacheRemove \/ kind_of o = KFree) tr.
Proof.
  unfold rw_entry_iceberg_remove, holds_slot.
  destruct (Z.eqb_spec (tuple_ts e) NULL) as [E|E]; cbn [negb andb].
  { intros H. apply exec_ret_done in H as [-> <-]. auto 10. }
  destruct EXPERIMENTAL_MODE_KEEP_ALL_KEYS; cbn [negb].
  { intros H. apply exec_ret_done in H as [-> <-]. cbn. auto 10. }
  intros H. apply exec_bind_done in H as (r & t1 & t2 & Hr & H & ->).
  apply exec_trigger_done in Hr as ->. cbn [obs_of key with_tuple_ts] in *.
  destruct r as [[|]|]; cbn [negb] in H.
  - apply exec_ret_done in H as [-> <-]. cbn. repeat split; auto.
  - apply exec_bind_done in H as ([] & t3 & t4 & Hf & H & ->).
    apply exec_trigger_done in Hf as ->.
    apply exec_ret_done in H as [-> <-]. cbn. repeat split; auto.
  - apply exec_ret_done in H as [-> <-]. cbn. repeat split; auto.
Qed.

Lemma exec_rw_entry_deinit e tr :
  exec (rw_entry_deinit e) tr (Done tt) ->
  omap removed_key tr = [] /\ omap referenced_key tr = []
  /\ omap freed_entry tr = []
  /\ omap freed_msg tr
     = match msg e with Some m => [message_data m] | None => [] end
  /\ Forall (fun o => kind_of o = KFree) tr.
Proof.
  unfold rw_entry_deinit. intros H.
  apply exec_bind_done in H as ([] & t1 & t2 & H1 & H2 & ->).
  assert (Ht1 : t1 = [] \/ t1 = [OFree (KeyBuf (key e))]).
  { destruct (negb (slice_is_null (key e)) && negb (need_to_keep_key e)).
    - apply exec_trigger_done in H1. auto.
    - apply exec_ret_done in H1 as [-> _]. auto. }
  assert (Ht2 : t2 = match msg e with
                     | Some m => [OFree (MsgBuf (message_data m))]
                     | None => []
                     end).
  { destruct (msg e).
    - now apply exec_trigger_done in H2.
    - now apply exec_ret_done in H2 as [-> _]. }
  rewrite Ht2. destruct Ht1 as [-> | ->]; destruct (msg e); cbn;
    repeat split; auto.
Qed.

Lemma exec_transaction_deinit_from es i tr :
  exec (transaction_deinit_from es i) tr (Done tt) ->
  omap freed_entry tr = seq i (length es)
  /\ omap freed_msg tr = omap (fun e => message_data <$> msg e) es
  /\ omap removed_key tr
     = (if EXPERIMENTAL_MODE_KEEP_ALL_KEYS then []
        else map key (List.filter holds_slot es))
  /\ omap referenced_key tr = []
  /\ Forall (fun o => kind_of o = KCacheRemove \/ kind_of o = KFree) tr.
Proof.
  revert i tr. induction es as [|e es IH]; intros i tr H.
  - apply exec_ret_done in H as [-> _]. cbn.
    destruct EXPERIMENTAL_MODE_KEEP_ALL_KEYS; auto.
  - cbn [transaction_deinit_from] in H.
    apply exec_bind_done in H as (e' & t1 & t2 & Hrem & H & ->).
    apply exec_bind_done in H as ([] & t3 & t4 & Hde & H & ->).
    apply exec_bind_done in H as ([] & t5 & t6 & Hfr & H & ->).
    apply exec_trigger_done in Hfr as ->. cbn [obs_of] in *.
    apply exec_rw_entry_iceberg_remove in Hrem
      as (Hk & Hm & _ & Hr1 & Hf1 & He1 & Hm1 & Hk1).
    apply exec_rw_entry_deinit in Hde as (Hr3 & Hf3 & He3 & Hm3 & Hk3).
    apply IH in H as (He6 & Hm6 & Hr6 & Hf6 & Hk6).
    rewrite !omap_app, Hr1, Hf1, He1, Hm1, Hr3, Hf3, He3, Hm3.
    cbn [omap list_omap freed_entry freed_msg removed_key referenced_key app].
    rewrite He6, Hm6, Hr6, Hf6, Hm.
    split; [reflexivity|]. split.
    { cbn [length seq fmap option_fmap option_map].
      destruct (msg e); reflexivity. }
    split.
    { cbn [List.filter].
      destruct EXPERIMENTAL_MODE_KEEP_ALL_KEYS, (holds_slot e); reflexivity. }
    split; [reflexivity|].
    rewrite !Forall_app. split; [exact Hk1|]. split.
    { eapply Forall_impl; [exact Hk3|]. cbn. auto. }
    constructor; [cbn; auto|exact Hk6].
Qed.

Lemma exec_abort_references txn tr rc :
  exec (transactional_splinterdb_abort txn) tr (Done rc) ->
  omap removed_key tr = counted_keys txn
  /\ omap referenced_key tr = [].
Proof.
  unfold transactional_splinterdb_abort. intros H.
  apply exec_bind_done in H as ([] & t1 & t2 & Hd & Hret & ->).
  apply exec_ret_done in Hret as [-> _]. rewrite app_nil_r.
  apply exec_transaction_deinit_from in Hd as (_ & _ & Hr & Hf & _).
  unfold counted_keys, slot_keys. auto.
Qed.

(** X4: [transactional_splinterdb_abort] cannot fail: whatever the cache
    answers it returns 0.  It touches no timestamp word and never calls the
    key-value store; it frees every RW entry once, in order, and the message
    buffer of every entry that has one; it gives the slot of every entry
    that holds one back to the timestamp cache (nothing in the build that
    keeps all keys) and takes no new reference. *)
Theorem abort_releases_everything txn tr o :
  exec (transactional_splinterdb_abort txn) tr o ->
  o = Done 0
  /\ Forall (fun ev => kind_of ev = KCacheRemove \/ kind_of ev = KFree) tr
  /\ omap freed_entry tr = seq 0 (num_rw_entries txn)
  /\ omap freed_msg tr = pending_buffers txn
  /\ omap removed_key tr
     = (if EXPERIMENTAL_MODE_KEEP_ALL_KEYS then [] else slot_keys txn)
  /\ omap referenced_key tr = [].
Proof.
  unfold transactional_splinterdb_abort. intros H.
  destruct (exec_bind_inv _ _ _ _ H)
    as [([] & t1 & t2 & Hd & Hret & ->)|[(c & Hc & _)|[Ht _]]].
  - destruct Hret as [-> ->]. rewrite app_nil_r.
    apply exec_transaction_deinit_from in Hd as (He & Hm & Hr & Hf & Hk).
    unfold pending_buffers, slot_keys, num_rw_entries. auto 10.
  - destruct (always_returns_exec _ _ _
                (always_returns_transaction_deinit txn) Hc) as (a & E).
    discriminate E.
  - destruct (always_returns_exec _ _ _
                (always_returns_transaction_deinit txn) Ht) as (a & E).
    discriminate E.
Qed.

(** X5: a commit that returns, committed or aborted, has freed every RW
    entry of the transaction exactly once, in order, and the message
    buffer that each write entry held when commit was called. *)
Theorem commit_frees_every_entry_once fuel txn tr rc :
  exec (transactional_splinterdb_commit fuel txn) tr (Done rc) ->
  omap freed_entry tr = seq 0 (num_rw_entries txn)
  /\ omap freed_msg tr = pending_buffers txn.
Proof.
  intros H. apply exec_commit_run in H
    as (txn1 & cts & ab & t_lock & t_raise & t_val & t_body & t_deinit
        & Hlock & Hraise & Hval & Hbody & Hdeinit & _ & ->).
  set (Q := fun o => kind_of o <> KFree).
  assert (HQ : forall k, k <> KFree -> allows Q k).
  { intros k Hk o Ho. unfold Q. congruence. }
  assert (Hl : Forall Q t_lock).
  { eapply events_in_exec; [|exact Hlock].
    apply fp_lock_write_set; apply HQ; discriminate. }
  assert (Hr : Forall Q t_raise).
  { eapply events_in_exec; [|exact Hraise].
    apply fp_raise_commit_ts; apply HQ; discriminate. }
  assert (Hv : Forall Q t_val).
  { eapply events_in_exec; [|exact Hval].
    apply fp_validate_reads; apply HQ; discriminate. }
  assert (Hb : Forall Q t_body).
  { eapply events_in_exec; [|exact Hbody]. destruct ab; cbn [negb].
    - apply fp_unlock_all; apply HQ; discriminate.
    - apply fp_apply_writes; try intros _; apply HQ; discriminate. }
  apply not_free_omap in Hl as [Hl1 Hl2]. apply not_free_omap in Hr as [Hr1 Hr2].
  apply not_free_omap in Hv as [Hv1 Hv2]. apply not_free_omap in Hb as [Hb1 Hb2].
  apply exec_transaction_deinit_from in Hdeinit as (He & Hm & _).
  apply lock_write_set_payload in Hlock as [Hkeys Hmsgs].
  rewrite !omap_app, Hl1, Hl2, Hr1, Hr2, Hv1, Hv2, Hb1, Hb2, He, Hm.
  cbn [app]. unfold num_rw_entries, pending_buffers. split.
  - f_equal. rewrite <- (length_map key (rw_entries txn1)), Hkeys.
    apply length_map.
  - apply list_omap_ext. clear -Hmsgs.
    revert Hmsgs. generalize (rw_entries txn).
    induction (rw_entries txn1) as [|e1 l1 IH]; intros [|e l] E;
      try discriminate E; constructor.
    + injection E as E _. now rewrite E.
    + injection E as _ E. now apply IH.
Qed.

(** C4: a commit that aborts (returns [-1]) issues no insert, update or
    delete to the key-value store; the locks it holds after the last
    locking attempt, one per write, are released by compare-and-swaps that
    keep [wts] and [delta] and clear the lock bit (those of the failed
    attempts were released before each retry); and, aborting or not, it
    ends with the same teardown: every RW entry is freed once, in the order
    of the entries, with the message buffer it held, and the slot of every
    entry that holds one is given back to the timestamp cache (no slot in
    the build that keeps all keys); the teardown does nothing else. *)
Theorem abort_skips_apply_and_releases_locks fuel txn tr rc :
  exec (transactional_splinterdb_commit fuel txn) tr (Done rc) ->
  exists txn1 commit_ts is_abort t_lock t_raise t_val t_body t_deinit ps,
    commit_run fuel txn tr rc txn1 commit_ts is_abort
      t_lock t_raise t_val t_body t_deinit
    /\ Forall2 (slot_of txn1) (sorted_write_set txn) ps
    /\ no_wait_tr ps (without_installs t_lock)
    /\ omap freed_entry t_deinit = seq 0 (num_rw_entries txn)
    /\ omap freed_msg t_deinit = pending_buffers txn
    /\ omap removed_key t_deinit
       = (if EXPERIMENTAL_MODE_KEEP_ALL_KEYS then [] else slot_keys txn1)
    /\ Forall (fun o => kind_of o = KCacheRemove \/ kind_of o = KFree) t_deinit
    /\ (rc = -1 ->
        is_abort = true
        /\ Forall (fun o => is_kvs_mutation o = false) tr
        /\ (exists rel, t_body = concat rel /\ Forall2 release_tr ps rel)
        /\ Forall clears_lock_only t_body).
Proof.
  intros H.
  apply exec_commit_run in H
    as (txn1 & cts & is_abort & t_lock & t_raise & t_val & t_body & t_deinit
        & Hrun).
  pose proof Hrun as (Hlock & Hraise & Hval & Hbody & Hdeinit & Erc & Etr).
  destruct (lock_write_set_no_wait _ _ _ _ _ Hlock) as (_ & ps & Hps & Hnw).
  exists txn1, cts, is_abort, t_lock, t_raise, t_val, t_body, t_deinit, ps.
  split; [exact Hrun|]. split; [exact Hps|]. split; [exact Hnw|].
  pose proof Hdeinit as Hd.
  apply exec_transaction_deinit_from in Hd as (He & Hm & Hr & _ & Hk).
  pose proof (lock_write_set_payload _ _ _ _ _ Hlock) as [Hkeys Hmsgs].
  split.
  { rewrite He. unfold num_rw_entries. f_equal.
    rewrite <- (length_map key (rw_entries txn1)), Hkeys. apply length_map. }
  split.
  { rewrite Hm. unfold pending_buffers. apply list_omap_ext. clear -Hmsgs.
    revert Hmsgs. generalize (rw_entries txn).
    induction (rw_entries txn1) as [|e1 l1 IH]; intros [|e l] E;
      try discriminate E; constructor.
    + injection E as E _. now rewrite E.
    + injection E as _ E. now apply IH. }
  split; [exact Hr|]. split; [exact Hk|].
  intros Hrc. destruct is_abort; [|simpl in Erc; lia].
  split; [reflexivity|]. simpl in Hbody.
  pose proof Hbody as Hrel.
  apply exec_unlock_all in Hrel as (rel & Eb & Hrel).
  assert (Hrel' : Forall2 release_tr ps rel).
  { apply (Forall2_through (slot_of txn1) release_tr (sorted_write_set txn));
      auto.
    intros; eapply slot_of_fun; eauto. }
  split; [|split].
  - rewrite Etr. rewrite !Forall_app.
    assert (Hweak : forall t, Forall not_kvs t ->
                      Forall (fun o => is_kvs_mutation o = false) t).
    { intros t Ht. eapply Forall_impl; [exact Ht|]. intros o [Ho _]. exact Ho. }
    repeat split; apply Hweak.
    + eapply events_in_exec; [apply not_kvs_lock_write_set|exact Hlock].
    + eapply events_in_exec; [apply not_kvs_raise_commit_ts|exact Hraise].
    + eapply events_in_exec; [apply not_kvs_validate_reads|exact Hval].
    + eapply events_in_exec; [apply not_kvs_unlock_all|exact Hbody].
    + eapply events_in_exec; [apply not_kvs_transaction_deinit|exact Hdeinit].
  - exists rel. auto.
  - rewrite Eb.
    apply (Forall_concat_of release_tr clears_lock_only ps rel); auto.
    apply release_tr_clears_lock_only.
Qed.

End Teardown.

(** ** What an operation does to the entries *)

Section Operations.
Context {dcfg : data_config} {bcfg : build_config}.

Lemma holds_slot_true e : holds_slot e = true <-> tuple_ts e <> NULL.
Proof.
  unfold holds_slot. destruct (Z.eqb_spec (tuple_ts e) NULL); cbn; split;
    intros; congruence.
Qed.

Lemma holds_slot_false e : holds_slot e = false <-> tuple_ts e = NULL.
Proof.
  unfold holds_slot. destruct (Z.eqb_spec (tuple_ts e) NULL); cbn; split;
    intros; congruence.
Qed.

Lemma holds_slot_eq e e' : tuple_ts e' = tuple_ts e -> holds_slot e' = holds_slot e.
Proof. unfold holds_slot. now intros ->. Qed.

(** The slot installation as the callers see it, once the load that
    follows it has succeeded. *)
Lemma exec_iceberg_insert_step e tr n e' :
  exec (rw_entry_iceberg_insert e) tr (Done (n, e')) ->
  tuple_ts e' <> NULL ->
  key e' = key e /\ msg e' = msg e /\ is_read e' = is_read e
  /\ wts e' = wts e /\ rts e' = rts e
  /\ (tuple_ts e <> NULL -> e' = e)
  /\ omap removed_key tr = []
  /\ omap referenced_key tr
     = (if holds_slot e || EXPERIMENTAL_MODE_KEEP_ALL_KEYS then []
        else [key e])
  /\ Forall (fun o => kind_of o = KCacheInsert) tr.
Proof.
  intros H Hp.
  apply exec_rw_entry_iceberg_insert in H
    as (_ & _ & Hsame & Hk & Hm & Hw & Hr & Hrd & Hnew).
  repeat (split; [assumption|]).
  split; [intros Hs; now apply Hsame|].
  destruct (Z.eq_dec (tuple_ts e) NULL) as [E|E].
  - rewrite (Hnew E). apply holds_slot_false in E. rewrite E. cbn.
    destruct EXPERIMENTAL_MODE_KEEP_ALL_KEYS; cbn; auto.
  - destruct (Hsame E) as [_ ->]. apply holds_slot_true in E. rewrite E.
    cbn. auto.
Qed.

Lemma exec_local_write_msg_step e k m tr e3 :
  exec (local_write_msg e k m) tr (Done e3) ->
  key e3 = key e /\ is_read e3 = is_read e /\ tuple_ts e3 = tuple_ts e
  /\ wts e3 = wts e /\ rts e3 = rts e
  /\ msg e3 <> None
  /\ Forall (fun o => kind_of o = KFree) tr
  /\ (tr = []
      \/ exists old, msg e = Some old
                     /\ tr = [OFree (MsgBuf (message_data old))]).
Proof.
  unfold local_write_msg, rw_entry_set_msg.
  destruct (msg e) as [old|] eqn:Hm.
  - destruct (data_key_compare (key e) k =? 0).
    + destruct (message_is_definitive m).
      * intros H. apply exec_bind_done in H as ([] & t1 & t2 & Hf & H & ->).
        apply exec_trigger_done in Hf as ->.
        apply exec_ret_done in H as [-> <-]. cbn. repeat split; eauto.
      * destruct (bool_decide (message_class old = MESSAGE_TYPE_DELETE)).
        -- intros [_ H]. discriminate H.
        -- intros H. apply exec_bind_done in H as ([] & t1 & t2 & Hf & H & ->).
           apply exec_trigger_done in Hf as ->.
           apply exec_ret_done in H as [-> <-]. cbn. repeat split; eauto.
    + intros H. apply exec_ret_done in H as [-> <-].
      rewrite Hm. repeat split; auto.
  - intros H. apply exec_ret_done in H as [-> <-]. cbn. repeat split; auto.
Qed.

Lemma omap_kind_free tr :
  Forall (fun o => kind_of o = KFree) tr ->
  omap removed_key tr = [] /\ omap referenced_key tr = [].
Proof.
  intros H. apply and_comm, no_cache_reference_omap.
  eapply Forall_impl; [exact H|].
  intros o Ho. destruct o; try discriminate Ho. split; reflexivity.
Qed.

Lemma omap_kind_load tr :
  Forall (fun o => kind_of o = KLoad \/ kind_of o = KSleep
                   \/ kind_of o = KKvsRead \/ kind_of o = KCas) tr ->
  omap removed_key tr = [] /\ omap referenced_key tr = [].
Proof.
  intros H. apply and_comm, no_cache_reference_omap.
  eapply Forall_impl; [exact H|].
  intros o Ho. destruct o; cbn in Ho; split; try reflexivity;
    destruct Ho as [Ho|[Ho|[Ho|Ho]]]; discriminate Ho.
Qed.

Lemma exec_local_write_sample_step e m tr e2 :
  exec (local_write_sample e m) tr (Done e2) ->
  key e2 = key e /\ is_read e2 = is_read e /\ msg e2 = msg e
  /\ (tuple_ts e <> NULL -> tuple_ts e2 = tuple_ts e)
  /\ omap removed_key tr = []
  /\ omap referenced_key tr
     = (if holds_slot e || EXPERIMENTAL_MODE_KEEP_ALL_KEYS
           || negb (holds_slot e2)
        then [] else [key e]).
Proof.
  unfold local_write_sample.
  destruct (bool_decide (message_class m = MESSAGE_TYPE_UPDATE)
            || bool_decide (message_class m = MESSAGE_TYPE_DELETE)).
  - intros H. apply exec_bind_done in H as ([n e1] & t1 & t2 & Hi & H & ->).
    cbn [snd] in H.
    apply exec_bind_done in H as (v & t3 & t4 & Hl & H & ->).
    apply exec_load_tuple_ts in Hl as [Hp ->].
    apply exec_ret_done in H as [-> <-].
    destruct (exec_iceberg_insert_step _ _ _ _ Hi Hp)
      as (Hk & Hm & Hrd & _ & _ & Hsame & Hrem & Href & _).
    cbn [with_ts key is_read msg tuple_ts].
    repeat (split; [assumption|]).
    split; [intros Hs; now rewrite (Hsame Hs)|].
    rewrite !omap_app, Hrem, Href. cbn.
    split; [reflexivity|].
    assert (Hh : holds_slot (with_ts e1 (ts_wts v) (timestamp_set_get_rts v))
                 = true) by now apply holds_slot_true.
    rewrite Hh. cbn. rewrite orb_false_r, app_nil_r. reflexivity.
  - intros H. apply exec_ret_done in H as [-> <-].
    split; [reflexivity|]. split; [reflexivity|]. split; [reflexivity|].
    split; [auto|]. split; [reflexivity|].
    destruct (holds_slot e), EXPERIMENTAL_MODE_KEEP_ALL_KEYS; reflexivity.
Qed.

Lemma exec_lookup_loop_step fuel e k rc res tr r :
  exec (lookup_loop fuel e k rc res) tr (Done r) ->
  tuple_ts e <> NULL
  /\ Forall (fun o => kind_of o = KLoad \/ kind_of o = KSleep
                      \/ kind_of o = KKvsRead \/ kind_of o = KCas) tr.
Proof.
  intros H. split.
  - destruct fuel as [|fuel]; [destruct H as [_ H]; discriminate H|].
    cbn [lookup_loop] in H.
    apply exec_bind_done in H as (v1 & t1 & t2 & Hl & _).
    now apply exec_load_tuple_ts in Hl as [Hp _].
  - eapply events_in_exec; [|exact H].
    apply fp_lookup_loop; try intros _; intros o Ho; auto.
Qed.

Lemma entry_step_from e0 e1 e' tr :
  key e0 = key e1 -> tuple_ts e0 = tuple_ts e1 -> msg e0 = msg e1 ->
  (is_read e0 = true -> is_read e1 = true) ->
  entry_step e1 e' tr -> entry_step e0 e' tr.
Proof.
  intros Hk Hp Hm Hr (H1 & H2 & H3 & H4 & H5 & H6). unfold entry_step.
  rewrite (holds_slot_eq e1 e0 Hp), Hk, Hp, Hm. auto 10.
Qed.

(** What [rw_entry_get] hands out: an entry of the transaction with its
    read flag raised, or the fresh entry it appends. *)
Lemma exec_rw_entry_get_step txn k rd tr i txn1 e1 :
  exec (rw_entry_get txn k rd) tr (Done (i, txn1)) ->
  rw_entries txn1 !! i = Some e1 ->
  tr = []
  /\ (rd = true -> is_read e1 = true)
  /\ ((exists e,
          rw_entries txn !! i = Some e
          /\ (forall e', rw_entries (store_entry txn1 i e')
                         = <[i := e']> (rw_entries txn))
          /\ key e = key e1 /\ tuple_ts e = tuple_ts e1 /\ msg e = msg e1
          /\ wts e = wts e1 /\ rts e = rts e1
          /\ (is_read e = true -> is_read e1 = true))
      \/ ((forall e', rw_entries (store_entry txn1 i e')
                      = rw_entries txn ++ [e'])
          /\ e1 = with_is_read (fresh_entry k) rd)).
Proof.
  intros Hget He1. apply exec_rw_entry_get in Hget as (-> & Hi & Hget).
  split; [reflexivity|].
  destruct Hget as [(e & Hf & He & Hc & ->)|(Hf & Hlen & Hlim & E)].
  - rewrite (store_entry_lookup _ _ _ _ He) in He1. injection He1 as <-.
    cbn [with_is_read is_read key tuple_ts msg wts rts].
    split; [intros ->; apply orb_true_r|].
    left. exists e. split; [exact He|]. split.
    { intros e'. unfold store_entry. cbn [rw_entries].
      apply list_insert_insert_eq. }
    repeat (split; [reflexivity|]). intros ->. reflexivity.
  - assert (Hn : i = length (rw_entries txn)).
    { rewrite Hi. unfold entry_index. rewrite Hf. reflexivity. }
    assert (He : e1 = with_is_read (fresh_entry k) rd).
    { rewrite E, Hn, lookup_app_r, Nat.sub_diag in He1 by lia.
      injection He1 as <-. reflexivity. }
    split; [intros ->; rewrite He; reflexivity|].
    right. split; [|exact He].
    intros e'. unfold store_entry. cbn [rw_entries].
    rewrite E, Hn, insert_app_r_alt, Nat.sub_diag by lia. reflexivity.
Qed.

(** The shape of every operation: it works on the one entry the search
    hands out, found or appended. *)
Lemma local_write_step txn k m tr rc txn' :
  exec (local_write txn k m) tr (Done (rc, txn')) ->
  (exists i e e',
      rw_entries txn !! i = Some e
      /\ rw_entries txn' = <[i := e']> (rw_entries txn)
      /\ entry_step e e' tr /\ msg e' <> None)
  \/ (exists e',
         rw_entries txn' = rw_entries txn ++ [e']
         /\ entry_step (fresh_entry k) e' tr /\ msg e' <> None).
Proof.
  unfold local_write. intros H.
  apply exec_bind_done in H as ([i txn1] & t1 & t2 & Hget & H & ->).
  cbn [fst snd] in H.
  apply exec_bind_done in H as (e1 & t3 & t4 & Hat & H & ->).
  apply exec_entry_at in Hat as [He1 ->].
  apply exec_bind_done in H as (e2 & t5 & t6 & Hs & H & ->).
  apply exec_bind_done in H as (e3 & t7 & t8 & Hm & H & ->).
  apply exec_ret_done in H as [-> H]. injection H as <- <-.
  apply exec_local_write_sample_step in Hs
    as (Hk2 & Hr2 & Hm2 & Hp2 & Hrem2 & Href2).
  apply exec_local_write_msg_step in Hm
    as (Hk3 & Hr3 & Hp3 & _ & _ & Hm3 & Hfree & _).
  apply omap_kind_free in Hfree as [Hrem3 Href3].
  destruct (exec_rw_entry_get_step _ _ _ _ _ _ _ Hget He1)
    as (-> & _ & Hcase).
  assert (Hstep : entry_step e1 e3 ([] ++ [] ++ t5 ++ t7 ++ [])).
  { cbn [app]. rewrite app_nil_r. unfold entry_step.
    rewrite !omap_app, Hrem2, Hrem3, Href2, Href3, !app_nil_r.
    rewrite (holds_slot_eq e2 e3 Hp3).
    split; [congruence|]. split; [congruence|].
    split; [intros _; exact Hm3|].
    split; [intros Hs; rewrite Hp3; auto|]. auto. }
  destruct Hcase as [(e & He & Hst & Hk & Hp & Hmm & _ & _ & Hrd)|[Hst ->]].
  - left. exists i, e, e3. split; [exact He|]. split; [apply Hst|].
    split; [|exact Hm3]. eapply entry_step_from; eauto.
  - right. exists e3. split; [apply Hst|]. split; [|exact Hm3].
    eapply entry_step_from; [..|exact Hstep]; try reflexivity.
    intros Hr. discriminate Hr.
Qed.

Lemma lookup_step fuel txn k res tr rc txn' res' :
  exec (transactional_splinterdb_lookup fuel txn k res) tr
    (Done (rc, txn', res')) ->
  (exists i e e',
      rw_entries txn !! i = Some e
      /\ rw_entries txn' = <[i := e']> (rw_entries txn)
      /\ entry_step e e' tr
      /\ is_read e' = true /\ tuple_ts e' <> NULL /\ msg e' = msg e)
  \/ (exists e',
         rw_entries txn' = rw_entries txn ++ [e']
         /\ entry_step (fresh_entry k) e' tr
         /\ is_read e' = true /\ tuple_ts e' <> NULL /\ msg e' = None).
Proof.
  unfold transactional_splinterdb_lookup. intros H.
  apply exec_bind_done in H as ([i txn1] & t1 & t2 & Hget & H & ->).
  cbn [fst snd] in H.
  apply exec_bind_done in H as (e1 & t3 & t4 & Hat & H & ->).
  apply exec_entry_at in Hat as [He1 ->].
  apply exec_bind_done in H as ([n e2] & t5 & t6 & Hi & H & ->).
  cbn [snd] in H.
  apply exec_bind_done in H as ([[rc1 res1] v1] & t7 & t8 & Hl & H & ->).
  apply exec_ret_done in H as [-> H]. cbn [fst snd] in H.
  injection H as <- <- <-.
  apply exec_lookup_loop_step in Hl as [Hp Hkinds].
  apply omap_kind_load in Hkinds as [Hrem7 Href7].
  destruct (exec_iceberg_insert_step _ _ _ _ Hi Hp)
    as (Hk & Hm & Hrd & _ & _ & Hsame & Hrem & Href & _).
  destruct (exec_rw_entry_get_step _ _ _ _ _ _ _ Hget He1)
    as (-> & Hread & Hcase).
  specialize (Hread eq_refl).
  set (e3 := with_ts e2 (ts_wts v1) (timestamp_set_get_rts v1)).
  assert (Hh3 : holds_slot e3 = true) by now apply holds_slot_true.
  assert (Hstep : entry_step e1 e3 ([] ++ [] ++ t5 ++ t7 ++ [])).
  { cbn [app]. rewrite app_nil_r. unfold entry_step.
    rewrite !omap_app, Hrem, Hrem7, Href, Href7, !app_nil_r, Hh3.
    cbn [negb]. rewrite orb_false_r.
    cbn [e3 with_ts key is_read msg tuple_ts].
    split; [exact Hk|]. split; [congruence|]. split; [congruence|].
    split; [intros Hs; now rewrite (Hsame Hs)|]. auto. }
  assert (Hr3 : is_read e3 = true) by (cbn; congruence).
  assert (Hp3 : tuple_ts e3 <> NULL) by exact Hp.
  destruct Hcase as [(e & He & Hst & Hke & Hpe & Hme & _ & _ & Hrde)|[Hst He]].
  - left. exists i, e, e3. split; [exact He|]. split; [apply Hst|].
    split; [eapply entry_step_from; eauto|].
    split; [exact Hr3|]. split; [exact Hp3|]. cbn. congruence.
  - right. exists e3. split; [apply Hst|].
    split.
    { eapply entry_step_from; [..|exact Hstep]; rewrite He; reflexivity. }
    split; [exact Hr3|]. split; [exact Hp3|]. cbn. rewrite Hm, He. reflexivity.
Qed.

Lemma run_op_step fuel txn op tr txn' :
  exec (run_op fuel txn op) tr (Done txn') ->
  (exists i e e',
      rw_entries txn !! i = Some e
      /\ rw_entries txn' = <[i := e']> (rw_entries txn)
      /\ entry_step e e' tr)
  \/ (exists e',
         rw_entries txn' = rw_entries txn ++ [e']
         /\ entry_step (fresh_entry (op_key op)) e' tr).
Proof.
  destruct op as [k v|k d|k|k]; cbn [run_op op_key]; intros H;
    apply exec_bind_done in H as (r & t1 & t2 & H & Hret & ->);
    apply exec_ret_done in Hret as [-> <-]; rewrite app_nil_r.
  1-3: destruct r as [rc txn1];
    apply local_write_step in H
      as [(i & e & e' & He & E & Hs & _)|(e' & E & Hs & _)];
    [left; exists i, e, e'; auto|right; exists e'; auto].
  destruct r as [[rc txn1] res].
  apply lookup_step in H
    as [(i & e & e' & He & E & Hs & _)|(e' & E & Hs & _)];
    [left; exists i, e, e'; auto|right; exists e'; auto].
Qed.

Lemma entry_step_grows e e' tr : entry_step e e' tr -> entry_grows e e'.
Proof. intros (H1 & H2 & H3 & H4 & _). unfold entry_grows. auto. Qed.

Lemma counted_keys_insert txn txn' i e e' tr :
  rw_entries txn !! i = Some e ->
  rw_entries txn' = <[i := e']> (rw_entries txn) ->
  entry_step e e' tr ->
  counted_keys txn' ≡ₚ counted_keys txn ++ omap referenced_key tr.
Proof.
  intros He E (Hk & _ & _ & Hp & _ & Href).
  unfold counted_keys, slot_keys. rewrite Href.
  destruct EXPERIMENTAL_MODE_KEEP_ALL_KEYS.
  { rewrite orb_true_r. reflexivity. }
  rewrite orb_false_r, E.
  rewrite insert_take_drop by (eapply lookup_lt_Some; eauto).
  rewrite <- (take_drop_middle _ _ _ He) at 3.
  rewrite !List.filter_app, !map_app. cbn [List.filter].
  destruct (holds_slot e) eqn:Hs; cbn [orb negb].
  - assert (Hs' : holds_slot e' = true).
    { apply holds_slot_true. apply holds_slot_true in Hs.
      rewrite (Hp Hs). exact Hs. }
    rewrite Hs'. cbn [map]. rewrite Hk, app_nil_r. reflexivity.
  - destruct (holds_slot e'); cbn [negb map].
    + rewrite Hk, <- app_assoc. apply Permutation_app_head.
      apply Permutation_cons_append.
    + rewrite app_nil_r. reflexivity.
Qed.

Lemma counted_keys_append txn txn' k e' tr :
  rw_entries txn' = rw_entries txn ++ [e'] ->
  entry_step (fresh_entry k) e' tr ->
  counted_keys txn' ≡ₚ counted_keys txn ++ omap referenced_key tr.
Proof.
  intros E (Hk & _ & _ & _ & _ & Href).
  unfold counted_keys, slot_keys. rewrite Href.
  destruct EXPERIMENTAL_MODE_KEEP_ALL_KEYS.
  { rewrite orb_true_r. reflexivity. }
  rewrite E, List.filter_app, map_app. cbn [List.filter].
  change (holds_slot (fresh_entry k)) with false. cbn [orb].
  destruct (holds_slot e'); cbn [negb map]; [|reflexivity].
  rewrite Hk. reflexivity.
Qed.

Lemma run_ops_references fuel txn ops tr txn' :
  exec (run_ops fuel txn ops) tr (Done txn') ->
  counted_keys txn' ≡ₚ counted_keys txn ++ omap referenced_key tr
  /\ omap removed_key tr = [].
Proof.
  revert txn tr. induction ops as [|op ops IH]; intros txn tr H.
  - apply exec_ret_done in H as [-> <-]. cbn. now rewrite app_nil_r.
  - cbn [run_ops] in H.
    apply exec_bind_done in H as (txn1 & t1 & t2 & Hop & H & ->).
    apply IH in H as [Hc2 Hr2].
    assert (H1 : counted_keys txn1 ≡ₚ counted_keys txn ++ omap referenced_key t1
                 /\ omap removed_key t1 = []).
    { apply run_op_step in Hop
        as [(i & e & e' & He & E & Hs)|(e' & E & Hs)].
      - split; [eapply counted_keys_insert; eauto|apply Hs].
      - split; [eapply counted_keys_append; eauto|apply Hs]. }
    destruct H1 as [Hc1 Hr1].
    rewrite !omap_app, Hr1, Hr2. split; [|reflexivity].
    rewrite Hc2, Hc1, <- app_assoc. reflexivity.
Qed.

Lemma lock_attempt_references txn todo n tr txn' r :
  exec (lock_attempt txn todo n) tr (Done (txn', r)) ->
  counted_keys txn' ≡ₚ counted_keys txn ++ omap referenced_key tr
  /\ omap removed_key tr = [].
Proof.
  revert txn n tr. induction todo as [|wi todo IH]; intros txn n tr H.
  - apply exec_ret_done in H as [-> H]. injection H as <- _.
    cbn. now rewrite app_nil_r.
  - cbn [lock_attempt] in H.
    apply exec_bind_done in H as (w & t1 & t2 & Hw & H & ->).
    apply exec_entry_at in Hw as [Hw ->].
    apply exec_bind_done in H as ([is_new w'] & t_i & t3 & Hi & H & ->).
    cbn [snd] in H.
    apply exec_bind_done in H as (ok & t_l & t4 & Hl & H & ->).
    assert (Hkl : Forall (fun o => kind_of o = KLoad \/ kind_of o = KSleep
                                   \/ kind_of o = KKvsRead \/ kind_of o = KCas)
                    t_l).
    { eapply events_in_exec; [|exact Hl].
      apply fp_try_lock; intros o Ho; auto. }
    apply omap_kind_load in Hkl as [Hrl Hfl].
    apply exec_rw_entry_try_lock in Hl as (Hp & _).
    assert (Hstep : entry_step w w' t_i).
    { assert (Hh' : holds_slot w' = true) by now apply holds_slot_true.
      unfold entry_step. rewrite Hh'. cbn [negb]. rewrite orb_false_r.
      destruct (Z.eqb_spec (tuple_ts w) NULL) as [E|E].
      - destruct (exec_iceberg_insert_step _ _ _ _ Hi Hp)
          as (Hk & Hm & Hrd & _ & _ & Hsame & Hrem & Href & _).
        split; [exact Hk|]. split; [congruence|]. split; [congruence|].
        split; [intros Hs; now rewrite (Hsame Hs)|]. auto.
      - apply exec_ret_done in Hi as [-> Hi]. injection Hi as _ <-.
        apply holds_slot_true in E. rewrite E. cbn. auto 10. }
    assert (Hc1 : counted_keys (store_entry txn wi w')
                  ≡ₚ counted_keys txn ++ omap referenced_key t_i).
    { eapply counted_keys_insert; eauto. }
    assert (Hr1 : omap removed_key t_i = []) by apply Hstep.
    destruct ok.
    + apply IH in H as [Hc2 Hr2]. cbn [app].
      rewrite !omap_app, Hr1, Hrl, Hr2, Hfl. cbn [app].
      split; [|reflexivity]. rewrite Hc2, Hc1, <- app_assoc. reflexivity.
    + apply exec_ret_done in H as [-> H]. injection H as <- _.
      cbn [app]. rewrite !omap_app, Hr1, Hrl, Hfl. cbn [app omap list_omap].
      rewrite !app_nil_r. auto.
Qed.

Lemma lock_write_set_references fuel txn ws tr txn1 :
  exec (lock_write_set fuel txn ws) tr (Done txn1) ->
  counted_keys txn1 ≡ₚ counted_keys txn ++ omap referenced_key tr
  /\ omap removed_key tr = [].
Proof.
  revert txn tr. induction fuel as [|fuel IH]; intros txn tr H.
  { destruct H as [_ H]. discriminate H. }
  cbn [lock_write_set] in H.
  apply exec_bind_done in H as ([txn_a r] & t_a & t2 & Ha & H & ->).
  cbn [fst snd] in H. apply lock_attempt_references in Ha as [Hc1 Hr1].
  destruct r as [m|].
  - apply exec_bind_done in H as ([] & t_u & t3 & Hu & H & ->).
    apply exec_bind_done in H as ([] & t_s & t_r & Hs & H & ->).
    apply exec_trigger_done in Hs as ->. cbn [obs_of].
    assert (Hku : Forall (fun o => kind_of o = KLoad \/ kind_of o = KSleep
                                   \/ kind_of o = KKvsRead \/ kind_of o = KCas)
                    t_u).
    { eapply events_in_exec; [|exact Hu].
      apply fp_unlock_all; intros o Ho; auto. }
    apply omap_kind_load in Hku as [Hru Hfu].
    apply IH in H as [Hc2 Hr2].
    rewrite !omap_app, Hr1, Hru, Hfu, Hr2.
    cbn [app omap list_omap referenced_key removed_key].
    split; [|reflexivity]. rewrite Hc2, Hc1, <- app_assoc. reflexivity.
  - apply exec_ret_done in H as [-> <-]. rewrite app_nil_r. auto.
Qed.

Lemma omap_no_cache tr :
  Forall (fun o => kind_of o <> KCacheInsert /\ kind_of o <> KCacheRemove) tr ->
  omap referenced_key tr = [] /\ omap removed_key tr = [].
Proof.
  intros H. apply no_cache_reference_omap.
  eapply Forall_impl; [exact H|].
  intros o [H1 H2].
  destruct o; cbn in H1, H2; try (now contradiction H1);
    try (now contradiction H2); split; reflexivity.
Qed.

Lemma commit_references fuel txn tr rc :
  exec (transactional_splinterdb_commit fuel txn) tr (Done rc) ->
  exists txn1,
    omap removed_key tr = counted_keys txn1
    /\ counted_keys txn1 ≡ₚ counted_keys txn ++ omap referenced_key tr.
Proof.
  intros H. apply exec_commit_run in H
    as (txn1 & cts & ab & t_lock & t_raise & t_val & t_body & t_deinit
        & Hlock & Hraise & Hval & Hbody & Hdeinit & _ & ->).
  set (Q := fun o => kind_of o <> KCacheInsert /\ kind_of o <> KCacheRemove).
  assert (HQ : forall k, k <> KCacheInsert -> k <> KCacheRemove -> allows Q k).
  { intros k H1 H2 o Ho. unfold Q. rewrite Ho. auto. }
  assert (Hr : Forall Q t_raise).
  { eapply events_in_exec; [|exact Hraise].
    apply fp_raise_commit_ts; apply HQ; discriminate. }
  assert (Hv : Forall Q t_val).
  { eapply events_in_exec; [|exact Hval].
    apply fp_validate_reads; apply HQ; discriminate. }
  assert (Hb : Forall Q t_body).
  { eapply events_in_exec; [|exact Hbody]. destruct ab; cbn [negb].
    - apply fp_unlock_all; apply HQ; discriminate.
    - apply fp_apply_writes; try intros _; apply HQ; discriminate. }
  apply omap_no_cache in Hr as [Hr1 Hr2]. apply omap_no_cache in Hv as [Hv1 Hv2].
  apply omap_no_cache in Hb as [Hb1 Hb2].
  apply lock_write_set_references in Hlock as [Hc Hl2].
  apply exec_transaction_deinit_from in Hdeinit as (_ & _ & Hd2 & Hd1 & _).
  exists txn1.
  rewrite !omap_app, Hr1, Hr2, Hv1, Hv2, Hb1, Hb2, Hl2, Hd1, Hd2.
  cbn [app]. rewrite app_nil_r. split; [reflexivity|exact Hc].
Qed.

(** X6: every counted reference into the timestamp cache that a
    transaction takes, in its operations or while commit locks the write
    set, is given back by the time commit or abort returns: the keys of
    the counting inserts and the keys of the removals are the same, each as
    often.  In the build that keeps all keys there is neither. *)
Theorem cache_references_are_given_back fuel ops tr1 txn tr2 rc :
  exec (run_ops fuel transactional_splinterdb_begin ops) tr1 (Done txn) ->
  exec (transactional_splinterdb_commit fuel txn) tr2 (Done rc)
  \/ exec (transactional_splinterdb_abort txn) tr2 (Done rc) ->
  omap referenced_key (tr1 ++ tr2) ≡ₚ omap removed_key (tr1 ++ tr2)
  /\ (EXPERIMENTAL_MODE_KEEP_ALL_KEYS = true ->
      omap referenced_key (tr1 ++ tr2) = []
      /\ omap removed_key (tr1 ++ tr2) = []).
Proof.
  intros Hops Hend.
  apply run_ops_references in Hops as [Hc1 Hr1].
  assert (Hbegin : counted_keys transactional_splinterdb_begin = []).
  { unfold counted_keys. now destruct EXPERIMENTAL_MODE_KEEP_ALL_KEYS. }
  rewrite Hbegin in Hc1. cbn [app] in Hc1.
  assert (H2 : exists txn1,
             omap removed_key tr2 = counted_keys txn1
             /\ counted_keys txn1
                ≡ₚ counted_keys txn ++ omap referenced_key tr2).
  { destruct Hend as [H|H]; [now apply commit_references in H|].
    apply exec_abort_references in H as (Hrem & Href).
    exists txn. rewrite Href, Hrem, app_nil_r. auto. }
  destruct H2 as (txn1 & Hrem & Hperm).
  rewrite !omap_app, Hr1, Hrem. cbn [app].
  assert (Hall : omap referenced_key tr1 ++ omap referenced_key tr2
                 ≡ₚ counted_keys txn1).
  { rewrite Hperm, Hc1. reflexivity. }
  split; [exact Hall|].
  intros Hkeep.
  assert (Hc0 : counted_keys txn1 = []).
  { unfold counted_keys. now rewrite Hkeep. }
  rewrite Hc0 in *. split; [|reflexivity].
  apply Permutation_nil_r. exact Hall.
Qed.

Lemma entry_grows_refl e : entry_grows e e.
Proof. unfold entry_grows. auto. Qed.

Lemma entry_grows_trans e1 e2 e3 :
  entry_grows e1 e2 -> entry_grows e2 e3 -> entry_grows e1 e3.
Proof.
  intros (Hk & Hr & Hm & Hp) (Hk' & Hr' & Hm' & Hp'). unfold entry_grows.
  split; [congruence|]. split; [auto|]. split; [auto|].
  intros Hs. rewrite Hp', (Hp Hs); [reflexivity|]. now rewrite (Hp Hs).
Qed.

(** X7: insert, update, delete and lookup never retract anything from the
    transaction: after any sequence of them every entry is still at its
    index with its key, an entry that was read is still marked read, an
    entry with a pending message still has one, and an entry with a slot
    still points to the same slot; each call adds at most one entry. *)
Theorem operations_never_retract fuel txn ops tr txn' :
  exec (run_ops fuel txn ops) tr (Done txn') ->
  (num_rw_entries txn <= num_rw_entries txn'
   <= num_rw_entries txn + length ops)%nat
  /\ forall i e,
       rw_entries txn !! i = Some e ->
       exists e', rw_entries txn' !! i = Some e' /\ entry_grows e e'.
Proof.
  revert txn tr. induction ops as [|op ops IH]; intros txn tr H.
  - apply exec_ret_done in H as [-> <-]. split; [cbn; lia|].
    intros i e He. exists e. split; [exact He|apply entry_grows_refl].
  - cbn [run_ops] in H.
    apply exec_bind_done in H as (txn1 & t1 & t2 & Hop & H & ->).
    apply IH in H as [Hlen Hkeep].
    assert (H1 : (num_rw_entries txn <= num_rw_entries txn1
                  <= S (num_rw_entries txn))%nat
                 /\ forall i e,
                      rw_entries txn !! i = Some e ->
                      exists e', rw_entries txn1 !! i = Some e'
                                 /\ entry_grows e e').
    { unfold num_rw_entries.
      apply run_op_step in Hop
        as [(j & e0 & e1 & He0 & E & Hs)|(e1 & E & Hs)]; rewrite E.
      - rewrite length_insert. split; [lia|].
        intros i e He. destruct (decide (i = j)) as [->|Hne].
        + exists e1. split.
          * apply list_lookup_insert_eq. eapply lookup_lt_Some; eauto.
          * assert (e = e0) as -> by congruence.
            eapply entry_step_grows; eauto.
        + exists e. rewrite list_lookup_insert_ne by auto.
          split; [exact He|apply entry_grows_refl].
      - rewrite length_app. cbn [length]. split; [lia|].
        intros i e He. exists e. split; [|apply entry_grows_refl].
        rewrite lookup_app_l; [exact He|]. eapply lookup_lt_Some; eauto. }
    destruct H1 as [Hlen1 Hkeep1]. cbn [length]. split; [lia|].
    intros i e He. destruct (Hkeep1 i e He) as (e1 & He1 & Hg1).
    destruct (Hkeep i e1 He1) as (e2 & He2 & Hg2).
    exists e2. split; [exact He2|]. eapply entry_grows_trans; eauto.
Qed.

(** X8: until commit the writes of a transaction stay in its own buffer:
    however a sequence of insert, update, delete and lookup calls ends and
    whatever the other threads do, it issues no compare-and-swap on a
    timestamp word, no insert, update or delete of the key-value store and
    no removal from the timestamp cache; it sleeps only in the build that
    bypasses the key-value store, and in that build it issues no lookup of
    the store either. *)
Theorem operations_buffer_their_effects fuel txn ops tr o :
  exec (run_ops fuel txn ops) tr o ->
  Forall (fun ev =>
            kind_of ev <> KCas /\ kind_of ev <> KKvsWrite
            /\ kind_of ev <> KCacheRemove
            /\ (kind_of ev = KSleep ->
                EXPERIMENTAL_MODE_BYPASS_SPLINTERDB = true)
            /\ (kind_of ev = KKvsRead ->
                EXPERIMENTAL_MODE_BYPASS_SPLINTERDB = false)) tr.
Proof.
  apply events_in_exec.
  apply fp_run_ops; unfold allows; intros;
    match goal with H : kind_of _ = _ |- _ => rewrite H end;
    repeat split; try discriminate; auto.
Qed.

(** The lookup loop on an entry without a pending message. *)
Lemma lookup_loop_store fuel e k rc0 res tr rc res' v1 :
  EXPERIMENTAL_MODE_BYPASS_SPLINTERDB = false ->
  msg e = None ->
  exec (lookup_loop fuel e k rc0 res) tr (Done (rc, res', v1)) ->
  ts_lock_bit v1 = false
  /\ Forall (fun o => kind_of o = KKvsRead ->
                      exists rc' r', o = OKvsLookup k rc' r') tr
  /\ exists t0,
       tr = t0 ++ [OLoad (tuple_ts e) v1; OKvsLookup k rc res';
                   OLoad (tuple_ts e) v1].
Proof.
  intros Hb Hm. revert rc0 res tr.
  induction fuel as [|fuel IH]; intros rc0 res tr H.
  { destruct H as [_ H]. discriminate H. }
  cbn [lookup_loop] in H. rewrite Hb, Hm in H.
  apply exec_bind_done in H as (v & t1 & t2 & Hv & H & ->).
  apply exec_load_tuple_ts in Hv as [Hp ->].
  apply exec_bind_done in H as ([rc1 res1] & t3 & t4 & Hr & H & ->).
  apply exec_trigger_done in Hr as ->. cbn [obs_of fst snd] in *.
  apply exec_bind_done in H as (v2 & t5 & t6 & Hv2 & H & ->).
  apply exec_load_tuple_ts in Hv2 as [_ ->].
  assert (Hhead : forall rest,
             Forall (fun o => kind_of o = KKvsRead ->
                              exists rc' r', o = OKvsLookup k rc' r') rest ->
             Forall (fun o => kind_of o = KKvsRead ->
                              exists rc' r', o = OKvsLookup k rc' r')
               ([OLoad (tuple_ts e) v] ++ [OKvsLookup k rc1 res1]
                ++ [OLoad (tuple_ts e) v2] ++ rest)).
  { intros rest Hrest. cbn [app].
    constructor; [discriminate|]. constructor; [eauto|].
    constructor; [discriminate|exact Hrest]. }
  unfold timestamp_set_is_equal in H.
  destruct (bool_decide_reflect (v = v2)) as [<-|Hne]; cbn [negb orb] in H.
  - destruct (ts_lock_bit v) eqn:Hl.
    + apply IH in H as (Hl1 & Hk & t0 & ->).
      split; [exact Hl1|]. split; [now apply Hhead|].
      exists (OLoad (tuple_ts e) v :: OKvsLookup k rc1 res1
              :: OLoad (tuple_ts e) v :: t0). reflexivity.
    + apply exec_ret_done in H as [-> H]. injection H as <- <- <-.
      split; [exact Hl|]. split; [apply Hhead; constructor|].
      exists []. reflexivity.
  - apply IH in H as (Hl1 & Hk & t0 & ->).
    split; [exact Hl1|]. split; [now apply Hhead|].
    exists (OLoad (tuple_ts e) v :: OKvsLookup k rc1 res1
            :: OLoad (tuple_ts e) v2 :: t0). reflexivity.
Qed.

(** X9: a lookup of a key for which the search of [rw_entry_get] finds
    no entry with a pending write (build without the bypass) asks the
    key-value store, with the user key as it was passed: when it returns, its return code and result
    are those of a store lookup made between two loads of the slot that
    gave the same word with the lock bit clear; the entry of the key is
    marked read and holds [wts] and the 48-bit sum
    [rts = (wts + delta) mod 2^48] of that word; and every store lookup it
    made on the way was for that same key. *)
Theorem lookup_reads_the_store fuel txn k result tr rc txn' result' :
  EXPERIMENTAL_MODE_BYPASS_SPLINTERDB = false ->
  pending txn k = None ->
  exec (transactional_splinterdb_lookup fuel txn k result) tr
    (Done (rc, txn', result')) ->
  exists e' v1 t0,
    rw_entries txn' !! entry_index txn k = Some e'
    /\ is_read e' = true /\ msg e' = None /\ tuple_ts e' <> NULL
    /\ tr = t0 ++ [OLoad (tuple_ts e') v1; OKvsLookup k rc result';
                   OLoad (tuple_ts e') v1]
    /\ ts_lock_bit v1 = false
    /\ wts e' = ts_wts v1 /\ rts e' = (ts_wts v1 + ts_delta v1) mod 2 ^ 48
    /\ Forall (fun o => kind_of o = KKvsRead ->
                        exists rc' r', o = OKvsLookup k rc' r') tr.
Proof.
  intros Hb Hpend H. unfold transactional_splinterdb_lookup in H.
  apply exec_bind_done in H as ([i txn1] & t1 & t2 & Hget & H & ->).
  cbn [fst snd] in H.
  apply exec_bind_done in H as (e1 & t3 & t4 & Hat & H & ->).
  apply exec_entry_at in Hat as [He1 ->].
  apply exec_bind_done in H as ([n e2] & t5 & t6 & Hi & H & ->).
  cbn [snd] in H.
  apply exec_bind_done in H as ([[rc1 res1] v1] & t7 & t8 & Hl & H & ->).
  apply exec_ret_done in H as [-> H]. cbn [fst snd] in H.
  injection H as <- <- <-.
  destruct (exec_rw_entry_get_step _ _ _ _ _ _ _ Hget He1)
    as (-> & Hread & Hcase).
  specialize (Hread eq_refl).
  apply exec_rw_entry_get in Hget as (_ & Hidx & Hfound).
  assert (Hm1 : msg e1 = None).
  { destruct Hfound as [(e0 & Hf & He0 & _ & ->)|(Hf & _ & _ & E)].
    - rewrite (store_entry_lookup _ _ _ _ He0) in He1. injection He1 as <-.
      unfold pending in Hpend. rewrite Hf in Hpend.
      cbn [mbind option_bind] in Hpend. rewrite He0 in Hpend. exact Hpend.
    - destruct Hcase as [(e & He & _)|[_ ->]]; [|reflexivity].
      apply lookup_lt_Some in He. unfold entry_index in Hidx.
      rewrite Hf in Hidx. cbn [default] in Hidx.
      unfold num_rw_entries in Hidx. lia. }
  assert (Hp : tuple_ts e2 <> NULL).
  { now apply exec_lookup_loop_step in Hl as [Hp _]. }
  destruct (exec_iceberg_insert_step _ _ _ _ Hi Hp)
    as (Hk & Hm & Hrd & _ & _ & _ & _ & _ & Hkind).
  apply (lookup_loop_store _ _ _ _ _ _ _ _ _ Hb) in Hl
    as (Hlock & Hkvs & t0 & ->); [|congruence].
  exists (with_ts e2 (ts_wts v1) (timestamp_set_get_rts v1)), v1, (t5 ++ t0).
  cbn [with_ts msg is_read tuple_ts wts rts app].
  rewrite app_nil_r, <- app_assoc.
  split.
  { rewrite <- Hidx. unfold store_entry. cbn [rw_entries].
    apply list_lookup_insert_eq. eapply lookup_lt_Some; eauto. }
  split; [congruence|]. split; [congruence|]. split; [exact Hp|].
  split; [reflexivity|]. split; [exact Hlock|].
  split; [reflexivity|]. split; [reflexivity|].
  apply Forall_app. split; [|exact Hkvs].
  eapply Forall_impl; [exact Hkind|]. intros o Ho Ho'. congruence.
Qed.

(** A buffered write is the sampling of the slot followed by the
    recording of the message, both on the entry of the key. *)
Lemma local_write_shape txn k m tr rc txn' :
  exec (local_write txn k m) tr (Done (rc, txn')) ->
  exists e2 e3 t_s t_m,
    rc = 0 /\ tr = t_s ++ t_m
    /\ rw_entries txn' !! entry_index txn k = Some e3
    /\ exec (local_write_sample (entry_before txn k) m) t_s (Done e2)
    /\ exec (local_write_msg e2 k m) t_m (Done e3).
Proof.
  unfold local_write. intros H.
  apply exec_bind_done in H as ([i txn1] & t1 & t2 & Hget & H & ->).
  cbn [fst snd] in H.
  apply exec_bind_done in H as (e1 & t3 & t4 & Hat & H & ->).
  apply exec_entry_at in Hat as [He1 ->].
  apply exec_bind_done in H as (e2 & t5 & t6 & Hs & H & ->).
  apply exec_bind_done in H as (e3 & t7 & t8 & Hm & H & ->).
  apply exec_ret_done in H as [-> H]. injection H as <- <-.
  apply exec_rw_entry_get in Hget as (-> & Hidx & Hfound).
  exists e2, e3, t5, t7. cbn [app]. rewrite app_nil_r.
  split; [reflexivity|]. split; [reflexivity|]. split.
  { rewrite <- Hidx. unfold store_entry. cbn [rw_entries].
    apply list_lookup_insert_eq. eapply lookup_lt_Some; eauto. }
  split; [|exact Hm].
  assert (e1 = entry_before txn k) as <-; [|exact Hs].
  unfold entry_before. rewrite <- Hidx.
  destruct Hfound as [(e & Hf & He & _ & ->)|(Hf & _ & _ & E)].
  - rewrite (store_entry_lookup _ _ _ _ He) in He1. injection He1 as <-.
    rewrite He. cbn [default]. apply with_is_read_id.
  - assert (Hn : i = length (rw_entries txn)).
    { rewrite Hidx. unfold entry_index. rewrite Hf. reflexivity. }
    rewrite E, Hn, lookup_app_r, Nat.sub_diag in He1 by lia.
    injection He1 as <-.
    rewrite Hn, (lookup_ge_None_2 (rw_entries txn)) by lia. reflexivity.
Qed.

(** X10: an insert is local to the transaction.  It returns 0 and raises
    no event except the free of the message buffer it replaces, if the key
    had a pending message: it installs no slot, loads no timestamp word and
    does not call the key-value store.  The entry of the key has a pending
    message afterwards; its slot pointer, its sampled timestamps and its
    read flag are those from before the call (none for a new entry). *)
Theorem insert_is_local txn k v tr rc txn' :
  exec (transactional_splinterdb_insert txn k v) tr (Done (rc, txn')) ->
  rc = 0
  /\ (tr = []
      \/ exists old, msg (entry_before txn k) = Some old
                     /\ tr = [OFree (MsgBuf (message_data old))])
  /\ exists e',
       rw_entries txn' !! entry_index txn k = Some e'
       /\ msg e' <> None
       /\ key e' = key (entry_before txn k)
       /\ tuple_ts e' = tuple_ts (entry_before txn k)
       /\ wts e' = wts (entry_before txn k)
       /\ rts e' = rts (entry_before txn k)
       /\ is_read e' = is_read (entry_before txn k).
Proof.
  unfold transactional_splinterdb_insert. intros H.
  apply local_write_shape in H as (e2 & e3 & t_s & t_m & -> & -> & He3 & Hs & Hm).
  apply exec_local_write_sample in Hs as (_ & _ & _ & _ & _ & Hins & _).
  destruct (Hins eq_refl) as [-> ->]. cbn [app].
  apply exec_local_write_msg_step in Hm
    as (Hk & Hr & Hp & Hw & Hrt & Hmsg & _ & Htr).
  split; [reflexivity|]. split; [exact Htr|].
  exists e3. auto 10.
Qed.

(** X11: an update or a delete samples the slot of its key.  When it
    returns 0 the entry of the key holds a slot, and its [wts] and [rts]
    are [wts] and the 48-bit sum [(wts + delta) mod 2^48] of the one word
    the call loaded from that slot, whatever the lock bit of that word and
    whatever the entry had sampled before. *)
Theorem update_and_delete_sample_the_slot txn k m tr rc txn' :
  message_class m = MESSAGE_TYPE_UPDATE
  \/ message_class m = MESSAGE_TYPE_DELETE ->
  exec (local_write txn k m) tr (Done (rc, txn')) ->
  rc = 0
  /\ exists e' v,
       rw_entries txn' !! entry_index txn k = Some e'
       /\ tuple_ts e' <> NULL
       /\ wts e' = ts_wts v /\ rts e' = (ts_wts v + ts_delta v) mod 2 ^ 48
       /\ List.filter (fun o => bool_decide (kind_of o = KLoad)) tr
          = [OLoad (tuple_ts e') v]
       /\ (tuple_ts (entry_before txn k) <> NULL ->
           tuple_ts e' = tuple_ts (entry_before txn k)).
Proof.
  intros Hc H.
  apply local_write_shape in H as (e2 & e3 & t_s & t_m & -> & -> & He3 & Hs & Hm).
  split; [reflexivity|].
  apply exec_local_write_msg_step in Hm
    as (Hk & Hr & Hp & Hw & Hrt & Hmsg & Hfree & _).
  unfold local_write_sample in Hs.
  assert (Hb : bool_decide (message_class m = MESSAGE_TYPE_UPDATE)
               || bool_decide (message_class m = MESSAGE_TYPE_DELETE) = true).
  { destruct Hc as [-> | ->]; reflexivity. }
  rewrite Hb in Hs.
  apply exec_bind_done in Hs as ([n e1] & t1 & t2 & Hi & Hs & ->).
  cbn [snd] in Hs.
  apply exec_bind_done in Hs as (v & t3 & t4 & Hl & Hs & ->).
  apply exec_load_tuple_ts in Hl as [Hp1 ->].
  apply exec_ret_done in Hs as [-> <-].
  destruct (exec_iceberg_insert_step _ _ _ _ Hi Hp1)
    as (_ & _ & _ & _ & _ & Hsame & _ & _ & Hkind).
  cbn [with_ts tuple_ts wts rts] in *.
  exists e3, v. split; [exact He3|]. split; [congruence|].
  split; [congruence|].
  split; [rewrite Hrt; reflexivity|].
  split.
  - rewrite Hp. rewrite app_nil_r, !List.filter_app. cbn [List.filter kind_of].
    rewrite bool_decide_eq_true_2 by reflexivity.
    assert (Hn : forall l K, K <> KLoad ->
                   Forall (fun o => kind_of o = K) l ->
                   List.filter (fun o => bool_decide (kind_of o = KLoad)) l = []).
    { intros l K HK HF. induction HF as [|o l Ho _ IH]; [reflexivity|].
      cbn [List.filter]. rewrite bool_decide_eq_false_2 by congruence.
      exact IH. }
    rewrite (Hn t1 KCacheInsert), (Hn t_m KFree) by (discriminate || assumption).
    reflexivity.
  - intros Hs. rewrite Hp, (Hsame Hs). reflexivity.
Qed.

End Operations.

(** ** Commit *)

Section Commit.
Context {dcfg : data_config} {bcfg : build_config}.

Lemma filter_kvs_mutation_none tr :
  Forall (fun o => kind_of o <> KKvsWrite) tr ->
  List.filter is_kvs_mutation tr = [].
Proof.
  induction 1 as [|o tr Ho _ IH]; [reflexivity|].
  cbn [List.filter]. destruct o; cbn in *; try exact IH; now contradiction Ho.
Qed.

Lemma cas_loop_tr_kinds p f tr :
  cas_loop_tr p f tr ->
  Forall (fun o => kind_of o = KLoad \/ kind_of o = KCas) tr.
Proof.
  induction 1 as [v|v tr _ IH].
  - constructor; [now left|]. constructor; [now right|constructor].
  - constructor; [now left|]. constructor; [now right|exact IH].
Qed.

(** X12: a transaction without a read entry cannot abort: whenever its
    commit returns, it returns 0. *)
Theorem commit_without_reads_cannot_abort fuel txn tr rc :
  Forall (fun e => is_read e = false) (rw_entries txn) ->
  exec (transactional_splinterdb_commit fuel txn) tr (Done rc) ->
  rc = 0.
Proof.
  intros Hnr H. apply exec_commit_run in H
    as (txn1 & cts & ab & t_lock & t_raise & t_val & t_body & t_deinit
        & _ & _ & Hval & _ & _ & -> & _).
  assert (Hrs : commit_read_set txn = []).
  { unfold commit_read_set. rewrite commit_partition_eq. cbn [fst snd app].
    generalize 0%nat. induction Hnr as [|e es He _ IH]; intros i; [reflexivity|].
    cbn [indices_where]. unfold rw_entry_is_read at 1. rewrite He. apply IH. }
  rewrite Hrs in Hval. apply exec_ret_done in Hval as [_ <-]. reflexivity.
Qed.

Lemma read_only_write_set txn :
  Forall (fun e => msg e = None) (rw_entries txn) -> sorted_write_set txn = [].
Proof.
  intros Hnw. unfold sorted_write_set. rewrite commit_partition_eq.
  cbn [fst snd app].
  assert (E : forall i, indices_where rw_entry_is_write (rw_entries txn) i = []).
  { induction Hnw as [|e es He _ IH]; intros i; [reflexivity|].
    cbn [indices_where].
    rewrite (proj2 (rw_entry_is_write_false e) He). apply IH. }
  rewrite E. reflexivity.
Qed.

Lemma validate_read_loop_extends fuel c r :
  events_in (fun o => kind_of o = KLoad
                      \/ exists p v ok, o = OCas p v (extend_rts c v) ok)
    (validate_read_loop fuel c r).
Proof.
  induction fuel as [|fuel IH]; cbn [validate_read_loop]; [exact I|].
  apply events_in_bind.
  { unfold load_tuple_ts. destruct (tuple_ts r =? NULL); [exact I|].
    apply events_in_trigger. intros v. now left. }
  intros v1. apply events_in_bind.
  { destruct (timestamp_set_get_rts v1 <=? c); [|exact I].
    apply events_in_bind; [|intros b; exact I].
    apply events_in_trigger. intros b. now left. }
  intros locked.
  destruct (negb (wts r =? ts_wts v1) || locked); [exact I|].
  destruct (timestamp_set_get_rts v1 <=? c); [|exact I].
  apply events_in_bind.
  { unfold timestamp_set_compare_and_swap. apply events_in_trigger.
    intros ok. right. cbn [obs_of]. eauto. }
  intros [|]; [exact I|exact IH].
Qed.

Lemma validate_reads_extends fuel txn c rs :
  events_in (fun o => kind_of o = KLoad
                      \/ exists p v ok, o = OCas p v (extend_rts c v) ok)
    (validate_reads fuel txn c rs).
Proof.
  induction rs as [|ri rs IH]; cbn [validate_reads]; [exact I|].
  apply events_in_bind.
  { unfold entry_at. destruct (rw_entries txn !! ri); exact I. }
  intros r. apply events_in_bind.
  { unfold validate_read. destruct (negb (rw_entry_is_read r)); [exact I|].
    destruct (rts r <? c); [apply validate_read_loop_extends|exact I]. }
  intros [|]; [exact I|exact IH].
Qed.

Lemma extend_rts_lock_bit c v : ts_lock_bit (extend_rts c v) = ts_lock_bit v.
Proof.
  unfold extend_rts, set_delta, set_wts. now rewrite !ts_lock_bit_mk.
Qed.

(** X13: the commit of a transaction without a pending write takes no
    lock.  Its commit timestamp is the one its reads ask for; what it does
    is read validation followed by the teardown; it never sleeps, installs
    no slot and never calls the key-value store; and each of its
    compare-and-swaps is an extension of a read timestamp to that commit
    timestamp, which leaves the lock bit of the word as it is. *)
Theorem read_only_commit_takes_no_lock fuel txn tr rc :
  Forall (fun e => msg e = None) (rw_entries txn) ->
  exec (transactional_splinterdb_commit fuel txn) tr (Done rc) ->
  exists is_abort t_val t_deinit,
    tr = t_val ++ t_deinit
    /\ rc = - Z.b2z is_abort
    /\ exec (validate_reads fuel txn (initial_commit_ts txn)
               (commit_read_set txn)) t_val (Done is_abort)
    /\ exec (transaction_deinit txn) t_deinit (Done tt)
    /\ Forall (fun o =>
                 kind_of o <> KSleep /\ kind_of o <> KCacheInsert
                 /\ kind_of o <> KKvsWrite /\ kind_of o <> KKvsRead
                 /\ forall p v1 v2 ok,
                      o = OCas p v1 v2 ok ->
                      v2 = extend_rts (initial_commit_ts txn) v1
                      /\ ts_lock_bit v2 = ts_lock_bit v1) tr.
Proof.
  intros Hnw H. apply exec_commit_run in H
    as (txn1 & cts & ab & t_lock & t_raise & t_val & t_body & t_deinit
        & Hlock & Hraise & Hval & Hbody & Hdeinit & -> & ->).
  rewrite (read_only_write_set txn Hnw) in *.
  assert (t_lock = [] /\ txn1 = txn) as [-> ->].
  { destruct fuel as [|fuel]; [destruct Hlock as [_ E]; discriminate E|].
    apply exec_ret_done in Hlock as [-> <-]. auto. }
  apply exec_ret_done in Hraise as [-> <-].
  assert (t_body = []) as ->.
  { destruct ab; now apply exec_ret_done in Hbody as [-> _]. }
  exists ab, t_val, t_deinit. cbn [app].
  split; [reflexivity|]. split; [reflexivity|].
  split; [exact Hval|]. split; [exact Hdeinit|].
  apply Forall_app. split.
  - eapply Forall_impl;
      [exact (events_in_exec _ _ _ _ (validate_reads_extends _ _ _ _) Hval)|].
    intros o [Ho|(p & v & ok & ->)].
    + rewrite Ho. do 4 (split; [discriminate|]).
      intros q v1 v2 b ->. discriminate Ho.
    + cbn [kind_of]. do 4 (split; [discriminate|]).
      intros q v1 v2 b E. injection E as _ <- <- _.
      split; [reflexivity|apply extend_rts_lock_bit].
  - apply exec_transaction_deinit_from in Hdeinit as (_ & _ & _ & _ & Hk).
    eapply Forall_impl; [exact Hk|].
    intros o [Ho|Ho]; rewrite Ho; do 4 (split; [discriminate|]);
      intros q v1 v2 b ->; discriminate Ho.
Qed.

Lemma apply_message_tr_payload w1 w m :
  key w1 = key w -> apply_message_tr w1 m = apply_message_tr w m.
Proof. intros E. unfold apply_message_tr. now rewrite E. Qed.

Lemma commit_store_calls fuel txn tr rc :
  exec (transactional_splinterdb_commit fuel txn) tr (Done rc) ->
  List.filter is_kvs_mutation tr = (if rc =? 0 then store_calls txn else []).
Proof.
  intros H. apply exec_commit_run in H
    as (txn1 & cts & ab & t_lock & t_raise & t_val & t_body & t_deinit
        & Hlock & Hraise & Hval & Hbody & Hdeinit & -> & ->).
  set (Q := fun o => kind_of o <> KKvsWrite).
  assert (HQ : forall k, k <> KKvsWrite -> allows Q k).
  { intros k Hk o Ho. unfold Q. congruence. }
  assert (Hl : Forall Q t_lock).
  { eapply events_in_exec; [|exact Hlock].
    apply fp_lock_write_set; apply HQ; discriminate. }
  assert (Hr : Forall Q t_raise).
  { eapply events_in_exec; [|exact Hraise].
    apply fp_raise_commit_ts; apply HQ; discriminate. }
  assert (Hv : Forall Q t_val).
  { eapply events_in_exec; [|exact Hval].
    apply fp_validate_reads; apply HQ; discriminate. }
  assert (Hd : Forall Q t_deinit).
  { eapply events_in_exec; [|exact Hdeinit].
    apply fp_transaction_deinit; try intros _; apply HQ; discriminate. }
  rewrite !List.filter_app.
  rewrite (filter_kvs_mutation_none _ Hl), (filter_kvs_mutation_none _ Hr),
    (filter_kvs_mutation_none _ Hv), (filter_kvs_mutation_none _ Hd).
  cbn [app]. rewrite app_nil_r.
  destruct ab; cbn [negb Z.b2z Z.opp Z.eqb] in *.
  - apply filter_kvs_mutation_none.
    eapply events_in_exec; [|exact Hbody].
    apply fp_unlock_all; apply HQ; discriminate.
  - apply exec_apply_writes in Hbody as (segs & -> & Hsegs).
    apply lock_write_set_payload in Hlock as [Hkeys Hmsgs].
    unfold store_calls. clear -Hsegs Hkeys Hmsgs.
    induction Hsegs as [|wi seg ws segs (w & m & t_cas & Hw & Hm & -> & _ & Hc)
                          _ IH]; [reflexivity|].
    cbn [concat map]. rewrite !List.filter_app, IH. f_equal.
    rewrite (filter_kvs_mutation_none t_cas), app_nil_r.
    2:{ eapply Forall_impl; [exact (cas_loop_tr_kinds _ _ _ Hc)|].
        intros o [Ho|Ho]; congruence. }
    assert (Hk : (key <$> rw_entries txn) !! wi = Some (key w)).
    { change (@fmap list _ _ _ key) with (map key).
      rewrite <- Hkeys. change (map key) with (@fmap list _ _ _ key).
      rewrite list_lookup_fmap, Hw. reflexivity. }
    assert (Hmm : (msg <$> rw_entries txn) !! wi = Some (Some m)).
    { change (@fmap list _ _ _ msg) with (map msg).
      rewrite <- Hmsgs. change (map msg) with (@fmap list _ _ _ msg).
      rewrite list_lookup_fmap, Hw. cbn. now rewrite Hm. }
    rewrite list_lookup_fmap in Hk. rewrite list_lookup_fmap in Hmm.
    destruct (rw_entries txn !! wi) as [w0|]; [|discriminate Hk].
    cbn in Hk, Hmm. injection Hk as Hk. injection Hmm as Hmm.
    rewrite Hmm. now rewrite (apply_message_tr_payload w0 w m Hk).
Qed.

(** X14: commit hands each buffered write to the key-value store exactly
    once.  When it returns 0, the inserts, updates and deletes of the store
    in its trace are, in this order, one per write entry in the sorted
    order of the write set: the operation of the class of the pending
    message, on the stored key, with the pending payload, answered with 0
    (none at all in the build that bypasses the store).  When it returns
    otherwise there is none.  Commit never looks a key up in the store. *)
Theorem commit_applies_each_write_once fuel txn tr rc :
  exec (transactional_splinterdb_commit fuel txn) tr (Done rc) ->
  Forall (fun o => kind_of o <> KKvsRead) tr
  /\ List.filter is_kvs_mutation tr
     = (if rc =? 0 then store_calls txn else []).
Proof.
  intros H. split.
  - eapply events_in_exec; [|exact H].
    apply fp_commit; try intros _; intros o Ho; congruence.
  - eapply commit_store_calls. exact H.
Qed.

End Commit.

(** ** The further properties at work *)

Section MoreWitnesses.
#[local] Existing Instance example_data_config.
#[local] Existing Instance example_build_config.

Ltac exec_by_run w :=
  match goal with
  | |- exec ?p ?tr ?o =>
      apply (run_exec world_handler p w o
               (snd (fst (run world_handler p w))) tr);
      vm_compute; reflexivity
  end.

Lemma abort_skips_apply_and_releases_locks_witness :
  exec (transactional_splinterdb_commit 2 demo_abort_txn) demo_abort_trace
    (Done (-1))
  /\ exists txn1 commit_ts is_abort t_lock t_raise t_val t_body t_deinit ps,
       commit_run 2 demo_abort_txn demo_abort_trace (-1) txn1 commit_ts
         is_abort t_lock t_raise t_val t_body t_deinit
       /\ Forall2 (slot_of txn1) (sorted_write_set demo_abort_txn) ps
       /\ no_wait_tr ps (without_installs t_lock)
       /\ omap freed_entry t_deinit = [0; 1]%nat
       /\ omap freed_msg t_deinit = ["v"]
       /\ omap removed_key t_deinit = slot_keys txn1
       /\ is_abort = true
       /\ Forall (fun o => is_kvs_mutation o = false) demo_abort_trace
       /\ (exists rel, t_body = concat rel /\ Forall2 release_tr ps rel)
       /\ Forall clears_lock_only t_body.
Proof.
  assert (H : exec (transactional_splinterdb_commit 2 demo_abort_txn)
                demo_abort_trace (Done (-1)))
    by exec_by_run demo_abort_world.
  split; [exact H|].
  destruct (abort_skips_apply_and_releases_locks 2 demo_abort_txn
              demo_abort_trace (-1) H)
    as (txn1 & cts & ab & t_lock & t_raise & t_val & t_body & t_deinit & ps
        & Hrun & Hps & Hnw & He & Hm & Hr & _ & Habort).
  destruct (Habort eq_refl) as (Hab & Hkvs & Hrel & Hclr).
  exists txn1, cts, ab, t_lock, t_raise, t_val, t_body, t_deinit, ps.
  auto 12.
Defined.

Lemma abort_releases_everything_witness :
  exec (transactional_splinterdb_abort demo_ops_txn) demo_ops_abort_trace
    (Done 0)
  /\ omap freed_entry demo_ops_abort_trace = [0; 1]%nat
  /\ omap removed_key demo_ops_abort_trace = ["abcd"; "wxyz"].
Proof.
  assert (H : exec (transactional_splinterdb_abort demo_ops_txn)
                demo_ops_abort_trace (Done 0))
    by exec_by_run demo_ops_world.
  split; [exact H|].
  destruct (abort_releases_everything demo_ops_txn demo_ops_abort_trace
              (Done 0) H) as (_ & _ & He & _ & Hr & _).
  split; [exact He|exact Hr].
Defined.

Lemma commit_frees_every_entry_once_witness :
  exec (transactional_splinterdb_commit 1 demo_ops_txn) demo_ops_commit_trace
    (Done 0)
  /\ omap freed_entry demo_ops_commit_trace = [0; 1]%nat
  /\ omap freed_msg demo_ops_commit_trace = ["1x"; ""].
Proof.
  assert (H : exec (transactional_splinterdb_commit 1 demo_ops_txn)
                demo_ops_commit_trace (Done 0))
    by exec_by_run demo_ops_world.
  split; [exact H|].
  exact (commit_frees_every_entry_once 1 demo_ops_txn demo_ops_commit_trace
           0 H).
Defined.

Lemma cache_references_are_given_back_witness :
  exec (run_ops 1 transactional_splinterdb_begin demo_ops) demo_ops_trace
    (Done demo_ops_txn)
  /\ exec (transactional_splinterdb_commit 1 demo_ops_txn)
       demo_ops_commit_trace (Done 0)
  /\ omap referenced_key (demo_ops_trace ++ demo_ops_commit_trace)
     ≡ₚ omap removed_key (demo_ops_trace ++ demo_ops_commit_trace).
Proof.
  assert (H1 : exec (run_ops 1 transactional_splinterdb_begin demo_ops)
                 demo_ops_trace (Done demo_ops_txn))
    by exec_by_run empty_world.
  assert (H2 : exec (transactional_splinterdb_commit 1 demo_ops_txn)
                 demo_ops_commit_trace (Done 0))
    by exec_by_run demo_ops_world.
  split; [exact H1|]. split; [exact H2|].
  exact (proj1 (cache_references_are_given_back 1 demo_ops demo_ops_trace
                  demo_ops_txn demo_ops_commit_trace 0 H1 (or_introl H2))).
Defined.

Lemma operations_never_retract_witness :
  exec (run_ops 1 transactional_splinterdb_begin demo_ops) demo_ops_trace
    (Done demo_ops_txn)
  /\ (num_rw_entries transactional_splinterdb_begin
      <= num_rw_entries demo_ops_txn
      <= num_rw_entries transactional_splinterdb_begin + length demo_ops)%nat.
Proof.
  assert (H1 : exec (run_ops 1 transactional_splinterdb_begin demo_ops)
                 demo_ops_trace (Done demo_ops_txn))
    by exec_by_run empty_world.
  split; [exact H1|].
  exact (proj1 (operations_never_retract 1 transactional_splinterdb_begin
                  demo_ops demo_ops_trace demo_ops_txn H1)).
Defined.

Lemma operations_buffer_their_effects_witness :
  exec (run_ops 1 transactional_splinterdb_begin demo_ops) demo_ops_trace
    (Done demo_ops_txn)
  /\ Forall (fun ev => kind_of ev <> KCas /\ kind_of ev <> KKvsWrite)
       demo_ops_trace.
Proof.
  assert (H1 : exec (run_ops 1 transactional_splinterdb_begin demo_ops)
                 demo_ops_trace (Done demo_ops_txn))
    by exec_by_run empty_world.
  split; [exact H1|].
  eapply Forall_impl;
    [exact (operations_buffer_their_effects 1 transactional_splinterdb_begin
              demo_ops demo_ops_trace (Done demo_ops_txn) H1)|].
  intros ev (Hc & Hw & _). auto.
Defined.

Lemma lookup_reads_the_store_witness :
  EXPERIMENTAL_MODE_BYPASS_SPLINTERDB = false
  /\ pending transactional_splinterdb_begin "abcd" = None
  /\ exec (transactional_splinterdb_lookup 1 transactional_splinterdb_begin
             "abcd" "")
       demo_lookup_trace (Done (0, demo_lookup_txn, ""))
  /\ exists e' v1 t0,
       rw_entries demo_lookup_txn
         !! entry_index transactional_splinterdb_begin "abcd" = Some e'
       /\ is_read e' = true /\ msg e' = None /\ tuple_ts e' <> NULL
       /\ demo_lookup_trace
          = t0 ++ [OLoad (tuple_ts e') v1; OKvsLookup "abcd" 0 "";
                   OLoad (tuple_ts e') v1]
       /\ ts_lock_bit v1 = false
       /\ wts e' = ts_wts v1
       /\ rts e' = (ts_wts v1 + ts_delta v1) mod 2 ^ 48.
Proof.
  assert (Hb : EXPERIMENTAL_MODE_BYPASS_SPLINTERDB = false) by reflexivity.
  assert (Hp : pending transactional_splinterdb_begin "abcd" = None)
    by reflexivity.
  assert (H : exec (transactional_splinterdb_lookup 1
                      transactional_splinterdb_begin "abcd" "")
                demo_lookup_trace (Done (0, demo_lookup_txn, "")))
    by exec_by_run empty_world.
  split; [exact Hb|]. split; [exact Hp|]. split; [exact H|].
  destruct (lookup_reads_the_store 1 transactional_splinterdb_begin "abcd" ""
              demo_lookup_trace 0 demo_lookup_txn "" Hb Hp H)
    as (e' & v1 & t0 & He & Hr & Hm & Hs & Htr & Hl & Hw & Hrt & _).
  exists e', v1, t0. auto 10.
Defined.

Lemma insert_is_local_witness :
  exec (transactional_splinterdb_insert transactional_splinterdb_begin
          "abcd" "v1") [] (Done (0, demo_own_txn))
  /\ exists e',
       rw_entries demo_own_txn
         !! entry_index transactional_splinterdb_begin "abcd" = Some e'
       /\ msg e' <> None.
Proof.
  assert (H : exec (transactional_splinterdb_insert
                      transactional_splinterdb_begin "abcd" "v1") []
                (Done (0, demo_own_txn)))
    by exec_by_run empty_world.
  split; [exact H|].
  destruct (insert_is_local transactional_splinterdb_begin "abcd" "v1" []
              0 demo_own_txn H) as (_ & _ & e' & He & Hm & _).
  exists e'. split; [exact He|exact Hm].
Defined.

Lemma update_and_delete_sample_the_slot_witness :
  (message_class (message_create MESSAGE_TYPE_UPDATE "x") = MESSAGE_TYPE_UPDATE
   \/ message_class (message_create MESSAGE_TYPE_UPDATE "x")
      = MESSAGE_TYPE_DELETE)
  /\ exec (local_write transactional_splinterdb_begin "abcd"
             (message_create MESSAGE_TYPE_UPDATE "x"))
       demo_update_trace (Done (0, demo_update_txn))
  /\ exists e' v,
       rw_entries demo_update_txn
         !! entry_index transactional_splinterdb_begin "abcd" = Some e'
       /\ tuple_ts e' <> NULL /\ wts e' = ts_wts v
       /\ rts e' = (ts_wts v + ts_delta v) mod 2 ^ 48
       /\ List.filter (fun o => bool_decide (kind_of o = KLoad))
            demo_update_trace
          = [OLoad (tuple_ts e') v].
Proof.
  assert (Hc : message_class (message_create MESSAGE_TYPE_UPDATE "x")
               = MESSAGE_TYPE_UPDATE
               \/ message_class (message_create MESSAGE_TYPE_UPDATE "x")
                  = MESSAGE_TYPE_DELETE) by (left; reflexivity).
  assert (H : exec (local_write transactional_splinterdb_begin "abcd"
                      (message_create MESSAGE_TYPE_UPDATE "x"))
                demo_update_trace (Done (0, demo_update_txn)))
    by exec_by_run empty_world.
  split; [exact Hc|]. split; [exact H|].
  destruct (update_and_delete_sample_the_slot transactional_splinterdb_begin
              "abcd" (message_create MESSAGE_TYPE_UPDATE "x")
              demo_update_trace 0 demo_update_txn Hc H)
    as (_ & e' & v & He & Hp & Hw & Hr & Hl & _).
  exists e', v. auto 10.
Defined.

Lemma commit_without_reads_cannot_abort_witness :
  Forall (fun e => is_read e = false) (rw_entries demo_own_txn)
  /\ exec (transactional_splinterdb_commit 1 demo_own_txn)
       demo_own_commit_trace (Done 0)
  /\ 0 = 0.
Proof.
  assert (Hnr : Forall (fun e => is_read e = false) (rw_entries demo_own_txn))
    by (repeat constructor).
  assert (H : exec (transactional_splinterdb_commit 1 demo_own_txn)
                demo_own_commit_trace (Done 0))
    by exec_by_run empty_world.
  split; [exact Hnr|]. split; [exact H|].
  exact (commit_without_reads_cannot_abort 1 demo_own_txn
           demo_own_commit_trace 0 Hnr H).
Defined.

Lemma read_only_commit_takes_no_lock_witness :
  Forall (fun e => msg e = None) (rw_entries demo_lookup_txn)
  /\ exec (transactional_splinterdb_commit 1 demo_lookup_txn)
       demo_lookup_commit_trace (Done 0)
  /\ exists is_abort t_val t_deinit,
       demo_lookup_commit_trace = t_val ++ t_deinit
       /\ 0 = - Z.b2z is_abort
       /\ exec (transaction_deinit demo_lookup_txn) t_deinit (Done tt).
Proof.
  assert (Hnw : Forall (fun e => msg e = None) (rw_entries demo_lookup_txn))
    by (repeat constructor).
  assert (H : exec (transactional_splinterdb_commit 1 demo_lookup_txn)
                demo_lookup_commit_trace (Done 0))
    by exec_by_run demo_lookup_world.
  split; [exact Hnw|]. split; [exact H|].
  destruct (read_only_commit_takes_no_lock 1 demo_lookup_txn
              demo_lookup_commit_trace 0 Hnw H)
    as (ab & t_val & t_deinit & Htr & Hrc & _ & Hd & _).
  exists ab, t_val, t_deinit. auto.
Defined.

Lemma commit_applies_each_write_once_witness :
  exec (transactional_splinterdb_commit 1 demo_ops_txn) demo_ops_commit_trace
    (Done 0)
  /\ List.filter is_kvs_mutation demo_ops_commit_trace
     = [OKvsInsert "abcd" "1x" 0; OKvsDelete "wxyz" 0].
Proof.
  assert (H : exec (transactional_splinterdb_commit 1 demo_ops_txn)
                demo_ops_commit_trace (Done 0))
    by exec_by_run demo_ops_world.
  split; [exact H|].
  exact (proj2 (commit_applies_each_write_once 1 demo_ops_txn
                  demo_ops_commit_trace 0 H)).
Defined.

End MoreWitnesses.

(** ** Reading back what was committed *)

Lemma world_interfere_kvs s : w_kvs (world_interfere s) = w_kvs s.
Proof. unfold world_interfere. destruct (w_others s) as [|[[p v]|] l]; reflexivity. Qed.

Lemma world_interfere_cache s :
  w_tscache (world_interfere s) = w_tscache s
  /\ w_next (world_interfere s) = w_next s.
Proof.
  unfold world_interfere. destruct (w_others s) as [|[[p v]|] l]; auto.
Qed.

(** The store of the world after an event is the store before it with the
    effect of the event. *)
Lemma world_handler_kvs X (e : event X) s :
  w_kvs (snd (world_handler X e s))
  = kvs_apply (w_kvs s) (obs_of e (fst (world_handler X e s))).
Proof.
  unfold world_handler.
  destruct e; cbn [obs_of kvs_apply fst snd];
    rewrite <- (world_interfere_kvs s); try reflexivity.
  - destruct (bool_decide _); reflexivity.
  - unfold world_iceberg_insert.
    destruct (w_tscache (world_interfere s) !! k) as [[p n]|]; reflexivity.
  - unfold world_iceberg_insert.
    destruct (w_tscache (world_interfere s) !! k) as [[p n]|]; reflexivity.
  - unfold world_iceberg_remove.
    destruct (w_tscache (world_interfere s) !! k) as [[p n]|];
      [destruct (n <=? 1)%nat|]; reflexivity.
  - destruct (w_kvs (world_interfere s) !! k); reflexivity.
Qed.

Lemma run_kvs {A} (p : prog A) s :
  w_kvs (snd (fst (run world_handler p s)))
  = foldl kvs_apply (w_kvs s) (snd (run world_handler p s)).
Proof.
  revert s. induction p as [a|X e k IH|c|]; intros s; try reflexivity.
  cbn [run]. pose proof (world_handler_kvs X e s) as Hk.
  destruct (world_handler X e s) as [x s1]. cbn [fst snd] in Hk.
  specialize (IH x s1).
  destruct (run world_handler (k x) s1) as [[o s2] tr].
  cbn [fst snd foldl] in *. now rewrite IH, Hk.
Qed.

Lemma world_handler_quiescent X (e : event X) s :
  quiescent s -> quiescent (snd (world_handler X e s)).
Proof.
  intros Hq. unfold world_handler. rewrite (world_interfere_quiescent s Hq).
  destruct e; cbn [snd]; try exact Hq.
  - destruct (bool_decide _); exact Hq.
  - unfold world_iceberg_insert.
    destruct (w_tscache s !! k) as [[p n]|]; exact Hq.
  - unfold world_iceberg_insert.
    destruct (w_tscache s !! k) as [[p n]|]; exact Hq.
  - unfold world_iceberg_remove.
    destruct (w_tscache s !! k) as [[p n]|];
      [destruct (n <=? 1)%nat|]; exact Hq.
  - destruct (w_kvs s !! k); exact Hq.
Qed.

Lemma run_quiescent {A} (p : prog A) s :
  quiescent s -> quiescent (snd (fst (run world_handler p s))).
Proof.
  revert s. induction p as [a|X e k IH|c|]; intros s Hq; try exact Hq.
  cbn [run]. pose proof (world_handler_quiescent X e s Hq) as H1.
  destruct (world_handler X e s) as [x s1]. cbn [snd] in H1.
  specialize (IH x s1 H1).
  destruct (run world_handler (k x) s1) as [[o s2] tr]. exact IH.
Qed.

Lemma aligned_slots_insert s k p n :
  aligned_slots s -> p <> NULL -> p mod 8 = 0 ->
  aligned_slots
    (Build_world (w_mem s) (<[k := (p, n)]> (w_tscache s)) (w_kvs s)
       (w_next s) (w_others s)).
Proof.
  intros (Hn0 & Hn8 & Hc) Hp0 Hp8. unfold aligned_slots. cbn [w_next w_tscache].
  split; [exact Hn0|]. split; [exact Hn8|].
  intros k' p' n' H. destruct (decide (k' = k)) as [->|Hne].
  - rewrite lookup_insert_eq in H. injection H as <- _. auto.
  - rewrite lookup_insert_ne in H by auto. eauto.
Qed.

Lemma world_handler_aligned X (e : event X) s :
  quiescent s -> aligned_slots s -> aligned_slots (snd (world_handler X e s)).
Proof.
  intros Hq Ha. unfold world_handler. rewrite (world_interfere_quiescent s Hq).
  assert (Hins : forall refc k,
             aligned_slots (snd (world_iceberg_insert refc k s))).
  { intros refc k. unfold world_iceberg_insert.
    destruct (w_tscache s !! k) as [[p n]|] eqn:Hk; cbn [snd].
    - destruct Ha as (Hn0 & Hn8 & Hc). destruct (Hc _ _ _ Hk) as [Hp0 Hp8].
      apply aligned_slots_insert;
        [exact (conj Hn0 (conj Hn8 Hc))|exact Hp0|exact Hp8].
    - destruct Ha as (Hn0 & Hn8 & Hc).
      unfold aligned_slots. cbn [w_next w_tscache].
      split; [lia|]. split.
      { rewrite Z.add_mod, Hn8 by lia. reflexivity. }
      intros k' p' n' H. destruct (decide (k' = k)) as [->|Hne].
      + rewrite lookup_insert_eq in H. injection H as <- _.
        unfold NULL. split; [lia|exact Hn8].
      + rewrite lookup_insert_ne in H by auto. eauto. }
  destruct e; cbn [snd]; try exact Ha; try apply Hins.
  - destruct (bool_decide _); exact Ha.
  - unfold world_iceberg_remove.
    destruct (w_tscache s !! k) as [[p n]|] eqn:Hk; [|exact Ha].
    destruct Ha as (Hn0 & Hn8 & Hc). destruct (Hc _ _ _ Hk) as [Hp0 Hp8].
    destruct (n <=? 1)%nat; cbn [snd].
    + unfold aligned_slots. cbn [w_next w_tscache].
      split; [exact Hn0|]. split; [exact Hn8|].
      intros k' p' n' H. apply lookup_delete_Some in H as [_ H]. eauto.
    + apply aligned_slots_insert;
        [exact (conj Hn0 (conj Hn8 Hc))|exact Hp0|exact Hp8].
  - destruct (w_kvs s !! k); exact Ha.
Qed.

Lemma run_aligned {A} (p : prog A) s :
  quiescent s -> aligned_slots s ->
  aligned_slots (snd (fst (run world_handler p s))).
Proof.
  revert s. induction p as [a|X e k IH|c|]; intros s Hq Ha; try exact Ha.
  cbn [run]. pose proof (world_handler_quiescent X e s Hq) as H1.
  pose proof (world_handler_aligned X e s Hq Ha) as H2.
  destruct (world_handler X e s) as [x s1]. cbn [snd] in H1, H2.
  specialize (IH x s1 H1 H2).
  destruct (run world_handler (k x) s1) as [[o s2] tr]. exact IH.
Qed.

Lemma foldl_kvs_filter m tr :
  foldl kvs_apply m tr = foldl kvs_apply m (List.filter is_kvs_mutation tr).
Proof.
  revert m. induction tr as [|o tr IH]; intros m; [reflexivity|].
  cbn [foldl List.filter]. destruct o; cbn [is_kvs_mutation kvs_apply foldl];
    apply IH.
Qed.

(** Calls on other keys leave the value of a key as it is. *)
Lemma foldl_kvs_other_keys m calls k :
  Forall (fun o => kvs_mutation_key o <> Some k) calls ->
  foldl kvs_apply m calls !! k = m !! k.
Proof.
  intros H. revert m. induction H as [|o calls Ho _ IH]; intros m;
    [reflexivity|].
  cbn [foldl]. rewrite IH.
  destruct o; cbn [kvs_apply kvs_mutation_key] in *; try reflexivity.
  - apply lookup_insert_ne. congruence.
  - apply lookup_insert_ne. congruence.
  - apply lookup_delete_ne. congruence.
Qed.

Lemma foldl_kvs_not_kvs m tr :
  Forall not_kvs tr -> foldl kvs_apply m tr = m.
Proof.
  induction 1 as [|o tr [Ho _] _ IH]; [reflexivity|].
  cbn [foldl]. destruct o; cbn in Ho; try discriminate Ho; exact IH.
Qed.

Lemma indices_where_elem {A} (f : A -> bool) (l : list A) i j x :
  l !! j = Some x -> f x = true -> (i + j)%nat ∈ indices_where f l i.
Proof.
  revert i j. induction l as [|y l IH]; intros i j Hj Hx; [discriminate Hj|].
  cbn [indices_where]. destruct j as [|j].
  - injection Hj as ->. rewrite Hx, Nat.add_0_r. apply list_elem_of_here.
  - replace (i + S j)%nat with (S i + j)%nat by lia.
    specialize (IH (S i) j Hj Hx).
    destruct (f y); [apply list_elem_of_further|]; exact IH.
Qed.

Section ReadBack.
Context {dcfg : data_config} {bcfg : build_config}.

Lemma lookup_loop_quiescent_store fuel s e k rc res :
  EXPERIMENTAL_MODE_BYPASS_SPLINTERDB = false -> msg e = None ->
  quiescent s -> tuple_ts e <> NULL ->
  ts_lock_bit (world_load s (tuple_ts e)) = false ->
  exists tr,
    run world_handler (lookup_loop (S fuel) e k rc res) s
    = (Done (0, default "" (w_kvs s !! k), world_load s (tuple_ts e)), s, tr).
Proof.
  intros Hb Hm Hq Hp Hl. cbn [lookup_loop]. rewrite Hb, Hm.
  rewrite run_bind, (run_load_tuple_ts s e Hq Hp).
  assert (Hmid : run world_handler (trigger (KvsLookup k res)) s
                 = (Done (0, default "" (w_kvs s !! k)), s,
                    [OKvsLookup k 0 (default "" (w_kvs s !! k))])).
  { simpl. unfold world_handler. rewrite (world_interfere_quiescent s Hq).
    destruct (w_kvs s !! k); reflexivity. }
  rewrite run_bind, Hmid, run_bind, (run_load_tuple_ts s e Hq Hp).
  unfold timestamp_set_is_equal.
  rewrite bool_decide_eq_true_2 by reflexivity. rewrite Hl. cbn [negb orb run].
  eexists. reflexivity.
Qed.

(** A first lookup of a key in a world without contention returns what
    the store holds for the key. *)
Lemma lookup_quiescent_store fuel s u res :
  EXPERIMENTAL_MODE_BYPASS_SPLINTERDB = false ->
  quiescent s -> unlocked s -> aligned_slots s ->
  (slice_length u <= KEY_SIZE)%nat -> (0 < RW_SET_SIZE_LIMIT)%nat ->
  exists txn' s' tr,
    run world_handler
      (transactional_splinterdb_lookup (S fuel) transactional_splinterdb_begin
         u res) s
    = (Done (0, txn', default "" (w_kvs s !! u)), s', tr).
Proof.
  intros Hb Hq Hu Ha Hlen Hlim. unfold transactional_splinterdb_lookup.
  set (e1 := with_is_read (with_key rw_entry_create (zero_padded u)) true).
  assert (Hget : rw_entry_get transactional_splinterdb_begin u true
                 = Ret (0%nat, Build_transaction [e1])).
  { rewrite rw_entry_get_new by reflexivity.
    destruct (Nat.ltb_spec KEY_SIZE (slice_length u)); [lia|].
    change (num_rw_entries transactional_splinterdb_begin) with 0%nat.
    destruct (Nat.leb_spec RW_SET_SIZE_LIMIT 0); [lia|]. reflexivity. }
  rewrite Hget. cbn [bind fst snd]. unfold entry_at.
  change (rw_entries (Build_transaction [e1]) !! 0%nat) with (Some e1).
  cbn [bind].
  destruct (rw_entry_iceberg_insert_quiescent s e1 Hq Hu Ha)
    as (is_new & e2 & s1 & t1 & Hrun & Hq1 & Hu1 & _ & Hp).
  assert (Hm2 : msg e2 = None).
  { apply run_exec in Hrun as Hex.
    apply exec_rw_entry_iceberg_insert in Hex as (_ & _ & _ & _ & Hm & _).
    exact Hm. }
  assert (Hk1 : w_kvs s1 = w_kvs s).
  { pose proof (run_kvs (rw_entry_iceberg_insert e1) s) as Hk.
    apply run_exec in Hrun as Hex.
    apply exec_rw_entry_iceberg_insert in Hex as (_ & Hnk & _).
    rewrite Hrun in Hk. cbn [fst snd] in Hk.
    rewrite Hk. now apply foldl_kvs_not_kvs. }
  rewrite run_bind, Hrun. cbn [snd]. rewrite run_bind.
  destruct (lookup_loop_quiescent_store fuel s1 e2 u 0 res Hb Hm2 Hq1 Hp (Hu1 _))
    as (t2 & ->).
  cbn [run fst snd]. rewrite Hk1. eauto.
Qed.

(** The calls of a commit leave, for the key of a buffered insert, the
    value of the insert in the store, when no other write entry stores the
    key. *)
Lemma store_calls_read_back txn m0 i w m :
  EXPERIMENTAL_MODE_BYPASS_SPLINTERDB = false ->
  distinct_write_keys txn ->
  rw_entries txn !! i = Some w -> msg w = Some m ->
  message_class m = MESSAGE_TYPE_INSERT ->
  foldl kvs_apply m0 (store_calls txn) !! key w = Some (message_slice m).
Proof.
  intros Hb Hnd Hw Hm Hc.
  pose proof (indices_where_keys rw_entry_is_write (rw_entries txn) 0) as H0.
  destruct (Permutation_Forall2
              (Permutation_sym (sorted_write_set_perm txn)) H0)
    as (ks & Hperm & Hf).
  assert (Hndks : NoDup ks) by (rewrite <- Hperm; exact Hnd).
  assert (Hin : i ∈ sorted_write_set txn).
  { rewrite (sorted_write_set_perm txn).
    apply (indices_where_elem rw_entry_is_write (rw_entries txn) 0 i w Hw).
    unfold rw_entry_is_write. rewrite Hm. reflexivity. }
  apply list_elem_of_split in Hin as (l1 & l2 & Hl).
  unfold store_calls. rewrite Hl in Hf |- *.
  apply Forall2_app_inv_l in Hf as (k1 & k2' & _ & Hf2 & ->).
  apply Forall2_cons_inv_l in Hf2 as (k & k2 & (w' & Hw' & Hk & _) & Hf2 & ->).
  rewrite Nat.sub_0_r, Hw in Hw'. injection Hw' as <-.
  apply NoDup_app in Hndks as (_ & _ & Hndks).
  apply NoDup_cons in Hndks as [Hnotin _].
  rewrite map_app, concat_app, foldl_app. cbn [map concat].
  rewrite foldl_app, Hw, Hm. unfold apply_message_tr. rewrite Hb, Hc.
  cbn [List.filter is_kvs_mutation foldl kvs_apply].
  rewrite foldl_kvs_other_keys; [apply lookup_insert_eq|].
  apply Forall_concat, Forall_map.
  clear Hl Hperm. revert k2 Hf2 Hnotin.
  induction l2 as [|wi l2 IH]; intros k2 Hf2 Hnotin; [constructor|].
  apply Forall2_cons_inv_l in Hf2 as (k' & k2' & (w' & Hw' & Hk' & _) & Hf2 & ->).
  rewrite Nat.sub_0_r in Hw'.
  constructor.
  - rewrite Hw'. destruct (msg w') as [m'|]; [|constructor].
    assert (Hne : key w' <> key w).
    { intros E. apply Hnotin. rewrite <- Hk, <- E, Hk'. apply list_elem_of_here. }
    destruct (message_class m'); cbn [List.filter is_kvs_mutation];
      repeat constructor; cbn [kvs_mutation_key]; congruence.
  - apply (IH k2'); [exact Hf2|].
    intros Hin. apply Hnotin. now apply list_elem_of_further.
Qed.

(** X17. A committed insert is read back: when the commit of a
    transaction, in a world without contention, returns 0, a first lookup
    by a new transaction of the stored key of one of its buffered inserts
    returns 0 and the value of that insert, provided no other write entry
    of the committed transaction stores the same key and the store is not
    bypassed.  The key looked up is the key as the entry stores it, padded
    to [KEY_SIZE] bytes. *)
Theorem committed_insert_is_read_back fuel fuel' s txn s' tr i w m res :
  EXPERIMENTAL_MODE_BYPASS_SPLINTERDB = false ->
  (0 < RW_SET_SIZE_LIMIT)%nat ->
  commit_world s txn -> unlocked s ->
  distinct_write_keys txn ->
  (forall j e, rw_entries txn !! j = Some e -> rw_entry_is_read e = true ->
               tuple_ts e <> NULL) ->
  rw_entries txn !! i = Some w -> msg w = Some m ->
  message_class m = MESSAGE_TYPE_INSERT ->
  (slice_length (key w) <= KEY_SIZE)%nat ->
  run world_handler (transactional_splinterdb_commit (S fuel) txn) s
  = (Done 0, s', tr) ->
  exists txn' s'' tr',
    run world_handler
      (transactional_splinterdb_lookup (S fuel')
         transactional_splinterdb_begin (key w) res) s'
    = (Done (0, txn', message_data m), s'', tr').
Proof.
  intros Hb Hlim Hcw Hu Hnd Hreads Hw Hm Hc Hlen Hrun.
  destruct (commit_quiescent fuel s txn Hcw Hu Hnd Hreads)
    as (rc & s1 & tr1 & Hrun1 & _ & Hu1 & Hq1).
  rewrite Hrun in Hrun1. injection Hrun1 as <- <- <-.
  assert (Ha1 : aligned_slots s').
  { pose proof (run_aligned (transactional_splinterdb_commit (S fuel) txn) s
                  (cw_quiescent _ _ Hcw) (cw_aligned _ _ Hcw)) as Ha.
    now rewrite Hrun in Ha. }
  assert (Hk : w_kvs s' !! key w = Some (message_slice m)).
  { pose proof (run_kvs (transactional_splinterdb_commit (S fuel) txn) s) as Hk.
    rewrite Hrun in Hk. cbn [fst snd] in Hk.
    rewrite Hk, foldl_kvs_filter.
    rewrite (commit_store_calls (S fuel) txn tr 0
               (run_exec _ _ _ _ _ _ Hrun)).
    now apply store_calls_read_back with i. }
  destruct (lookup_quiescent_store fuel' s' (key w) res Hb Hq1 Hu1 Ha1 Hlen Hlim)
    as (txn' & s'' & tr' & Hl).
  exists txn', s'', tr'.
  replace (message_data m) with (default "" (w_kvs s' !! key w));
    [exact Hl|].
  unfold slice in *. rewrite Hk. reflexivity.
Qed.

End ReadBack.

Section ReadBackExample.
#[local] Existing Instance example_data_config.
#[local] Existing Instance example_build_config.

(** The insert of [demo_own_txn], committed into the empty world, is read
    back. *)
Lemma committed_insert_is_read_back_witness :
  exists txn' s'' tr',
    run world_handler
      (transactional_splinterdb_lookup 1 transactional_splinterdb_begin
         "abcd" "")
      (snd (fst (run world_handler
                   (transactional_splinterdb_commit 1 demo_own_txn)
                   empty_world)))
    = (Done (0, txn', "v1"), s'', tr').
Proof.
  apply (committed_insert_is_read_back 0 0 empty_world demo_own_txn _
           demo_own_commit_trace 0%nat
           (example_write "abcd" (message_create MESSAGE_TYPE_INSERT "v1") NULL)
           (message_create MESSAGE_TYPE_INSERT "v1") "").
  - reflexivity.
  - cbn. lia.
  - exact empty_world_commit_world.
  - exact empty_world_unlocked.
  - unfold distinct_write_keys. cbn. apply NoDup_singleton.
  - intros [|[|j]] e He Hr; cbn in He; [|discriminate He..].
    injection He as <-. discriminate Hr.
  - reflexivity.
  - reflexivity.
  - reflexivity.
  - cbn. lia.
  - vm_compute. reflexivity.
Defined.

End ReadBackExample.
